(** * FreeQwenApi, [src/api/chat.js]: a shallow embedding and its properties

    The file embeds the request pipeline of [src/src/api/chat.js]:
    the page pool, the task poller, the request executor (stream
    aggregation and task creation), the failure classifier with its bounded
    self-retry, and [sendMessage] itself.

    Modelling conventions.
    - JavaScript values that come from JSON are the inductive [JSValue];
      a number is an IEEE 754 double, [Double], with the conversions of
      the language: [Number_] reads a text as [Number] does and
      [Double_to_string] prints a number as [String] does.
    - JavaScript strings are [string], held in UTF-8; [trim] strips the
      white space [String.prototype.trim] strips, the characters outside
      ASCII included.
    - Everything outside [chat.js] (the browser, the page, the token
      manager, the upstream service, the file system) is an external call
      of type [ExtCall R], answered by the handler of a [Platform]; every
      call and its answer is appended to the world's trace.
    - Exceptions, [process.exit] and state are explicit: a computation is a
      function from the state to an [Outcome] and a new state.
    - Logging is not modelled, apart from the one log line whose text can
      throw for an argument of the caller (line 330).
    - An object is converted to text as a plain object is; that a
      property named [toString] makes the conversion throw is modelled
      where the program converts a value of an answer to a number
      ([Number_]). *)

From Stdlib Require Import List String Ascii ZArith Lia Bool Arith DecimalString
  Permutation.
Import ListNotations.
Open Scope string_scope.
Open Scope list_scope.

Set Implicit Arguments.
Set Warnings "-register-all".

(** String concatenation, [a + b] on JavaScript strings. *)
Infix "+++" := String.append (right associativity, at level 60).


(* ------------------------------------------------------------------ *)
(** ** JavaScript strings *)

Definition newline : ascii := ascii_of_nat 10.
Definition dquote : ascii := ascii_of_nat 34.

Definition bytes (l : list nat) : string :=
  string_of_list_ascii (map ascii_of_nat l).

(** The white space of [String.prototype.trim] and of [Number]: the
    WhiteSpace and LineTerminator characters of the language, each in
    UTF-8. *)
Definition white_space : list string :=
  map bytes
    [[9]; [10]; [11]; [12]; [13]; [32];
     [194; 160];
     [225; 154; 128];
     [226; 128; 128]; [226; 128; 129]; [226; 128; 130]; [226; 128; 131];
     [226; 128; 132]; [226; 128; 133]; [226; 128; 134]; [226; 128; 135];
     [226; 128; 136]; [226; 128; 137]; [226; 128; 138];
     [226; 128; 168]; [226; 128; 169];
     [226; 128; 175];
     [226; 129; 159];
     [227; 128; 128];
     [239; 187; 191]].

Definition is_white_space (p : string) : bool :=
  existsb (String.eqb p) white_space.

(** What follows the white-space character at the head of [s], if there
    is one; such a character is one, two or three bytes long. *)
Definition after_white_space (s : string) : option string :=
  match s with
  | EmptyString => None
  | String a r =>
      if is_white_space (String a "") then Some r
      else
        match r with
        | EmptyString => None
        | String b r2 =>
            if is_white_space (String a (String b "")) then Some r2
            else
              match r2 with
              | EmptyString => None
              | String c r3 =>
                  if is_white_space (String a (String b (String c "")))
                  then Some r3
                  else None
              end
        end
  end.

Fixpoint trimStart (s : string) : string :=
  match s with
  | EmptyString => EmptyString
  | String a r =>
      if is_white_space (String a "") then trimStart r
      else
        match r with
        | EmptyString => s
        | String b r2 =>
            if is_white_space (String a (String b "")) then trimStart r2
            else
              match r2 with
              | EmptyString => s
              | String c r3 =>
                  if is_white_space (String a (String b (String c "")))
                  then trimStart r3
                  else s
              end
        end
  end.

(** [s] is white space from end to end. *)
Fixpoint only_white_space (s : string) : bool :=
  match s with
  | EmptyString => true
  | String a r =>
      if is_white_space (String a "") then only_white_space r
      else
        match r with
        | EmptyString => false
        | String b r2 =>
            if is_white_space (String a (String b "")) then only_white_space r2
            else
              match r2 with
              | EmptyString => false
              | String c r3 =>
                  if is_white_space (String a (String b (String c "")))
                  then only_white_space r3
                  else false
              end
        end
  end.

Fixpoint trimEnd (s : string) : string :=
  match s with
  | EmptyString => EmptyString
  | String c r =>
      if only_white_space s then EmptyString else String c (trimEnd r)
  end.

Definition trim (s : string) : string := trimEnd (trimStart s).

(** [s.startsWith(p)] *)
Definition startsWith (s p : string) : bool := String.prefix p s.

(** [s.substring(n)] *)
Fixpoint substring_from (n : nat) (s : string) : string :=
  match n, s with
  | O, _ => s
  | S _, EmptyString => EmptyString
  | S m, String _ r => substring_from m r
  end.

(** [s.includes(needle)] *)
Fixpoint includes (s needle : string) : bool :=
  String.prefix needle s ||
  match s with
  | EmptyString => false
  | String _ r => includes r needle
  end.

(** [s.split('\n')]: never empty; the last piece is what follows the last
    line feed. *)
Fixpoint split_lines (s : string) : list string :=
  match s with
  | EmptyString => [EmptyString]
  | String c r =>
      if Ascii.eqb c newline then EmptyString :: split_lines r
      else match split_lines r with
           | [] => [String c EmptyString]
           | l :: ls => String c l :: ls
           end
  end.

(** A string is truthy when it is not empty. *)
Definition nonempty (s : string) : bool :=
  match s with EmptyString => false | _ => true end.

Definition Z_to_string (n : Z) : string := NilZero.string_of_int (Z.to_int n).

Fixpoint join (sep : string) (l : list string) : string :=
  match l with
  | [] => EmptyString
  | [x] => x
  | x :: r => x +++ sep +++ join sep r
  end.

(* ------------------------------------------------------------------ *)
(** ** JavaScript numbers *)

(** An IEEE 754 binary64 value: [Finite s m e] is [m * 2 ^ e], negated
    when [s] holds, with [2 ^ 52 <= m < 2 ^ 53] and [-1074 <= e <= 971],
    or [m < 2 ^ 52] and [e = -1074]. *)
Inductive Double : Type :=
| NaN
| Infinity (negative : bool)
| Zero (negative : bool)
| Finite (negative : bool) (mantissa : positive) (exponent : Z).

Definition same_double (x y : Double) : bool :=
  match x, y with
  | NaN, NaN => true
  | Infinity a, Infinity b => Bool.eqb a b
  | Zero a, Zero b => Bool.eqb a b
  | Finite a m e, Finite b n f => Bool.eqb a b && Pos.eqb m n && Z.eqb e f
  | _, _ => false
  end.

(** A number is truthy unless it is zero or NaN. *)
Definition number_truthy (x : Double) : bool :=
  match x with
  | NaN | Zero _ => false
  | _ => true
  end.

(** [n / d] in units of [2 ^ e], as a fraction. *)
Definition scaled (n d e : Z) : Z * Z :=
  if (0 <=? e)%Z then (n, d * 2 ^ e)%Z else (n * 2 ^ (- e), d)%Z.

(** The double nearest to [n / d] for [0 <= n] and [0 < d], ties going to
    the even mantissa; [Infinity] from [2 ^ 1024] on. *)
Definition round_ratio (negative : bool) (n d : Z) : Double :=
  if (n <=? 0)%Z then Zero negative
  else
    let e0 := (Z.log2 n - Z.log2 d - 53)%Z in
    let e1 := let (a, b) := scaled n d e0 in
              if (2 ^ 53 <=? a / b)%Z then (e0 + 1)%Z else e0 in
    let e := Z.max e1 (-1074) in
    let (a, b) := scaled n d e in
    let q := (a / b)%Z in
    let r := (a mod b)%Z in
    let q' := if (2 * r <? b)%Z then q
              else if (b <? 2 * r)%Z then (q + 1)%Z
              else if Z.even q then q else (q + 1)%Z in
    let (m, e') := if (q' =? 2 ^ 53)%Z then (2 ^ 52, e + 1)%Z else (q', e) in
    match m with
    | Zpos p => if (971 <? e')%Z then Infinity negative else Finite negative p e'
    | _ => Zero negative
    end.

Definition Double_of_Z (z : Z) : Double :=
  round_ratio (z <? 0)%Z (Z.abs z) 1.

(** The double nearest to [m * 10 ^ e] for [0 <= m < 10 ^ digits]. Beyond
    [10 ^ 400] and below [10 ^ (-400)] the answer is known without the
    division. *)
Definition round_decimal (negative : bool) (m digits e : Z) : Double :=
  if (m =? 0)%Z then Zero negative
  else if (400 <? e)%Z then Infinity negative
  else if (digits + e <? -400)%Z then Zero negative
  else if (0 <=? e)%Z then round_ratio negative (m * 10 ^ e) 1
  else round_ratio negative m (10 ^ (- e)).

(** *** [Number::toString] *)

(** [10 ^ n <= a / b] *)
Definition pow10_le (n a b : Z) : bool :=
  if (0 <=? n)%Z then (10 ^ n * b <=? a)%Z else (b <=? a * 10 ^ (- n))%Z.

(** The [n] with [10 ^ (n - 1) <= a / b < 10 ^ n], searched upwards. *)
Fixpoint magnitude (fuel : nat) (n a b : Z) : Z :=
  match fuel with
  | O => n
  | S f => if pow10_le n a b then magnitude f (n + 1)%Z a b else n
  end.

(** [a / b] in units of [10 ^ p], as a fraction. *)
Definition in_units (a b p : Z) : Z * Z :=
  if (0 <=? p)%Z then (a, b * 10 ^ p)%Z else (a * 10 ^ (- p), b)%Z.

(** The decimal of [k] digits that reads back as the double [m * 2 ^ e]
    (which is [a / b], of magnitude [n0]), if there is one, the nearest
    if there are two: its digits, as a number, and its magnitude. *)
Definition shortest_at (m : positive) (e : Z) (a b n0 k : Z)
  : option (Z * Z) :=
  let p := (n0 - k)%Z in
  let (u, v) := in_units a b p in
  let lo := (u / v)%Z in
  let hi := (lo + 1)%Z in
  let r := (u mod v)%Z in
  let ok s := same_double (round_decimal false s k p) (Finite false m e) in
  let pick s := Some (s, if (s =? 10 ^ k)%Z then (n0 + 1)%Z else n0) in
  match ok lo, ok hi with
  | true, true =>
      if (2 * r <? v)%Z then pick lo
      else if (v <? 2 * r)%Z then pick hi
      else if Z.even lo then pick lo else pick hi
  | true, false => pick lo
  | false, true => pick hi
  | false, false => None
  end.

(** The shortest such decimal: [k] goes from 1 to 17. *)
Fixpoint shortest (fuel : nat) (m : positive) (e : Z) (a b n0 k : Z)
  : Z * Z :=
  match fuel with
  | O => (0, 0)%Z
  | S f =>
      match shortest_at m e a b n0 k with
      | Some r => r
      | None => shortest f m e a b n0 (k + 1)%Z
      end
  end.

Fixpoint strip_zeros (fuel : nat) (s : Z) : Z :=
  match fuel with
  | O => s
  | S f =>
      if ((s mod 10 =? 0) && negb (s =? 0))%Z then strip_zeros f (s / 10)%Z
      else s
  end.

Fixpoint zeros (n : nat) : string :=
  match n with
  | O => ""
  | S k => "0" +++ zeros k
  end.

(** [s.substring(0, n)] *)
Fixpoint substring_to (n : nat) (s : string) : string :=
  match n, s with
  | S k, String c r => String c (substring_to k r)
  | _, _ => ""
  end.

(** [Number::toString] of the positive double [m * 2 ^ e]: the digits of
    the shortest decimal that reads back as the same double, laid out
    with or without an exponent according to the magnitude [n]. *)
Definition positive_to_string (m : positive) (e : Z) : string :=
  let (a, b) := scaled (Zpos m) 1 (- e) in
  let n0 := magnitude 10
              ((Z.log2 a - Z.log2 b) * 30103 / 100000 - 3)%Z a b in
  let (s, n) := shortest 17 m e a b n0 1 in
  let digits := Z_to_string (strip_zeros 20 s) in
  let k := Z.of_nat (String.length digits) in
  if ((k <=? n) && (n <=? 21))%Z then digits +++ zeros (Z.to_nat (n - k))
  else if ((0 <? n) && (n <=? 21))%Z
  then substring_to (Z.to_nat n) digits +++ "."
       +++ substring_from (Z.to_nat n) digits
  else if ((-6 <? n) && (n <=? 0))%Z
  then "0." +++ zeros (Z.to_nat (- n)) +++ digits
  else
    let sign := if (n - 1 <? 0)%Z then "-" else "+" in
    let mantissa := if (k =? 1)%Z then digits
                    else substring_to 1 digits +++ "."
                         +++ substring_from 1 digits in
    mantissa +++ "e" +++ sign +++ Z_to_string (Z.abs (n - 1)).

Definition Double_to_string (x : Double) : string :=
  match x with
  | NaN => "NaN"
  | Infinity false => "Infinity"
  | Infinity true => "-Infinity"
  | Zero _ => "0"
  | Finite false m e => positive_to_string m e
  | Finite true m e => "-" +++ positive_to_string m e
  end.

(** *** [StringToNumber] *)

Definition digit_in (base : Z) (c : ascii) : option Z :=
  let n := Z.of_nat (nat_of_ascii c) in
  let d := if ((48 <=? n) && (n <=? 57))%Z then (n - 48)%Z
           else if ((97 <=? n) && (n <=? 102))%Z then (n - 87)%Z
           else if ((65 <=? n) && (n <=? 70))%Z then (n - 55)%Z
           else base in
  if (d <? base)%Z then Some d else None.

(** The number a run of digits spells after [acc], how many they are
    after [count], and what follows them. *)
Fixpoint read_digits (base acc count : Z) (s : string) : Z * Z * string :=
  match s with
  | String c r =>
      match digit_in base c with
      | Some d => read_digits base (base * acc + d)%Z (count + 1)%Z r
      | None => (acc, count, s)
      end
  | EmptyString => (acc, count, s)
  end.

(** A literal in base 2, 8 or 16, after its prefix. *)
Definition radix_literal (base : Z) (s : string) : Double :=
  match read_digits base 0 0 s with
  | (n, count, EmptyString) =>
      if (count =? 0)%Z then NaN else round_ratio false n 1
  | _ => NaN
  end.

(** [ExponentPart], if [s] starts with one: its value and what follows. *)
Definition read_exponent (s : string) : option (Z * string) :=
  match s with
  | String c r =>
      if Ascii.eqb c "e" || Ascii.eqb c "E" then
        let (negative, r') :=
          match r with
          | String d r2 =>
              if Ascii.eqb d "-" then (true, r2)
              else if Ascii.eqb d "+" then (false, r2)
              else (false, r)
          | EmptyString => (false, r)
          end in
        match read_digits 10 0 0 r' with
        | (n, count, rest) =>
            if (count =? 0)%Z then None
            else Some (if negative then (- n)%Z else n, rest)
        end
      else None
  | EmptyString => None
  end.

(** [StrUnsignedDecimalLiteral]: [Infinity], or digits with an optional
    point and an optional exponent, at least one digit before the
    exponent. *)
Definition unsigned_decimal (negative : bool) (s : string) : Double :=
  if String.eqb s "Infinity" then Infinity negative
  else
    match read_digits 10 0 0 s with
    | (int, ni, rest) =>
        let '(m, nf, rest1) :=
          match rest with
          | String c r =>
              if Ascii.eqb c "." then read_digits 10 int 0 r
              else (int, 0%Z, rest)
          | EmptyString => (int, 0%Z, rest)
          end in
        if (ni + nf =? 0)%Z then NaN
        else
          match rest1 with
          | EmptyString => round_decimal negative m (ni + nf) (- nf)
          | _ =>
              match read_exponent rest1 with
              | Some (ex, EmptyString) =>
                  round_decimal negative m (ni + nf) (ex - nf)
              | _ => NaN
              end
          end
    end.

(** [StrNumericLiteral]; the empty text is zero. *)
Definition numeric_literal (s : string) : Double :=
  match s with
  | EmptyString => Zero false
  | String c r =>
      if Ascii.eqb c "-" then unsigned_decimal true r
      else if Ascii.eqb c "+" then unsigned_decimal false r
      else if String.prefix "0x" s || String.prefix "0X" s
      then radix_literal 16 (substring_from 2 s)
      else if String.prefix "0o" s || String.prefix "0O" s
      then radix_literal 8 (substring_from 2 s)
      else if String.prefix "0b" s || String.prefix "0B" s
      then radix_literal 2 (substring_from 2 s)
      else unsigned_decimal false s
  end.

(** [Number(text)]: the literal between the white space, or NaN. *)
Definition string_to_number (s : string) : Double :=
  numeric_literal (trim s).

(* ------------------------------------------------------------------ *)
(** ** JavaScript values *)

Inductive JSValue : Type :=
| JUndefined
| JNull
| JBool (b : bool)
| JNum (x : Double)
| JStr (s : string)
| JArr (items : list JSValue)
| JObj (fields : list (string * JSValue)).

(** An exception is carried by the text [error.toString()] gives. *)
Definition Exn : Type := string.

Inductive Throwing (A : Type) : Type :=
| Ok (a : A)
| Throw (e : Exn).
Arguments Ok {A} a.
Arguments Throw {A} e.

Definition truthy (v : JSValue) : bool :=
  match v with
  | JUndefined | JNull => false
  | JBool b => b
  | JNum x => number_truthy x
  | JStr s => nonempty s
  | JArr _ | JObj _ => true
  end.

Definition nullish (v : JSValue) : bool :=
  match v with
  | JUndefined | JNull => true
  | _ => false
  end.

(** [a || b] *)
Definition js_or (a b : JSValue) : JSValue := if truthy a then a else b.

Fixpoint lookup (k : string) (fields : list (string * JSValue)) : JSValue :=
  match fields with
  | [] => JUndefined
  | (k', v) :: r => if String.eqb k k' then v else lookup k r
  end.

Definition type_error (what key : string) : Exn :=
  "TypeError: Cannot read properties of " +++ what +++ " (reading '" +++ key +++ "')".

(** [v.key] for the property names the program reads (none of them is
    [length] or a method name, so it is [undefined] on arrays, strings,
    numbers and booleans). *)
Definition prop (v : JSValue) (key : string) : Throwing JSValue :=
  match v with
  | JUndefined => Throw (type_error "undefined" key)
  | JNull => Throw (type_error "null" key)
  | JObj fields => Ok (lookup key fields)
  | _ => Ok JUndefined
  end.

Definition char_at (s : string) (i : nat) : JSValue :=
  match String.get i s with
  | Some c => JStr (String c EmptyString)
  | None => JUndefined
  end.

(** [v[i]] for a numeric index. *)
Definition index (v : JSValue) (i : nat) : Throwing JSValue :=
  match v with
  | JUndefined => Throw (type_error "undefined" (Z_to_string (Z.of_nat i)))
  | JNull => Throw (type_error "null" (Z_to_string (Z.of_nat i)))
  | JArr items => Ok (nth i items JUndefined)
  | JStr s => Ok (char_at s i)
  | JObj fields => Ok (lookup (Z_to_string (Z.of_nat i)) fields)
  | _ => Ok JUndefined
  end.

(** [v?.key] and [v?.[i]] *)
Definition opt_prop (v : JSValue) (key : string) : JSValue :=
  match prop v key with Ok x => x | Throw _ => JUndefined end.

Definition opt_index (v : JSValue) (i : nat) : JSValue :=
  match index v i with Ok x => x | Throw _ => JUndefined end.

(** [v === 'text'] *)
Definition is_str (v : JSValue) (text : string) : bool :=
  match v with
  | JStr s => String.eqb s text
  | _ => false
  end.

(** [String(v)], as string concatenation and template literals apply it.
    Inside an array, [null] and [undefined] print as nothing. *)
Fixpoint to_string (v : JSValue) : string :=
  match v with
  | JUndefined => "undefined"
  | JNull => "null"
  | JBool true => "true"
  | JBool false => "false"
  | JNum x => Double_to_string x
  | JStr s => s
  | JArr items =>
      join "," ((fix each (l : list JSValue) : list string :=
                   match l with
                   | [] => []
                   | x :: r => (if nullish x then EmptyString else to_string x) :: each r
                   end) items)
  | JObj _ => "[object Object]"
  end.

(** A whole number as a value. *)
Definition JInt (z : Z) : JSValue := JNum (Double_of_Z z).

Definition has_key (k : string) (fields : list (string * JSValue)) : bool :=
  existsb (fun kv => String.eqb k (fst kv)) fields.

(** The values [String] and [Number] can convert: an object needs the
    [toString] it inherits, and a property of that name, which no JSON
    value can make callable, hides it. *)
Fixpoint convertible (v : JSValue) : bool :=
  match v with
  | JObj fields => negb (has_key "toString" fields)
  | JArr items =>
      (fix each (l : list JSValue) : bool :=
         match l with
         | [] => true
         | x :: r => convertible x && each r
         end) items
  | _ => true
  end.

(** [Number(v)]: an array or an object is converted through its text. *)
Definition Number_ (v : JSValue) : Throwing Double :=
  match v with
  | JUndefined => Ok NaN
  | JNull => Ok (Zero false)
  | JBool b => Ok (Double_of_Z (if b then 1 else 0))
  | JNum x => Ok x
  | JStr s => Ok (string_to_number s)
  | JArr _ | JObj _ =>
      if convertible v then Ok (string_to_number (to_string v))
      else Throw "TypeError: Cannot convert object to primitive value"
  end.

(* ------------------------------------------------------------------ *)
(** ** Computations: state, exceptions, process exit *)

Inductive Outcome (A : Type) : Type :=
| Done (a : A)
| Raised (e : Exn)
| Exited (code : Z)
| OutOfFuel.
Arguments Done {A} a.
Arguments Raised {A} e.
Arguments Exited {A} code.
Arguments OutOfFuel {A}.

Definition M (S A : Type) : Type := S -> Outcome A * S.

Definition ret {S A : Type} (a : A) : M S A := fun s => (Done a, s).

Definition bind {S A B : Type} (m : M S A) (k : A -> M S B) : M S B :=
  fun s =>
    match m s with
    | (Done a, s') => k a s'
    | (Raised e, s') => (Raised e, s')
    | (Exited c, s') => (Exited c, s')
    | (OutOfFuel, s') => (OutOfFuel, s')
    end.

Declare Scope comp_scope.
Delimit Scope comp_scope with comp.
Notation "x <- m ;; k" := (bind m (fun x => k))
  (at level 100, m at next level, right associativity) : comp_scope.
Notation "m ;; k" := (bind m (fun _ => k))
  (at level 100, right associativity) : comp_scope.
Open Scope comp_scope.

Definition throw {S A : Type} (e : Exn) : M S A := fun s => (Raised e, s).

Definition lift {S A : Type} (t : Throwing A) : M S A :=
  match t with
  | Ok a => ret a
  | Throw e => throw e
  end.

Definition get_state {S : Type} : M S S := fun s => (Done s, s).
Definition modify {S : Type} (f : S -> S) : M S unit := fun s => (Done tt, f s).

(** [try { m } catch (e) { h e }] *)
Definition try_catch {S A : Type} (m : M S A) (h : Exn -> M S A) : M S A :=
  fun s =>
    match m s with
    | (Raised e, s') => h e s'
    | r => r
    end.

(** [try { m } finally { f }], for an [f] that swallows its own
    exceptions; nothing runs once the process has exited. *)
Definition finally_ {S A : Type} (m : M S A) (f : M S unit) : M S A :=
  fun s =>
    match m s with
    | (Done a, s') => (Done a, snd (f s'))
    | (Raised e, s') => (Raised e, snd (f s'))
    | r => r
    end.

(** [for (const x of l) body x] *)
Fixpoint for_each {S A : Type} (body : A -> M S unit) (l : list A) : M S unit :=
  match l with
  | [] => ret tt
  | x :: r => body x ;; for_each body r
  end.

Definition when_ {S : Type} (b : bool) (m : M S unit) : M S unit :=
  if b then m else ret tt.

(* ------------------------------------------------------------------ *)
(** ** The stream aggregator of [executeApiRequest] (lines 367-411) *)

(** The loop variables of lines 369-373. *)
Record StreamState : Type := {
  buffer : string;
  fullContent : string;
  responseId : JSValue;
  usage : JSValue;
  finished : bool
}.

Definition stream_init : StreamState :=
  {| buffer := ""; fullContent := ""; responseId := JNull; usage := JNull;
     finished := false |}.

Definition set_buffer (b : string) (st : StreamState) : StreamState :=
  {| buffer := b; fullContent := fullContent st; responseId := responseId st;
     usage := usage st; finished := finished st |}.

Definition add_content (c : string) (st : StreamState) : StreamState :=
  {| buffer := buffer st; fullContent := fullContent st +++ c;
     responseId := responseId st; usage := usage st; finished := finished st |}.

Definition set_responseId (r : JSValue) (st : StreamState) : StreamState :=
  {| buffer := buffer st; fullContent := fullContent st; responseId := r;
     usage := usage st; finished := finished st |}.

Definition set_usage (u : JSValue) (st : StreamState) : StreamState :=
  {| buffer := buffer st; fullContent := fullContent st;
     responseId := responseId st; usage := u; finished := finished st |}.

Definition set_finished (st : StreamState) : StreamState :=
  {| buffer := buffer st; fullContent := fullContent st;
     responseId := responseId st; usage := usage st; finished := true |}.

(** The body of a response as the reader delivers it: the decoded text of
    each [reader.read()], then either [done] or a failed read. *)
Record Body : Type := {
  chunks : list string;
  failure : option Exn
}.

Definition body_text (b : Body) : string := String.concat "" (chunks b).

Section Stream.

Variable JSON_parse : string -> option JSValue.

(** Lines 388-394, the statements after [JSON.parse] inside the [try]. *)
Definition process_chunk (chunk : JSValue) : M StreamState unit :=
  created <- lift (prop chunk "response.created") ;;
  (if truthy created
   then rid <- lift (prop created "response_id") ;; modify (set_responseId rid)
   else ret tt) ;;
  choices <- lift (prop chunk "choices") ;;
  first <- (if truthy choices then lift (index choices 0) else ret choices) ;;
  (if truthy first then
     delta <- lift (prop first "delta") ;;
     (if truthy delta then
        content <- lift (prop delta "content") ;;
        when_ (truthy content) (modify (add_content (to_string content)))
      else ret tt) ;;
     (if truthy delta then
        status <- lift (prop delta "status") ;;
        when_ (is_str status "finished") (modify set_finished)
      else ret tt)
   else ret tt) ;;
  u <- lift (prop chunk "usage") ;;
  when_ (truthy u) (modify (set_usage u)).

(** Lines 383-395, one line of the buffer. *)
Definition process_line (line : string) : M StreamState unit :=
  if negb (nonempty (trim line)) || negb (startsWith line "data: ") then ret tt
  else
    let jsonStr := trim (substring_from 6 line) in
    if negb (nonempty jsonStr) then ret tt
    else
      try_catch
        (match JSON_parse jsonStr with
         | Some chunk => process_chunk chunk
         | None => throw "SyntaxError"
         end)
        (fun _ => ret tt).

(** [lines.pop() || ''] and the lines left in the array. *)
Definition pop_line (lines : list string) : string :=
  let l := last lines "" in if nonempty l then l else "".

(** Lines 375-397, the [while (!finished)] loop; [reads] is what the
    reader still holds. *)
Fixpoint read_loop (failure : option Exn) (reads : list string)
  : M StreamState unit :=
  fun st =>
    if finished st then (Done tt, st)
    else
      match reads with
      | [] =>
          match failure with
          | Some e => (Raised e, st)
          | None => (Done tt, st)
          end
      | value :: rest =>
          let lines := split_lines (buffer st +++ value) in
          (modify (set_buffer (pop_line lines)) ;;
           for_each process_line (removelast lines) ;;
           read_loop failure rest) st
      end.

Definition default_usage : JSValue :=
  JObj [("prompt_tokens", JInt 0); ("completion_tokens", JInt 0);
        ("total_tokens", JInt 0)].

(** The [data] object of lines 402-410 ([object], [created] and the
    constant parts of [choices] left out). *)
Record ChatCompletion : Type := {
  cc_id : JSValue;
  cc_model : string;
  cc_content : string;
  cc_usage : JSValue;
  cc_response_id : JSValue
}.

Definition completion_of (now : Z) (model : string) (st : StreamState)
  : ChatCompletion :=
  {| cc_id := js_or (responseId st) (JStr ("chatcmpl-" +++ Z_to_string now));
     cc_model := model;
     cc_content := fullContent st;
     cc_usage := js_or (usage st) default_usage;
     cc_response_id := responseId st |}.

(** Lines 367-411: read the whole stream, then build the result. *)
Definition aggregate_stream (now : Z) (model : string) (body : Body)
  : Throwing ChatCompletion :=
  match read_loop (failure body) (chunks body) stream_init with
  | (Done _, st) => Ok (completion_of now model st)
  | (Raised e, _) => Throw e
  | (_, _) => Throw "unreachable"
  end.

(** *** The frames of a stream, as the specification speaks of them *)

(** The complete lines of a text, each ended by a line feed. *)
Definition complete_lines (text : string) : list string :=
  removelast (split_lines text).

(** The frame a line carries: a line [data: <json>] whose JSON parses to
    something other than [null]. *)
Definition frame_of_line (line : string) : option JSValue :=
  if nonempty (trim line) && startsWith line "data: " then
    let jsonStr := trim (substring_from 6 line) in
    if nonempty jsonStr then
      match JSON_parse jsonStr with
      | Some chunk => if nullish chunk then None else Some chunk
      | None => None
      end
    else None
  else None.

Fixpoint frames_of (lines : list string) : list JSValue :=
  match lines with
  | [] => []
  | l :: r =>
      match frame_of_line l with
      | Some f => f :: frames_of r
      | None => frames_of r
      end
  end.

(** [chunk.choices[0].delta] when [choices] and its first element are
    truthy. *)
Definition frame_delta (f : JSValue) : JSValue :=
  let choices := opt_prop f "choices" in
  if truthy choices && truthy (opt_index choices 0)
  then opt_prop (opt_index choices 0) "delta"
  else JUndefined.

Definition frame_content (f : JSValue) : string :=
  let content := opt_prop (frame_delta f) "content" in
  if truthy (frame_delta f) && truthy content then to_string content else "".

Definition frame_finished (f : JSValue) : bool :=
  truthy (frame_delta f) && is_str (opt_prop (frame_delta f) "status") "finished".

Definition frame_usage (f : JSValue) : option JSValue :=
  if truthy (opt_prop f "usage") then Some (opt_prop f "usage") else None.

Definition frame_response_id (f : JSValue) : option JSValue :=
  if truthy (opt_prop f "response.created")
  then Some (opt_prop (opt_prop f "response.created") "response_id")
  else None.

Definition contents_of (fs : list JSValue) : string :=
  String.concat "" (map frame_content fs).

Fixpoint first_some {A : Type} (l : list (option A)) : option A :=
  match l with
  | [] => None
  | Some a :: _ => Some a
  | None :: r => first_some r
  end.

Definition last_some {A : Type} (l : list (option A)) : option A :=
  first_some (rev l).

Definition or_null (o : option JSValue) : JSValue :=
  match o with Some v => v | None => JNull end.

(** The reads the loop consumes: all of them up to and including the first
    one that completes a line whose frame signals completion. *)
Fixpoint consumed (buf : string) (reads : list string) : list string :=
  match reads with
  | [] => []
  | value :: rest =>
      let lines := split_lines (buf +++ value) in
      if existsb frame_finished (frames_of (removelast lines))
      then [value]
      else value :: consumed (pop_line lines) rest
  end.

(** The frames up to and including the first that signals completion. *)
Fixpoint through_finished (fs : list JSValue) : list JSValue :=
  match fs with
  | [] => []
  | f :: r => if frame_finished f then [f] else f :: through_finished r
  end.

(** *** The aggregator, frame by frame *)

(** What one frame does to the loop variables. *)
Definition apply_frame (st : StreamState) (f : JSValue) : StreamState :=
  {| buffer := buffer st;
     fullContent := fullContent st +++ frame_content f;
     responseId := match frame_response_id f with
                   | Some r => r
                   | None => responseId st
                   end;
     usage := match frame_usage f with
              | Some u => u
              | None => usage st
              end;
     finished := finished st || frame_finished f |}.

Definition apply_line (st : StreamState) (line : string) : StreamState :=
  match frame_of_line line with
  | Some f => apply_frame st f
  | None => st
  end.

Definition apply_lines (st : StreamState) (lines : list string) : StreamState :=
  fold_left apply_line lines st.

Definition apply_frames (st : StreamState) (fs : list JSValue) : StreamState :=
  fold_left apply_frame fs st.

(** The frames the aggregator has applied when it stops. *)
Definition applied_frames (reads : list string) : list JSValue :=
  frames_of
    (complete_lines (String.concat "" (consumed "" reads))).

(** The result the code builds from the frames it applied. *)
Definition completion_of_frames (now : Z) (model : string) (fs : list JSValue)
  : ChatCompletion :=
  {| cc_id := js_or (or_null (last_some (map frame_response_id fs)))
                (JStr ("chatcmpl-" +++ Z_to_string now));
     cc_model := model;
     cc_content := contents_of fs;
     cc_usage := js_or (or_null (last_some (map frame_usage fs))) default_usage;
     cc_response_id := or_null (last_some (map frame_response_id fs)) |}.


Definition stream_frames (reads : list string) : list JSValue :=
  frames_of (complete_lines (String.concat "" reads)).

End Stream.

(* ------------------------------------------------------------------ *)
(** ** The world outside [chat.js] *)

(** A page object, by its identity. *)
Definition Page : Type := nat.

(** What [getBrowserContext()] returns when it is not [null].
    [ctx_page] is [Some p] when [typeof context.goto === 'function'] (the
    context is itself the page [p], the Puppeteer case); [ctx_newPage] is
    [typeof context.newPage === 'function'] (the Playwright case). *)
Record Context : Type := {
  ctx_page : option Page;
  ctx_newPage : bool
}.

(** An account as the token manager hands it out. *)
Record TokenObj : Type := {
  tok_id : JSValue;
  tok_token : JSValue
}.

(** The payload of [buildPayloadV2] (lines 283-338); the random message
    ids and the timestamps are left out. *)
Record Payload : Type := {
  p_stream : bool;
  p_chat_id : JSValue;
  p_model : string;
  p_parent_id : JSValue;
  p_content : JSValue;
  p_chat_type : string;
  p_files : JSValue;
  p_thinking_enabled : bool;
  p_size : option JSValue;
  p_system_message : option JSValue;
  p_tools : option (JSValue * JSValue)
}.

(** The three requests the scripts run in the page send. *)
Inductive Request : Type :=
| ReqChat (url : string) (token : JSValue) (payload : Payload)
| ReqCreateChat (url : string) (token : JSValue) (title : string)
    (model : option string)
| ReqTaskStatus (url : string) (token : JSValue).

(** What [fetch] resolves to. *)
Record Response : Type := {
  resp_ok : bool;
  resp_status : Z;
  resp_statusText : string;
  resp_body : Body
}.

(** The calls that leave [chat.js], each with the type of its answer. *)
Inductive ExtCall : Type -> Type :=
| GetBrowserContext : ExtCall (option Context)
| GetAuthenticationStatus : ExtCall bool
| SetAuthenticationStatus (b : bool) : ExtCall unit
| ShutdownBrowser : ExtCall unit
| InitBrowser (visible : bool) : ExtCall unit
| CheckAuthentication (ctx : option Context) : ExtCall bool
| CheckVerification (p : Page) : ExtCall bool
| SaveAuthToken (t : JSValue) : ExtCall unit
| GetAvailableToken : ExtCall (option TokenObj)
| MarkRateLimited (id : JSValue) (hours : Double) : ExtCall unit
| MarkInvalid (id : JSValue) : ExtCall unit
| HasValidTokens : ExtCall bool
| NewPage : ExtCall unit
| Goto (p : Page) (url : string) : ExtCall unit
| Reload (p : Page) : ExtCall unit
| Close (p : Page) : ExtCall unit
| Evaluate (p : Page) : ExtCall unit
| LocalStorageToken (p : Page) : ExtCall JSValue
| Fetch (p : Page) (req : Request) : ExtCall Response
| ReadModelsFile : ExtCall (option string).

(** What an observer of a run sees. *)
Inductive Event : Type :=
| Called (R : Type) (c : ExtCall R) (r : Throwing R)
| Delayed (ms : Z)
| Attempt (retryCount : Z)
| ProcessExit (code : Z).

(** The platform: the handler that answers external calls from its own
    state, the clock, the JSON built-ins, and the constants of
    [config.js]. *)
Class Platform : Type := {
  Ext : Type;
  handle : forall R : Type, ExtCall R -> Ext -> Throwing R * Ext;
  clock : Ext -> Z;
  JSON_parse : string -> option JSValue;
  JSON_stringify : JSValue -> string;
  CHAT_API_URL : string;
  CREATE_CHAT_URL : string;
  CHAT_PAGE_URL : string;
  TASK_STATUS_URL : string;
  RETRY_DELAY : Z;
  PAGE_POOL_SIZE : nat;
  DEFAULT_MODEL : string;
  MAX_RETRY_COUNT : Z;
  TASK_POLL_MAX_ATTEMPTS : nat;
  TASK_POLL_INTERVAL : Z
}.

Section World.

Context {P : Platform}.

(** The module state of [chat.js] (lines 24-26 and [pagePool.pages]), the
    state of the platform, the next page identity, and the trace. *)
Record World : Type := {
  authToken : JSValue;
  availableModels : option (list string);
  pages : list Page;
  fresh : Page;
  ext : Ext;
  trace : list Event
}.

Definition set_authToken (t : JSValue) (w : World) : World :=
  {| authToken := t; availableModels := availableModels w; pages := pages w;
     fresh := fresh w; ext := ext w; trace := trace w |}.

Definition set_availableModels (l : list string) (w : World) : World :=
  {| authToken := authToken w; availableModels := Some l; pages := pages w;
     fresh := fresh w; ext := ext w; trace := trace w |}.

Definition set_pages (l : list Page) (w : World) : World :=
  {| authToken := authToken w; availableModels := availableModels w; pages := l;
     fresh := fresh w; ext := ext w; trace := trace w |}.

Definition log_event (e : Event) (w : World) : World :=
  {| authToken := authToken w; availableModels := availableModels w;
     pages := pages w; fresh := fresh w; ext := ext w;
     trace := trace w ++ [e] |}.

Definition Comp (A : Type) : Type := M World A.

(** An external call: the handler answers, the trace records both. *)
Definition call {R : Type} (c : ExtCall R) : Comp R :=
  fun w =>
    let (r, e') := handle c (ext w) in
    let w' := {| authToken := authToken w; availableModels := availableModels w;
                 pages := pages w; fresh := fresh w; ext := e';
                 trace := trace w ++ [Called c r] |} in
    match r with
    | Ok a => (Done a, w')
    | Throw e => (Raised e, w')
    end.

(** [await delay(ms)] *)
Definition delay (ms : Z) : Comp unit := modify (log_event (Delayed ms)).

(** [process.exit(code)] *)
Definition exit {A : Type} (code : Z) : Comp A :=
  fun w => (Exited code, log_event (ProcessExit code) w).

(** [Date.now()] *)
Definition now : Comp Z := fun w => (Done (clock (ext w)), w).

(** A new object: its identity was never handed out before. *)
Definition alloc_page : Comp Page :=
  fun w =>
    (Done (fresh w),
     {| authToken := authToken w; availableModels := availableModels w;
        pages := pages w; fresh := S (fresh w); ext := ext w;
        trace := trace w |}).

(** [response.text()] and [response.json()] *)
Definition response_text (r : Response) : Comp string :=
  match failure (resp_body r) with
  | Some e => throw e
  | None => ret (body_text (resp_body r))
  end.

Definition response_json (r : Response) : Comp JSValue :=
  text <- response_text r ;;
  match JSON_parse text with
  | Some v => ret v
  | None => throw "SyntaxError: Unexpected token in JSON"
  end.

(* ------------------------------------------------------------------ *)
(** ** Page helpers and the page pool (lines 32-84) *)

Definition bad_context : Exn :=
  "Error: Неверный контекст: не страница Puppeteer, не контекст Playwright".

(** [getPage(context)], lines 32-39. *)
Definition getPage (context : option Context) : Comp Page :=
  match context with
  | Some c =>
      match ctx_page c with
      | Some p => ret p
      | None =>
          if ctx_newPage c then call NewPage ;; alloc_page
          else throw bad_context
      end
  | None => throw bad_context
  end.

(** [typeof context.newPage === 'function'] on a context that may be null
    ([getBrowserContext()?.newPage]). *)
Definition has_newPage (context : option Context) : bool :=
  match context with
  | Some c => ctx_newPage c
  | None => false
  end.

(** [pagePool.getPage(context)], lines 45-66. *)
Definition pagePool_getPage (context : option Context) : Comp Page :=
  w <- get_state ;;
  if Nat.ltb 0 (List.length (pages w)) then
    modify (set_pages (removelast (pages w))) ;;
    ret (last (pages w) 0)
  else
    newPage <- getPage context ;;
    call (Goto newPage CHAT_PAGE_URL) ;;
    w' <- get_state ;;
    (if negb (truthy (authToken w')) then
       try_catch
         (t <- call (LocalStorageToken newPage) ;;
          modify (set_authToken t) ;;
          if truthy t then call (SaveAuthToken t) else ret tt)
         (fun _ => ret tt)
     else ret tt) ;;
    ret newPage.

(** [pagePool.releasePage(page)], lines 68-74. *)
Definition pagePool_releasePage (page : Page) : Comp unit :=
  w <- get_state ;;
  if Nat.ltb (List.length (pages w)) PAGE_POOL_SIZE then
    modify (set_pages (pages w ++ [page]))
  else
    try_catch (call (Close page)) (fun _ => ret tt).

(** [pagePool.clear()], lines 76-83. *)
Definition pagePool_clear : Comp unit :=
  w <- get_state ;;
  for_each (fun page => try_catch (call (Close page)) (fun _ => ret tt))
    (pages w) ;;
  modify (set_pages []).

(** *** In-flight requests and the pool

    JavaScript runs one request at a time between two [await]s, and the
    pool is read and written without an [await] in between, so the pool
    sees the requests as a sequence of operations. [held] lists the
    handles the in-flight requests hold, one entry per holder. *)

Inductive PoolOp : Type :=
| Acquire
| Release (page : Page)
| Clear.

Fixpoint remove_one (p : Page) (l : list Page) : list Page :=
  match l with
  | [] => []
  | x :: r => if Nat.eqb p x then r else x :: remove_one p r
  end.

(** A request acquires a handle with [getPage]; a request that holds a
    handle gives it back with [releasePage]; [clear] empties the pool. *)
Definition pool_step (context : option Context) (s : World * list Page)
  (op : PoolOp) : World * list Page :=
  match op with
  | Acquire =>
      match pagePool_getPage context (fst s) with
      | (Done p, w') => (w', p :: snd s)
      | (_, w') => (w', snd s)
      end
  | Release p =>
      if existsb (Nat.eqb p) (snd s)
      then (snd (pagePool_releasePage p (fst s)), remove_one p (snd s))
      else s
  | Clear => (snd (pagePool_clear (fst s)), snd s)
  end.

Definition pool_run (context : option Context) (ops : list PoolOp)
  (s : World * list Page) : World * list Page :=
  fold_left (pool_step context) ops s.

(** No handle is both idle and held, or held twice, or idle twice; and
    every handle was handed out by the allocator. *)
Definition exclusive (s : World * list Page) : Prop :=
  NoDup (pages (fst s) ++ snd s)
  /\ Forall (fun p => p < fresh (fst s)) (pages (fst s) ++ snd s).

(** The context makes a new page for each request (it is not itself a
    page). *)
Definition creates_pages (context : option Context) : Prop :=
  match context with
  | Some c => ctx_page c = None
  | None => True
  end.

(* ------------------------------------------------------------------ *)
(** ** Task polling (lines 88-142) *)

Record PollResult : Type := {
  pr_success : bool;
  pr_status : string;
  pr_error : JSValue;
  pr_data : JSValue
}.

(** What the script of lines 95-111 returns. *)
Inductive StatusResult : Type :=
| StatusOk (data : JSValue)
| StatusFailed (status : option Z) (error : string).

Definition status_script (page : Page) (url : string) (token : JSValue)
  : Comp StatusResult :=
  call (Evaluate page) ;;
  try_catch
    (response <- call (Fetch page (ReqTaskStatus url token)) ;;
     if negb (resp_ok response) then
       text <- response_text response ;;
       ret (StatusFailed (Some (resp_status response)) text)
     else
       data <- response_json response ;;
       ret (StatusOk data))
    (fun e => ret (StatusFailed None e)).

(** What the script makes of the answer to its [fetch]. *)
Definition script_result (r : Throwing Response) : StatusResult :=
  match r with
  | Throw e => StatusFailed None e
  | Ok response =>
      match failure (resp_body response) with
      | Some e => StatusFailed None e
      | None =>
          if negb (resp_ok response)
          then StatusFailed (Some (resp_status response))
                 (body_text (resp_body response))
          else match JSON_parse (body_text (resp_body response)) with
               | Some data => StatusOk data
               | None => StatusFailed None "SyntaxError: Unexpected token in JSON"
               end
      end
  end.

Definition status_is_completed (s : JSValue) : bool :=
  is_str s "completed" || is_str s "success".

Definition status_is_failed (s : JSValue) : bool :=
  is_str s "failed" || is_str s "error".

(** [taskData.task_status || taskData.status || 'unknown'] *)
Definition task_status_of (taskData : JSValue) : Throwing JSValue :=
  match prop taskData "task_status" with
  | Throw e => Throw e
  | Ok a =>
      if truthy a then Ok a
      else match prop taskData "status" with
           | Throw e => Throw e
           | Ok b => Ok (js_or b (JStr "unknown"))
           end
  end.

Definition is_status_request (req : Request) : bool :=
  match req with
  | ReqTaskStatus _ _ => true
  | _ => false
  end.

(** A status check is one run of the status script in the page. *)
Definition is_status_check (e : Event) : bool :=
  match e with
  | Called (Evaluate _) _ => true
  | _ => false
  end.

Definition status_checks (events : list Event) : nat :=
  List.length (filter is_status_check events).

Definition poll_timeout : PollResult :=
  {| pr_success := false; pr_status := "timeout";
     pr_error := JStr "Task polling timeout exceeded"; pr_data := JUndefined |}.

Section Poll.

Variables (taskId : JSValue) (page : Page) (token : JSValue).
Variables (maxAttempts : nat) (interval : Z).

(** The body of the [try] of one iteration, lines 93-133: [Some] result
    when the function returns, [None] when the loop goes on. *)
Definition poll_attempt (attempt : nat) : Comp (option PollResult) :=
  let statusUrl := TASK_STATUS_URL +++ "/" +++ to_string taskId in
  result <- status_script page statusUrl token ;;
  match result with
  | StatusFailed _ _ =>
      when_ (Nat.ltb attempt maxAttempts) (delay interval) ;;
      ret None
  | StatusOk taskData =>
      taskStatus <- lift (task_status_of taskData) ;;
      if status_is_completed taskStatus then
        ret (Some {| pr_success := true; pr_status := "completed";
                     pr_error := JUndefined; pr_data := taskData |})
      else if status_is_failed taskStatus then
        ret (Some {| pr_success := false; pr_status := "failed";
                     pr_error := js_or (js_or (opt_prop taskData "error")
                                              (opt_prop taskData "message"))
                                       (JStr "Task failed");
                     pr_data := taskData |})
      else
        when_ (Nat.ltb attempt maxAttempts) (delay interval) ;;
        ret None
  end.

(** The [for] loop of lines 91-138 with [remaining] iterations to go,
    the next one numbered [attempt]; then lines 140-141. *)
Fixpoint poll_loop (remaining attempt : nat) : Comp PollResult :=
  match remaining with
  | O => ret poll_timeout
  | S n =>
      r <- try_catch (poll_attempt attempt)
             (fun _ =>
                when_ (Nat.ltb attempt maxAttempts) (delay interval) ;;
                ret None) ;;
      match r with
      | Some result => ret result
      | None => poll_loop n (S attempt)
      end
  end.

Definition pollTaskStatus : Comp PollResult := poll_loop maxAttempts 1.

(** One iteration of the loop, with the [catch] of lines 134-137. *)
Definition poll_iteration (attempt : nat) : Comp (option PollResult) :=
  try_catch (poll_attempt attempt)
    (fun _ =>
       when_ (Nat.ltb attempt maxAttempts) (delay interval) ;;
       ret None).

(** The events of the pause between two iterations. *)
Definition pause (b : bool) : list Event :=
  if b then [Delayed interval] else [].

End Poll.

(* ------------------------------------------------------------------ *)
(** ** Token extraction (lines 146-174) *)

(** [extractAuthToken(context)], with [forceRefresh] at its default. *)
Definition extractAuthToken (context : option Context) : Comp JSValue :=
  w <- get_state ;;
  if truthy (authToken w) then ret (authToken w)
  else
    try_catch
      (page <- getPage context ;;
       try_catch
         (call (Goto page CHAT_PAGE_URL) ;;
          delay RETRY_DELAY ;;
          newToken <- call (LocalStorageToken page) ;;
          (if has_newPage context then call (Close page) else ret tt) ;;
          if truthy newToken then
            modify (set_authToken newToken) ;;
            call (SaveAuthToken newToken) ;;
            ret newToken
          else ret JNull)
         (fun error =>
            (if has_newPage context
             then try_catch (call (Close page)) (fun _ => ret tt)
             else ret tt) ;;
            throw error))
      (fun _ => ret JNull).

(* ------------------------------------------------------------------ *)
(** ** Models (lines 178-224) *)

(** [l => l && !l.startsWith('#')] *)
Definition model_line (l : string) : bool :=
  nonempty l && negb (startsWith l "#").

(** [getAvailableModelsFromFile()]; the file is absent when the call
    answers [None]. *)
Definition getAvailableModelsFromFile : Comp (list string) :=
  try_catch
    (content <- call ReadModelsFile ;;
     match content with
     | None => ret [DEFAULT_MODEL]
     | Some text => ret (filter model_line (map trim (split_lines text)))
     end)
    (fun _ => ret [DEFAULT_MODEL]).

(** [if (!availableModels) availableModels = getAvailableModelsFromFile()] *)
Definition load_models : Comp (list string) :=
  w <- get_state ;;
  match availableModels w with
  | Some l => ret l
  | None =>
      l <- getAvailableModelsFromFile ;;
      modify (set_availableModels l) ;;
      ret l
  end.

Definition string_in (s : string) (l : list string) : bool :=
  existsb (String.eqb s) l.

(** [isValidModel(modelName)] *)
Definition isValidModel (modelName : string) : Comp bool :=
  l <- load_models ;;
  ret (string_in modelName l).

(** Lines 494-499 of [sendMessage]; the model argument is a string or
    [null]. *)
Definition resolve_model (model : option string) : Comp string :=
  match model with
  | None => ret DEFAULT_MODEL
  | Some m =>
      if negb (nonempty m) || negb (nonempty (trim m)) then ret DEFAULT_MODEL
      else
        valid <- isValidModel m ;;
        if valid then ret m else ret DEFAULT_MODEL
  end.

(* ------------------------------------------------------------------ *)
(** ** The helpers of [sendMessage] (lines 244-338) *)

Definition is_string (v : JSValue) : bool :=
  match v with JStr _ => true | _ => false end.

(** The predicate of [message.every], lines 251-253. *)
Definition valid_part (item : JSValue) : Throwing bool :=
  match prop item "type" with
  | Throw e => Throw e
  | Ok ty =>
      Ok ((is_str ty "text" && is_string (opt_prop item "text"))
          || (is_str ty "image" && is_string (opt_prop item "image"))
          || (is_str ty "file" && is_string (opt_prop item "file")))
  end.

(** [items.every(valid_part)] *)
Fixpoint every_part (items : list JSValue) : Throwing bool :=
  match items with
  | [] => Ok true
  | x :: r =>
      match valid_part x with
      | Throw e => Throw e
      | Ok false => Ok false
      | Ok true => every_part r
      end
  end.

(** [validateAndPrepareMessage(message)]: an error text or the content. *)
Definition validateAndPrepareMessage (message : JSValue)
  : Throwing (string + JSValue) :=
  match message with
  | JNull | JUndefined => Ok (inl "Сообщение не может быть пустым")
  | JStr _ => Ok (inr message)
  | JArr items =>
      match every_part items with
      | Throw e => Throw e
      | Ok false => Ok (inl "Некорректная структура составного сообщения")
      | Ok true => Ok (inr message)
      end
  | _ => Ok (inl "Неподдерживаемый формат сообщения")
  end.

Definition browser_token (t : JSValue) : TokenObj :=
  {| tok_id := JStr "browser"; tok_token := t |}.

(** [resolveAuthToken(browserContext)], lines 261-281. *)
Definition resolveAuthToken (browserContext : option Context)
  : Comp (option TokenObj) :=
  tokenObj <- call GetAvailableToken ;;
  if match tokenObj with Some t => truthy (tok_token t) | None => false end
  then
    modify (set_authToken
              (match tokenObj with Some t => tok_token t | None => JNull end)) ;;
    ret tokenObj
  else
    authenticated <- call GetAuthenticationStatus ;;
    authCheck <- (if negb authenticated
                  then call (CheckAuthentication browserContext)
                  else ret true) ;;
    if negb authCheck then ret None
    else
      w <- get_state ;;
      (if negb (truthy (authToken w)) then
         t <- extractAuthToken browserContext ;;
         modify (set_authToken t)
       else ret tt) ;;
      w' <- get_state ;;
      ret (if truthy (authToken w')
           then Some (browser_token (authToken w'))
           else None).

Definition is_nonempty_array (v : JSValue) : bool :=
  match v with
  | JArr (_ :: _) => true
  | _ => false
  end.

(** [buildPayloadV2], lines 283-338. The debug line of line 330 calls
    [systemMessage.substring], which only a string has: a truthy system
    message of another kind ends the function with a TypeError. *)
Definition buildPayloadV2 (messageContent : JSValue) (model : string)
  (chatId parentId files systemMessage tools toolChoice : JSValue)
  (chatType : string) (size : JSValue) : Throwing Payload :=
  let isVideo := String.eqb chatType "t2v" in
  if truthy systemMessage && negb (is_string systemMessage)
  then Throw "TypeError: systemMessage.substring is not a function"
  else
    Ok {| p_stream := negb isVideo;
          p_chat_id := chatId;
          p_model := model;
          p_parent_id := parentId;
          p_content := messageContent;
          p_chat_type := chatType;
          p_files := js_or files (JArr []);
          p_thinking_enabled := isVideo;
          p_size := if truthy size then Some size else None;
          p_system_message :=
            if truthy systemMessage then Some systemMessage else None;
          p_tools := if is_nonempty_array tools
                     then Some (tools, js_or toolChoice (JStr "auto"))
                     else None |}.

(* ------------------------------------------------------------------ *)
(** ** The request executor (lines 340-420) *)

(** What the script of [executeApiRequest] returns, with every field
    [handleApiError] reads. *)
Inductive ResponseData : Type :=
| NoData
| TaskData (json : JSValue)
| ChatData (completion : ChatCompletion).

Record ApiResponse : Type := {
  r_success : bool;
  r_isTask : bool;
  r_data : ResponseData;
  r_status : option Z;
  r_statusText : option string;
  r_errorBody : option string;
  r_error : option string;
  r_html : option string
}.

Definition api_failure (error : string) : ApiResponse :=
  {| r_success := false; r_isTask := false; r_data := NoData;
     r_status := None; r_statusText := None; r_errorBody := None;
     r_error := Some error; r_html := None |}.

Definition api_success (isTask : bool) (data : ResponseData) : ApiResponse :=
  {| r_success := true; r_isTask := isTask; r_data := data;
     r_status := None; r_statusText := None; r_errorBody := None;
     r_error := None; r_html := None |}.

Definition api_http_error (status : Z) (statusText errorBody : string)
  : ApiResponse :=
  {| r_success := false; r_isTask := false; r_data := NoData;
     r_status := Some status; r_statusText := Some statusText;
     r_errorBody := Some errorBody; r_error := None; r_html := None |}.

Definition no_token_error : string := "Токен авторизации не найден".

(** [executeApiRequest(page, apiUrl, payload, token)] *)
Definition executeApiRequest (page : Page) (apiUrl : string)
  (payload : Payload) (token : JSValue) : Comp ApiResponse :=
  call (Evaluate page) ;;
  try_catch
    (if negb (truthy token) then ret (api_failure no_token_error)
     else
       response <- call (Fetch page (ReqChat apiUrl token payload)) ;;
       if resp_ok response then
         if negb (p_stream payload) then
           jsonResponse <- response_json response ;;
           ret (api_success true (TaskData jsonResponse))
         else
           t <- now ;;
           completion <- lift (aggregate_stream JSON_parse t (p_model payload)
                                 (resp_body response)) ;;
           ret (api_success false (ChatData completion))
       else
         errorBody <- response_text response ;;
         ret (api_http_error (resp_status response)
                (resp_statusText response) errorBody))
    (fun error => ret (api_failure error)).

(* ------------------------------------------------------------------ *)
(** ** Task response helpers (lines 629-641) *)

(** [extractTaskId(data)] *)
Definition extractTaskId (data : JSValue) : Throwing JSValue :=
  match prop data "data" with
  | Throw e => Throw e
  | Ok inner =>
      let firstMsg := opt_index (opt_prop inner "messages") 0 in
      let nested :=
        opt_prop (opt_prop (opt_prop firstMsg "extra") "wanx") "task_id" in
      if truthy nested then Ok nested
      else
        Ok (js_or (opt_prop data "id")
           (js_or (opt_prop data "task_id")
           (js_or (opt_prop data "response_id")
           (js_or (opt_prop inner "message_id") JNull))))
  end.

(** The five places a task id is looked for, in the order of the
    specification: the nested provider-specific reference
    [data.data.messages[0].extra.wanx.task_id], the top-level [id], the
    top-level [task_id], the [response_id], the nested
    [data.data.message_id]. *)
Definition nested_task_ref (data : JSValue) : JSValue :=
  opt_prop (opt_prop (opt_prop
    (opt_index (opt_prop (opt_prop data "data") "messages") 0)
    "extra") "wanx") "task_id".

Definition task_id_candidates (data : JSValue) : list JSValue :=
  [nested_task_ref data; opt_prop data "id"; opt_prop data "task_id";
   opt_prop data "response_id"; opt_prop (opt_prop data "data") "message_id"].

(** The first truthy value of a list, [null] when there is none. *)
Fixpoint first_truthy (l : list JSValue) : JSValue :=
  match l with
  | [] => JNull
  | v :: r => if truthy v then v else first_truthy r
  end.

(** [extractVideoUrl(taskData)] *)
Definition extractVideoUrl (taskData : JSValue) : Throwing JSValue :=
  match prop taskData "content" with
  | Throw e => Throw e
  | Ok content =>
      if truthy content then Ok content
      else
        let result := opt_prop taskData "result" in
        if is_string result then Ok result
        else if truthy (opt_prop result "url") then Ok (opt_prop result "url")
        else if truthy (opt_prop result "video_url")
        then Ok (opt_prop result "video_url")
        else Ok JNull
  end.

(* ------------------------------------------------------------------ *)
(** ** Results of [sendMessage] and [createChatV2] *)

Inductive Result : Type :=
| RChatNotCreated (error : string)
| RError (error : string) (chatId : JSValue)
| RTaskIdMissing (chatId : JSValue) (rawResponse : JSValue)
| RTaskCreated (taskId : JSValue) (model : string) (chatId parentId : JSValue)
| RVideo (taskId : JSValue) (model : string) (content usage chatId
    video_url : JSValue)
| RVideoFailed (error : JSValue) (status : string) (chatId task_id : JSValue)
| RCompletion (data : ChatCompletion) (chatId parentId : JSValue)
| RVerification (chatId : JSValue)
| RRateLimited (chatId : JSValue)
| RGeneric (error : option string) (details : string) (chatId : JSValue).

(** A result is an error result when it has an [error] field. *)
Definition is_error (r : Result) : bool :=
  match r with
  | RTaskCreated _ _ _ _ | RVideo _ _ _ _ _ _ | RCompletion _ _ _ => false
  | _ => true
  end.

Definition task_id_missing : string := "Task ID not found in response".
Definition token_missing : string :=
  "Токен авторизации не найден. Требуется перезапуск в ручном режиме.".
Definition rate_limited_text : string := "Все токены заблокированы по лимиту".
Definition verification_text : string :=
  "Требуется верификация. Браузер запущен в видимом режиме.".

Record CreateChatResult : Type := {
  cr_error : option string;
  cr_chatId : JSValue
}.

Definition opt_nonempty (o : option string) : bool :=
  match o with Some s => nonempty s | None => false end.

(** [a || b] on fields that are strings or absent. *)
Definition opt_or (a b : option string) : option string :=
  if opt_nonempty a then a else b.

(** The [finally] block of [sendMessage] and [createChatV2] when [page]
    is still set (lines 617-623 and 704-710). *)
Definition close_held_page (page : Page) : Comp unit :=
  try_catch
    (context <- call GetBrowserContext ;;
     if has_newPage context then call (Close page) else ret tt)
    (fun _ => ret tt).

(** The script of lines 676-688. *)
Definition create_chat_script (page : Page) (token : JSValue)
  (model : option string) : Comp ApiResponse :=
  call (Evaluate page) ;;
  try_catch
    (response <- call (Fetch page
                         (ReqCreateChat CREATE_CHAT_URL token "Новый чат" model)) ;;
     if resp_ok response then
       json <- response_json response ;;
       ret (api_success false (TaskData json))
     else
       errorBody <- response_text response ;;
       ret {| r_success := false; r_isTask := false; r_data := NoData;
              r_status := Some (resp_status response); r_statusText := None;
              r_errorBody := Some errorBody; r_error := None;
              r_html := None |})
    (fun error => ret (api_failure error)).

Definition chat_failed (error : string) : CreateChatResult :=
  {| cr_error := Some error; cr_chatId := JUndefined |}.

(** Lines 693-699: what [createChatV2] makes of the script's result. *)
Definition chat_result_of (result : ApiResponse) : Throwing CreateChatResult :=
  let failed :=
    {| cr_error := opt_or (opt_or (r_errorBody result) (r_error result))
                          (Some "Неизвестная ошибка");
       cr_chatId := JUndefined |} in
  if r_success result then
    let json := match r_data result with TaskData j => j | _ => JUndefined end in
    match prop json "success" with
    | Throw e => Throw e
    | Ok s =>
        if truthy s then
          match prop json "data" with
          | Throw e => Throw e
          | Ok d =>
              match prop d "id" with
              | Throw e => Throw e
              | Ok id => Ok {| cr_error := None; cr_chatId := id |}
              end
          end
        else Ok failed
    end
  else Ok failed.

(** [createChatV2(model)], lines 653-712. The local [page] is set from
    [pagePool.getPage] to [pagePool.releasePage]; the [finally] block acts
    only in between. *)
Definition createChatV2 (model : option string) : Comp CreateChatResult :=
  browserContext <- call GetBrowserContext ;;
  match browserContext with
  | None => ret (chat_failed "Браузер не инициализирован")
  | Some _ =>
      tokenObj <- call GetAvailableToken ;;
      (match tokenObj with
       | Some t => when_ (truthy (tok_token t)) (modify (set_authToken (tok_token t)))
       | None => ret tt
       end) ;;
      w <- get_state ;;
      token <- (if negb (truthy (authToken w)) then
                  t <- extractAuthToken browserContext ;;
                  modify (set_authToken t) ;;
                  ret t
                else ret (authToken w)) ;;
      if negb (truthy token)
      then ret (chat_failed "Не удалось получить токен авторизации")
      else
        acquired <- try_catch
                      (page <- pagePool_getPage browserContext ;; ret (inl page))
                      (fun error => ret (inr (chat_failed error))) ;;
        match acquired with
        | inr failed => ret failed
        | inl page =>
            held <- try_catch
                      (w' <- get_state ;;
                       result <- create_chat_script page (authToken w') model ;;
                       ret (inl result))
                      (fun error => ret (inr (chat_failed error))) ;;
            match held with
            | inr failed => close_held_page page ;; ret failed
            | inl result =>
                pagePool_releasePage page ;;
                match chat_result_of result with
                | Ok r => ret r
                | Throw error => ret (chat_failed error)
                end
            end
        end
  end.

(* ------------------------------------------------------------------ *)
(** ** Failure handling and [sendMessage] (lines 422-625) *)

(** The arguments of [sendMessage] other than [retryCount]. *)
Record SendArgs : Type := {
  a_message : JSValue;
  a_model : option string;
  a_chatId : JSValue;
  a_parentId : JSValue;
  a_files : JSValue;
  a_tools : JSValue;
  a_toolChoice : JSValue;
  a_systemMessage : JSValue;
  a_chatType : string;
  a_size : JSValue;
  a_waitForCompletion : bool
}.

(** The arguments of the self-call of lines 446 and 467: the resolved
    model and chat id, and [null] for tools, tool choice and system
    message. *)
Definition retry_args (a : SendArgs) (model : string) (chatId : JSValue)
  : SendArgs :=
  {| a_message := a_message a; a_model := Some model; a_chatId := chatId;
     a_parentId := a_parentId a; a_files := a_files a; a_tools := JNull;
     a_toolChoice := JNull; a_systemMessage := JNull;
     a_chatType := a_chatType a; a_size := a_size a;
     a_waitForCompletion := a_waitForCompletion a |}.

Definition opt_includes (body : option string) (marker : string) : bool :=
  match body with
  | Some s => nonempty s && includes s marker
  | None => false
  end.

(** The three tests of lines 427, 437 and 454. *)
Definition is_verification (response : ApiResponse) : bool :=
  opt_includes (r_html response) "Verification".

Definition is_unauthorized (response : ApiResponse) : bool :=
  match r_status response with
  | Some 401%Z => true
  | _ =>
      opt_includes (r_errorBody response) "Unauthorized"
      || opt_includes (r_errorBody response) "Token has expired"
  end.

Definition is_rate_limited (response : ApiResponse) : bool :=
  opt_includes (r_errorBody response) "RateLimited".

(** [tokenObj?.id] *)
Definition id_of (tokenObj : option TokenObj) : JSValue :=
  match tokenObj with
  | Some t => tok_id t
  | None => JUndefined
  end.

(** [Number(rateInfo.num) || 24] *)
Definition hours_of (num : JSValue) : Throwing Double :=
  match Number_ num with
  | Ok x => Ok (if number_truthy x then x else Double_of_Z 24)
  | Throw e => Throw e
  end.

(** Lines 455-464: read the hours from the body and mark the account. *)
Definition mark_from_body (errorBody : string) (tokenObj : option TokenObj)
  : Comp unit :=
  try_catch
    (match JSON_parse errorBody with
     | None => throw "SyntaxError: Unexpected token in JSON"
     | Some rateInfo =>
         num <- lift (prop rateInfo "num") ;;
         hours <- lift (hours_of num) ;;
         when_ (truthy (id_of tokenObj))
           (call (MarkRateLimited (id_of tokenObj) hours))
     end)
    (fun _ => ret tt).

Definition body_of (response : ApiResponse) : string :=
  match r_errorBody response with Some s => s | None => "" end.

(** [handleApiError]; [retry r] is the self-call
    [sendMessage(..., r)] of lines 446 and 467. *)
Definition handleApiError (retry : Z -> Comp Result) (response : ApiResponse)
  (tokenObj : option TokenObj) (chatId : JSValue) (retryCount : Z)
  : Comp Result :=
  if is_verification response then
    call (SetAuthenticationStatus false) ;;
    pagePool_clear ;;
    modify (set_authToken JNull) ;;
    call ShutdownBrowser ;;
    call (InitBrowser true) ;;
    ret (RVerification chatId)
  else if is_unauthorized response then
    modify (set_authToken JNull) ;;
    when_ (truthy (id_of tokenObj)) (call (MarkInvalid (id_of tokenObj))) ;;
    valid <- call HasValidTokens ;;
    if valid && Z.ltb retryCount MAX_RETRY_COUNT then retry (retryCount + 1)%Z
    else
      pagePool_clear ;;
      call ShutdownBrowser ;;
      exit 1
  else if is_rate_limited response then
    mark_from_body (body_of response) tokenObj ;;
    modify (set_authToken JNull) ;;
    if Z.ltb retryCount MAX_RETRY_COUNT then retry (retryCount + 1)%Z
    else ret (RRateLimited chatId)
  else
    ret (RGeneric (opt_or (r_error response) (r_statusText response))
           (match opt_or (r_errorBody response) None with
            | Some s => s
            | None => "Нет дополнительных деталей"
            end)
           chatId).

(** *** Named parts of the Unauthorized branch *)

(** Lines 448-451: shutdown and exit. *)
Definition shutdown_and_exit : Comp Result :=
  pagePool_clear ;; call ShutdownBrowser ;; exit 1.

(** Lines 444-451, once [tokenObj] has been marked. *)
Definition unauthorized_tail (retry : Z -> Comp Result) (retryCount : Z)
  : Comp Result :=
  valid <- call HasValidTokens ;;
  if valid && Z.ltb retryCount MAX_RETRY_COUNT then retry (retryCount + 1)%Z
  else shutdown_and_exit.

(** Is the event a call of [markRateLimited]? *)
Definition is_mark_rate_limited (e : Event) : bool :=
  match e with
  | Called (MarkRateLimited _ _) _ => true
  | _ => false
  end.

(** Kinds of events. *)
Definition is_attempt (e : Event) : bool :=
  match e with
  | Attempt _ => true
  | _ => false
  end.

Definition is_chat_request (req : Request) : bool :=
  match req with
  | ReqChat _ _ _ => true
  | _ => false
  end.

(** A chat call: a [fetch] of the chat completion endpoint. *)
Definition is_chat_call (e : Event) : bool :=
  match e with
  | Called c _ =>
      match c with
      | Fetch _ req => is_chat_request req
      | _ => false
      end
  | _ => false
  end.

Definition not_attempt (e : Event) : bool := negb (is_attempt e).

(** The [retryCount] of every attempt of a run, in order. *)
Fixpoint attempt_numbers (events : list Event) : list Z :=
  match events with
  | [] => []
  | Attempt r :: rest => r :: attempt_numbers rest
  | _ :: rest => attempt_numbers rest
  end.

(** [r, r+1, ..., r+k-1] *)
Fixpoint countup (r : Z) (k : nat) : list Z :=
  match k with
  | O => []
  | S k' => r :: countup (r + 1) k'
  end.

(** A chat call is authenticated when its bearer token is truthy; every
    other event counts as authenticated. *)
Definition authenticated_call (e : Event) : bool :=
  match e with
  | Called c _ =>
      match c with
      | Fetch _ (ReqChat _ token _) => truthy token
      | _ => true
      end
  | _ => true
  end.

(** A chat call uses the model [m] when its payload names it; every
    other event counts as using it. *)
Definition uses_model (m : string) (e : Event) : bool :=
  match e with
  | Called c _ =>
      match c with
      | Fetch _ (ReqChat _ _ payload) => String.eqb (p_model payload) m
      | _ => true
      end
  | _ => true
  end.


(** An external call that never throws, whatever the state of the
    platform. *)
Definition never_throws {R : Type} (c : ExtCall R) : Prop :=
  forall x, exists a x', handle c x = (Ok a, x').

(** How the part of the [try] block that holds the page ends. *)
Inductive Held : Type :=
| WhileHeld (result : Result)
| AfterRelease (result : Result)
| Failure (response : ApiResponse).

Definition default_video_usage : JSValue :=
  JObj [("prompt_tokens", JInt 0); ("output_tokens", JInt 0);
        ("total_tokens", JInt 0)].

Definition task_json (response : ApiResponse) : JSValue :=
  match r_data response with
  | TaskData json => json
  | _ => JUndefined
  end.

(** Lines 521-526: the last token check before the request. [None] when
    the request may go on. *)
Definition ensure_token (page : Page) (chatId : JSValue)
  : Comp (option Result) :=
  w <- get_state ;;
  if negb (truthy (authToken w)) then
    t <- call (LocalStorageToken page) ;;
    modify (set_authToken t) ;;
    if negb (truthy t) then ret (Some (RError token_missing chatId))
    else call (SaveAuthToken t) ;; ret None
  else ret None.

(** Lines 537-598: the response is a task. *)
Definition handle_task (page : Page) (response : ApiResponse)
  (model : string) (chatId : JSValue) (waitForCompletion : bool)
  : Comp Held :=
  let data := task_json response in
  taskId <- lift (extractTaskId data) ;;
  if negb (truthy taskId) then
    pagePool_releasePage page ;;
    ret (AfterRelease (RTaskIdMissing chatId data))
  else if negb waitForCompletion then
    pagePool_releasePage page ;;
    ret (AfterRelease
           (RTaskCreated taskId model chatId
              (js_or (opt_prop (opt_prop data "data") "parent_id") taskId)))
  else
    w <- get_state ;;
    taskResult <- pollTaskStatus taskId page (authToken w)
                    TASK_POLL_MAX_ATTEMPTS TASK_POLL_INTERVAL ;;
    pagePool_releasePage page ;;
    if pr_success taskResult && String.eqb (pr_status taskResult) "completed"
    then
      match extractVideoUrl (pr_data taskResult) with
      | Ok videoUrl =>
          ret (AfterRelease
                 (RVideo taskId model
                    (js_or videoUrl (JStr (JSON_stringify (pr_data taskResult))))
                    (js_or (opt_prop (pr_data taskResult) "usage")
                       default_video_usage)
                    chatId videoUrl))
      | Throw error => ret (AfterRelease (RError error chatId))
      end
    else
      ret (AfterRelease
             (RVideoFailed
                (js_or (pr_error taskResult) (JStr "Video generation failed"))
                (pr_status taskResult) chatId taskId)).

(** Lines 521-612: the token check, the request, and what is made of
    the response. *)
Definition send_request (page : Page) (a : SendArgs) (messageContent : JSValue)
  (model : string) (chatId : JSValue) : Comp Held :=
  missing <- ensure_token page chatId ;;
  match missing with
  | Some result => ret (WhileHeld result)
  | None =>
      match buildPayloadV2 messageContent model chatId (a_parentId a)
              (a_files a) (a_systemMessage a) (a_tools a) (a_toolChoice a)
              (a_chatType a) (a_size a) with
      | Throw e => throw e
      | Ok payload =>
          let apiUrl := CHAT_API_URL +++ "?chat_id=" +++ to_string chatId in
          w <- get_state ;;
          response <- executeApiRequest page apiUrl payload (authToken w) ;;
          if r_success response && r_isTask response then
            handle_task page response model chatId (a_waitForCompletion a)
          else
            pagePool_releasePage page ;;
            if r_success response then
              match r_data response with
              | ChatData data =>
                  t <- now ;;
                  ret (AfterRelease
                         (RCompletion
                            {| cc_id := js_or (cc_id data)
                                          (JStr ("chatcmpl-" +++ Z_to_string t));
                               cc_model := cc_model data;
                               cc_content := cc_content data;
                               cc_usage := cc_usage data;
                               cc_response_id := cc_response_id data |}
                            chatId (cc_response_id data)))
              | _ => ret (AfterRelease
                            (RError (type_error "undefined" "chatId") chatId))
              end
            else ret (Failure response)
      end
  end.

(** Lines 516-612: from the page being acquired to the end of the [try]
    block. *)
Definition send_with_page (page : Page) (a : SendArgs) (messageContent : JSValue)
  (model : string) (chatId : JSValue) : Comp Held :=
  verificationNeeded <- call (CheckVerification page) ;;
  (if verificationNeeded then call (Reload page) else ret tt) ;;
  send_request page a messageContent model chatId.

(** [sendMessage], lines 480-620: the request once the list of models is
    loaded. [retry] is the self-call made through [handleApiError]. *)
Definition sendMessage_request (retry : SendArgs -> Z -> Comp Result)
  (a : SendArgs) (retryCount : Z) : Comp Result :=
  created <- (if negb (truthy (a_chatId a)) then
                newChatResult <- createChatV2 (a_model a) ;;
                if opt_nonempty (cr_error newChatResult)
                then ret (inl (match cr_error newChatResult with
                               | Some e => e
                               | None => ""
                               end))
                else ret (inr (cr_chatId newChatResult))
              else ret (inr (a_chatId a))) ;;
  match created with
  | inl error => ret (RChatNotCreated ("Не удалось создать чат: " +++ error))
  | inr chatId =>
      validated <- lift (validateAndPrepareMessage (a_message a)) ;;
      match validated with
      | inl error => ret (RError error chatId)
      | inr messageContent =>
          model <- resolve_model (a_model a) ;;
          browserContext <- call GetBrowserContext ;;
          match browserContext with
          | None => ret (RError "Браузер не инициализирован" chatId)
          | Some _ =>
              tokenObj <- resolveAuthToken browserContext ;;
              match tokenObj with
              | None =>
                  ret (RError "Ошибка авторизации: не удалось получить токен"
                         chatId)
              | Some _ =>
                  acquired <- try_catch
                                (page <- pagePool_getPage browserContext ;;
                                 ret (inl page))
                                (fun error => ret (inr error)) ;;
                  match acquired with
                  | inr error => ret (RError error chatId)
                  | inl page =>
                      held <- try_catch
                                (send_with_page page a messageContent model
                                   chatId)
                                (fun error =>
                                   ret (WhileHeld (RError error chatId))) ;;
                      match held with
                      | WhileHeld result =>
                          close_held_page page ;; ret result
                      | AfterRelease result => ret result
                      | Failure response =>
                          handleApiError
                            (retry (retry_args a model chatId))
                            response tokenObj chatId retryCount
                      end
                  end
              end
          end
      end
  end.

(** [sendMessage], lines 477-625, with [fuel] bounding the depth of the
    self-calls made through [handleApiError]. *)
Fixpoint sendMessage_fuel (fuel : nat) (a : SendArgs) (retryCount : Z)
  : Comp Result :=
  match fuel with
  | O => fun w => (OutOfFuel, w)
  | S n =>
      modify (log_event (Attempt retryCount)) ;;
      load_models ;;
      sendMessage_request (sendMessage_fuel n) a retryCount
  end.

(** [sendMessage]: the self-calls stop once [retryCount] reaches
    [MAX_RETRY_COUNT], so this much fuel is never used up. *)
Definition sendMessage (a : SendArgs) (retryCount : Z) : Comp Result :=
  sendMessage_fuel (S (Z.to_nat (MAX_RETRY_COUNT - retryCount))) a retryCount.

End World.

(* ------------------------------------------------------------------ *)
(** ** The other exports of [chat.js] *)

Section Exports.

Context {P : Platform}.

(** [clearPagePool()], lines 643-645, and [getAuthToken()], lines
    647-649. *)
Definition clearPagePool : Comp unit := pagePool_clear.

Definition getAuthToken : Comp JSValue :=
  w <- get_state ;; ret (authToken w).

(** An entry of [getAllModels()]. *)
Record ModelInfo : Type := {
  mi_id : string;
  mi_name : string;
  mi_description : string
}.

Definition model_info (model : string) : ModelInfo :=
  {| mi_id := model; mi_name := model; mi_description := "Модель " +++ model |}.

(** [getAllModels()], lines 226-235. *)
Definition getAllModels : Comp (list ModelInfo) :=
  l <- load_models ;;
  ret (map model_info l).

(** The payload of [testToken] (line 728): a message [ping], not
    streamed; the fields it does not have are [undefined]. *)
Definition ping_payload : Payload :=
  {| p_stream := false; p_chat_id := JUndefined; p_model := DEFAULT_MODEL;
     p_parent_id := JUndefined; p_content := JStr "ping"; p_chat_type := "t2t";
     p_files := JUndefined; p_thinking_enabled := false; p_size := None;
     p_system_message := None; p_tools := None |}.

(** Lines 742-745: what [testToken] makes of [ok] and [status]. *)
Definition token_verdict (ok : bool) (status : Z) : string :=
  if ok || Z.eqb status 400 then "OK"
  else if Z.eqb status 401 || Z.eqb status 403 then "UNAUTHORIZED"
  else if Z.eqb status 429 then "RATELIMIT"
  else "ERROR".

(** The script of lines 731-740: [ok] and [status] of the answer, or
    [false] and [0] when the request fails. *)
Definition test_script (page : Page) (token : JSValue) : Comp (bool * Z) :=
  call (Evaluate page) ;;
  try_catch
    (res <- call (Fetch page (ReqChat CHAT_API_URL token ping_payload)) ;;
     ret (resp_ok res, resp_status res))
    (fun _ => ret (false, 0%Z)).

(** [testToken(token)], lines 716-756. The [finally] block closes the
    page once [getPage] has returned one. *)
Definition testToken (token : JSValue) : Comp string :=
  browserContext <- call GetBrowserContext ;;
  match browserContext with
  | None => ret "ERROR"
  | Some _ =>
      acquired <- try_catch
                    (page <- getPage browserContext ;; ret (Some page))
                    (fun _ => ret None) ;;
      match acquired with
      | None => ret "ERROR"
      | Some page =>
          finally_
            (try_catch
               (call (Goto page CHAT_PAGE_URL) ;;
                result <- test_script page token ;;
                ret (token_verdict (fst result) (snd result)))
               (fun _ => ret "ERROR"))
            (if has_newPage browserContext
             then try_catch (call (Close page)) (fun _ => ret tt)
             else ret tt)
      end
  end.

End Exports.

(* ------------------------------------------------------------------ *)
(** ** API keys (lines 199-219 and 237-240)

    The keys live in a file of their own and in the module variable
    [authKeys]; nothing else of [chat.js] touches them. *)

(** The lines that count in a models or keys file:
    [split('\n').map(l => l.trim()).filter(l => l && !l.startsWith('#'))]. *)
Definition file_entries (text : string) : list string :=
  filter model_line (map trim (split_lines text)).

(** The template written when the keys file does not exist. *)
Definition keys_template : string :=
  join (String newline "")
    ["# Файл API-ключей для прокси";
     "# --------------------------------------------";
     "# В этом файле перечислены токены, которые";
     "# прокси будет считать «действительными».";
     "# Один ключ — одна строка без пробелов.";
     "#";
     "# 1) Хотите ОТКЛЮЧИТЬ авторизацию целиком?";
     "#    Оставьте файл пустым — сервер перестанет";
     "#    проверять заголовок Authorization.";
     "#";
     "# 2) Хотите разрешить доступ нескольким людям?";
     "#    Впишите каждый ключ в отдельной строке:";
     "#      d35ab3e1-a6f9-4d...";
     "#      f2b1cd9c-1b2e-4a...";
     "#";
     "# Пустые строки и строки, начинающиеся с «#»,";
     "# игнорируются."].

(** The file [Authorization.txt]: its content when it exists, whether
    [readFileSync] succeeds, and whether [writeFileSync] with the flag
    [wx] succeeds when it does not exist. *)
Record KeysFile : Type := {
  kf_content : option string;
  kf_readable : bool;
  kf_creatable : bool
}.

Definition create_keys_file (f : KeysFile) : KeysFile :=
  {| kf_content := Some keys_template; kf_readable := kf_readable f;
     kf_creatable := kf_creatable f |}.

(** [getAuthKeysFromFile()]: the keys and the file afterwards. *)
Definition getAuthKeysFromFile (f : KeysFile) : list string * KeysFile :=
  match kf_content f with
  | None => ([], if kf_creatable f then create_keys_file f else f)
  | Some text => if kf_readable f then (file_entries text, f) else ([], f)
  end.

(** The module variable [authKeys] and the file. *)
Record KeysModule : Type := {
  km_authKeys : option (list string);
  km_file : KeysFile
}.

(** [getApiKeys()]; an array, even an empty one, is truthy. *)
Definition getApiKeys (s : KeysModule) : list string * KeysModule :=
  match km_authKeys s with
  | Some keys => (keys, s)
  | None =>
      let (keys, f) := getAuthKeysFromFile (km_file s) in
      (keys, {| km_authKeys := Some keys; km_file := f |})
  end.

(** Someone edits the file between two calls. *)
Definition with_file (f : KeysFile) (s : KeysModule) : KeysModule :=
  {| km_authKeys := km_authKeys s; km_file := f |}.

(* ------------------------------------------------------------------ *)
(** ** A JSON reader for the examples

    [parse_json] reads the JSON texts the examples use: objects, arrays,
    strings with the single-character escapes, numbers, [true], [false]
    and [null]. On these it returns what [JSON.parse] returns; a text
    outside this fragment (a [\u] escape) is refused. The theorems below hold for every
    [JSON_parse]; this one only instantiates them. *)

Definition json_ws (c : ascii) : bool :=
  let n := nat_of_ascii c in
  Nat.eqb n 32 || Nat.eqb n 9 || Nat.eqb n 10 || Nat.eqb n 13.

Fixpoint skip_ws (s : string) : string :=
  match s with
  | String c r => if json_ws c then skip_ws r else s
  | EmptyString => s
  end.

Definition is_digit (c : ascii) : bool :=
  match digit_in 10 c with Some _ => true | None => false end.

Definition unescape (c : ascii) : option ascii :=
  if Ascii.eqb c dquote then Some dquote
  else if Ascii.eqb c "\" then Some "\"%char
  else if Ascii.eqb c "/" then Some "/"%char
  else if Ascii.eqb c "b" then Some (ascii_of_nat 8)
  else if Ascii.eqb c "f" then Some (ascii_of_nat 12)
  else if Ascii.eqb c "n" then Some (ascii_of_nat 10)
  else if Ascii.eqb c "r" then Some (ascii_of_nat 13)
  else if Ascii.eqb c "t" then Some (ascii_of_nat 9)
  else None.

(** The characters of a string literal, after its opening quote. *)
Fixpoint read_string (s : string) : option (string * string) :=
  match s with
  | EmptyString => None
  | String c r =>
      if Ascii.eqb c dquote then Some (EmptyString, r)
      else if Ascii.eqb c "\" then
        match r with
        | String e r' =>
            match unescape e, read_string r' with
            | Some x, Some (body, rest) => Some (String x body, rest)
            | _, _ => None
            end
        | EmptyString => None
        end
      else if Nat.ltb (nat_of_ascii c) 32 then None
      else
        match read_string r with
        | Some (body, rest) => Some (String c body, rest)
        | None => None
        end
  end.

Definition starts_exponent (s : string) : bool :=
  match s with
  | String c _ => Ascii.eqb c "e" || Ascii.eqb c "E"
  | EmptyString => false
  end.

(** A number without its sign: digits with no leading zero, then an
    optional fraction and an optional exponent. *)
Definition read_number (negative : bool) (s : string)
  : option (Double * string) :=
  match read_digits 10 0 0 s with
  | (int, ni, rest) =>
      if (ni =? 0)%Z || (String.prefix "0" s && (1 <? ni)%Z) then None
      else
        let '(m, nf, rest1, complete) :=
          match rest with
          | String c r =>
              if Ascii.eqb c "." then
                let '(m, nf, r1) := read_digits 10 int 0 r in
                (m, nf, r1, (0 <? nf)%Z)
              else (int, 0%Z, rest, true)
          | EmptyString => (int, 0%Z, rest, true)
          end in
        if negb complete then None
        else
          match read_exponent rest1 with
          | Some (ex, rest2) =>
              Some (round_decimal negative m (ni + nf) (ex - nf), rest2)
          | None =>
              if starts_exponent rest1 then None
              else Some (round_decimal negative m (ni + nf) (- nf), rest1)
          end
  end.

(** A later member replaces an earlier one of the same name. *)
Fixpoint obj_set (k : string) (v : JSValue) (fields : list (string * JSValue))
  : list (string * JSValue) :=
  match fields with
  | [] => [(k, v)]
  | (k', v') :: r =>
      if String.eqb k k' then (k', v) :: r else (k', v') :: obj_set k v r
  end.

Fixpoint parse_value (fuel : nat) (s : string) : option (JSValue * string) :=
  match fuel with
  | O => None
  | S f =>
      match skip_ws s with
      | EmptyString => None
      | String c r =>
          if Ascii.eqb c "{" then
            match skip_ws r with
            | String d r' =>
                if Ascii.eqb d "}" then Some (JObj [], r')
                else parse_members f [] (String d r')
            | EmptyString => None
            end
          else if Ascii.eqb c "[" then
            match skip_ws r with
            | String d r' =>
                if Ascii.eqb d "]" then Some (JArr [], r')
                else parse_elements f [] (String d r')
            | EmptyString => None
            end
          else if Ascii.eqb c dquote then
            match read_string r with
            | Some (body, rest) => Some (JStr body, rest)
            | None => None
            end
          else if Ascii.eqb c "-" then
            match read_number true r with
            | Some (x, rest) => Some (JNum x, rest)
            | None => None
            end
          else if is_digit c then
            match read_number false (String c r) with
            | Some (x, rest) => Some (JNum x, rest)
            | None => None
            end
          else if String.prefix "true" (String c r)
          then Some (JBool true, substring_from 4 (String c r))
          else if String.prefix "false" (String c r)
          then Some (JBool false, substring_from 5 (String c r))
          else if String.prefix "null" (String c r)
          then Some (JNull, substring_from 4 (String c r))
          else None
      end
  end
with parse_elements (fuel : nat) (acc : list JSValue) (s : string)
  : option (JSValue * string) :=
  match fuel with
  | O => None
  | S f =>
      match parse_value f s with
      | Some (v, rest) =>
          match skip_ws rest with
          | String c r =>
              if Ascii.eqb c "," then parse_elements f (acc ++ [v]) r
              else if Ascii.eqb c "]" then Some (JArr (acc ++ [v]), r)
              else None
          | EmptyString => None
          end
      | None => None
      end
  end
with parse_members (fuel : nat) (acc : list (string * JSValue)) (s : string)
  : option (JSValue * string) :=
  match fuel with
  | O => None
  | S f =>
      match skip_ws s with
      | String q r =>
          if Ascii.eqb q dquote then
            match read_string r with
            | Some (key, rest) =>
                match skip_ws rest with
                | String c r' =>
                    if Ascii.eqb c ":" then
                      match parse_value f r' with
                      | Some (v, rest') =>
                          match skip_ws rest' with
                          | String d r'' =>
                              if Ascii.eqb d ","
                              then parse_members f (obj_set key v acc) r''
                              else if Ascii.eqb d "}"
                              then Some (JObj (obj_set key v acc), r'')
                              else None
                          | EmptyString => None
                          end
                      | None => None
                      end
                    else None
                | EmptyString => None
                end
            | None => None
            end
          else None
      | EmptyString => None
      end
  end.

Definition parse_json (s : string) : option JSValue :=
  match parse_value (2 * String.length s + 2) s with
  | Some (v, rest) =>
      match skip_ws rest with
      | EmptyString => Some v
      | _ => None
      end
  | None => None
  end.

(** A JSON text written with apostrophes for its double quotes. *)
Fixpoint json_text (s : string) : string :=
  match s with
  | EmptyString => EmptyString
  | String c r => String (if Ascii.eqb c "'" then dquote else c) (json_text r)
  end.

(* ------------------------------------------------------------------ *)
(** ** Streams for the examples *)

(** A text followed by a line feed. *)
Definition line (s : string) : string := s +++ String newline "".


(** One read that holds a finishing frame and, after it, another frame. *)
Definition finish_then_more : list string :=
  [line (json_text "data: {'choices':[{'delta':{'content':'a','status':'finished'}}]}")
   +++ line (json_text "data: {'choices':[{'delta':{'content':'b'}}]}");
   line (json_text "data: {'choices':[{'delta':{'content':'c'}}]}")].

(* ------------------------------------------------------------------ *)
(** ** A scripted platform for the examples

    The platform answers from a script: a fixed browser context, account
    and page storage, and a list of responses that successive [fetch]
    calls receive in order. *)

Record Script : Type := {
  s_context : option Context;
  s_account : option TokenObj;
  s_has_valid : bool;
  s_storage : JSValue;
  s_responses : list Response;
  s_now : Z
}.

Definition next_response (s : Script) : Script :=
  {| s_context := s_context s; s_account := s_account s;
     s_has_valid := s_has_valid s; s_storage := s_storage s;
     s_responses := tl (s_responses s); s_now := s_now s |}.

Definition scripted_handle (R : Type) (c : ExtCall R) (s : Script)
  : Throwing R * Script :=
  match c in ExtCall T return Throwing T * Script with
  | GetBrowserContext => (Ok (s_context s), s)
  | GetAuthenticationStatus => (Ok true, s)
  | SetAuthenticationStatus _ => (Ok tt, s)
  | ShutdownBrowser => (Ok tt, s)
  | InitBrowser _ => (Ok tt, s)
  | CheckAuthentication _ => (Ok true, s)
  | CheckVerification _ => (Ok false, s)
  | SaveAuthToken _ => (Ok tt, s)
  | GetAvailableToken => (Ok (s_account s), s)
  | MarkRateLimited _ _ => (Ok tt, s)
  | MarkInvalid _ => (Ok tt, s)
  | HasValidTokens => (Ok (s_has_valid s), s)
  | NewPage => (Ok tt, s)
  | Goto _ _ => (Ok tt, s)
  | Reload _ => (Ok tt, s)
  | Close _ => (Ok tt, s)
  | Evaluate _ => (Ok tt, s)
  | LocalStorageToken _ => (Ok (s_storage s), s)
  | Fetch _ _ =>
      match s_responses s with
      | r :: _ => (Ok r, next_response s)
      | [] => (Throw "TypeError: Failed to fetch", s)
      end
  | ReadModelsFile => (Ok None, s)
  end.

Definition scripted (maxRetry : Z) (poolSize maxPoll : nat) : Platform :=
  {| Ext := Script;
     handle := scripted_handle;
     clock := s_now;
     JSON_parse := parse_json;
     JSON_stringify := fun _ => "{}";
     CHAT_API_URL := "https://chat.qwen.ai/api/v2/chat/completions";
     CREATE_CHAT_URL := "https://chat.qwen.ai/api/v2/chats/new";
     CHAT_PAGE_URL := "https://chat.qwen.ai/";
     TASK_STATUS_URL := "https://chat.qwen.ai/api/v1/tasks/status";
     RETRY_DELAY := 2000;
     PAGE_POOL_SIZE := poolSize;
     DEFAULT_MODEL := "qwen-max-latest";
     MAX_RETRY_COUNT := maxRetry;
     TASK_POLL_MAX_ATTEMPTS := maxPoll;
     TASK_POLL_INTERVAL := 2000 |}.

(** A Playwright-style context and a Puppeteer-style one (the page 0). *)
Definition playwright : Context := {| ctx_page := None; ctx_newPage := true |}.
Definition puppeteer : Context := {| ctx_page := Some 0; ctx_newPage := false |}.

Definition account (id token : string) : TokenObj :=
  {| tok_id := JStr id; tok_token := JStr token |}.

Definition http (ok : bool) (status : Z) (statusText body : string) : Response :=
  {| resp_ok := ok; resp_status := status; resp_statusText := statusText;
     resp_body := {| chunks := [body]; failure := None |} |}.

Definition script_of (context : Context) (responses : list Response) : Script :=
  {| s_context := Some context; s_account := Some (account "acc-1" "token-1");
     s_has_valid := true; s_storage := JNull; s_responses := responses;
     s_now := 1700000000000 |}.

(** The world at start-up: nothing cached, an empty pool, an empty
    trace. *)
Definition start (P : Platform) (s : @Ext P) : @World P :=
  {| authToken := JNull; availableModels := None; pages := []; fresh := 1;
     ext := s; trace := [] |}.

Definition video_request (chatId : JSValue) : SendArgs :=
  {| a_message := JStr "A calm ocean"; a_model := Some "qwen-max-latest";
     a_chatId := chatId; a_parentId := JNull; a_files := JNull;
     a_tools := JNull; a_toolChoice := JNull; a_systemMessage := JNull;
     a_chatType := "t2v"; a_size := JStr "16:9"; a_waitForCompletion := true |}.

Definition text_request (model : option string) (chatId : JSValue) : SendArgs :=
  {| a_message := JStr "What is the capital of France?"; a_model := model;
     a_chatId := chatId; a_parentId := JNull; a_files := JNull;
     a_tools := JNull; a_toolChoice := JNull; a_systemMessage := JNull;
     a_chatType := "t2t"; a_size := JNull; a_waitForCompletion := true |}.

(** A streamed answer of three frames in one read. *)
Definition paris_stream : Response :=
  http true 200 "OK"
    (line (json_text "data: {'response.created':{'response_id':'r1'}}")
     +++ line (json_text "data: {'choices':[{'delta':{'content':'Paris'}}]}")
     +++ line (json_text "data: {'choices':[{'delta':{'content':'','status':'finished'}}],'usage':{'input_tokens':7}}")).

(** The same script with no usable account left. *)
Definition no_accounts (s : Script) : Script :=
  {| s_context := s_context s; s_account := s_account s;
     s_has_valid := false; s_storage := s_storage s;
     s_responses := s_responses s; s_now := s_now s |}.

(** Four answers [401 Unauthorized] while the token manager keeps
    reporting usable accounts. *)
Definition always_unauthorized : Script :=
  script_of playwright
    [http false 401 "Unauthorized" "{}"; http false 401 "Unauthorized" "{}";
     http false 401 "Unauthorized" "{}"; http false 401 "Unauthorized" "{}"].

(** Status 403 with a body that carries the verification marker. *)
Definition verification_failure : ApiResponse :=
  api_http_error 403 "Forbidden" "<html><title>Verification</title></html>".

(** Status 401. *)
Definition unauthorized_failure : ApiResponse :=
  api_http_error 401 "Unauthorized" "{}".

(** Status 429 with a JSON body that names two hours, one that names
    none, and one that is not JSON. *)
Definition rate_limited_two_hours : ApiResponse :=
  api_http_error 429 "Too Many Requests"
    (json_text "{'error':'RateLimited','num':2}").

Definition rate_limited_no_hours : ApiResponse :=
  api_http_error 429 "Too Many Requests" (json_text "{'error':'RateLimited'}").

Definition rate_limited_plain : Script :=
  script_of playwright
    [http false 429 "Too Many Requests" "RateLimited";
     http false 429 "Too Many Requests" "RateLimited";
     http false 429 "Too Many Requests" "RateLimited"].

(** A platform whose pages cannot be navigated: every [goto] times out;
    everything else is answered as by the scripted platform. *)
Definition navigation_timeout : Exn :=
  "TimeoutError: page.goto: Timeout 30000ms exceeded.".

Definition offline_handle (R : Type) (c : ExtCall R) (s : Script)
  : Throwing R * Script :=
  match c in ExtCall T return Throwing T * Script with
  | Goto _ _ => (Throw navigation_timeout, s)
  | c' => scripted_handle c' s
  end.

Definition offline : Platform :=
  {| Ext := Script;
     handle := offline_handle;
     clock := s_now;
     JSON_parse := parse_json;
     JSON_stringify := fun _ => "{}";
     CHAT_API_URL := "https://chat.qwen.ai/api/v2/chat/completions";
     CREATE_CHAT_URL := "https://chat.qwen.ai/api/v2/chats/new";
     CHAT_PAGE_URL := "https://chat.qwen.ai/";
     TASK_STATUS_URL := "https://chat.qwen.ai/api/v1/tasks/status";
     RETRY_DELAY := 2000;
     PAGE_POOL_SIZE := 1;
     DEFAULT_MODEL := "qwen-max-latest";
     MAX_RETRY_COUNT := 2;
     TASK_POLL_MAX_ATTEMPTS := 3;
     TASK_POLL_INTERVAL := 2000 |}.

(* ------------------------------------------------------------------ *)
(** ** The vocabulary of the properties *)

Unset Implicit Arguments.

Section Vocabulary.

Context {P : Platform}.

(** [spec J q total R m]: started in a world whose model list satisfies
    [J], [m] ends in a world whose model list satisfies [J]; every event it
    appends to the trace satisfies [q]; a value it returns satisfies [R];
    and, when [total] is set, it does not run out of fuel. *)
Definition spec {A : Type} (J : option (list string) -> Prop)
  (q : Event -> bool) (total : bool) (R : A -> Prop) (m : Comp A) : Prop :=
  forall w, J (availableModels w) ->
    J (availableModels (snd (m w)))
    /\ (exists events, trace (snd (m w)) = trace w ++ events
                       /\ forallb q events = true)
    /\ (forall a, fst (m w) = Done a -> R a)
    /\ (total = true -> fst (m w) <> OutOfFuel).

(** [counts S m]: [m] does not run out of fuel, and the attempt numbers
    of the events it appends satisfy [S]. *)
Definition counts {A : Type} (S : list Z -> Prop) (m : Comp A) : Prop :=
  forall w,
    fst (m w) <> OutOfFuel
    /\ exists events,
         trace (snd (m w)) = trace w ++ events
         /\ S (attempt_numbers events).

(** A computation that makes no attempt and does not run out of fuel. *)
Definition quiet {A : Type} (m : Comp A) : Prop :=
  spec (fun _ => True) not_attempt true (fun _ : A => True) m.

(** The attempts of [sendMessage] started with [retryCount = r]: at least
    one, at most one per value from [r] to [MAX_RETRY_COUNT], numbered
    consecutively. *)
Definition attempts_from (r : Z) (l : list Z) : Prop :=
  exists k, 1 <= k <= Z.to_nat (MAX_RETRY_COUNT - r) + 1 /\ l = countup r k.

(** The attempts that follow the one with [retryCount = r]. *)
Definition retries_after (r : Z) (l : list Z) : Prop :=
  l = [] \/ ((r < MAX_RETRY_COUNT)%Z /\ attempts_from (r + 1) l).

End Vocabulary.


(* ------------------------------------------------------------------ *)
(** ** Module state and triples *)

Section Triples.

Context {P : Platform}.

(** The part of the world that [chat.js] owns: the cached token, the
    cached list of models and the idle set of the pool. External calls
    leave it alone. *)
Record ModState : Type := {
  mod_token : JSValue;
  mod_models : option (list string);
  mod_pages : list Page
}.

Definition module_of (w : World) : ModState :=
  {| mod_token := authToken w; mod_models := availableModels w;
     mod_pages := pages w |}.

Definition with_token (t : JSValue) (m : ModState) : ModState :=
  {| mod_token := t; mod_models := mod_models m; mod_pages := mod_pages m |}.

Definition with_models (l : list string) (m : ModState) : ModState :=
  {| mod_token := mod_token m; mod_models := Some l; mod_pages := mod_pages m |}.

Definition with_pages (l : list Page) (m : ModState) : ModState :=
  {| mod_token := mod_token m; mod_models := mod_models m; mod_pages := l |}.

(** [triple Pre q m Post Exc]: started in a module state that satisfies
    [Pre], the computation [m] appends only events that satisfy [q]; when
    it returns [a] the module state satisfies [Post a], when it throws
    the module state satisfies [Exc]. *)
Definition triple {A : Type} (Pre : ModState -> Prop) (q : Event -> Prop)
  (m : Comp A) (Post : A -> ModState -> Prop) (Exc : ModState -> Prop) : Prop :=
  forall w, Pre (module_of w) ->
    (exists events, trace (snd (m w)) = trace w ++ events
                    /\ Forall q events)
    /\ (forall a, fst (m w) = Done a -> Post a (module_of (snd (m w))))
    /\ (forall e, fst (m w) = Raised e -> Exc (module_of (snd (m w)))).

End Triples.

(** Kinds of events. *)
Definition is_fetch (e : Event) : bool :=
  match e with
  | Called (Fetch _ _) _ => true
  | _ => false
  end.

Definition is_read_models (e : Event) : bool :=
  match e with
  | Called ReadModelsFile _ => true
  | _ => false
  end.

Definition is_create_request (req : Request) : bool :=
  match req with
  | ReqCreateChat _ _ _ _ => true
  | _ => false
  end.

(** A call that creates a chat, and a call that asks for the status of a
    task. *)
Definition is_create_call (e : Event) : bool :=
  match e with
  | Called (Fetch _ req) _ => is_create_request req
  | _ => false
  end.

Definition is_status_call (e : Event) : bool :=
  match e with
  | Called (Fetch _ req) _ => is_status_request req
  | _ => false
  end.

(** An event that is neither a [fetch], nor the reading of the models
    file, nor the mark of an attempt. *)
Definition plain (e : Event) : bool :=
  negb (is_fetch e) && negb (is_read_models e) && negb (is_attempt e).

(** The bearer token of a request. *)
Definition request_token (req : Request) : JSValue :=
  match req with
  | ReqChat _ token _ => token
  | ReqCreateChat _ token _ _ => token
  | ReqTaskStatus _ token => token
  end.

(** Every [fetch] carries a truthy bearer token. *)
Definition authenticated (e : Event) : bool :=
  match e with
  | Called (Fetch _ req) _ => truthy (request_token req)
  | _ => true
  end.

(** A request polls only when it asks for a video and waits for it. *)
Definition polls (a : SendArgs) : bool :=
  String.eqb (a_chatType a) "t2v" && a_waitForCompletion a.

Section RunPredicates.

Context {P : Platform}.

(** The idle set is within the capacity of the pool when a run returns or
    throws. *)
Definition within_capacity {A : Type} (run : Outcome A * World) : Prop :=
  match fst run with
  | Done _ | Raised _ => List.length (pages (snd run)) <= PAGE_POOL_SIZE
  | _ => True
  end.

(** The list of models is [l] when a run returns or throws. *)
Definition models_are {A : Type} (l : list string) (run : Outcome A * World)
  : Prop :=
  match fst run with
  | Done _ | Raised _ => availableModels (snd run) = Some l
  | _ => True
  end.

End RunPredicates.

(** A well-formed part of a composite message: an object whose [type] is
    [text], [image] or [file] and whose field of that name is a string. *)
Definition well_formed_part (item : JSValue) : Prop :=
  nullish item = false
  /\ exists kind text,
       In kind ["text"; "image"; "file"]
       /\ opt_prop item "type" = JStr kind
       /\ opt_prop item kind = JStr text.

(** The hours a rate-limit answer embeds in its [num], as
    [Number(num) || 24] reads them: a number other than zero is taken as
    it is; a text is read as a numeric literal, an array through its
    text; a missing or empty value, zero and what is no number give the
    default of 24 hours. An object with a property named [toString]
    cannot be converted and embeds nothing. *)
Inductive embeds : JSValue -> Double -> Prop :=
| embeds_number (x : Double) :
    number_truthy x = true -> embeds (JNum x) x
| embeds_zero (x : Double) :
    number_truthy x = false -> embeds (JNum x) (Double_of_Z 24)
| embeds_absent : embeds JUndefined (Double_of_Z 24)
| embeds_null : embeds JNull (Double_of_Z 24)
| embeds_false : embeds (JBool false) (Double_of_Z 24)
| embeds_true : embeds (JBool true) (Double_of_Z 1)
| embeds_text (s : string) :
    number_truthy (string_to_number s) = true ->
    embeds (JStr s) (string_to_number s)
| embeds_no_number (s : string) :
    number_truthy (string_to_number s) = false ->
    embeds (JStr s) (Double_of_Z 24)
| embeds_array (items : list JSValue) (hours : Double) :
    convertible (JArr items) = true ->
    embeds (JStr (to_string (JArr items))) hours ->
    embeds (JArr items) hours
| embeds_object (fields : list (string * JSValue)) :
    has_key "toString" fields = false ->
    embeds (JObj fields) (Double_of_Z 24).

(** A text made of white-space characters only. *)
Definition blank (s : string) : Prop :=
  exists parts,
    Forall (fun p => In p white_space) parts /\ s = String.concat "" parts.

(** A text that neither starts nor ends with a white-space character. *)
Definition tight (m : string) : Prop :=
  (forall p rest, In p white_space -> m <> p +++ rest)
  /\ (forall rest p, In p white_space -> m <> rest +++ p).

(** [m] is [line] without the white space around it. *)
Definition stripped (line m : string) : Prop :=
  (exists l r, line = l +++ m +++ r /\ blank l /\ blank r) /\ tight m.

(** A line of a models or keys file that counts: no white space around
    it, not empty, not a comment. *)
Definition listed (entry : string) : Prop :=
  tight entry /\ nonempty entry = true /\ startsWith entry "#" = false.

(** The entries of a models or keys file [text]: its lines, each without
    the white space around it, those left out that are empty or start
    with [#]; in the order of the file. *)
Definition entries_of (text : string) (l : list string) : Prop :=
  exists ms,
    Forall2 stripped (split_lines text) ms
    /\ l = filter (fun m => nonempty m && negb (startsWith m "#")) ms.

(** The calls that close the pages of a list, each with its answer. *)
Definition closings (answers : list (Page * Throwing unit)) : list Event :=
  map (fun pr => Called (Close (fst pr)) (snd pr)) answers.

(** *** Exhaustion, as the specification speaks of it *)

Section ExhaustionVocabulary.

Context {P : Platform}.

(** No Account remains usable: the token manager says so whenever it is
    asked. *)
Definition no_account_usable : Prop :=
  forall x, fst (handle HasValidTokens x) = Ok false.

(** The orderly shutdown of lines 449-451: every idle page is asked to
    close, then the browser is shut down, then the process exits with
    code 1. *)
Definition orderly_shutdown (idle : list Page) (events : list Event) : Prop :=
  exists answers,
    map fst answers = idle
    /\ events = closings answers
                ++ [Called ShutdownBrowser (Ok tt); ProcessExit 1].

(** The events of a run that ended the process: the token manager was
    asked whether Accounts remain, which only the Unauthorized branch
    does, and the orderly shutdown followed. *)
Definition ends_in_shutdown (events : list Event) : Prop :=
  exists before valid idle shutdown,
    events = before ++ Called HasValidTokens (Ok valid) :: shutdown
    /\ orderly_shutdown idle shutdown.

(** [m] ends the process only with code 1 and only that way. *)
Definition exits_orderly {A : Type} (m : Comp A) : Prop :=
  forall w,
    exists events,
      trace (snd (m w)) = trace w ++ events
      /\ forall code,
           fst (m w) = Exited code ->
           code = 1%Z /\ ends_in_shutdown events.

(** What the Unauthorized branch does to the Account before it asks for
    the Accounts that remain: it marks the Account invalid when it has an
    id. *)
Definition marks_invalid (tokenObj : option TokenObj) : list Event :=
  if truthy (id_of tokenObj)
  then [Called (MarkInvalid (id_of tokenObj)) (Ok tt)]
  else [].

End ExhaustionVocabulary.

(** *** The poller, as the specification speaks of it *)

Definition completed_statuses : list string := ["completed"; "success"].
Definition failed_statuses : list string := ["failed"; "error"].
Definition terminal_statuses : list string :=
  completed_statuses ++ failed_statuses.

Section PollVocabulary.

Context {P : Platform}.

(** The task document a status request was answered with: the request
    went through, the answer is a success, and its body arrived whole and
    is JSON. Every other answer is a failed transport. *)
Definition answered_document (r : Throwing Response) : option JSValue :=
  match r with
  | Throw _ => None
  | Ok response =>
      if resp_ok response then
        match failure (resp_body response) with
        | Some _ => None
        | None => JSON_parse (body_text (resp_body response))
        end
      else None
  end.

(** The status a task document reports: its [task_status], or else its
    [status]. *)
Definition reported_status (document : JSValue) : JSValue :=
  match document with
  | JObj fields =>
      if truthy (lookup "task_status" fields)
      then lookup "task_status" fields
      else lookup "status" fields
  | _ => JUndefined
  end.

(** [status] is one of the texts [statuses]. *)
Definition names_one (statuses : list string) (status : JSValue) : bool :=
  match status with
  | JStr text => existsb (String.eqb text) statuses
  | _ => false
  end.

(** The document of an answer that reports one of [statuses]. *)
Definition tick_reports (statuses : list string) (r : Throwing Response)
  : option JSValue :=
  match answered_document r with
  | Some document =>
      if names_one statuses (reported_status document) then Some document
      else None
  | None => None
  end.

(** The result of a check that reported completion, and what is known of
    the result of one that reported failure. *)
Definition completed_result (document : JSValue) : PollResult :=
  {| pr_success := true; pr_status := "completed"; pr_error := JUndefined;
     pr_data := document |}.

Definition failed_result (document : JSValue) (result : PollResult) : Prop :=
  pr_success result = false
  /\ pr_status result = "failed"
  /\ pr_data result = document.

(** The event is the answer to a status request and reports one of
    [statuses]. *)
Definition reports_status (statuses : list string) (e : Event) : bool :=
  match e with
  | Called c r =>
      match c in ExtCall T return Throwing T -> bool with
      | Fetch _ (ReqTaskStatus _ _) =>
          fun r => match tick_reports statuses r with
                   | Some _ => true
                   | None => false
                   end
      | _ => fun _ => false
      end r
  | _ => false
  end.

(** The tick at [w] fails in transport: the page refuses to run the
    status script, or the status request gets no task document. *)
Definition transport_fails (page : Page) (url : string) (token : JSValue)
  (w : World) (events : list Event) : Prop :=
  (exists e x,
      handle (Evaluate page) (ext w) = (Throw e, x)
      /\ events = [Called (Evaluate page) (Throw e)])
  \/ (exists x1 r x2,
        handle (Evaluate page) (ext w) = (Ok tt, x1)
        /\ handle (Fetch page (ReqTaskStatus url token)) x1 = (r, x2)
        /\ answered_document r = None
        /\ events = [Called (Evaluate page) (Ok tt);
                     Called (Fetch page (ReqTaskStatus url token)) r]).

End PollVocabulary.

(** The pauses of a run. *)
Definition is_delay (e : Event) : bool :=
  match e with
  | Delayed _ => true
  | _ => false
  end.

Definition delays (events : list Event) : nat :=
  List.length (filter is_delay events).

(** What the poller of the task at [url] may do on [page]: run the status
    script, ask for the status at [url], and pause for [interval]. *)
Definition poll_step (page : Page) (url : string) (interval : Z) (e : Event)
  : bool :=
  match e with
  | Delayed ms => Z.eqb ms interval
  | Called (Evaluate p) _ => Nat.eqb p page
  | Called (Fetch p (ReqTaskStatus u _)) _ => Nat.eqb p page && String.eqb u url
  | _ => false
  end.

(** The context made a new page; the page [p] was asked to close. *)
Definition is_page_created (e : Event) : bool :=
  match e with
  | Called NewPage (Ok _) => true
  | _ => false
  end.

Definition is_close_of (p : Page) (e : Event) : bool :=
  match e with
  | Called (Close p') _ => Nat.eqb p' p
  | _ => false
  end.

(** The verdicts of [testToken]. *)
Definition verdicts : list string := ["OK"; "UNAUTHORIZED"; "RATELIMIT"; "ERROR"].

(** The event is a chat request that was answered, and [v] is the verdict
    on its answer. *)
Definition verdict_on (v : string) (e : Event) : bool :=
  match e with
  | Called c r =>
      match c in ExtCall T return Throwing T -> bool with
      | Fetch _ (ReqChat _ _ _) =>
          fun r => match r with
                   | Ok resp =>
                       String.eqb v (token_verdict (resp_ok resp) (resp_status resp))
                   | Throw _ => false
                   end
      | _ => fun _ => false
      end r
  | _ => false
  end.

(** A chat call carries the request [a]: its payload holds the message,
    the parent id, the files, the chat type and the size of [a], streams
    unless [a] asks for a video, and names the chat of [a] when [a] names
    one. *)
Definition carries_request (a : SendArgs) (e : Event) : Prop :=
  match e with
  | Called (Fetch _ (ReqChat _ _ payload)) _ =>
      p_content payload = a_message a
      /\ p_parent_id payload = a_parentId a
      /\ p_files payload = js_or (a_files a) (JArr [])
      /\ p_chat_type payload = a_chatType a
      /\ p_stream payload = negb (String.eqb (a_chatType a) "t2v")
      /\ p_size payload = (if truthy (a_size a) then Some (a_size a) else None)
      /\ (truthy (a_chatId a) = true -> p_chat_id payload = a_chatId a)
  | _ => True
  end.

(** A chat call without system message and without tools. *)
Definition bare_call (e : Event) : Prop :=
  match e with
  | Called (Fetch _ (ReqChat _ _ payload)) _ =>
      p_system_message payload = None /\ p_tools payload = None
  | _ => True
  end.

(** The requests that differ from [a] at most in the model, the tools,
    the tool choice and the system message, and in the chat id when [a]
    names no chat. *)
Definition same_request (a a' : SendArgs) : Prop :=
  a_message a' = a_message a
  /\ a_parentId a' = a_parentId a
  /\ a_files a' = a_files a
  /\ a_chatType a' = a_chatType a
  /\ a_size a' = a_size a
  /\ (truthy (a_chatId a) = true -> a_chatId a' = a_chatId a).

(** The requests without tools and system message. *)
Definition bare_request (a : SendArgs) : Prop :=
  a_tools a = JNull /\ a_systemMessage a = JNull.

(** The system message of every chat call of a run, in order. *)
Definition chat_system_messages (events : list Event)
  : list (option JSValue) :=
  flat_map (fun e => match e with
                     | Called (Fetch _ (ReqChat _ _ payload)) _ =>
                         [p_system_message payload]
                     | _ => []
                     end) events.

(* ================================================================== *)
(** * Properties *)

(* ------------------------------------------------------------------ *)
(** ** Lines and frames of a stream *)

Lemma split_lines_not_nil (s : string) : split_lines s <> [].
Proof.
  destruct s as [|c r]; simpl; [discriminate|].
  destruct (Ascii.eqb c newline); [discriminate|].
  destruct (split_lines r); discriminate.
Qed.

Lemma pop_line_last (lines : list string) : pop_line lines = last lines "".
Proof. unfold pop_line. destruct (last lines ""); reflexivity. Qed.

Lemma removelast_cons2 (A : Type) (x y : A) (l : list A) :
  removelast (x :: y :: l) = x :: removelast (y :: l).
Proof. reflexivity. Qed.

Lemma last_cons2 (A : Type) (x y d : A) (l : list A) :
  last (x :: y :: l) d = last (y :: l) d.
Proof. reflexivity. Qed.

Lemma last_app_r (A : Type) (l1 l2 : list A) (d : A) :
  l2 <> [] -> last (l1 ++ l2) d = last l2 d.
Proof.
  intros Hne. induction l1 as [|x r IH]; [reflexivity|].
  cbn [app]. destruct (r ++ l2) eqn:E.
  - destruct r; [|discriminate]. simpl in E. congruence.
  - rewrite <- IH. reflexivity.
Qed.

(** Splitting a text that arrives in two parts: the complete lines of the
    first part, then the lines of its unfinished tail followed by the
    second part. *)
Lemma split_lines_app (a b : string) :
  split_lines (a +++ b) =
  removelast (split_lines a) ++ split_lines (last (split_lines a) "" +++ b).
Proof.
  induction a as [|c r IH]; [reflexivity|].
  cbn [String.append split_lines].
  destruct (Ascii.eqb c newline) eqn:Hc.
  - pose proof (split_lines_not_nil r) as Hne.
    destruct (split_lines r) as [|l ls] eqn:Hr; [congruence|].
    rewrite removelast_cons2, last_cons2, IH. reflexivity.
  - pose proof (split_lines_not_nil r) as Hne.
    destruct (split_lines r) as [|l ls] eqn:Hr; [congruence|].
    rewrite IH. destruct ls as [|l2 ls].
    + cbn [removelast last app String.append split_lines]. rewrite Hc.
      pose proof (split_lines_not_nil (l +++ b)) as Hne2.
      destruct (split_lines (l +++ b)); [congruence|reflexivity].
    + rewrite removelast_cons2, last_cons2.
      rewrite removelast_cons2. reflexivity.
Qed.

(** The unfinished tail of a text holds no line feed. *)
Lemma split_lines_tail (s : string) :
  split_lines (last (split_lines s) "") = [last (split_lines s) ""].
Proof.
  induction s as [|c r IH]; [reflexivity|].
  cbn [split_lines].
  pose proof (split_lines_not_nil r) as Hne.
  destruct (Ascii.eqb c newline) eqn:Hc.
  - destruct (split_lines r) as [|l ls] eqn:Hr; [congruence|].
    rewrite last_cons2. exact IH.
  - destruct (split_lines r) as [|l ls] eqn:Hr; [congruence|].
    destruct ls as [|l2 ls].
    + cbn [last] in *. cbn [split_lines]. rewrite Hc, IH. reflexivity.
    + rewrite last_cons2. exact IH.
Qed.

Lemma complete_lines_app (a b : string) :
  complete_lines (a +++ b) =
  complete_lines a ++ complete_lines (last (split_lines a) "" +++ b).
Proof.
  unfold complete_lines. rewrite split_lines_app.
  apply removelast_app, split_lines_not_nil.
Qed.

Lemma append_empty_r (s : string) : s +++ "" = s.
Proof. induction s; simpl; congruence. Qed.

Lemma append_assoc (a b c : string) : (a +++ b) +++ c = a +++ (b +++ c).
Proof. induction a; simpl; congruence. Qed.

Section StreamFacts.

Variable JSON_parse : string -> option JSValue.

Lemma frames_of_app (l1 l2 : list string) :
  frames_of JSON_parse (l1 ++ l2) =
  frames_of JSON_parse l1 ++ frames_of JSON_parse l2.
Proof.
  induction l1 as [|l r IH]; [reflexivity|].
  simpl. destruct (frame_of_line JSON_parse l); simpl; congruence.
Qed.


Lemma state_eta (st : StreamState) :
  {| buffer := buffer st; fullContent := fullContent st;
     responseId := responseId st; usage := usage st;
     finished := finished st |} = st.
Proof. destruct st; reflexivity. Qed.

Lemma prop_not_nullish (v : JSValue) (k : string) :
  nullish v = false -> prop v k = Ok (opt_prop v k).
Proof. destruct v; simpl; intros H; try discriminate; reflexivity. Qed.

Lemma truthy_not_nullish (v : JSValue) : truthy v = true -> nullish v = false.
Proof. destruct v; simpl; intros H; try discriminate; reflexivity. Qed.

Lemma index_not_nullish (v : JSValue) (i : nat) :
  nullish v = false -> index v i = Ok (opt_index v i).
Proof. destruct v; simpl; intros H; try discriminate; reflexivity. Qed.

Lemma orb_false_r' (b : bool) : b || false = b.
Proof. destruct b; reflexivity. Qed.

(** A frame that is not [null] runs through lines 388-394 without an
    exception. *)
Lemma process_chunk_frame (f : JSValue) (st : StreamState) :
  nullish f = false ->
  process_chunk f st = (Done tt, apply_frame st f).
Proof.
  intros Hf. unfold process_chunk, apply_frame, frame_content, frame_finished,
    frame_usage, frame_response_id, frame_delta.
  unfold bind at 1. rewrite (prop_not_nullish _ _ Hf). cbn [lift ret].
  set (created := opt_prop f "response.created").
  set (choices := opt_prop f "choices").
  set (u := opt_prop f "usage").
  destruct st as [b c r us fin].
  destruct (truthy created) eqn:Hcr.
  - rewrite (prop_not_nullish _ _ (truthy_not_nullish _ Hcr)).
    unfold bind, lift, ret, modify, set_responseId; cbn.
    rewrite (prop_not_nullish _ _ Hf). fold choices. cbn.
    destruct (truthy choices) eqn:Hch.
    + rewrite (index_not_nullish _ _ (truthy_not_nullish _ Hch)). cbn.
      destruct (truthy (opt_index choices 0)) eqn:Hfirst; cbn.
      * rewrite (prop_not_nullish _ _ (truthy_not_nullish _ Hfirst)). cbn.
        set (delta := opt_prop (opt_index choices 0) "delta").
        destruct (truthy delta) eqn:Hd; cbn.
        -- rewrite !(prop_not_nullish _ _ (truthy_not_nullish _ Hd)). cbn.
           rewrite (prop_not_nullish _ _ Hf). fold u.
           destruct (truthy (opt_prop delta "content")),
             (is_str (opt_prop delta "status") "finished"),
             (truthy u); cbn; rewrite ?orb_true_r, ?orb_false_r', ?append_empty_r;
             reflexivity.
        -- rewrite (prop_not_nullish _ _ Hf). fold u.
           destruct (truthy u); cbn; rewrite ?orb_false_r', ?append_empty_r;
             reflexivity.
      * rewrite (prop_not_nullish _ _ Hf). fold u.
        destruct (truthy u); cbn; rewrite ?orb_false_r', ?append_empty_r;
          reflexivity.
    + rewrite Hch. cbn. rewrite (prop_not_nullish _ _ Hf). fold u.
      destruct (truthy u); cbn; rewrite ?orb_false_r', ?append_empty_r;
        reflexivity.
  - unfold bind, lift, ret, modify; cbn.
    rewrite (prop_not_nullish _ _ Hf). fold choices. cbn.
    destruct (truthy choices) eqn:Hch.
    + rewrite (index_not_nullish _ _ (truthy_not_nullish _ Hch)). cbn.
      destruct (truthy (opt_index choices 0)) eqn:Hfirst; cbn.
      * rewrite (prop_not_nullish _ _ (truthy_not_nullish _ Hfirst)). cbn.
        set (delta := opt_prop (opt_index choices 0) "delta").
        destruct (truthy delta) eqn:Hd; cbn.
        -- rewrite !(prop_not_nullish _ _ (truthy_not_nullish _ Hd)). cbn.
           rewrite (prop_not_nullish _ _ Hf). fold u.
           destruct (truthy (opt_prop delta "content")),
             (is_str (opt_prop delta "status") "finished"),
             (truthy u); cbn; rewrite ?orb_true_r, ?orb_false_r', ?append_empty_r;
             reflexivity.
        -- rewrite (prop_not_nullish _ _ Hf). fold u.
           destruct (truthy u); cbn; rewrite ?orb_false_r', ?append_empty_r;
             reflexivity.
      * rewrite (prop_not_nullish _ _ Hf). fold u.
        destruct (truthy u); cbn; rewrite ?orb_false_r', ?append_empty_r;
          reflexivity.
    + rewrite Hch. cbn. rewrite (prop_not_nullish _ _ Hf). fold u.
      destruct (truthy u); cbn; rewrite ?orb_false_r', ?append_empty_r;
        reflexivity.
Qed.

End StreamFacts.

Section StreamRefinement.

Variable JSON_parse : string -> option JSValue.

(** One line of the buffer: its frame is applied, anything else is
    skipped, and no exception leaves the [try]. *)
Lemma process_line_frame (line : string) (st : StreamState) :
  process_line JSON_parse line st = (Done tt, apply_line JSON_parse st line).
Proof.
  unfold process_line, apply_line, frame_of_line.
  destruct (nonempty (trim line)); [|reflexivity].
  destruct (startsWith line "data: "); [|reflexivity].
  cbn [negb orb andb].
  destruct (nonempty (trim (substring_from 6 line))); [|reflexivity].
  cbn [negb]. unfold try_catch.
  destruct (JSON_parse (trim (substring_from 6 line))) as [chunk|];
    [|reflexivity].
  destruct (nullish chunk) eqn:Hn.
  - destruct chunk; try discriminate; reflexivity.
  - rewrite (process_chunk_frame chunk st Hn). reflexivity.
Qed.


Lemma for_each_lines (lines : list string) (st : StreamState) :
  for_each (process_line JSON_parse) lines st = (Done tt, apply_lines JSON_parse st lines).
Proof.
  revert st. induction lines as [|l r IH]; intros st; [reflexivity|].
  cbn [for_each]. unfold bind. rewrite process_line_frame. apply IH.
Qed.

Lemma apply_lines_frames (lines : list string) (st : StreamState) :
  apply_lines JSON_parse st lines = apply_frames st (frames_of JSON_parse lines).
Proof.
  revert st. induction lines as [|l r IH]; intros st; [reflexivity|].
  unfold apply_lines, apply_frames in *. cbn [fold_left frames_of].
  rewrite IH. unfold apply_line.
  destruct (frame_of_line JSON_parse l); reflexivity.
Qed.

Lemma apply_frames_app (st : StreamState) (f1 f2 : list JSValue) :
  apply_frames st (f1 ++ f2) = apply_frames (apply_frames st f1) f2.
Proof. apply fold_left_app. Qed.

Lemma apply_frames_finished (fs : list JSValue) (st : StreamState) :
  finished (apply_frames st fs) = finished st || existsb frame_finished fs.
Proof.
  revert st. induction fs as [|f r IH]; intros st.
  - simpl. destruct (finished st); reflexivity.
  - cbn [apply_frames fold_left existsb]. fold (apply_frames (apply_frame st f) r).
    rewrite IH. cbn [apply_frame finished]. symmetry. apply orb_assoc.
Qed.

Lemma apply_frames_buffer (fs : list JSValue) (st : StreamState) :
  buffer (apply_frames st fs) = buffer st.
Proof.
  revert st. induction fs as [|f r IH]; intros st; [reflexivity|].
  cbn [apply_frames fold_left]. fold (apply_frames (apply_frame st f) r).
  rewrite IH. reflexivity.
Qed.

Lemma apply_frames_set_buffer (fs : list JSValue) (b : string) (st : StreamState) :
  apply_frames (set_buffer b st) fs = set_buffer b (apply_frames st fs).
Proof.
  revert st. induction fs as [|f r IH]; intros st; [reflexivity|].
  cbn [apply_frames fold_left]. fold (apply_frames (apply_frame st f) r).
  fold (apply_frames (apply_frame (set_buffer b st) f) r).
  rewrite <- IH. reflexivity.
Qed.

(** The loop, read by read: it ends in the state that the frames of the
    consumed text produce, with the unfinished tail in the buffer. *)
Lemma read_loop_frames (reads : list string) (st : StreamState) :
  finished st = false ->
  split_lines (buffer st) = [buffer st] ->
  let text := buffer st +++ String.concat "" (consumed JSON_parse (buffer st) reads) in
  read_loop JSON_parse None reads st =
  (Done tt,
   set_buffer (last (split_lines text) "")
     (apply_frames st (frames_of JSON_parse (complete_lines text)))).
Proof.
  revert st. induction reads as [|value rest IH]; intros st Hfin Hbuf text.
  - subst text. cbn [consumed String.concat read_loop]. rewrite Hfin.
    rewrite append_empty_r. unfold complete_lines. rewrite Hbuf.
    cbn [removelast frames_of last apply_frames fold_left].
    unfold set_buffer. rewrite state_eta. reflexivity.
  - cbn [read_loop]. rewrite Hfin.
    unfold bind at 1. unfold modify at 1.
    unfold bind at 1. rewrite for_each_lines, apply_lines_frames.
    cbn [buffer set_buffer].
    set (lines := split_lines (buffer st +++ value)).
    rewrite pop_line_last.
    set (st1 := apply_frames (set_buffer (last lines "") st)
                  (frames_of JSON_parse (removelast lines))).
    assert (Hb1 : buffer st1 = last lines "").
    { subst st1. rewrite apply_frames_buffer. reflexivity. }
    assert (Hf1 : finished st1 =
                  existsb frame_finished (frames_of JSON_parse (removelast lines))).
    { subst st1. rewrite apply_frames_finished. cbn [set_buffer finished].
      rewrite Hfin. reflexivity. }
    subst text. cbn [consumed]. fold lines. rewrite pop_line_last.
    destruct (existsb frame_finished (frames_of JSON_parse (removelast lines)))
      eqn:Hex.
    + (* the loop stops after this read *)
      destruct rest as [|v2 rest2]; cbn [read_loop]; rewrite Hf1;
        cbn [String.concat]; rewrite ?append_empty_r;
        unfold complete_lines; fold lines;
        subst st1; rewrite apply_frames_set_buffer; reflexivity.
    + (* the loop goes on with the tail as its buffer *)
      specialize (IH st1 Hf1).
      rewrite Hb1 in IH. specialize (IH (split_lines_tail _)).
      cbn zeta in IH. rewrite IH. clear IH.
      assert (Htext : buffer st +++
                      String.concat "" (value :: consumed JSON_parse (last lines "") rest)
                      = (buffer st +++ value) +++
                        String.concat "" (consumed JSON_parse (last lines "") rest)).
      { rewrite append_assoc. f_equal.
        destruct (consumed JSON_parse (last lines "") rest) eqn:Hc;
          cbn [String.concat]; rewrite ?append_empty_r; reflexivity. }
      rewrite Htext. clear Htext.
      set (more := String.concat "" (consumed JSON_parse (last lines "") rest)).
      rewrite (complete_lines_app (buffer st +++ value) more). fold lines.
      rewrite (split_lines_app (buffer st +++ value) more). fold lines.
      rewrite frames_of_app.
      unfold complete_lines at 1. fold lines.
      rewrite apply_frames_app.
      assert (Hlast : forall d,
                last (removelast lines ++ split_lines (last lines "" +++ more)) d
                = last (split_lines (last lines "" +++ more)) d).
      { intros d. apply last_app_r. apply split_lines_not_nil. }
      rewrite !Hlast.
      subst st1. rewrite !apply_frames_set_buffer.
      unfold set_buffer; cbn; reflexivity.
Qed.


Lemma concat_cons (x : string) (r : list string) :
  String.concat "" (x :: r) = x +++ String.concat "" r.
Proof. destruct r; cbn [String.concat]; rewrite ?append_empty_r; reflexivity. Qed.

Lemma apply_frames_snoc (st : StreamState) (fs : list JSValue) (f : JSValue) :
  apply_frames st (fs ++ [f]) = apply_frame (apply_frames st fs) f.
Proof. rewrite apply_frames_app. reflexivity. Qed.

Lemma last_some_snoc (A : Type) (l : list (option A)) (o : option A) :
  last_some (l ++ [o]) =
  match o with Some a => Some a | None => last_some l end.
Proof.
  unfold last_some. rewrite rev_app_distr. cbn [rev app first_some].
  destruct o; reflexivity.
Qed.

Lemma apply_frames_content (fs : list JSValue) (st : StreamState) :
  fullContent (apply_frames st fs) = fullContent st +++ contents_of fs.
Proof.
  revert st. induction fs as [|f r IH]; intros st.
  - cbn. rewrite append_empty_r. reflexivity.
  - cbn [apply_frames fold_left]. fold (apply_frames (apply_frame st f) r).
    rewrite IH. unfold contents_of. cbn [map]. rewrite concat_cons.
    cbn [apply_frame fullContent]. apply append_assoc.
Qed.

Lemma apply_frames_usage (fs : list JSValue) (st : StreamState) :
  usage (apply_frames st fs) =
  match last_some (map frame_usage fs) with
  | Some u => u
  | None => usage st
  end.
Proof.
  induction fs as [|f r IH] using rev_ind; [reflexivity|].
  rewrite apply_frames_snoc, map_app. cbn [map]. rewrite last_some_snoc.
  cbn [apply_frame usage]. rewrite IH.
  destruct (frame_usage f); reflexivity.
Qed.

Lemma apply_frames_responseId (fs : list JSValue) (st : StreamState) :
  responseId (apply_frames st fs) =
  match last_some (map frame_response_id fs) with
  | Some u => u
  | None => responseId st
  end.
Proof.
  induction fs as [|f r IH] using rev_ind; [reflexivity|].
  rewrite apply_frames_snoc, map_app. cbn [map]. rewrite last_some_snoc.
  cbn [apply_frame responseId]. rewrite IH.
  destruct (frame_response_id f); reflexivity.
Qed.

(** When no frame signals completion, every read is consumed. *)
Lemma consumed_all (reads : list string) (buf : string) :
  existsb frame_finished
    (frames_of JSON_parse (complete_lines (buf +++ String.concat "" reads))) = false ->
  consumed JSON_parse buf reads = reads.
Proof.
  revert buf. induction reads as [|value rest IH]; intros buf H; [reflexivity|].
  cbn [consumed]. rewrite concat_cons, <- append_assoc in H.
  rewrite complete_lines_app, frames_of_app, existsb_app in H.
  apply orb_false_iff in H. destruct H as [H1 H2].
  unfold complete_lines in H1. rewrite H1. rewrite pop_line_last.
  f_equal. apply IH. exact H2.
Qed.



Lemma aggregate_stream_frames (now : Z) (model : string) (reads : list string) :
  aggregate_stream JSON_parse now model {| chunks := reads; failure := None |} =
  Ok (completion_of_frames now model (applied_frames JSON_parse reads)).
Proof.
  unfold aggregate_stream. cbn [chunks failure].
  rewrite (read_loop_frames reads stream_init eq_refl eq_refl).
  cbn [buffer stream_init String.append].
  fold (applied_frames JSON_parse reads). f_equal.
  unfold completion_of, completion_of_frames.
  cbn [set_buffer fullContent responseId usage].
  rewrite apply_frames_content, apply_frames_usage, apply_frames_responseId.
  cbn [stream_init fullContent usage responseId String.append].
  unfold or_null.
  destruct (last_some (map frame_response_id (applied_frames JSON_parse reads)));
    destruct (last_some (map frame_usage (applied_frames JSON_parse reads))); reflexivity.
Qed.

End StreamRefinement.




(** The frames that follow the finishing frame in the same read are still
    aggregated; those of later reads are not. *)
Example stream_finishing_read_is_completed :
  option_map cc_content
    (match aggregate_stream parse_json 0 "m"
             {| chunks := finish_then_more; failure := None |} with
     | Ok c => Some c
     | Throw _ => None
     end) = Some "ab"
  /\ contents_of (through_finished (stream_frames parse_json finish_then_more)) = "a".
Proof. split; vm_compute; reflexivity. Qed.

(* ------------------------------------------------------------------ *)
(** ** Task-id extraction *)

Lemma extractTaskId_first_truthy (data : JSValue) :
  nullish data = false ->
  extractTaskId data = Ok (first_truthy (task_id_candidates data)).
Proof.
  intros Hd. unfold extractTaskId, task_id_candidates, nested_task_ref.
  rewrite (prop_not_nullish _ _ Hd). cbn [first_truthy].
  destruct (truthy (opt_prop (opt_prop (opt_prop
             (opt_index (opt_prop (opt_prop data "data") "messages") 0)
             "extra") "wanx") "task_id")); [reflexivity|].
  unfold js_or.
  destruct (truthy (opt_prop data "id")); [reflexivity|].
  destruct (truthy (opt_prop data "task_id")); [reflexivity|].
  destruct (truthy (opt_prop data "response_id")); [reflexivity|].
  destruct (truthy (opt_prop (opt_prop data "data") "message_id")); reflexivity.
Qed.

Lemma extractTaskId_nullish (data : JSValue) :
  nullish data = true -> exists e, extractTaskId data = Throw e.
Proof.
  destruct data; simpl; intros H; try discriminate; eexists; reflexivity.
Qed.

Section TaskRequest.

Context {P : Platform}.

Lemma releasePage_done (page : Page) (w : World) :
  exists w', pagePool_releasePage page w = (Done tt, w').
Proof.
  unfold pagePool_releasePage, bind, get_state.
  destruct (Nat.ltb (List.length (pages w)) PAGE_POOL_SIZE).
  - eexists; reflexivity.
  - unfold try_catch, call. destruct (handle (Close page) (ext w)) as [[a|e] x].
    + destruct a. eexists; reflexivity.
    + eexists; reflexivity.
Qed.

(** The request path of a task response without any task id. *)
Lemma handle_task_missing (page : Page) (response : ApiResponse)
  (model : string) (chatId : JSValue) (wait : bool) (w : World) :
  nullish (task_json response) = false ->
  truthy (first_truthy (task_id_candidates (task_json response))) = false ->
  fst (handle_task page response model chatId wait w) =
  Done (AfterRelease (RTaskIdMissing chatId (task_json response))).
Proof.
  intros Hd Hnone. unfold handle_task.
  unfold bind at 1. rewrite (extractTaskId_first_truthy _ Hd).
  cbn [lift ret]. rewrite Hnone. cbn [negb].
  unfold bind. destruct (releasePage_done page w) as [w' Hw]. rewrite Hw.
  reflexivity.
Qed.

End TaskRequest.

(** C2 (as amended). For every task-creation response body other than
    [null], [extractTaskId] returns the first truthy value among the nested
    provider-specific task reference, the top-level [id], the top-level
    [task_id], the [response_id] and the nested [message_id], in this
    order, and [null] when none is truthy; in that last case the request
    ends with the error [Task ID not found in response]. In particular a
    truthy nested reference wins over everything else, and the body
    [{"data":{"message_id":"m1"}}] yields ["m1"]. *)
Theorem extractTaskId_precedence (data : JSValue) :
  nullish data = false ->
  extractTaskId data = Ok (first_truthy (task_id_candidates data))
  /\ (truthy (nested_task_ref data) = true ->
      extractTaskId data = Ok (nested_task_ref data))
  /\ (forall (P : Platform) (page : Page) (response : ApiResponse)
        (model : string) (chatId : JSValue) (wait : bool) (w : World),
        task_json response = data ->
        truthy (first_truthy (task_id_candidates data)) = false ->
        fst (handle_task page response model chatId wait w) =
        Done (AfterRelease (RTaskIdMissing chatId data)))
  /\ extractTaskId (JObj [("data", JObj [("message_id", JStr "m1")])]) =
     Ok (JStr "m1").
Proof.
  intros Hd. split; [apply extractTaskId_first_truthy; exact Hd|].
  split.
  - intros Hn. rewrite (extractTaskId_first_truthy _ Hd).
    cbn [task_id_candidates first_truthy]. rewrite Hn. reflexivity.
  - split; [|reflexivity].
    intros P page response model chatId wait w Hr Hnone. subst data.
    apply handle_task_missing; assumption.
Qed.

(** C2, witness: a body with a nested task reference and a top-level id. *)
Lemma extractTaskId_precedence_witness :
  let body := JObj [("id", JStr "top");
                    ("data", JObj [("messages",
                       JArr [JObj [("extra",
                         JObj [("wanx", JObj [("task_id", JStr "nested")])])]])])] in
  extractTaskId body = Ok (JStr "nested").
Proof.
  intros body.
  destruct (extractTaskId_precedence body eq_refl) as [_ [Hnested _]].
  exact (Hnested eq_refl).
Defined.

(** C2, counterexample: the upstream answers a video request with the JSON
    document [null]. Extraction throws, and the request ends with the text
    of the exception, not with the task-id-missing error. *)
Lemma extractTaskId_null_body :
  extractTaskId JNull = Throw (type_error "null" "data")
  /\ fst (@sendMessage (scripted 2 1 3) (video_request (JStr "chat-1")) 0
            (start (scripted 2 1 3)
               (script_of playwright [http true 200 "OK" "null"]))) =
     Done (RError "TypeError: Cannot read properties of null (reading 'data')"
             (JStr "chat-1")).
Proof. split; vm_compute; reflexivity. Qed.

(* ------------------------------------------------------------------ *)
(** ** Task polling *)

Section PollFacts.

Context {P : Platform}.
Variables (taskId : JSValue) (page : Page) (token : JSValue).
Variables (maxAttempts : nat) (interval : Z).

Lemma response_text_result (r : Response) (w : World) :
  response_text r w =
  match failure (resp_body r) with
  | Some e => (Raised e, w)
  | None => (Done (body_text (resp_body r)), w)
  end.
Proof. unfold response_text. destruct (failure (resp_body r)); reflexivity. Qed.

(** The status script when the page refuses to run it, and when it runs
    it: the script turns the answer of its [fetch] into its result
    without an exception. *)
Lemma status_script_refused (url : string) (w : World) (e : Exn) (x : Ext) :
  handle (Evaluate page) (ext w) = (Throw e, x) ->
  exists w',
    status_script page url token w = (Raised e, w')
    /\ trace w' = trace w ++ [Called (Evaluate page) (Throw e)].
Proof.
  intros He. unfold status_script, bind, call. rewrite He.
  eexists. split; reflexivity.
Qed.

Lemma status_script_answered (url : string) (w : World) (x1 x2 : Ext)
  (r : Throwing Response) :
  handle (Evaluate page) (ext w) = (Ok tt, x1) ->
  handle (Fetch page (ReqTaskStatus url token)) x1 = (r, x2) ->
  exists w',
    status_script page url token w = (Done (script_result r), w')
    /\ trace w' = trace w ++ [Called (Evaluate page) (Ok tt);
                              Called (Fetch page (ReqTaskStatus url token)) r].
Proof.
  intros He Hf.
  destruct (status_script page url token w) as [o w'] eqn:Hs.
  unfold status_script, bind, call, try_catch in Hs. rewrite He in Hs.
  cbn [ext trace] in Hs. rewrite Hf in Hs. exists w'.
  destruct r as [resp|e]; unfold script_result.
  - unfold response_json, bind in Hs.
    destruct (resp_ok resp); cbn [negb] in Hs; cbv beta in Hs;
      rewrite !response_text_result in Hs;
      destruct (failure (resp_body resp));
      try destruct (JSON_parse (body_text (resp_body resp)));
      cbn in Hs; inversion Hs; subst; cbn [negb trace];
      rewrite <- app_assoc; split; reflexivity.
  - cbn in Hs. inversion Hs; subst. cbn [trace].
    rewrite <- app_assoc. split; reflexivity.
Qed.

Lemma status_script_run (url : string) (w : World) :
  (exists e w',
      status_script page url token w = (Raised e, w')
      /\ trace w' = trace w ++ [Called (Evaluate page) (Throw e)]
      /\ transport_fails page url token w [Called (Evaluate page) (Throw e)])
  \/ (exists r w',
      status_script page url token w = (Done (script_result r), w')
      /\ trace w' = trace w ++ [Called (Evaluate page) (Ok tt);
                                 Called (Fetch page (ReqTaskStatus url token)) r]
      /\ (answered_document r = None ->
          transport_fails page url token w
            [Called (Evaluate page) (Ok tt);
             Called (Fetch page (ReqTaskStatus url token)) r])).
Proof.
  destruct (handle (Evaluate page) (ext w)) as [[[]|e] x1] eqn:He.
  - destruct (handle (Fetch page (ReqTaskStatus url token)) x1) as [r x2] eqn:Hf.
    destruct (status_script_answered url w x1 x2 r He Hf) as [w' [Hs Ht]].
    right. exists r, w'. split; [exact Hs|]. split; [exact Ht|].
    intros Hnone. right. exists x1, r, x2. auto.
  - destruct (status_script_refused url w e x1 He) as [w' [Hs Ht]].
    left. exists e, w'. split; [exact Hs|]. split; [exact Ht|].
    left. exists e, x1. auto.
Qed.

(** The script succeeds exactly on the answers that carry a document. *)
Lemma script_result_document (r : Throwing Response) :
  match answered_document r with
  | Some document => script_result r = StatusOk document
  | None => exists status error, script_result r = StatusFailed status error
  end.
Proof.
  unfold answered_document, script_result. destruct r as [response|e].
  - destruct (failure (resp_body response)) as [e|].
    + destruct (resp_ok response); eexists; eexists; reflexivity.
    + destruct (resp_ok response); cbn [negb].
      * destruct (JSON_parse (body_text (resp_body response)));
          [reflexivity|eexists; eexists; reflexivity].
      * eexists. eexists. reflexivity.
  - eexists. eexists. reflexivity.
Qed.

(** [taskStatus] is compared with the status the document reports. *)
Lemma task_status_reported (document : JSValue) :
  match task_status_of document with
  | Ok s =>
      status_is_completed s
      = names_one completed_statuses (reported_status document)
      /\ status_is_failed s
         = names_one failed_statuses (reported_status document)
  | Throw _ => reported_status document = JUndefined
  end.
Proof.
  unfold task_status_of, reported_status, status_is_completed,
    status_is_failed, js_or.
  destruct document as [| |b|x|s|items|fields]; cbn [prop truthy];
    try reflexivity; try (split; reflexivity).
  destruct (truthy (lookup "task_status" fields)) eqn:H1.
  - split; destruct (lookup "task_status" fields) as [| |b|x|s|items|fs];
      cbn [is_str names_one existsb completed_statuses failed_statuses];
      rewrite ?orb_false_r; reflexivity.
  - destruct (truthy (lookup "status" fields)) eqn:H2.
    + split; destruct (lookup "status" fields) as [| |b|x|s|items|fs];
        cbn [is_str names_one existsb completed_statuses failed_statuses];
        rewrite ?orb_false_r; reflexivity.
    + split; destruct (lookup "status" fields) as [| |b|x|s|items|fs];
        try discriminate H2; try reflexivity;
        destruct s; try discriminate H2; reflexivity.
Qed.

Lemma tick_reports_names (statuses : list string) (r : Throwing Response) :
  tick_reports statuses r =
  match answered_document r with
  | Some document =>
      if names_one statuses (reported_status document) then Some document
      else None
  | None => None
  end.
Proof. reflexivity. Qed.

Lemma tick_reports_terminal (r : Throwing Response) :
  tick_reports completed_statuses r = None ->
  tick_reports failed_statuses r = None ->
  tick_reports terminal_statuses r = None.
Proof.
  rewrite !tick_reports_names. unfold terminal_statuses, names_one.
  destruct (answered_document r) as [document|]; [|reflexivity].
  destruct (reported_status document) as [| |b|x|s|items|fs]; try reflexivity.
  rewrite existsb_app.
  destruct (existsb (String.eqb s) completed_statuses); [discriminate|].
  destruct (existsb (String.eqb s) failed_statuses); [discriminate|].
  reflexivity.
Qed.

Lemma when_delay (b : bool) (w : World) :
  exists w', when_ b (delay interval) w = (Done tt, w')
             /\ trace w' = trace w ++ pause interval b.
Proof.
  destruct b; cbn.
  - eexists. split; reflexivity.
  - exists w. split; [reflexivity|]. rewrite app_nil_r. reflexivity.
Qed.

Lemma status_checks_app (l1 l2 : list Event) :
  status_checks (l1 ++ l2) = status_checks l1 + status_checks l2.
Proof. unfold status_checks. rewrite filter_app, length_app. reflexivity. Qed.

Lemma pause_quiet (statuses : list string) (b : bool) :
  existsb (reports_status statuses) (pause interval b) = false
  /\ status_checks (pause interval b) = 0.
Proof. destruct b; split; reflexivity. Qed.

Lemma tick_quiet (statuses : list string) (url : string)
  (r : Throwing Response) (b : bool) :
  tick_reports statuses r = None ->
  existsb (reports_status statuses)
    ([Called (Evaluate page) (Ok tt);
      Called (Fetch page (ReqTaskStatus url token)) r] ++ pause interval b)
  = false.
Proof.
  intros H. rewrite existsb_app, (proj1 (pause_quiet statuses b)).
  cbn [existsb reports_status]. rewrite H. reflexivity.
Qed.

(** An iteration issues exactly one status check. It returns a result
    when the check is answered with a document that reports a terminal
    status, the answer then being the last thing it sees; otherwise it
    pauses, unless it is the last, and the loop goes on. *)
Lemma poll_iteration_run (attempt : nat) (w : World) :
  let url := TASK_STATUS_URL +++ "/" +++ to_string taskId in
  exists events w',
    trace w' = trace w ++ events
    /\ status_checks events = 1
    /\ ((poll_iteration taskId page token maxAttempts interval attempt w
         = (Done None, w')
         /\ existsb (reports_status terminal_statuses) events = false
         /\ exists tick,
              events = tick ++ pause interval (Nat.ltb attempt maxAttempts)
              /\ (transport_fails page url token w tick
                  \/ exists r,
                       tick = [Called (Evaluate page) (Ok tt);
                               Called (Fetch page (ReqTaskStatus url token)) r]))
        \/ (exists r document result,
               poll_iteration taskId page token maxAttempts interval attempt w
               = (Done (Some result), w')
               /\ events = [Called (Evaluate page) (Ok tt);
                            Called (Fetch page (ReqTaskStatus url token)) r]
               /\ ((tick_reports completed_statuses r = Some document
                    /\ result = completed_result document)
                   \/ (tick_reports failed_statuses r = Some document
                       /\ failed_result document result)))).
Proof.
  intros url.
  destruct (poll_iteration taskId page token maxAttempts interval attempt w)
    as [o wf] eqn:Hit.
  unfold poll_iteration, poll_attempt, try_catch in Hit.
  unfold bind at 1 in Hit. fold url in Hit.
  destruct (status_script_run url w)
    as [[e [w1 [Hs [Ht Hfail]]]]|[r [w1 [Hs [Ht Hfail]]]]];
    rewrite Hs in Hit;
    destruct (when_delay (Nat.ltb attempt maxAttempts) w1) as [w2 [Hd Ht2]].
  - (* the page did not run the script *)
    unfold bind in Hit. rewrite Hd in Hit. cbn [ret] in Hit.
    inversion Hit; subst o wf.
    exists ([Called (Evaluate page) (Throw e)]
            ++ pause interval (Nat.ltb attempt maxAttempts)), w2.
    split; [rewrite Ht2, Ht, <- app_assoc; reflexivity|].
    split; [rewrite status_checks_app, (proj2 (pause_quiet [] _)); reflexivity|].
    left. split; [reflexivity|]. split.
    + rewrite existsb_app, (proj1 (pause_quiet _ _)). reflexivity.
    + eexists. split; [reflexivity|]. left. exact Hfail.
  - pose proof (script_result_document r) as Hdoc.
    pose proof (tick_reports_names completed_statuses r) as Hc.
    pose proof (tick_reports_names failed_statuses r) as Hf.
    assert (Hpending :
              tick_reports completed_statuses r = None ->
              tick_reports failed_statuses r = None ->
              (answered_document r = None \/ True) ->
              forall w3,
                trace w3 = trace w1 ++ pause interval (Nat.ltb attempt maxAttempts) ->
                exists events w',
                  trace w' = trace w ++ events
                  /\ status_checks events = 1
                  /\ w' = w3
                  /\ existsb (reports_status terminal_statuses) events = false
                  /\ exists tick,
                       events = tick ++ pause interval (Nat.ltb attempt maxAttempts)
                       /\ (transport_fails page url token w tick
                           \/ exists r,
                                tick = [Called (Evaluate page) (Ok tt);
                                        Called (Fetch page (ReqTaskStatus url token)) r])).
    { intros H1 H2 _ w3 H3.
      exists ([Called (Evaluate page) (Ok tt);
               Called (Fetch page (ReqTaskStatus url token)) r]
              ++ pause interval (Nat.ltb attempt maxAttempts)), w3.
      split; [rewrite H3, Ht, <- app_assoc; reflexivity|].
      split; [rewrite status_checks_app, (proj2 (pause_quiet [] _)); reflexivity|].
      split; [reflexivity|].
      split; [apply tick_quiet, tick_reports_terminal; assumption|].
      eexists. split; [reflexivity|]. right. exists r. reflexivity. }
    destruct (answered_document r) as [document|] eqn:Ha.
    + rewrite Hdoc in Hit.
      pose proof (task_status_reported document) as Hst.
      destruct (task_status_of document) as [s|e] eqn:Hts; cbn [lift] in Hit.
      * destruct Hst as [Hsc Hsf].
        unfold bind at 1 in Hit. cbn [ret] in Hit.
        rewrite Hsc, Hsf in Hit. rewrite <- Hsc, <- Hsf in *.
        destruct (status_is_completed s) eqn:Hcs;
          [|destruct (status_is_failed s) eqn:Hfs].
        -- inversion Hit; subst o wf.
           exists [Called (Evaluate page) (Ok tt);
                   Called (Fetch page (ReqTaskStatus url token)) r], w1.
           split; [exact Ht|]. split; [reflexivity|]. right.
           exists r, document. eexists. split; [reflexivity|].
           split; [reflexivity|]. left. split; [exact Hc|reflexivity].
        -- inversion Hit; subst o wf.
           exists [Called (Evaluate page) (Ok tt);
                   Called (Fetch page (ReqTaskStatus url token)) r], w1.
           split; [exact Ht|]. split; [reflexivity|]. right.
           exists r, document. eexists. split; [reflexivity|].
           split; [reflexivity|]. right. split; [exact Hf|].
           repeat split; reflexivity.
        -- unfold bind in Hit. rewrite Hd in Hit. cbn [ret] in Hit.
           inversion Hit; subst o wf.
           destruct (Hpending Hc Hf (or_intror I) w2 Ht2)
             as [events [w' [H1 [H2 [H3 [H4 H5]]]]]].
           exists events, w'. split; [exact H1|]. split; [exact H2|].
           left. subst w'. split; [reflexivity|]. split; assumption.
      * unfold bind, throw in Hit. rewrite Hd in Hit. cbn [ret] in Hit.
        inversion Hit; subst o wf.
        rewrite Hst in Hc, Hf. cbn in Hc, Hf.
        destruct (Hpending Hc Hf (or_intror I) w2 Ht2)
          as [events [w' [H1 [H2 [H3 [H4 H5]]]]]].
        exists events, w'. split; [exact H1|]. split; [exact H2|].
        left. subst w'. split; [reflexivity|]. split; assumption.
    + destruct Hdoc as [status [error Hdoc]]. rewrite Hdoc in Hit.
      unfold bind in Hit. rewrite Hd in Hit. cbn [ret] in Hit.
      inversion Hit; subst o wf.
      exists ([Called (Evaluate page) (Ok tt);
               Called (Fetch page (ReqTaskStatus url token)) r]
              ++ pause interval (Nat.ltb attempt maxAttempts)), w2.
      split; [rewrite Ht2, Ht, <- app_assoc; reflexivity|].
      split; [rewrite status_checks_app, (proj2 (pause_quiet [] _)); reflexivity|].
      left. split; [reflexivity|].
      split; [apply tick_quiet, tick_reports_terminal; assumption|].
      eexists. split; [reflexivity|]. left. apply Hfail. reflexivity.
Qed.

(** The loop with [n] iterations to go. *)
Lemma poll_loop_run (n attempt : nat) (w : World) :
  let url := TASK_STATUS_URL +++ "/" +++ to_string taskId in
  exists events result w',
    poll_loop taskId page token maxAttempts interval n attempt w
    = (Done result, w')
    /\ trace w' = trace w ++ events
    /\ status_checks events <= n
    /\ ((result = poll_timeout
         /\ status_checks events = n
         /\ existsb (reports_status terminal_statuses) events = false)
        \/ (exists before r document,
               events = before
                        ++ [Called (Fetch page (ReqTaskStatus url token)) r]
               /\ existsb (reports_status terminal_statuses) before = false
               /\ ((tick_reports completed_statuses r = Some document
                    /\ result = completed_result document)
                   \/ (tick_reports failed_statuses r = Some document
                       /\ failed_result document result)))).
Proof.
  intros url. revert attempt w. induction n as [|n IH]; intros attempt w.
  - exists [], poll_timeout, w. split; [reflexivity|].
    split; [rewrite app_nil_r; reflexivity|]. split; [apply le_n|].
    left. repeat split; reflexivity.
  - cbn [poll_loop].
    fold (poll_iteration taskId page token maxAttempts interval attempt).
    unfold bind.
    destruct (poll_iteration_run attempt w)
      as [ev1 [w1 [Ht1 [Hc1 [[Hit [Hq _]]
                            |[r [document [res [Hit [He Hcase]]]]]]]]]];
      rewrite Hit.
    + destruct (IH (S attempt) w1) as [ev2 [result [w2 [Hl [Ht2 [Hn Hcase]]]]]].
      exists (ev1 ++ ev2), result, w2.
      split; [exact Hl|].
      split; [rewrite Ht2, Ht1, app_assoc; reflexivity|].
      rewrite status_checks_app, Hc1.
      split; [apply le_n_S; exact Hn|].
      destruct Hcase as [[Hto [Hall Hnone]]
                        |[before [r [document [He2 [Hb2 Hres]]]]]].
      * left. split; [exact Hto|]. split; [rewrite Hall; reflexivity|].
        rewrite existsb_app, Hq, Hnone. reflexivity.
      * right. exists (ev1 ++ before), r, document.
        split; [rewrite He2, app_assoc; reflexivity|].
        split; [rewrite existsb_app, Hq, Hb2; reflexivity|exact Hres].
    + exists ev1, res, w1. split; [reflexivity|]. split; [exact Ht1|].
      rewrite Hc1. split; [apply le_n_S, Nat.le_0_l|].
      right. exists [Called (Evaluate page) (Ok tt)], r, document.
      split; [exact He|]. split; [reflexivity|exact Hcase].
Qed.


End PollFacts.


(** Scenario: [maxAttempts = 3], every check answers [processing]. After
    three checks the result is the timeout; the fourth answer of the
    script is still unread. *)
Example poll_three_processing :
  let P := scripted 2 1 3 in
  let processing := http true 200 "OK" (json_text "{'task_status':'processing'}") in
  let run := @pollTaskStatus P (JStr "task-1") 1 (JStr "token-1") 3 10
               (start P (script_of playwright
                           [processing; processing; processing; processing])) in
  fst run = Done poll_timeout
  /\ status_checks (trace (snd run)) = 3
  /\ List.length (s_responses (ext (snd run))) = 1.
Proof. vm_compute. repeat split; reflexivity. Qed.

(** Scenario: the second check reports [completed]; no third check. *)
Example poll_completed_second :
  let P := scripted 2 1 3 in
  let run := @pollTaskStatus P (JStr "task-1") 1 (JStr "token-1") 3 10
               (start P (script_of playwright
                  [http true 200 "OK" (json_text "{'task_status':'processing'}");
                   http true 200 "OK" (json_text "{'status':'success'}");
                   http true 200 "OK" (json_text "{'status':'failed'}")])) in
  option_map pr_status (match fst run with Done r => Some r | _ => None end)
  = Some "completed"
  /\ status_checks (trace (snd run)) = 2.
Proof. vm_compute. repeat split; reflexivity. Qed.

(** Scenario: the first check fails in transport (status 502), the second
    reports [error]: two checks, one pause between them, a failed
    result. *)
Example poll_transport_failure_then_error :
  let P := scripted 2 1 3 in
  let run := @pollTaskStatus P (JStr "task-1") 1 (JStr "token-1") 3 10
               (start P (script_of playwright
                  [http false 502 "Bad Gateway" "upstream";
                   http true 200 "OK" (json_text "{'task_status':'error'}")])) in
  option_map pr_status (match fst run with Done r => Some r | _ => None end)
  = Some "failed"
  /\ status_checks (trace (snd run)) = 2
  /\ delays (trace (snd run)) = 1.
Proof. vm_compute. repeat split; reflexivity. Qed.

(* ------------------------------------------------------------------ *)
(** ** The rules of the program logic *)

Section Logic.

Context {P : Platform}.

Variable J : option (list string) -> Prop.
Variable q : Event -> bool.
Variable total : bool.

Lemma spec_ret (A : Type) (R : A -> Prop) (a : A) : R a -> spec J q total R (ret a).
Proof.
  intros Ha w Hw. cbn. split; [exact Hw|]. split.
  - exists []. rewrite app_nil_r. split; reflexivity.
  - split; [intros a' E; inversion E; subst; exact Ha|discriminate].
Qed.

Lemma spec_throw (A : Type) (R : A -> Prop) (e : Exn) :
  spec J q total R (throw e).
Proof.
  intros w Hw. cbn. split; [exact Hw|]. split.
  - exists []. rewrite app_nil_r. split; reflexivity.
  - split; [discriminate|discriminate].
Qed.

Lemma spec_lift (A : Type) (R : A -> Prop) (t : Throwing A) :
  (forall a, t = Ok a -> R a) -> spec J q total R (lift t).
Proof.
  intros H. destruct t; cbn [lift]; [apply spec_ret; auto|apply spec_throw].
Qed.

Lemma spec_get_state (R : World -> Prop) :
  (forall w, J (availableModels w) -> R w) -> spec J q total R get_state.
Proof.
  intros H w Hw. cbn. split; [exact Hw|]. split.
  - exists []. rewrite app_nil_r. split; reflexivity.
  - split; [intros a E; inversion E; subst; auto|discriminate].
Qed.

Lemma spec_now (R : Z -> Prop) : (forall t, R t) -> spec J q total R now.
Proof.
  intros H w Hw. cbn. split; [exact Hw|]. split.
  - exists []. rewrite app_nil_r. split; reflexivity.
  - split; [intros a E; inversion E; subst; auto|discriminate].
Qed.

Lemma spec_alloc (R : Page -> Prop) :
  (forall p, R p) -> spec J q total R alloc_page.
Proof.
  intros H w Hw. cbn. split; [exact Hw|]. split.
  - exists []. rewrite app_nil_r. split; reflexivity.
  - split; [intros a E; inversion E; subst; auto|discriminate].
Qed.

Lemma spec_set_authToken (R : unit -> Prop) (t : JSValue) :
  R tt -> spec J q total R (modify (set_authToken t)).
Proof.
  intros H w Hw. cbn. split; [exact Hw|]. split.
  - exists []. rewrite app_nil_r. split; reflexivity.
  - split; [intros a E; inversion E; subst; auto|discriminate].
Qed.

Lemma spec_set_pages (R : unit -> Prop) (l : list Page) :
  R tt -> spec J q total R (modify (set_pages l)).
Proof.
  intros H w Hw. cbn. split; [exact Hw|]. split.
  - exists []. rewrite app_nil_r. split; reflexivity.
  - split; [intros a E; inversion E; subst; auto|discriminate].
Qed.

Lemma spec_set_models (R : unit -> Prop) (l : list string) :
  R tt -> J (Some l) -> spec J q total R (modify (set_availableModels l)).
Proof.
  intros H Hl w Hw. cbn. split; [exact Hl|]. split.
  - exists []. rewrite app_nil_r. split; reflexivity.
  - split; [intros a E; inversion E; subst; auto|discriminate].
Qed.

Lemma spec_log (R : unit -> Prop) (e : Event) :
  R tt -> q e = true -> spec J q total R (modify (log_event e)).
Proof.
  intros H He w Hw. cbn. split; [exact Hw|]. split.
  - exists [e]. split; [reflexivity|]. cbn. rewrite He. reflexivity.
  - split; [intros a E; inversion E; subst; auto|discriminate].
Qed.

Lemma spec_delay (R : unit -> Prop) (ms : Z) :
  R tt -> q (Delayed ms) = true -> spec J q total R (delay ms).
Proof. apply spec_log. Qed.

Lemma spec_exit (A : Type) (R : A -> Prop) (code : Z) :
  q (ProcessExit code) = true -> spec J q total R (exit code).
Proof.
  intros He w Hw. cbn. split; [exact Hw|]. split.
  - exists [ProcessExit code]. split; [reflexivity|]. cbn. rewrite He.
    reflexivity.
  - split; discriminate.
Qed.

Lemma spec_call (A : Type) (R : A -> Prop) (c : ExtCall A) :
  (forall r, q (Called c r) = true) ->
  (forall a, R a) ->
  spec J q total R (call c).
Proof.
  intros Hq HR w Hw. unfold call.
  destruct (handle c (ext w)) as [r x] eqn:Hc.
  assert (Hev : exists events,
             trace w ++ [Called c r] = trace w ++ events
             /\ forallb q events = true).
  { exists [Called c r]. split; [reflexivity|]. cbn. rewrite Hq. reflexivity. }
  destruct r as [a|e]; cbn; (split; [exact Hw|]); (split; [exact Hev|]);
    split; try discriminate; intros a' E; inversion E; subst; apply HR.
Qed.

Lemma spec_bind (A B : Type) (R1 : A -> Prop) (R : B -> Prop)
  (m : Comp A) (k : A -> Comp B) :
  spec J q total R1 m ->
  (forall a, R1 a -> spec J q total R (k a)) ->
  spec J q total R (bind m k).
Proof.
  intros Hm Hk w Hw. unfold bind.
  destruct (Hm w Hw) as [HJ [[ev [Ht Hq]] [HR Ht1]]].
  destruct (m w) as [[a|e|c|] w1]; cbn [fst snd] in *.
  - destruct (Hk a (HR a eq_refl) w1 HJ) as [HJ2 [[ev2 [Ht2 Hq2]] [HR2 Ht3]]].
    split; [exact HJ2|]. split.
    + exists (ev ++ ev2). rewrite Ht2, Ht, app_assoc. split; [reflexivity|].
      rewrite forallb_app, Hq, Hq2. reflexivity.
    + split; assumption.
  - split; [exact HJ|]. split; [exists ev; split; assumption|].
    split; discriminate.
  - split; [exact HJ|]. split; [exists ev; split; assumption|].
    split; discriminate.
  - split; [exact HJ|]. split; [exists ev; split; assumption|].
    split; [discriminate|].
    intros Htot _. exact (Ht1 Htot eq_refl).
Qed.

Lemma spec_try_catch (A : Type) (R : A -> Prop)
  (m : Comp A) (h : Exn -> Comp A) :
  spec J q total R m ->
  (forall e, spec J q total R (h e)) ->
  spec J q total R (try_catch m h).
Proof.
  intros Hm Hh w Hw. unfold try_catch.
  destruct (Hm w Hw) as [HJ [[ev [Ht Hq]] [HR Ht1]]].
  destruct (m w) as [[a|e|c|] w1]; cbn [fst snd] in *.
  - split; [exact HJ|]. split; [exists ev; split; assumption|].
    split; [exact HR|discriminate].
  - destruct (Hh e w1 HJ) as [HJ2 [[ev2 [Ht2 Hq2]] [HR2 Ht3]]].
    split; [exact HJ2|]. split.
    + exists (ev ++ ev2). rewrite Ht2, Ht, app_assoc. split; [reflexivity|].
      rewrite forallb_app, Hq, Hq2. reflexivity.
    + split; assumption.
  - split; [exact HJ|]. split; [exists ev; split; assumption|].
    split; discriminate.
  - split; [exact HJ|]. split; [exists ev; split; assumption|].
    split; [discriminate|exact Ht1].
Qed.

Lemma spec_when (R : unit -> Prop) (b : bool) (m : Comp unit) :
  R tt -> spec J q total R m -> spec J q total R (when_ b m).
Proof.
  intros Ht Hm. destruct b; cbn [when_]; [exact Hm|apply spec_ret; exact Ht].
Qed.

Lemma spec_for_each (A : Type) (body : A -> Comp unit) (l : list A) :
  (forall a, spec J q total (fun _ => True) (body a)) ->
  spec J q total (fun _ => True) (for_each body l).
Proof.
  intros Hb. induction l as [|x r IH]; cbn [for_each].
  - apply spec_ret. exact I.
  - eapply spec_bind; [apply Hb|]. intros _ _. exact IH.
Qed.

Lemma spec_weaken (A : Type) (R R' : A -> Prop) (m : Comp A) :
  spec J q total R m -> (forall a, R a -> R' a) -> spec J q total R' m.
Proof.
  intros Hm HR w Hw. destruct (Hm w Hw) as [HJ [Hev [Hr Ht]]].
  split; [exact HJ|]. split; [exact Hev|]. split; [|exact Ht].
  intros a E. apply HR, Hr, E.
Qed.

End Logic.

(* ------------------------------------------------------------------ *)
(** ** The components of [sendMessage] in the program logic *)

Ltac spec_step :=
  match goal with
  | |- spec _ _ _ _ (bind _ _) =>
      apply spec_bind with (R1 := fun _ => True); [|intros ? _]
  | |- spec _ _ _ _ (ret _) => apply spec_ret; exact I
  | |- spec _ _ _ _ (throw _) => apply spec_throw
  | |- spec _ _ _ _ (lift _) => apply spec_lift; intros; exact I
  | |- spec _ _ _ _ get_state => apply spec_get_state; intros; exact I
  | |- spec _ _ _ _ now => apply spec_now; intros; exact I
  | |- spec _ _ _ _ alloc_page => apply spec_alloc; intros; exact I
  | |- spec _ _ _ _ (modify (set_authToken _)) =>
      apply spec_set_authToken; exact I
  | |- spec _ _ _ _ (modify (set_pages _)) => apply spec_set_pages; exact I
  | |- spec _ _ _ _ (try_catch _ _) => apply spec_try_catch; [|intros ?]
  | |- spec _ _ _ _ (when_ _ _) => apply spec_when; [exact I|]
  | |- spec _ _ _ _ (for_each _ _) => apply spec_for_each; intros ?
  | |- spec _ _ _ _ (match ?x with _ => _ end) => destruct x eqn:?
  | |- spec _ _ _ _ (if ?x then _ else _) => destruct x eqn:?
  end.

Section Components.

Context {P : Platform}.
Variable J : option (list string) -> Prop.
Variable q : Event -> bool.
Variable total : bool.

(** The events the components may emit: anything but a chat call and an
    attempt mark. *)
Hypothesis q_other :
  forall e, is_chat_call e = false -> is_attempt e = false -> q e = true.

(** Once the model list is set it is not set again. *)
Hypothesis J_load : J None -> forall l, J (Some l).

Ltac spec_call_step :=
  match goal with
  | |- spec _ _ _ _ (call _) =>
      apply spec_call; [intros ?; apply q_other; reflexivity|intros ?; exact I]
  | |- spec _ _ _ _ (delay _) =>
      apply spec_delay; [exact I|apply q_other; reflexivity]
  | |- spec _ _ _ _ (exit _) => apply spec_exit; apply q_other; reflexivity
  end.

Ltac spec_auto := repeat first [spec_call_step | spec_step].

Lemma getPage_spec (context : option Context) :
  spec J q total (fun _ => True) (getPage context).
Proof. unfold getPage. spec_auto. Qed.

Lemma pagePool_getPage_spec (context : option Context) :
  spec J q total (fun _ => True) (pagePool_getPage context).
Proof.
  unfold pagePool_getPage. spec_auto. apply getPage_spec.
Qed.

Lemma pagePool_releasePage_spec (page : Page) :
  spec J q total (fun _ => True) (pagePool_releasePage page).
Proof. unfold pagePool_releasePage. spec_auto. Qed.

Lemma pagePool_clear_spec : spec J q total (fun _ => True) pagePool_clear.
Proof. unfold pagePool_clear. spec_auto. Qed.

Lemma response_text_spec (r : Response) :
  spec J q total (fun _ => True) (response_text r).
Proof. unfold response_text. spec_auto. Qed.

Lemma response_json_spec (r : Response) :
  spec J q total (fun _ => True) (response_json r).
Proof. unfold response_json. spec_auto. apply response_text_spec. Qed.

Lemma status_script_spec (page : Page) (url : string) (token : JSValue) :
  spec J q total (fun _ => True) (status_script page url token).
Proof.
  unfold status_script. spec_auto;
    first [apply response_text_spec | apply response_json_spec].
Qed.

Lemma poll_loop_spec (taskId : JSValue) (page : Page) (token : JSValue)
  (maxAttempts : nat) (interval : Z) (n attempt : nat) :
  spec J q total (fun _ => True)
    (poll_loop taskId page token maxAttempts interval n attempt).
Proof.
  revert attempt. induction n as [|n IH]; intros attempt; cbn [poll_loop].
  - spec_auto.
  - unfold poll_attempt. spec_auto; try apply status_script_spec. apply IH.
Qed.

Lemma pollTaskStatus_spec (taskId : JSValue) (page : Page) (token : JSValue)
  (maxAttempts : nat) (interval : Z) :
  spec J q total (fun _ => True)
    (pollTaskStatus taskId page token maxAttempts interval).
Proof. apply poll_loop_spec. Qed.

Lemma extractAuthToken_spec (context : option Context) :
  spec J q total (fun _ => True) (extractAuthToken context).
Proof. unfold extractAuthToken. spec_auto; apply getPage_spec. Qed.

Lemma getAvailableModelsFromFile_spec :
  spec J q total (fun _ => True) getAvailableModelsFromFile.
Proof. unfold getAvailableModelsFromFile. spec_auto. Qed.

(** Loading the models returns the list the world then holds. *)
Lemma load_models_list :
  spec J q total (fun l => J (Some l)) load_models.
Proof.
  unfold load_models.
  apply spec_bind with (R1 := fun w => J (availableModels w));
    [apply spec_get_state; auto|].
  intros w Hw. destruct (availableModels w) as [l|].
  - apply spec_ret. exact Hw.
  - apply spec_bind with (R1 := fun _ => True);
      [apply getAvailableModelsFromFile_spec|].
    intros l _. apply spec_bind with (R1 := fun _ => True).
    + apply spec_set_models; [exact I|]. apply J_load. exact Hw.
    + intros _ _. apply spec_ret. apply J_load. exact Hw.
Qed.

Lemma load_models_spec :
  spec J q total (fun _ => True) load_models.
Proof. eapply spec_weaken; [apply load_models_list|auto]. Qed.

Lemma resolve_model_spec (model : option string) :
  spec J q total (fun _ => True) (resolve_model model).
Proof.
  unfold resolve_model, isValidModel. spec_auto; apply load_models_spec.
Qed.

Lemma resolveAuthToken_spec (context : option Context) :
  spec J q total (fun _ => True) (resolveAuthToken context).
Proof.
  unfold resolveAuthToken. spec_auto; apply extractAuthToken_spec.
Qed.

Lemma close_held_page_spec (page : Page) :
  spec J q total (fun _ => True) (close_held_page page).
Proof. unfold close_held_page. spec_auto. Qed.

Lemma create_chat_script_spec (page : Page) (token : JSValue)
  (model : option string) :
  spec J q total (fun _ => True) (create_chat_script page token model).
Proof.
  unfold create_chat_script. spec_auto;
    first [apply response_text_spec | apply response_json_spec].
Qed.

Lemma createChatV2_spec (model : option string) :
  spec J q total (fun _ => True) (createChatV2 model).
Proof.
  unfold createChatV2. spec_auto;
    first [apply extractAuthToken_spec | apply pagePool_getPage_spec
          | apply create_chat_script_spec | apply close_held_page_spec
          | apply pagePool_releasePage_spec].
Qed.

Lemma ensure_token_spec (page : Page) (chatId : JSValue) :
  spec J q total (fun _ => True) (ensure_token page chatId).
Proof. unfold ensure_token. spec_auto. Qed.

Lemma handle_task_spec (page : Page) (response : ApiResponse) (model : string)
  (chatId : JSValue) (wait : bool) :
  spec J q total (fun _ => True) (handle_task page response model chatId wait).
Proof.
  unfold handle_task. spec_auto;
    first [apply pagePool_releasePage_spec | apply pollTaskStatus_spec].
Qed.

(** The executor: its one chat call must be allowed. *)
Lemma executeApiRequest_spec (page : Page) (apiUrl : string)
  (payload : Payload) (token : JSValue) :
  (truthy token = true ->
   forall r, q (Called (Fetch page (ReqChat apiUrl token payload)) r) = true) ->
  spec J q total (fun _ => True) (executeApiRequest page apiUrl payload token).
Proof.
  intros Hchat. unfold executeApiRequest.
  apply spec_bind with (R1 := fun _ => True); [spec_auto|]. intros _ _.
  apply spec_try_catch; [|intros ?; spec_auto].
  destruct (truthy token) eqn:Ht; cbn [negb]; [|spec_auto].
  apply spec_bind with (R1 := fun _ => True).
  - apply spec_call; [intros r; apply Hchat; reflexivity|intros; exact I].
  - intros resp _. spec_auto;
      first [apply response_text_spec | apply response_json_spec].
Qed.

End Components.

Section Orchestration.

Context {P : Platform}.
Variable J : option (list string) -> Prop.
Variable q : Event -> bool.
Variable total : bool.

Hypothesis q_other :
  forall e, is_chat_call e = false -> is_attempt e = false -> q e = true.
Hypothesis J_load : J None -> forall l, J (Some l).

(** The models with which a chat call is allowed. *)
Variable good : string -> Prop.

Hypothesis q_chat :
  forall page url token payload r,
    truthy token = true -> good (p_model payload) ->
    q (Called (Fetch page (ReqChat url token payload)) r) = true.

Ltac spec_call_step :=
  match goal with
  | |- spec _ _ _ _ (call _) =>
      apply spec_call; [intros ?; apply q_other; reflexivity|intros ?; exact I]
  | |- spec _ _ _ _ (delay _) =>
      apply spec_delay; [exact I|apply q_other; reflexivity]
  | |- spec _ _ _ _ (exit _) => apply spec_exit; apply q_other; reflexivity
  end.

Ltac spec_auto := repeat first [spec_call_step | spec_step].

Lemma send_with_page_spec (page : Page) (a : SendArgs) (content : JSValue)
  (model : string) (chatId : JSValue) :
  good model ->
  spec J q total (fun _ => True) (send_with_page page a content model chatId).
Proof.
  intros Hgood. unfold send_with_page, send_request, buildPayloadV2.
  destruct (truthy (a_systemMessage a) && negb (is_string (a_systemMessage a)));
    cbv beta iota; spec_auto;
    first [ apply ensure_token_spec; assumption
          | apply handle_task_spec; assumption
          | apply pagePool_releasePage_spec; assumption
          | apply executeApiRequest_spec; try assumption;
            intros Ht r; apply q_chat; [exact Ht|exact Hgood] ].
Qed.

Lemma mark_from_body_spec (errorBody : string) (tokenObj : option TokenObj) :
  spec J q total (fun _ => True) (mark_from_body errorBody tokenObj).
Proof. unfold mark_from_body. spec_auto. Qed.

Lemma handleApiError_spec (retry : Z -> Comp Result) (response : ApiResponse)
  (tokenObj : option TokenObj) (chatId : JSValue) (retryCount : Z) :
  (forall r, spec J q total (fun _ => True) (retry r)) ->
  spec J q total (fun _ => True)
    (handleApiError retry response tokenObj chatId retryCount).
Proof.
  intros Hretry. unfold handleApiError. spec_auto;
    first [ apply pagePool_clear_spec; assumption
          | apply mark_from_body_spec
          | apply Hretry ].
Qed.

End Orchestration.

Section SendMessageSpec.

Context {P : Platform}.
Variable J : option (list string) -> Prop.
Variable q : Event -> bool.

Hypothesis q_other :
  forall e, is_chat_call e = false -> is_attempt e = false -> q e = true.
Hypothesis q_attempt : forall r, q (Attempt r) = true.
Hypothesis J_load : J None -> forall l, J (Some l).

Variable good : string -> Prop.

Hypothesis q_chat :
  forall page url token payload r,
    truthy token = true -> good (p_model payload) ->
    q (Called (Fetch page (ReqChat url token payload)) r) = true.

(** A model that was resolved resolves to an allowed model again. *)
Hypothesis good_again :
  forall m, good m -> spec J q false good (resolve_model (Some m)).

Ltac spec_call_step :=
  match goal with
  | |- spec _ _ _ _ (call _) =>
      apply spec_call; [intros ?; apply q_other; reflexivity|intros ?; exact I]
  end.

Ltac spec_auto := repeat first [spec_call_step | spec_step].

Lemma sendMessage_request_spec (retry : SendArgs -> Z -> Comp Result)
  (a : SendArgs) (r : Z) :
  (forall m chatId r', good m ->
     spec J q false (fun _ => True) (retry (retry_args a m chatId) r')) ->
  spec J q false good (resolve_model (a_model a)) ->
  spec J q false (fun _ => True) (sendMessage_request retry a r).
Proof.
  intros Hretry Hres. unfold sendMessage_request.
  apply spec_bind with (R1 := fun _ => True).
  { spec_auto. apply createChatV2_spec; assumption. }
  intros created _. destruct created as [error|chatId]; [spec_auto|].
  apply spec_bind with (R1 := fun _ => True); [spec_auto|].
  intros validated _. destruct validated as [error|content]; [spec_auto|].
  apply spec_bind with (R1 := good); [exact Hres|].
  intros model Hgood.
  spec_auto;
    first [ apply resolveAuthToken_spec; assumption
          | apply pagePool_getPage_spec; assumption
          | apply close_held_page_spec; assumption
          | apply send_with_page_spec with (good := good); assumption
          | idtac ].
  apply handleApiError_spec; try assumption.
  intros r'. apply Hretry. exact Hgood.
Qed.

Lemma sendMessage_fuel_spec (fuel : nat) (a : SendArgs) (r : Z) :
  spec J q false good (resolve_model (a_model a)) ->
  spec J q false (fun _ => True) (sendMessage_fuel fuel a r).
Proof.
  revert a r. induction fuel as [|n IH]; intros a r Hres.
  - intros w Hw. cbn. split; [exact Hw|]. split.
    + exists []. rewrite app_nil_r. split; reflexivity.
    + split; discriminate.
  - cbn [sendMessage_fuel].
    apply spec_bind with (R1 := fun _ => True);
      [apply spec_log; [exact I|apply q_attempt]|intros _ _].
    apply spec_bind with (R1 := fun _ => True);
      [apply load_models_spec; assumption|intros _ _].
    apply sendMessage_request_spec; [|exact Hres].
    intros m chatId r' Hgood. apply IH. cbn [retry_args a_model].
    apply good_again. exact Hgood.
Qed.

End SendMessageSpec.

(* ------------------------------------------------------------------ *)
(** ** No unauthenticated chat call *)

Section TokenGuard.

Context {P : Platform}.

Lemma other_event_authenticated (e : Event) :
  is_chat_call e = false -> is_attempt e = false -> authenticated_call e = true.
Proof.
  destruct e as [R c r| | |]; try reflexivity.
  destruct c; try reflexivity.
  destruct req; cbn; intros H _; [discriminate|reflexivity|reflexivity].
Qed.

(** Every chat call of [sendMessage] carries a truthy token. *)
Lemma sendMessage_authenticated (fuel : nat) (a : SendArgs) (r : Z) (w : World) :
  exists events,
    trace (snd (sendMessage_fuel fuel a r w)) = trace w ++ events
    /\ forallb authenticated_call events = true.
Proof.
  assert (H : spec (fun _ => True) authenticated_call false (fun _ => True)
                (sendMessage_fuel fuel a r)).
  { apply sendMessage_fuel_spec with (good := fun _ => True).
    - exact other_event_authenticated.
    - reflexivity.
    - auto.
    - intros page url token payload x Ht _. exact Ht.
    - intros m _. apply resolve_model_spec;
        [exact other_event_authenticated|auto].
    - apply resolve_model_spec; [exact other_event_authenticated|auto]. }
  destruct (H w I) as [_ [Hev _]]. exact Hev.
Qed.

(** Lines 521-524: with no cached token and none in the page storage,
    the request ends before the executor is called. *)
Lemma send_request_without_token (page : Page) (a : SendArgs)
  (content : JSValue) (model : string) (chatId : JSValue) (w : World) :
  truthy (authToken w) = false ->
  (forall t x, handle (LocalStorageToken page) (ext w) = (Ok t, x) ->
               truthy t = false) ->
  exists r,
    trace (snd (send_request page a content model chatId w))
    = trace w ++ [Called (LocalStorageToken page) r]
    /\ (fst (send_request page a content model chatId w)
        = Done (WhileHeld (RError token_missing chatId))
        \/ exists e, fst (send_request page a content model chatId w) = Raised e).
Proof.
  intros Hcached Hstorage.
  unfold send_request, ensure_token, bind, get_state, call. rewrite Hcached.
  cbn [negb].
  destruct (handle (LocalStorageToken page) (ext w)) as [[t|e] x] eqn:Hh.
  - rewrite (Hstorage t x eq_refl). cbn.
    exists (Ok t). split; [reflexivity|]. left. reflexivity.
  - cbn. exists (Throw e). split; [reflexivity|]. right. exists e. reflexivity.
Qed.

(** Lines 346-350: with an empty token the script returns before its
    [fetch]. *)
Lemma executeApiRequest_without_token (page : Page) (apiUrl : string)
  (payload : Payload) (token : JSValue) (w : World) :
  truthy token = false ->
  exists r,
    trace (snd (executeApiRequest page apiUrl payload token w))
    = trace w ++ [Called (Evaluate page) r]
    /\ (fst (executeApiRequest page apiUrl payload token w)
        = Done (api_failure no_token_error)
        \/ exists e, r = Throw e
                     /\ fst (executeApiRequest page apiUrl payload token w)
                        = Raised e).
Proof.
  intros Ht. unfold executeApiRequest, bind, call, try_catch. rewrite Ht.
  cbn [negb].
  destruct (handle (Evaluate page) (ext w)) as [[[]|e] x] eqn:Hh; cbn.
  - exists (Ok tt). split; [reflexivity|]. left. reflexivity.
  - exists (Throw e). split; [reflexivity|]. right. exists e.
    split; reflexivity.
Qed.

End TokenGuard.

(** C8. When the cached token is empty and the page storage holds no token
    either, the request part of [sendMessage] (lines 521-612) only queries
    the storage and ends with the token-missing error (or with the
    exception of the query, which [sendMessage] turns into an error value):
    no chat call is issued. [executeApiRequest] called with an empty token
    only enters the page, where the script returns its failure result
    before any [fetch]. And in every run of [sendMessage] every chat call
    carries a non-empty token. *)
Theorem no_unauthenticated_chat_call (P : Platform) :
  (forall page a content model chatId (w : World),
      truthy (authToken w) = false ->
      (forall t x, handle (LocalStorageToken page) (ext w) = (Ok t, x) ->
                   truthy t = false) ->
      exists r,
        trace (snd (send_request page a content model chatId w))
        = trace w ++ [Called (LocalStorageToken page) r]
        /\ (fst (send_request page a content model chatId w)
            = Done (WhileHeld (RError token_missing chatId))
            \/ exists e,
                 fst (send_request page a content model chatId w) = Raised e))
  /\ (forall page apiUrl payload token (w : World),
        truthy token = false ->
        exists r,
          trace (snd (executeApiRequest page apiUrl payload token w))
          = trace w ++ [Called (Evaluate page) r]
          /\ (fst (executeApiRequest page apiUrl payload token w)
              = Done (api_failure no_token_error)
              \/ exists e, r = Throw e
                           /\ fst (executeApiRequest page apiUrl payload token w)
                              = Raised e))
  /\ (forall a r (w : World),
        exists events,
          trace (snd (sendMessage a r w)) = trace w ++ events
          /\ forallb authenticated_call events = true).
Proof.
  split; [intros; apply send_request_without_token; assumption|].
  split; [intros; apply executeApiRequest_without_token; assumption|].
  intros a r w. apply sendMessage_authenticated.
Qed.

(** C8, an instance: nothing is cached at start-up and the page storage
    holds no token. *)
Lemma no_unauthenticated_chat_call_witness :
  let P := scripted 2 1 3 in
  let w := start P (script_of playwright []) in
  let run := @send_request P 1 (text_request None (JStr "chat-1"))
               (JStr "What is the capital of France?") "qwen-max-latest"
               (JStr "chat-1") w in
  exists r,
    trace (snd run) = trace w ++ [Called (LocalStorageToken 1) r]
    /\ (fst run = Done (WhileHeld (RError token_missing (JStr "chat-1")))
        \/ exists e, fst run = Raised e).
Proof.
  intros P w run.
  apply (proj1 (no_unauthenticated_chat_call P) 1
           (text_request None (JStr "chat-1"))
           (JStr "What is the capital of France?") "qwen-max-latest"
           (JStr "chat-1") w).
  - reflexivity.
  - intros t x H. cbn in H. inversion H. reflexivity.
Defined.

(* ------------------------------------------------------------------ *)
(** ** Model substitution *)

Section ModelSubstitution.

Context {P : Platform}.


Lemma load_models_done (w : World) :
  exists l w', load_models w = (Done l, w') /\ availableModels w' = Some l.
Proof.
  unfold load_models, bind, get_state.
  destruct (availableModels w) as [l|] eqn:Hl.
  - exists l, w. split; [reflexivity|exact Hl].
  - unfold getAvailableModelsFromFile, try_catch, bind, call.
    destruct (handle ReadModelsFile (ext w)) as [[[text|]|e] x]; cbn;
      eexists; eexists; split; reflexivity.
Qed.



Section Invalid.

Variable q : Event -> bool.
Hypothesis q_other :
  forall e, is_chat_call e = false -> is_attempt e = false -> q e = true.



End Invalid.



End ModelSubstitution.



(** Scenario: the first request of the process names a model that the
    list does not hold. The request is answered, by the default model. *)
Example sendMessage_unknown_model_answered :
  let P := scripted 2 1 3 in
  let run := @sendMessage P (text_request (Some "gpt-5") (JStr "chat-1")) 0%Z
               (start P (script_of playwright [paris_stream])) in
  fst run =
    Done (RCompletion
            {| cc_id := JStr "r1"; cc_model := "qwen-max-latest";
               cc_content := "Paris";
               cc_usage := JObj [("input_tokens", JInt 7)];
               cc_response_id := JStr "r1" |}
            (JStr "chat-1") (JStr "r1"))
  /\ existsb is_chat_call (trace (snd run)) = true
  /\ forallb (uses_model "qwen-max-latest") (trace (snd run)) = true.
Proof. vm_compute. repeat split; reflexivity. Qed.

(* ------------------------------------------------------------------ *)
(** ** The bound on retries *)

Lemma attempt_numbers_app (l1 l2 : list Event) :
  attempt_numbers (l1 ++ l2) = attempt_numbers l1 ++ attempt_numbers l2.
Proof.
  induction l1 as [|e r IH]; [reflexivity|].
  destruct e; cbn [app attempt_numbers]; rewrite IH; reflexivity.
Qed.

Lemma attempt_numbers_quiet (l : list Event) :
  forallb not_attempt l = true -> attempt_numbers l = [].
Proof.
  induction l as [|e r IH]; [reflexivity|].
  cbn [forallb]. intros H. apply andb_true_iff in H. destruct H as [He Hr].
  destruct e; try discriminate; cbn [attempt_numbers]; apply IH; exact Hr.
Qed.

Lemma length_countup (r : Z) (k : nat) : List.length (countup r k) = k.
Proof. revert r. induction k; intros r; cbn; [reflexivity|f_equal; apply IHk]. Qed.

Section RetryBound.

Context {P : Platform}.

Lemma counts_quiet (A : Type) (S : list Z -> Prop) (m : Comp A) :
  quiet m -> S [] -> counts S m.
Proof.
  intros Hm HS w. destruct (Hm w I) as [_ [[ev [Ht Hq]] [_ Htot]]].
  split; [apply Htot; reflexivity|].
  exists ev. split; [exact Ht|]. rewrite (attempt_numbers_quiet _ Hq). exact HS.
Qed.

Lemma counts_bind (A B : Type) (S : list Z -> Prop) (m : Comp A)
  (k : A -> Comp B) :
  quiet m -> S [] -> (forall a, counts S (k a)) -> counts S (bind m k).
Proof.
  intros Hm HS Hk w. unfold bind.
  destruct (Hm w I) as [_ [[ev [Ht Hq]] [_ Htot]]].
  pose proof (attempt_numbers_quiet _ Hq) as Hnone.
  destruct (m w) as [[a|e|c|] w1]; cbn [fst snd] in *.
  - destruct (Hk a w1) as [Hf [ev2 [Ht2 HS2]]].
    split; [exact Hf|]. exists (ev ++ ev2).
    split; [rewrite Ht2, Ht, app_assoc; reflexivity|].
    rewrite attempt_numbers_app, Hnone. exact HS2.
  - split; [discriminate|]. exists ev. split; [exact Ht|].
    rewrite Hnone. exact HS.
  - split; [discriminate|]. exists ev. split; [exact Ht|].
    rewrite Hnone. exact HS.
  - exfalso. apply Htot; reflexivity.
Qed.

Lemma counts_attempt (A : Type) (S S' : list Z -> Prop) (r : Z)
  (k : Comp A) :
  counts S' k -> (forall l, S' l -> S (r :: l)) ->
  counts S (bind (modify (log_event (Attempt r))) (fun _ => k)).
Proof.
  intros Hk HS w. unfold bind, modify.
  destruct (Hk (log_event (Attempt r) w)) as [Hf [ev [Ht HS']]].
  split; [exact Hf|]. exists (Attempt r :: ev).
  split; [rewrite Ht; cbn [log_event trace]; rewrite <- app_assoc; reflexivity|].
  cbn [attempt_numbers]. apply HS, HS'.
Qed.

Lemma counts_weaken (A : Type) (S S' : list Z -> Prop) (m : Comp A) :
  counts S m -> (forall l, S l -> S' l) -> counts S' m.
Proof.
  intros Hm HS w. destruct (Hm w) as [Hf [ev [Ht H]]].
  split; [exact Hf|]. exists ev. split; [exact Ht|apply HS, H].
Qed.

Lemma other_event_not_attempt (e : Event) :
  is_chat_call e = false -> is_attempt e = false -> not_attempt e = true.
Proof. intros _ H. unfold not_attempt. rewrite H. reflexivity. Qed.

Ltac quiet_call :=
  match goal with
  | |- spec _ _ _ _ (call _) =>
      apply spec_call; [intros ?; reflexivity|intros ?; exact I]
  | |- spec _ _ _ _ (exit _) => apply spec_exit; reflexivity
  end.

Ltac quiet_component :=
  first [ apply load_models_spec
        | apply createChatV2_spec
        | apply resolve_model_spec
        | apply resolveAuthToken_spec
        | apply pagePool_getPage_spec
        | apply close_held_page_spec
        | apply pagePool_clear_spec
        | apply mark_from_body_spec
        | apply send_with_page_spec with (good := fun _ => True) ];
  first [ exact other_event_not_attempt | exact I | auto | reflexivity ].

Ltac quiet_auto :=
  unfold quiet; repeat first [quiet_call | quiet_component | spec_step].

Ltac counts_step :=
  match goal with
  | |- counts _ (bind _ _) =>
      apply counts_bind; [quiet_auto|auto|intros ?]
  | |- counts _ (ret _) => apply counts_quiet; [quiet_auto|auto]
  | |- counts _ (match ?x with _ => _ end) => destruct x eqn:?
  | |- counts _ (if ?x then _ else _) => destruct x eqn:?
  end.

Lemma attempts_from_cons (r : Z) (l : list Z) :
  retries_after r l -> attempts_from r (r :: l).
Proof.
  intros [Hl|[Hlt [k [Hk Hl]]]]; subst l.
  - exists 1. split; [lia|reflexivity].
  - exists (S k). split; [|reflexivity].
    replace (MAX_RETRY_COUNT - (r + 1))%Z with (MAX_RETRY_COUNT - r - 1)%Z in Hk
      by lia.
    lia.
Qed.

Lemma handleApiError_counts (retry : Z -> Comp Result) (response : ApiResponse)
  (tokenObj : option TokenObj) (chatId : JSValue) (r : Z) :
  ((r < MAX_RETRY_COUNT)%Z -> counts (attempts_from (r + 1)) (retry (r + 1)%Z)) ->
  counts (retries_after r)
    (handleApiError retry response tokenObj chatId r).
Proof.
  intros Hretry.
  assert (Hnone : retries_after r []) by (left; reflexivity).
  assert (Hgo : Z.ltb r MAX_RETRY_COUNT = true ->
                counts (retries_after r) (retry (r + 1)%Z)).
  { intros Hlt. apply Z.ltb_lt in Hlt.
    eapply counts_weaken; [apply Hretry; exact Hlt|].
    intros l Hl. right. split; assumption. }
  unfold handleApiError.
  destruct (is_verification response).
  { apply counts_quiet; [quiet_auto|exact Hnone]. }
  destruct (is_unauthorized response).
  { repeat counts_step.
    - apply Hgo. apply andb_true_iff in Heqb. apply Heqb.
    - apply counts_quiet; [quiet_auto|exact Hnone]. }
  destruct (is_rate_limited response).
  { repeat counts_step. apply Hgo. reflexivity. }
  apply counts_quiet; [quiet_auto|exact Hnone].
Qed.

Lemma sendMessage_fuel_counts (fuel : nat) (a : SendArgs) (r : Z) :
  Z.to_nat (MAX_RETRY_COUNT - r) < fuel ->
  counts (attempts_from r) (sendMessage_fuel fuel a r).
Proof.
  revert a r. induction fuel as [|n IH]; intros a r Hfuel; [lia|].
  cbn [sendMessage_fuel].
  apply counts_attempt with (S' := retries_after r);
    [|apply attempts_from_cons].
  assert (Hnone : retries_after r []) by (left; reflexivity).
  unfold sendMessage_request.
  repeat counts_step.
  apply handleApiError_counts. intros Hlt. apply IH. lia.
Qed.

End RetryBound.

(** C4. Let [MAX_RETRY_COUNT] be non-negative. Every run of [sendMessage]
    started with a [retryCount] [r >= 0] ends (the fuel that bounds the
    self-calls is not used up), with a result, an exception or the exit of
    the process; and the attempts of the run, that is the invocations of
    [sendMessage] including the self-calls made through [handleApiError],
    carry the retry counts [r, r+1, ..., r+k-1] for some [k] between 1 and
    [MAX_RETRY_COUNT + 1]: each retry passes [retryCount + 1], and none is
    made once [retryCount] has reached [MAX_RETRY_COUNT]. *)
Theorem sendMessage_attempts_bounded (P : Platform) (a : SendArgs) (r : Z)
  (w : World) :
  (0 <= MAX_RETRY_COUNT)%Z ->
  (0 <= r)%Z ->
  fst (sendMessage a r w) <> OutOfFuel
  /\ exists events k,
       trace (snd (sendMessage a r w)) = trace w ++ events
       /\ attempt_numbers events = countup r k
       /\ 1 <= k
       /\ (Z.of_nat k <= MAX_RETRY_COUNT + 1)%Z
       /\ (forall n, In n (attempt_numbers events) ->
                     (r <= n <= Z.max r MAX_RETRY_COUNT)%Z).
Proof.
  intros Hmax Hr. unfold sendMessage.
  destruct (sendMessage_fuel_counts (S (Z.to_nat (MAX_RETRY_COUNT - r))) a r
              (Nat.lt_succ_diag_r _) w) as [Hf [ev [Ht [k [Hk Hn]]]]].
  split; [exact Hf|].
  exists ev, k. split; [exact Ht|]. split; [exact Hn|].
  split; [lia|]. split; [lia|].
  rewrite Hn. clear Hn Ht Hf.
  assert (Hin : forall k r n, In n (countup r k) ->
                  (r <= n < r + Z.of_nat k)%Z).
  { clear. induction k as [|k IH]; intros r n H; [destruct H|].
    cbn [countup In] in H. destruct H as [H|H]; [lia|].
    apply IH in H. lia. }
  intros n H. apply Hin in H. lia.
Qed.

(** C4, witness: a budget of two retries, a request that starts at
    [retryCount = 0]. *)
Lemma sendMessage_attempts_bounded_witness :
  fst (@sendMessage (scripted 2 1 3) (text_request None (JStr "chat-1")) 0
         (start (scripted 2 1 3) (script_of playwright []))) <> OutOfFuel
  /\ exists events k,
       trace (snd (@sendMessage (scripted 2 1 3)
                     (text_request None (JStr "chat-1")) 0
                     (start (scripted 2 1 3) (script_of playwright []))))
       = trace (start (scripted 2 1 3) (script_of playwright [])) ++ events
       /\ attempt_numbers events = countup 0 k
       /\ 1 <= k
       /\ (Z.of_nat k <= @MAX_RETRY_COUNT (scripted 2 1 3) + 1)%Z
       /\ (forall n, In n (attempt_numbers events) ->
                     (0 <= n <= Z.max 0 (@MAX_RETRY_COUNT (scripted 2 1 3)))%Z).
Proof.
  apply (sendMessage_attempts_bounded (scripted 2 1 3)
           (text_request None (JStr "chat-1")) 0
           (start (scripted 2 1 3) (script_of playwright []))).
  - cbn. lia.
  - lia.
Defined.

(** The bound is reached: with a budget of two retries the request is
    attempted three times, and the fourth answer is never asked for. *)
Example sendMessage_three_attempts :
  let P := scripted 2 1 3 in
  let run := @sendMessage P (text_request None (JStr "chat-1")) 0
               (start P always_unauthorized) in
  attempt_numbers (trace (snd run)) = [0; 1; 2]%Z
  /\ List.length (s_responses (ext (snd run))) = 1.
Proof. vm_compute. split; reflexivity. Qed.

(* ------------------------------------------------------------------ *)
(** ** Failure classification *)

Section Classification.

Context {P : Platform}.

Lemma pagePool_clear_done (w : World) :
  exists w', pagePool_clear w = (Done tt, w').
Proof.
  unfold pagePool_clear, bind, get_state.
  assert (H : forall l w0, exists w1,
             for_each (fun page => try_catch (call (Close page))
                                     (fun _ => ret tt)) l w0 = (Done tt, w1)).
  { induction l as [|p l IH]; intros w0; cbn [for_each].
    - exists w0. reflexivity.
    - unfold bind, try_catch, call.
      destruct (handle (Close p) (ext w0)) as [[[]|e] x]; cbn; apply IH. }
  destruct (H (pages w) w) as [w1 Hw1]. rewrite Hw1. cbn.
  eexists. reflexivity.
Qed.

Lemma mark_from_body_done (errorBody : string) (tokenObj : option TokenObj)
  (w : World) :
  exists w', mark_from_body errorBody tokenObj w = (Done tt, w').
Proof.
  unfold mark_from_body, try_catch.
  destruct (JSON_parse errorBody) as [rateInfo|]; [|eexists; reflexivity].
  unfold bind. destruct (prop rateInfo "num") as [num|e]; cbn [lift];
    [|eexists; reflexivity].
  cbn [ret]. destruct (hours_of num) as [hours|e]; cbn [lift];
    [|eexists; reflexivity].
  cbn [ret]. destruct (truthy (id_of tokenObj)); cbn [when_];
    [|eexists; reflexivity].
  unfold call.
  destruct (handle (MarkRateLimited (id_of tokenObj) hours) (ext w))
    as [[[]|e] x]; eexists; reflexivity.
Qed.

(** No result of the executor has an [html] field. *)
Lemma executor_result_has_no_html (page : Page) (apiUrl : string)
  (payload : Payload) (token : JSValue) (w : World) (response : ApiResponse) :
  fst (executeApiRequest page apiUrl payload token w) = Done response ->
  r_html response = None.
Proof.
  assert (H : spec (fun _ => True) (fun _ => true) false
                (fun response => r_html response = None)
                (executeApiRequest page apiUrl payload token)).
  { unfold executeApiRequest.
    apply spec_bind with (R1 := fun _ => True);
      [apply spec_call; [reflexivity|auto]|intros _ _].
    apply spec_try_catch; [|intros e; apply spec_ret; reflexivity].
    destruct (negb (truthy token)); [apply spec_ret; reflexivity|].
    apply spec_bind with (R1 := fun _ => True);
      [apply spec_call; [reflexivity|auto]|intros resp _].
    destruct (resp_ok resp).
    - destruct (negb (p_stream payload)).
      + apply spec_bind with (R1 := fun _ => True);
          [apply response_json_spec; auto|].
        intros j _. apply spec_ret. reflexivity.
      + apply spec_bind with (R1 := fun _ => True);
          [apply spec_now; auto|intros t _].
        apply spec_bind with (R1 := fun _ => True);
          [apply spec_lift; auto|intros c _].
        apply spec_ret. reflexivity.
    - apply spec_bind with (R1 := fun _ => True);
        [apply response_text_spec; auto|].
      intros b _. apply spec_ret. reflexivity. }
  destruct (H w I) as [_ [_ [HR _]]]. apply HR.
Qed.

End Classification.


(** C5, the defect. [handleApiError] looks for the verification marker in
    [response.html], a field that no result of [executeApiRequest] has: for
    every executor failure the verification test is false. An executor
    failure whose body carries the marker is therefore classified as a
    generic error. *)
Theorem verification_marker_never_detected (P : Platform) :
  (forall page apiUrl payload token (w : World) response,
      fst (executeApiRequest page apiUrl payload token w) = Done response ->
      is_verification response = false)
  /\ (forall retry tokenObj chatId retryCount (w : World),
        handleApiError retry verification_failure tokenObj chatId retryCount w =
        (Done (RGeneric (Some "Forbidden")
                 "<html><title>Verification</title></html>" chatId), w)).
Proof.
  split.
  - intros page apiUrl payload token w response H.
    unfold is_verification.
    rewrite (executor_result_has_no_html page apiUrl payload token w response H).
    reflexivity.
  - intros. reflexivity.
Qed.

(** C5, counterexample: the same at the level of the request. The
    upstream answers 403 with the verification marker in its body, and
    the request ends with the generic error. *)
Lemma sendMessage_verification_body :
  let P := scripted 2 1 3 in
  fst (@sendMessage P (text_request None (JStr "chat-1")) 0
         (start P (script_of playwright
                     [http false 403 "Forbidden"
                        "<html><title>Verification</title></html>"]))) =
  Done (RGeneric (Some "Forbidden")
          "<html><title>Verification</title></html>" (JStr "chat-1")).
Proof. vm_compute. reflexivity. Qed.

(* ------------------------------------------------------------------ *)
(** ** Exhaustion of the retry budget *)

Section Exhaustion.

Context {P : Platform}.
Variables (retry : Z -> Comp Result) (response : ApiResponse).
Variables (tokenObj : option TokenObj) (chatId : JSValue) (retryCount : Z).


Lemma unauthorized_branch (w : World) :
  is_verification response = false ->
  is_unauthorized response = true ->
  handleApiError retry response tokenObj chatId retryCount w =
  (modify (set_authToken JNull) ;;
   when_ (truthy (id_of tokenObj)) (call (MarkInvalid (id_of tokenObj))) ;;
   unauthorized_tail retry retryCount) w.
Proof.
  intros Hv Hu. unfold handleApiError. rewrite Hv, Hu. reflexivity.
Qed.

Lemma rate_limited_branch (w : World) :
  is_verification response = false ->
  is_unauthorized response = false ->
  is_rate_limited response = true ->
  handleApiError retry response tokenObj chatId retryCount w =
  (modify (set_authToken JNull) ;;
   if Z.ltb retryCount MAX_RETRY_COUNT then retry (retryCount + 1)%Z
   else ret (RRateLimited chatId))
    (snd (mark_from_body (body_of response) tokenObj w)).
Proof.
  intros Hv Hu Hr. unfold handleApiError. rewrite Hv, Hu, Hr.
  unfold bind at 1.
  destruct (mark_from_body_done (body_of response) tokenObj w) as [w1 Hm].
  rewrite Hm. reflexivity.
Qed.

Lemma rate_limited_exhausted (w : World) :
  is_verification response = false ->
  is_unauthorized response = false ->
  is_rate_limited response = true ->
  (MAX_RETRY_COUNT <= retryCount)%Z ->
  fst (handleApiError retry response tokenObj chatId retryCount w)
  = Done (RRateLimited chatId).
Proof.
  intros Hv Hu Hr Hmax. rewrite rate_limited_branch by assumption.
  assert (Hlt : Z.ltb retryCount MAX_RETRY_COUNT = false)
    by (apply Z.ltb_ge; exact Hmax).
  rewrite Hlt. reflexivity.
Qed.

(** Outside the Unauthorized branch the process exits only if the
    retried call does. *)
Lemma exit_only_if_unauthorized (w : World) (code : Z) :
  is_verification response = true \/ is_unauthorized response = false ->
  fst (handleApiError retry response tokenObj chatId retryCount w) = Exited code ->
  exists w1, fst (retry (retryCount + 1)%Z w1) = Exited code.
Proof.
  intros Hbranch. unfold handleApiError.
  destruct (is_verification response) eqn:Hv.
  - unfold bind at 1. unfold call at 1.
    destruct (handle (SetAuthenticationStatus false) (ext w)) as [[[]|e] x];
      cbn [fst]; [|discriminate].
    unfold bind at 1.
    match goal with
    | |- context [pagePool_clear ?w1] =>
        destruct (pagePool_clear_done w1) as [w2 Hc]; rewrite Hc
    end.
    unfold bind at 1. cbn [modify]. unfold bind at 1. unfold call at 1.
    destruct (handle ShutdownBrowser (ext (set_authToken JNull w2)))
      as [[[]|e] x2]; cbn [fst]; [|discriminate].
    unfold bind, call. cbn [ext].
    destruct (handle (InitBrowser true) x2) as [[[]|e] x3]; cbn; discriminate.
  - destruct Hbranch as [Hb|Hu]; [discriminate|]. rewrite Hu.
    destruct (is_rate_limited response).
    + unfold bind at 1.
      destruct (mark_from_body_done (body_of response) tokenObj w) as [w1 Hm].
      rewrite Hm. unfold bind, modify.
      destruct (Z.ltb retryCount MAX_RETRY_COUNT).
      * intros H. eexists. exact H.
      * cbn. discriminate.
    + cbn. discriminate.
Qed.

End Exhaustion.

(* ------------------------------------------------------------------ *)
(** ** Rate-limit hours *)

Lemma hours_of_embeds (num : JSValue) (hours : Double) :
  embeds num hours -> hours_of num = Ok hours.
Proof.
  intros H. induction H as [x Hx|x Hx| | | | |s Hs|s Hs|items hours Hc _ IH|fields Hk];
    unfold hours_of; cbn [Number_];
    try (rewrite Hx; reflexivity); try (rewrite Hs; reflexivity);
    try reflexivity.
  - rewrite Hc. unfold hours_of in IH. cbn [Number_] in IH. exact IH.
  - cbn [convertible]. rewrite Hk. reflexivity.
Qed.

Lemma hours_of_text (s : string) :
  embeds (JStr s) (if number_truthy (string_to_number s)
                   then string_to_number s else Double_of_Z 24).
Proof.
  destruct (number_truthy (string_to_number s)) eqn:Hs;
    [apply embeds_text|apply embeds_no_number]; exact Hs.
Qed.

(** Every value that can be converted embeds some hours. *)
Lemma embeds_total (num : JSValue) :
  convertible num = true -> exists hours, embeds num hours.
Proof.
  destruct num as [| |[|]|x|s|items|fields]; intros Hc.
  - eexists. apply embeds_absent.
  - eexists. apply embeds_null.
  - eexists. apply embeds_true.
  - eexists. apply embeds_false.
  - destruct (number_truthy x) eqn:Hx; eexists;
      [apply embeds_number|apply embeds_zero]; exact Hx.
  - eexists. apply hours_of_text.
  - eexists. apply embeds_array; [exact Hc|apply hours_of_text].
  - eexists. apply embeds_object. cbn [convertible] in Hc.
    apply negb_true_iff. exact Hc.
Qed.

Lemma hours_of_inconvertible (num : JSValue) :
  convertible num = false -> exists e, hours_of num = Throw e.
Proof.
  intros Hc. unfold hours_of.
  destruct num as [| |b|x|s|items|fields]; try discriminate;
    cbn [Number_]; rewrite Hc; eexists; reflexivity.
Qed.

Section RateLimit.

Context {P : Platform}.

Lemma mark_from_body_marks (body : string) (tokenObj : option TokenObj)
  (rateInfo : JSValue) (hours : Double) (w : World) :
  JSON_parse body = Some rateInfo ->
  nullish rateInfo = false ->
  truthy (id_of tokenObj) = true ->
  embeds (opt_prop rateInfo "num") hours ->
  exists r w',
    mark_from_body body tokenObj w = (Done tt, w')
    /\ trace w' = trace w ++ [Called (MarkRateLimited (id_of tokenObj) hours) r].
Proof.
  intros Hp Hn Hid Hh. unfold mark_from_body, try_catch. rewrite Hp.
  unfold bind at 1. rewrite (prop_not_nullish _ _ Hn). cbn [lift ret].
  unfold bind. rewrite (hours_of_embeds _ _ Hh). cbn [lift ret].
  rewrite Hid. cbn [when_]. unfold call.
  destruct (handle (MarkRateLimited (id_of tokenObj) hours) (ext w))
    as [[[]|e] x] eqn:Hh'.
  - exists (Ok tt). eexists. split; reflexivity.
  - exists (Throw e). eexists. split; reflexivity.
Qed.

Lemma mark_from_body_inconvertible (body : string)
  (tokenObj : option TokenObj) (rateInfo : JSValue) (w : World) :
  JSON_parse body = Some rateInfo ->
  convertible (opt_prop rateInfo "num") = false ->
  mark_from_body body tokenObj w = (Done tt, w).
Proof.
  intros Hp Hc. unfold mark_from_body, try_catch. rewrite Hp.
  unfold bind at 1. unfold opt_prop in Hc.
  destruct (prop rateInfo "num") as [num|e]; cbn [lift]; [|reflexivity].
  cbn [ret]. unfold bind.
  destruct (hours_of_inconvertible _ Hc) as [e He]. rewrite He. reflexivity.
Qed.

Lemma mark_from_body_null (body : string) (tokenObj : option TokenObj)
  (rateInfo : JSValue) (w : World) :
  JSON_parse body = Some rateInfo ->
  nullish rateInfo = true ->
  mark_from_body body tokenObj w = (Done tt, w).
Proof.
  intros Hp Hn. unfold mark_from_body, try_catch. rewrite Hp.
  destruct rateInfo; try discriminate; reflexivity.
Qed.

Lemma mark_from_body_unparsed (body : string) (tokenObj : option TokenObj)
  (w : World) :
  JSON_parse body = None -> mark_from_body body tokenObj w = (Done tt, w).
Proof. intros Hp. unfold mark_from_body, try_catch. rewrite Hp. reflexivity. Qed.

End RateLimit.

(** [Number] on the texts a body may carry in [num]: decimal, hexadecimal,
    octal and binary literals, fractions and exponents, white space
    around the literal, and what is no literal. *)
Example Number_of_text :
  map string_to_number
    ["2"; "0x10"; "1e3"; "5."; "1.5"; " 12 "; "9007199254740993"; "0b101";
     "0o17"; ".5"; "-3"; ""; "abc"; "1_000"; "-0x10"; "Infinity"]
  = [Double_of_Z 2; Double_of_Z 16; Double_of_Z 1000; Double_of_Z 5;
     Finite false 6755399441055744 (-52); Double_of_Z 12;
     Double_of_Z 9007199254740992; Double_of_Z 5; Double_of_Z 15;
     Finite false 4503599627370496 (-53); Double_of_Z (-3); Zero false;
     NaN; NaN; NaN; Infinity false].
Proof. vm_compute. reflexivity. Qed.

(** [String] on numbers: the shortest decimal that reads back as the same
    double, with an exponent from [1e21] on and below [1e-6]. *)
Example String_of_number :
  map Double_to_string
    [Double_of_Z 24; Finite false 6755399441055744 (-52);
     string_to_number "0.1"; string_to_number "1e21";
     string_to_number "123456789012345680000"; string_to_number "1e-7";
     string_to_number "-0.000001"; string_to_number "9007199254740993";
     Zero true; NaN; Infinity true]
  = ["24"; "1.5"; "0.1"; "1e+21"; "123456789012345680000"; "1e-7";
     "-0.000001"; "9007199254740992"; "0"; "NaN"; "-Infinity"].
Proof. vm_compute. reflexivity. Qed.

(** C7 (as amended). When a failure is classified as RateLimited (its body
    contains the marker and it is neither a verification nor an
    Unauthorized failure), [handleApiError] first reads the hours from the
    body, then clears the cached token and retries or gives up. If the
    body is a JSON document (other than [null]) and the current Account
    has an id, the Account is marked rate-limited exactly once, for the
    hours the body embeds in [num] ([embeds]): a number other than zero
    as it is, what [Number] reads from a text, 24 when [num] is absent,
    [null], zero or no number; every value that can be converted embeds
    some hours. If [num] cannot be converted, or the body is [null] or
    not JSON, the Account is not marked at all. *)
Theorem rate_limited_marks_hours_of_json_body (P : Platform)
  (retry : Z -> Comp Result) (response : ApiResponse)
  (tokenObj : option TokenObj) (chatId : JSValue) (retryCount : Z) (w : World) :
  is_verification response = false ->
  is_unauthorized response = false ->
  is_rate_limited response = true ->
  handleApiError retry response tokenObj chatId retryCount w =
    (modify (set_authToken JNull) ;;
     if Z.ltb retryCount MAX_RETRY_COUNT then retry (retryCount + 1)%Z
     else ret (RRateLimited chatId))
      (snd (mark_from_body (body_of response) tokenObj w))
  /\ (forall rateInfo,
        JSON_parse (body_of response) = Some rateInfo ->
        (nullish rateInfo = false ->
         truthy (id_of tokenObj) = true ->
         forall hours,
           embeds (opt_prop rateInfo "num") hours ->
           exists r w',
             mark_from_body (body_of response) tokenObj w = (Done tt, w')
             /\ trace w' = trace w ++
                  [Called (MarkRateLimited (id_of tokenObj) hours) r])
        /\ (convertible (opt_prop rateInfo "num") = true ->
            exists hours, embeds (opt_prop rateInfo "num") hours)
        /\ (convertible (opt_prop rateInfo "num") = false
            \/ nullish rateInfo = true ->
            mark_from_body (body_of response) tokenObj w = (Done tt, w)))
  /\ (JSON_parse (body_of response) = None ->
      mark_from_body (body_of response) tokenObj w = (Done tt, w)).
Proof.
  intros Hv Hu Hr.
  split; [apply rate_limited_branch; assumption|].
  split; [|apply mark_from_body_unparsed].
  intros rateInfo Hp. split; [|split].
  - intros Hn Hid hours Hh. apply mark_from_body_marks with rateInfo; assumption.
  - apply embeds_total.
  - intros [Hc|Hn];
      [apply mark_from_body_inconvertible with rateInfo
      |apply mark_from_body_null with rateInfo]; assumption.
Qed.

(** C7, witness: the body [{"error":"RateLimited","num":2}] marks the
    account [acc-1] for two hours. *)
Lemma rate_limited_marks_hours_of_json_body_witness :
  let P := scripted 2 1 3 in
  let w := start P (script_of playwright []) in
  exists r w',
    @mark_from_body P (body_of rate_limited_two_hours)
      (Some (account "acc-1" "token-1")) w = (Done tt, w')
    /\ trace w' = trace w
         ++ [Called (MarkRateLimited (JStr "acc-1") (Double_of_Z 2)) r].
Proof.
  intros P w.
  destruct (rate_limited_marks_hours_of_json_body P
              (fun _ => ret (RRateLimited JNull)) rate_limited_two_hours
              (Some (account "acc-1" "token-1")) (JStr "chat-1") 0 w
              eq_refl eq_refl eq_refl) as [_ [Hmark _]].
  destruct (Hmark (JObj [("error", JStr "RateLimited"); ("num", JInt 2)])
              eq_refl) as [H _].
  exact (H eq_refl eq_refl (Double_of_Z 2) (embeds_number (Double_of_Z 2) eq_refl)).
Defined.

(** The hours of some bodies: a fraction, a text, the default when the
    body names no hours, names zero or names no number. *)
Example rate_limited_hours_of_bodies :
  let P := scripted 2 1 3 in
  let marks body :=
    trace (snd (@mark_from_body P body (Some (account "acc-1" "token-1"))
                  (start P (script_of playwright [])))) in
  let marked hours := [Called (MarkRateLimited (JStr "acc-1") hours) (Ok tt)] in
  marks (json_text "{'error':'RateLimited','num':1.5}")
  = marked (Finite false 6755399441055744 (-52))
  /\ marks (json_text "{'error':'RateLimited','num':'0x10'}")
     = marked (Double_of_Z 16)
  /\ marks (json_text "{'error':'RateLimited'}") = marked (Double_of_Z 24)
  /\ marks (json_text "{'error':'RateLimited','num':0}")
     = marked (Double_of_Z 24)
  /\ marks (json_text "{'error':'RateLimited','num':'soon'}")
     = marked (Double_of_Z 24)
  /\ marks (json_text "{'error':'RateLimited','num':{'toString':1}}") = [].
Proof. vm_compute. repeat split; reflexivity. Qed.

(** C7, counterexample: the body is the plain text [RateLimited]. It
    contains the marker, the request is retried until the budget is used
    up and ends with the rate-limit error, but [markRateLimited] is never
    called: the account is not marked for 24 hours, nor at all. *)
Lemma rate_limited_plain_body_not_marked :
  fst (@sendMessage (scripted 2 1 3) (text_request None (JStr "chat-1")) 0
         (start (scripted 2 1 3) rate_limited_plain))
  = Done (RRateLimited (JStr "chat-1"))
  /\ existsb is_mark_rate_limited
       (trace (snd (@sendMessage (scripted 2 1 3)
                      (text_request None (JStr "chat-1")) 0
                      (start (scripted 2 1 3) rate_limited_plain)))) = false
  /\ attempt_numbers
       (trace (snd (@sendMessage (scripted 2 1 3)
                      (text_request None (JStr "chat-1")) 0
                      (start (scripted 2 1 3) rate_limited_plain))))
     = [0; 1; 2]%Z.
Proof. repeat split; vm_compute; reflexivity. Qed.

(* ------------------------------------------------------------------ *)
(** ** The page pool *)

Section PoolFacts.

Context {P : Platform}.

Lemma set_pages_same (w : World) : set_pages (pages w) w = w.
Proof. destruct w; reflexivity. Qed.

(** A pooled handle is popped: the last one pushed, with no external
    call. *)
Lemma getPage_pooled (context : option Context) (w : World) (l : list Page)
  (p : Page) :
  pages w = l ++ [p] ->
  pagePool_getPage context w = (Done p, set_pages l w).
Proof.
  intros Hp. unfold pagePool_getPage, bind, get_state. rewrite Hp.
  rewrite length_app. cbn [List.length].
  replace (Nat.ltb 0 (List.length l + 1)) with true
    by (symmetry; apply Nat.ltb_lt; lia).
  cbn [modify ret]. rewrite removelast_last, last_last. reflexivity.
Qed.

Ltac step_call :=
  match goal with
  | |- context [handle ?c ?x] => destruct (handle c x) as [[?|?] ?]; cbn
  end.

(** With an empty pool and a context that makes pages, the handle handed
    out is a new one. *)
Lemma getPage_created (context : option Context) (w : World) :
  pages w = [] ->
  creates_pages context ->
  pages (snd (pagePool_getPage context w)) = []
  /\ fresh w <= fresh (snd (pagePool_getPage context w))
  /\ (forall p, fst (pagePool_getPage context w) = Done p ->
                p = fresh w
                /\ fresh (snd (pagePool_getPage context w)) = S (fresh w)).
Proof.
  intros Hp Hc.
  unfold pagePool_getPage, getPage, bind, get_state. rewrite Hp. cbn [List.length Nat.ltb Nat.leb].
  destruct context as [c|]; cbn in Hc.
  - rewrite Hc. destruct (ctx_newPage c).
    + unfold call, try_catch, alloc_page, modify, ret, throw; cbn.
      repeat first
        [ step_call
        | match goal with
          | |- context [truthy ?t] => destruct (truthy t); cbn
          end ];
        (split; [exact Hp|]); (split; [lia|]);
        intros p H; inversion H; subst; split; reflexivity.
    + cbn. split; [exact Hp|]. split; [lia|]. intros p H. discriminate.
  - cbn. split; [exact Hp|]. split; [lia|]. intros p H. discriminate.
Qed.

Lemma releasePage_under_capacity (page : Page) (w : World) :
  List.length (pages w) < PAGE_POOL_SIZE ->
  pagePool_releasePage page w = (Done tt, set_pages (pages w ++ [page]) w).
Proof.
  intros H. unfold pagePool_releasePage, bind, get_state.
  replace (Nat.ltb (List.length (pages w)) PAGE_POOL_SIZE) with true
    by (symmetry; apply Nat.ltb_lt; exact H).
  reflexivity.
Qed.

Lemma releasePage_at_capacity (page : Page) (w : World) :
  PAGE_POOL_SIZE <= List.length (pages w) ->
  exists r w',
    pagePool_releasePage page w = (Done tt, w')
    /\ pages w' = pages w
    /\ fresh w' = fresh w
    /\ trace w' = trace w ++ [Called (Close page) r].
Proof.
  intros H. unfold pagePool_releasePage, bind, get_state.
  replace (Nat.ltb (List.length (pages w)) PAGE_POOL_SIZE) with false
    by (symmetry; apply Nat.ltb_ge; exact H).
  unfold try_catch, call.
  destruct (handle (Close page) (ext w)) as [[[]|e] x].
  - exists (Ok tt). eexists. repeat split; reflexivity.
  - exists (Throw e). eexists. repeat split; reflexivity.
Qed.

Lemma clear_empties (w : World) :
  pages (snd (pagePool_clear w)) = []
  /\ fresh (snd (pagePool_clear w)) = fresh w.
Proof.
  unfold pagePool_clear, bind, get_state.
  assert (H : forall l w0,
             exists w1,
               for_each (fun page => try_catch (call (Close page))
                                       (fun _ => ret tt)) l w0 = (Done tt, w1)
               /\ fresh w1 = fresh w0).
  { induction l as [|p l IH]; intros w0; cbn [for_each].
    - exists w0. split; reflexivity.
    - unfold bind, try_catch, call.
      destruct (handle (Close p) (ext w0)) as [[[]|e] x]; cbn;
        match goal with
        | |- context [for_each _ l ?w1] =>
            destruct (IH w1) as [w2 [H1 H2]]; exists w2; split; [exact H1|exact H2]
        end. }
  destruct (H (pages w) w) as [w1 [H1 H2]]. rewrite H1. cbn.
  split; [reflexivity|exact H2].
Qed.

End PoolFacts.

Section PoolInvariant.

Context {P : Platform}.

Lemma remove_one_perm (p : Page) (l : list Page) :
  existsb (Nat.eqb p) l = true -> Permutation l (p :: remove_one p l).
Proof.
  induction l as [|x r IH]; cbn [existsb remove_one]; [discriminate|].
  destruct (Nat.eqb p x) eqn:E.
  - intros _. apply Nat.eqb_eq in E. subst x. apply Permutation_refl.
  - cbn [orb]. intros H. eapply perm_trans; [|apply perm_swap].
    apply perm_skip, IH, H.
Qed.

Lemma exclusive_perm (w w' : World) (held held' : list Page) :
  Permutation (pages w ++ held) (pages w' ++ held') ->
  fresh w <= fresh w' ->
  exclusive (w, held) -> exclusive (w', held').
Proof.
  intros Hperm Hf [Hn Hb]. cbn [fst snd] in *. split.
  - eapply Permutation_NoDup; eassumption.
  - eapply Permutation_Forall; [exact Hperm|].
    eapply Forall_impl; [|exact Hb]. cbn. intros p Hp. lia.
Qed.

Lemma exclusive_drop (w w' : World) (held held' : list Page) (p : Page) :
  Permutation (pages w ++ held) (p :: pages w' ++ held') ->
  fresh w <= fresh w' ->
  exclusive (w, held) -> exclusive (w', held').
Proof.
  intros Hperm Hf [Hn Hb]. cbn [fst snd] in *.
  pose proof (Permutation_NoDup Hperm Hn) as Hn'.
  pose proof (Permutation_Forall Hperm Hb) as Hb'.
  inversion Hn'; subst. inversion Hb'; subst. split; [assumption|].
  eapply Forall_impl; [|eassumption]. cbn. intros q Hq. lia.
Qed.

(** Every operation of the pool keeps the handles exclusive, when the
    context makes a new page for each request. *)
Lemma exclusive_step (context : option Context) (s : World * list Page)
  (op : PoolOp) :
  creates_pages context -> exclusive s -> exclusive (pool_step context s op).
Proof.
  intros Hc Hex. destruct s as [w held]. destruct op as [|p|];
    cbn [pool_step fst snd].
  - (* acquire *)
    destruct (pages w) as [|x l] eqn:Hp.
    + destruct (getPage_created context w Hp Hc) as [Hp' [Hf Hd]].
      destruct (pagePool_getPage context w) as [o w'] eqn:Hg.
      cbn [fst snd] in *.
      assert (Hkeep : exclusive (w', held)).
      { apply exclusive_perm with (w := w) (held := held);
          [rewrite Hp, Hp'; apply Permutation_refl|exact Hf|exact Hex]. }
      destruct o as [p|e|c|]; try exact Hkeep.
      destruct (Hd p eq_refl) as [Hpf Hf']. subst p.
      destruct Hex as [Hn Hb]. cbn [fst snd] in *. rewrite Hp in Hn, Hb.
      cbn [app] in Hn, Hb. unfold exclusive. cbn [fst snd].
      rewrite Hp'. cbn [app]. split.
      * constructor; [|exact Hn]. intros Hin.
        rewrite Forall_forall in Hb. apply Hb in Hin. lia.
      * constructor; [lia|]. eapply Forall_impl; [|exact Hb].
        cbn. intros q Hq. lia.
    + assert (Hne : x :: l <> []) by discriminate.
      destruct (exists_last Hne) as [l' [p Hl]].
      rewrite Hl in Hp. rewrite (getPage_pooled context w l' p Hp).
      apply exclusive_perm with (w := w) (held := held);
        [|cbn; lia|exact Hex].
      rewrite Hp. cbn [set_pages pages]. rewrite <- app_assoc.
      apply Permutation_refl.
  - (* release *)
    destruct (existsb (Nat.eqb p) held) eqn:Hheld; [|exact Hex].
    pose proof (remove_one_perm p held Hheld) as Hperm.
    destruct (Nat.ltb (List.length (pages w)) PAGE_POOL_SIZE) eqn:Hcap.
    + apply Nat.ltb_lt in Hcap.
      rewrite (releasePage_under_capacity p w Hcap). cbn [snd].
      apply exclusive_perm with (w := w) (held := held);
        [|cbn; lia|exact Hex].
      cbn [set_pages pages]. rewrite <- app_assoc. cbn [app].
      apply Permutation_app_head. exact Hperm.
    + apply Nat.ltb_ge in Hcap.
      destruct (releasePage_at_capacity p w Hcap) as [r [w' [Hr [Hpg [Hf _]]]]].
      rewrite Hr. cbn [snd].
      apply exclusive_drop with (w := w) (held := held) (p := p);
        [|lia|exact Hex].
      rewrite Hpg. eapply perm_trans;
        [apply Permutation_app_head; exact Hperm|].
      apply Permutation_sym, Permutation_middle.
  - (* clear *)
    destruct (clear_empties w) as [Hpg Hf].
    destruct Hex as [Hn Hb]. unfold exclusive. cbn [fst snd] in *.
    rewrite Hpg. cbn [app]. split.
    + eapply NoDup_app_remove_l. exact Hn.
    + apply Forall_app in Hb. destruct Hb as [_ Hb]. rewrite Hf. exact Hb.
Qed.

Lemma exclusive_run (context : option Context) (ops : list PoolOp)
  (s : World * list Page) :
  creates_pages context -> exclusive s -> exclusive (pool_run context ops s).
Proof.
  intros Hc. revert s. induction ops as [|op ops IH]; intros s Hex;
    [exact Hex|].
  cbn [pool_run fold_left]. apply IH. apply exclusive_step; assumption.
Qed.

End PoolInvariant.

(** C9 (as amended). [pagePool.getPage] pops a pooled handle from the idle
    set before returning it. When the browser context makes a new page for
    each request (a Playwright-style context), the handles stay exclusive
    under every sequence of acquisitions, releases by holders and
    clearings: no handle is idle and held, or held by two requests. A
    handle released while the idle set is under capacity is added to it,
    and the very next [getPage] returns that handle, without any external
    call; a handle released at capacity is closed and the idle set is left
    as it was. *)
Theorem pool_handles_exclusive (P : Platform) (context : option Context) :
  creates_pages context ->
  (forall ops (s : World * list Page),
      exclusive s -> exclusive (pool_run context ops s))
  /\ (forall (w : World) l p,
        pages w = l ++ [p] ->
        pagePool_getPage context w = (Done p, set_pages l w))
  /\ (forall (w : World) p,
        List.length (pages w) < PAGE_POOL_SIZE ->
        pagePool_releasePage p w = (Done tt, set_pages (pages w ++ [p]) w)
        /\ pagePool_getPage context (snd (pagePool_releasePage p w))
           = (Done p, w))
  /\ (forall (w : World) p,
        PAGE_POOL_SIZE <= List.length (pages w) ->
        exists r w',
          pagePool_releasePage p w = (Done tt, w')
          /\ pages w' = pages w
          /\ trace w' = trace w ++ [Called (Close p) r]).
Proof.
  intros Hc. split; [intros ops s; apply exclusive_run; exact Hc|].
  split; [intros w l p; apply getPage_pooled|].
  split.
  - intros w p Hcap. rewrite (releasePage_under_capacity p w Hcap).
    split; [reflexivity|]. cbn [snd].
    rewrite (getPage_pooled context (set_pages (pages w ++ [p]) w)
               (pages w) p eq_refl).
    f_equal. destruct w; reflexivity.
  - intros w p Hcap.
    destruct (releasePage_at_capacity p w Hcap) as [r [w' [H1 [H2 [_ H3]]]]].
    exists r, w'. repeat split; assumption.
Qed.

(** C9, witness: a Playwright-style context; a request acquires a page,
    a second one acquires another, the first releases its page and a third
    request acquires it again. *)
Lemma pool_handles_exclusive_witness :
  exclusive
    (@pool_run (scripted 2 2 3) (Some playwright)
       [Acquire; Acquire; Release 1; Acquire]
       (start (scripted 2 2 3) (script_of playwright []), [])).
Proof.
  apply (proj1 (pool_handles_exclusive (scripted 2 2 3) (Some playwright)
                  eq_refl)).
  split; cbn; constructor.
Defined.

(** C9, counterexample: the browser context is itself a page (the
    Puppeteer case of [getPage]). With an empty pool two requests in a row
    acquire a handle, none releases: both are handed the same page 0. *)
Lemma shared_page_held_twice :
  fst (@pagePool_getPage (scripted 2 2 3) (Some puppeteer)
         (start (scripted 2 2 3) (script_of puppeteer []))) = Done 0
  /\ fst (@pagePool_getPage (scripted 2 2 3) (Some puppeteer)
            (snd (@pagePool_getPage (scripted 2 2 3) (Some puppeteer)
                    (start (scripted 2 2 3) (script_of puppeteer [])))))
     = Done 0
  /\ snd (@pool_run (scripted 2 2 3) (Some puppeteer) [Acquire; Acquire]
            (start (scripted 2 2 3) (script_of puppeteer []), []))
     = [0; 0].
Proof. repeat split; vm_compute; reflexivity. Qed.

(* ------------------------------------------------------------------ *)
(** ** Rules for triples *)

Section TripleRules.

Context {P : Platform}.
Variable q : Event -> Prop.

Lemma no_events (w : World) :
  exists events, trace w = trace w ++ events /\ Forall q events.
Proof. exists []. rewrite app_nil_r. split; [reflexivity|constructor]. Qed.

Lemma t_ret (A : Type) (Pre : ModState -> Prop) (Post : A -> ModState -> Prop)
  (Exc : ModState -> Prop) (a : A) :
  (forall m, Pre m -> Post a m) -> triple Pre q (ret a) Post Exc.
Proof.
  intros H w Hw. cbn. split; [apply no_events|]. split.
  - intros a' E. inversion E; subst. apply H, Hw.
  - discriminate.
Qed.

Lemma t_throw (A : Type) (Pre : ModState -> Prop) (Post : A -> ModState -> Prop)
  (Exc : ModState -> Prop) (e : Exn) :
  (forall m, Pre m -> Exc m) -> triple Pre q (@throw World A e) Post Exc.
Proof.
  intros H w Hw. cbn. split; [apply no_events|]. split.
  - discriminate.
  - intros e' _. apply H, Hw.
Qed.

Lemma t_lift (A : Type) (Pre : ModState -> Prop) (Post : A -> ModState -> Prop)
  (Exc : ModState -> Prop) (t : Throwing A) :
  (forall a m, t = Ok a -> Pre m -> Post a m) ->
  (forall m, Pre m -> Exc m) ->
  triple Pre q (lift t) Post Exc.
Proof.
  intros H1 H2. destruct t as [a|e]; cbn [lift].
  - apply t_ret. intros m. apply H1. reflexivity.
  - apply t_throw. exact H2.
Qed.

Lemma t_get_state (Pre : ModState -> Prop) (Post : World -> ModState -> Prop)
  (Exc : ModState -> Prop) :
  (forall w, Pre (module_of w) -> Post w (module_of w)) ->
  triple Pre q get_state Post Exc.
Proof.
  intros H w Hw. cbn. split; [apply no_events|]. split.
  - intros a E. inversion E; subst. apply H, Hw.
  - discriminate.
Qed.

Lemma t_now (Pre : ModState -> Prop) (Post : Z -> ModState -> Prop)
  (Exc : ModState -> Prop) :
  (forall t m, Pre m -> Post t m) -> triple Pre q now Post Exc.
Proof.
  intros H w Hw. cbn. split; [apply no_events|]. split.
  - intros a E. inversion E; subst. apply H, Hw.
  - discriminate.
Qed.

Lemma t_alloc (Pre : ModState -> Prop) (Post : Page -> ModState -> Prop)
  (Exc : ModState -> Prop) :
  (forall p m, Pre m -> Post p m) -> triple Pre q alloc_page Post Exc.
Proof.
  intros H w Hw. cbn. split; [apply no_events|]. split.
  - intros a E. inversion E; subst. apply H, Hw.
  - discriminate.
Qed.

Lemma t_set_authToken (Pre : ModState -> Prop) (Post : unit -> ModState -> Prop)
  (Exc : ModState -> Prop) (t : JSValue) :
  (forall m, Pre m -> Post tt (with_token t m)) ->
  triple Pre q (modify (set_authToken t)) Post Exc.
Proof.
  intros H w Hw. cbn. split; [apply no_events|]. split.
  - intros [] _. apply (H _ Hw).
  - discriminate.
Qed.

Lemma t_set_pages (Pre : ModState -> Prop) (Post : unit -> ModState -> Prop)
  (Exc : ModState -> Prop) (l : list Page) :
  (forall m, Pre m -> Post tt (with_pages l m)) ->
  triple Pre q (modify (set_pages l)) Post Exc.
Proof.
  intros H w Hw. cbn. split; [apply no_events|]. split.
  - intros [] _. apply (H _ Hw).
  - discriminate.
Qed.

Lemma t_set_models (Pre : ModState -> Prop) (Post : unit -> ModState -> Prop)
  (Exc : ModState -> Prop) (l : list string) :
  (forall m, Pre m -> Post tt (with_models l m)) ->
  triple Pre q (modify (set_availableModels l)) Post Exc.
Proof.
  intros H w Hw. cbn. split; [apply no_events|]. split.
  - intros [] _. apply (H _ Hw).
  - discriminate.
Qed.

Lemma t_log (Pre : ModState -> Prop) (Post : unit -> ModState -> Prop)
  (Exc : ModState -> Prop) (e : Event) :
  q e ->
  (forall m, Pre m -> Post tt m) ->
  triple Pre q (modify (log_event e)) Post Exc.
Proof.
  intros He H w Hw. cbn. split.
  - exists [e]. split; [reflexivity|]. constructor; [exact He|constructor].
  - split; [|discriminate]. intros [] _. apply (H _ Hw).
Qed.

Lemma t_delay (Pre : ModState -> Prop) (Post : unit -> ModState -> Prop)
  (Exc : ModState -> Prop) (ms : Z) :
  q (Delayed ms) ->
  (forall m, Pre m -> Post tt m) ->
  triple Pre q (delay ms) Post Exc.
Proof. apply t_log. Qed.

Lemma t_exit (A : Type) (Pre : ModState -> Prop) (Post : A -> ModState -> Prop)
  (Exc : ModState -> Prop) (code : Z) :
  q (ProcessExit code) -> triple Pre q (@exit P A code) Post Exc.
Proof.
  intros He w Hw. cbn. split.
  - exists [ProcessExit code]. split; [reflexivity|].
    constructor; [exact He|constructor].
  - split; discriminate.
Qed.

Lemma t_call (A : Type) (Pre : ModState -> Prop) (Post : A -> ModState -> Prop)
  (Exc : ModState -> Prop) (c : ExtCall A) :
  (forall r, q (Called c r)) ->
  (forall a m, Pre m -> Post a m) ->
  (forall m, Pre m -> Exc m) ->
  triple Pre q (call c) Post Exc.
Proof.
  intros Hq HP HE w Hw. unfold call.
  destruct (handle c (ext w)) as [r x] eqn:Hc.
  assert (Hev : exists events,
             trace w ++ [Called c r] = trace w ++ events
             /\ Forall q events).
  { exists [Called c r]. split; [reflexivity|].
    constructor; [apply Hq|constructor]. }
  destruct r as [a|e]; cbn; (split; [exact Hev|]); split;
    try discriminate.
  - intros a' E. inversion E; subst. apply HP, Hw.
  - intros e' _. apply HE, Hw.
Qed.

Lemma t_bind (A B : Type) (Pre : ModState -> Prop) (Mid : A -> ModState -> Prop)
  (Post : B -> ModState -> Prop) (Exc : ModState -> Prop)
  (m : Comp A) (k : A -> Comp B) :
  triple Pre q m Mid Exc ->
  (forall a, triple (Mid a) q (k a) Post Exc) ->
  triple Pre q (bind m k) Post Exc.
Proof.
  intros Hm Hk w Hw. unfold bind.
  destruct (Hm w Hw) as [[ev [Ht Hq]] [HP HE]].
  destruct (m w) as [[a|e|c|] w1]; cbn [fst snd] in *.
  - destruct (Hk a w1 (HP a eq_refl)) as [[ev2 [Ht2 Hq2]] [HP2 HE2]].
    split; [|split; assumption].
    exists (ev ++ ev2). rewrite Ht2, Ht, app_assoc. split; [reflexivity|].
    apply Forall_app. split; assumption.
  - split; [exists ev; split; assumption|]. split; [discriminate|].
    intros e' _. apply (HE e eq_refl).
  - split; [exists ev; split; assumption|]. split; discriminate.
  - split; [exists ev; split; assumption|]. split; discriminate.
Qed.

Lemma t_try_catch (A : Type) (Pre : ModState -> Prop)
  (Post : A -> ModState -> Prop) (Exc1 Exc : ModState -> Prop)
  (m : Comp A) (h : Exn -> Comp A) :
  triple Pre q m Post Exc1 ->
  (forall e, triple Exc1 q (h e) Post Exc) ->
  triple Pre q (try_catch m h) Post Exc.
Proof.
  intros Hm Hh w Hw. unfold try_catch.
  destruct (Hm w Hw) as [[ev [Ht Hq]] [HP HE]].
  destruct (m w) as [[a|e|c|] w1]; cbn [fst snd] in *.
  - split; [exists ev; split; assumption|]. split; [exact HP|discriminate].
  - destruct (Hh e w1 (HE e eq_refl)) as [[ev2 [Ht2 Hq2]] [HP2 HE2]].
    split; [|split; assumption].
    exists (ev ++ ev2). rewrite Ht2, Ht, app_assoc. split; [reflexivity|].
    apply Forall_app. split; assumption.
  - split; [exists ev; split; assumption|]. split; discriminate.
  - split; [exists ev; split; assumption|]. split; discriminate.
Qed.

(** [try { m } finally { f }] for an [f] that keeps what [m] established
    and does not throw. *)
Lemma t_finally (A : Type) (Pre : ModState -> Prop)
  (Post : A -> ModState -> Prop) (Exc : ModState -> Prop)
  (m : Comp A) (f : Comp unit) :
  triple Pre q m Post Exc ->
  (forall a, triple (Post a) q f (fun _ => Post a) (Post a)) ->
  triple Exc q f (fun _ => Exc) Exc ->
  (forall w, exists w', f w = (Done tt, w') \/ exists e, f w = (Raised e, w')) ->
  triple Pre q (finally_ m f) Post Exc.
Proof.
  intros Hm Hf1 Hf2 Hdone w Hw. unfold finally_.
  destruct (Hm w Hw) as [[ev [Ht Hq]] [HP HE]].
  destruct (m w) as [[a|e|c|] w1]; cbn [fst snd] in *.
  - destruct (Hf1 a w1 (HP a eq_refl)) as [[ev2 [Ht2 Hq2]] [HP2 HE2]].
    split.
    + exists (ev ++ ev2). rewrite Ht2, Ht, app_assoc. split; [reflexivity|].
      apply Forall_app. split; assumption.
    + split; [|discriminate]. intros a' E. inversion E; subst a'.
      destruct (Hdone w1) as [w2 [Hd|[e Hd]]]; rewrite Hd in *; cbn in *.
      * apply (HP2 tt eq_refl).
      * apply (HE2 e eq_refl).
  - destruct (Hf2 w1 (HE e eq_refl)) as [[ev2 [Ht2 Hq2]] [HP2 HE2]].
    split.
    + exists (ev ++ ev2). rewrite Ht2, Ht, app_assoc. split; [reflexivity|].
      apply Forall_app. split; assumption.
    + split; [discriminate|]. intros e' _.
      destruct (Hdone w1) as [w2 [Hd|[e2 Hd]]]; rewrite Hd in *; cbn in *.
      * apply (HP2 tt eq_refl).
      * apply (HE2 e2 eq_refl).
  - split; [exists ev; split; assumption|]. split; discriminate.
  - split; [exists ev; split; assumption|]. split; discriminate.
Qed.

Lemma t_when (Pre : ModState -> Prop) (Post : unit -> ModState -> Prop)
  (Exc : ModState -> Prop) (b : bool) (m : Comp unit) :
  (forall s, Pre s -> Post tt s) ->
  triple Pre q m Post Exc ->
  triple Pre q (when_ b m) Post Exc.
Proof.
  intros Ht Hm. destruct b; cbn [when_]; [exact Hm|apply t_ret; exact Ht].
Qed.

Lemma t_for_each (A : Type) (Inv Exc : ModState -> Prop)
  (body : A -> Comp unit) (l : list A) :
  (forall a, triple Inv q (body a) (fun _ => Inv) Exc) ->
  triple Inv q (for_each body l) (fun _ => Inv) Exc.
Proof.
  intros Hb. induction l as [|x r IH]; cbn [for_each].
  - apply t_ret. auto.
  - eapply t_bind; [apply Hb|]. intros ?. exact IH.
Qed.

Lemma t_conseq (A : Type) (Pre Pre' : ModState -> Prop)
  (Post Post' : A -> ModState -> Prop) (Exc Exc' : ModState -> Prop)
  (m : Comp A) :
  triple Pre' q m Post' Exc' ->
  (forall s, Pre s -> Pre' s) ->
  (forall a s, Post' a s -> Post a s) ->
  (forall s, Exc' s -> Exc s) ->
  triple Pre q m Post Exc.
Proof.
  intros Hm H1 H2 H3 w Hw. destruct (Hm w (H1 _ Hw)) as [Hev [HP HE]].
  split; [exact Hev|]. split.
  - intros a E. apply H2, HP, E.
  - intros e E. apply H3, (HE e), E.
Qed.

(** A fact that the precondition implies may be assumed. *)
Lemma t_assume (A : Type) (Pre : ModState -> Prop)
  (Post : A -> ModState -> Prop) (Exc : ModState -> Prop) (m : Comp A)
  (Q : Prop) :
  (forall s, Pre s -> Q) ->
  (Q -> triple Pre q m Post Exc) ->
  triple Pre q m Post Exc.
Proof. intros H1 H2 w Hw. exact (H2 (H1 _ Hw) w Hw). Qed.

End TripleRules.

(* ------------------------------------------------------------------ *)
(** ** Components that leave the module state alone *)

Ltac t_leaf := intros; assumption.

Ltac t_plain :=
  match goal with
  | H : forall e, plain e = true -> _ |- _ => apply H; reflexivity
  end.

Ltac t_step :=
  match goal with
  | |- triple ?I _ (bind _ _) _ _ =>
      apply t_bind with (Mid := fun _ => I); [|intros ?]
  | |- triple _ _ (ret _) _ _ => apply t_ret; t_leaf
  | |- triple _ _ (throw _) _ _ => apply t_throw; t_leaf
  | |- triple _ _ (lift _) _ _ => apply t_lift; t_leaf
  | |- triple _ _ get_state _ _ => apply t_get_state; t_leaf
  | |- triple _ _ now _ _ => apply t_now; t_leaf
  | |- triple _ _ alloc_page _ _ => apply t_alloc; t_leaf
  | |- triple _ _ (call _) _ _ => apply t_call; [intros ?; t_plain|t_leaf|t_leaf]
  | |- triple _ _ (delay _) _ _ => apply t_delay; [t_plain|t_leaf]
  | |- triple _ _ (exit _) _ _ => apply t_exit; t_plain
  | |- triple ?I _ (try_catch _ _) _ _ =>
      apply t_try_catch with (Exc1 := I); [|intros ?]
  | |- triple _ _ (when_ _ _) _ _ => apply t_when; [t_leaf|]
  | |- triple _ _ (for_each _ _) _ _ => apply t_for_each; intros ?
  | |- triple _ _ (match ?x with _ => _ end) _ _ => destruct x eqn:?
  | |- triple _ _ (if ?x then _ else _) _ _ => destruct x eqn:?
  end.

Ltac t_auto := repeat t_step.

Section Frames.

Context {P : Platform}.
Variable q : Event -> Prop.
Hypothesis q_plain : forall e, plain e = true -> q e.

Variable Pre : ModState -> Prop.

Lemma getPage_frame (context : option Context) :
  triple Pre q (getPage context) (fun _ => Pre) Pre.
Proof. unfold getPage. t_auto. Qed.

Lemma response_text_frame (r : Response) :
  triple Pre q (response_text r) (fun _ => Pre) Pre.
Proof. unfold response_text. t_auto. Qed.

Lemma response_json_frame (r : Response) :
  triple Pre q (response_json r) (fun _ => Pre) Pre.
Proof. unfold response_json. t_auto. apply response_text_frame. Qed.

Lemma close_held_page_frame (page : Page) :
  triple Pre q (close_held_page page) (fun _ => Pre) Pre.
Proof. unfold close_held_page. t_auto. Qed.

Lemma mark_from_body_frame (errorBody : string) (tokenObj : option TokenObj) :
  triple Pre q (mark_from_body errorBody tokenObj) (fun _ => Pre) Pre.
Proof. unfold mark_from_body. t_auto. Qed.

(** The status script: its [fetch] must be allowed. *)
Lemma status_script_frame (page : Page) (url : string) (token : JSValue) :
  (forall r, q (Called (Fetch page (ReqTaskStatus url token)) r)) ->
  triple Pre q (status_script page url token) (fun _ => Pre) Pre.
Proof.
  intros Hq. unfold status_script.
  apply t_bind with (Mid := fun _ => Pre); [t_auto|intros _].
  apply t_try_catch with (Exc1 := Pre); [|intros ?; t_auto].
  apply t_bind with (Mid := fun _ => Pre).
  - apply t_call; [exact Hq|t_leaf|t_leaf].
  - intros response. t_auto;
      first [apply response_text_frame | apply response_json_frame].
Qed.

Lemma poll_loop_frame (taskId : JSValue) (page : Page) (token : JSValue)
  (maxAttempts : nat) (interval : Z) (n attempt : nat) :
  (forall r, q (Called (Fetch page
                          (ReqTaskStatus
                             (TASK_STATUS_URL +++ "/" +++ to_string taskId)
                             token)) r)) ->
  triple Pre q (poll_loop taskId page token maxAttempts interval n attempt)
    (fun _ => Pre) Pre.
Proof.
  intros Hq. revert attempt.
  induction n as [|n IH]; intros attempt; cbn [poll_loop].
  - t_auto.
  - unfold poll_attempt. t_auto; try (apply status_script_frame; exact Hq).
    apply IH.
Qed.

(** The script that creates a chat: its [fetch] must be allowed. *)
Lemma create_chat_script_frame (page : Page) (token : JSValue)
  (model : option string) :
  (forall r, q (Called (Fetch page
                          (ReqCreateChat CREATE_CHAT_URL token "Новый чат" model))
                  r)) ->
  triple Pre q (create_chat_script page token model) (fun _ => Pre) Pre.
Proof.
  intros Hq. unfold create_chat_script.
  apply t_bind with (Mid := fun _ => Pre); [t_auto|intros _].
  apply t_try_catch with (Exc1 := Pre); [|intros ?; t_auto].
  apply t_bind with (Mid := fun _ => Pre).
  - apply t_call; [exact Hq|t_leaf|t_leaf].
  - intros response. t_auto;
      first [apply response_text_frame | apply response_json_frame].
Qed.

(** The models file: reading it must be allowed. *)
Lemma getAvailableModelsFromFile_frame :
  (forall r, q (Called ReadModelsFile r)) ->
  triple Pre q getAvailableModelsFromFile (fun _ => Pre) Pre.
Proof.
  intros Hq. unfold getAvailableModelsFromFile.
  apply t_try_catch with (Exc1 := Pre); [|intros ?; t_auto].
  apply t_bind with (Mid := fun _ => Pre).
  - apply t_call; [exact Hq|t_leaf|t_leaf].
  - intros content. t_auto.
Qed.

(** The executor: its chat call must be allowed when the token is truthy.
    It never throws once the page runs the script; a result that reports
    success was obtained with a truthy token, and a result that is a task
    was obtained with a payload that does not stream. *)
Lemma executeApiRequest_frame (page : Page) (apiUrl : string)
  (payload : Payload) (token : JSValue) :
  (truthy token = true ->
   forall r, q (Called (Fetch page (ReqChat apiUrl token payload)) r)) ->
  triple Pre q (executeApiRequest page apiUrl payload token)
    (fun response s =>
       Pre s
       /\ (r_success response = true -> truthy token = true)
       /\ (r_isTask response = true -> p_stream payload = false))
    Pre.
Proof.
  intros Hq. unfold executeApiRequest.
  assert (Hleaf : forall (response : ApiResponse) (s : ModState),
             (r_success response = true -> truthy token = true) ->
             (r_isTask response = true -> p_stream payload = false) ->
             Pre s ->
             Pre s
             /\ (r_success response = true -> truthy token = true)
             /\ (r_isTask response = true -> p_stream payload = false)).
  { intros response s H1 H2 H. split; [exact H|]. split; assumption. }
  apply t_bind with (Mid := fun _ => Pre); [t_auto|intros _].
  apply t_try_catch with (Exc1 := Pre);
    [|intros ?; apply t_ret; intros s; apply Hleaf; discriminate].
  destruct (truthy token) eqn:Ht; cbn [negb].
  - apply t_bind with (Mid := fun _ => Pre).
    + apply t_call; [apply Hq; reflexivity|t_leaf|t_leaf].
    + intros response. destruct (resp_ok response).
      * destruct (p_stream payload) eqn:Hs; cbn [negb].
        -- apply t_bind with (Mid := fun _ => Pre); [t_auto|intros t].
           apply t_bind with (Mid := fun _ => Pre); [t_auto|intros c].
           apply t_ret. intros s. apply Hleaf; [reflexivity|discriminate].
        -- apply t_bind with (Mid := fun _ => Pre);
             [apply response_json_frame|intros j].
           apply t_ret. intros s. apply Hleaf; reflexivity.
      * apply t_bind with (Mid := fun _ => Pre);
          [apply response_text_frame|intros b].
        apply t_ret. intros s. apply Hleaf; discriminate.
  - apply t_ret. intros s. apply Hleaf; discriminate.
Qed.

End Frames.

(* ------------------------------------------------------------------ *)
(** ** Invariants of the module state *)

Section PoolKeeps.

Context {P : Platform}.
Variable q : Event -> Prop.
Hypothesis q_plain : forall e, plain e = true -> q e.

Variable Inv : ModState -> Prop.

(** The invariant survives what the pool does to the idle set, and the
    caching of a token when none is cached. *)
Hypothesis Inv_pop :
  forall s, Inv s -> Inv (with_pages (removelast (mod_pages s)) s).
Hypothesis Inv_push :
  forall s p, Inv s -> List.length (mod_pages s) < PAGE_POOL_SIZE ->
              Inv (with_pages (mod_pages s ++ [p]) s).
Hypothesis Inv_clear : forall s, Inv s -> Inv (with_pages [] s).
Hypothesis Inv_first_token :
  forall s t, Inv s -> truthy (mod_token s) = false -> Inv (with_token t s).

Lemma pagePool_getPage_keeps (context : option Context) :
  triple Inv q (pagePool_getPage context) (fun _ => Inv) Inv.
Proof.
  unfold pagePool_getPage.
  apply t_bind with (Mid := fun w s => Inv s /\ mod_pages s = pages w).
  { apply t_get_state. intros w Hw. split; [exact Hw|reflexivity]. }
  intros w. destruct (Nat.ltb 0 (List.length (pages w))).
  - apply t_bind with (Mid := fun _ => Inv).
    + apply t_set_pages. intros s [Hs Hp]. rewrite <- Hp. apply Inv_pop, Hs.
    + intros _. t_auto.
  - apply t_conseq with (Pre' := Inv) (Post' := fun _ => Inv) (Exc' := Inv);
      [|intros s [Hs _]; exact Hs|auto|auto].
    apply t_bind with (Mid := fun _ => Inv);
      [apply getPage_frame; exact q_plain|intros newPage].
    apply t_bind with (Mid := fun _ => Inv); [t_auto|intros _].
    apply t_bind with (Mid := fun w' s => Inv s /\ mod_token s = authToken w').
    { apply t_get_state. intros w' Hw. split; [exact Hw|reflexivity]. }
    intros w'. apply t_bind with (Mid := fun _ => Inv); [|intros _; t_auto].
    destruct (truthy (authToken w')) eqn:Ht; cbn [negb].
    + apply t_ret. intros s [Hs _]. exact Hs.
    + apply t_try_catch with (Exc1 := Inv).
      * apply t_bind with (Mid := fun _ s => Inv s /\ mod_token s = authToken w').
        { apply t_call; [intros ?; t_plain|auto|intros s [Hs _]; exact Hs]. }
        intros t. apply t_bind with (Mid := fun _ => Inv).
        { apply t_set_authToken. intros s [Hs Hm]. apply Inv_first_token;
            [exact Hs|rewrite Hm; exact Ht]. }
        intros _. t_auto.
      * intros e. t_auto.
Qed.

Lemma pagePool_releasePage_keeps (page : Page) :
  triple Inv q (pagePool_releasePage page) (fun _ => Inv) Inv.
Proof.
  unfold pagePool_releasePage.
  apply t_bind with (Mid := fun w s => Inv s /\ mod_pages s = pages w).
  { apply t_get_state. intros w Hw. split; [exact Hw|reflexivity]. }
  intros w. destruct (Nat.ltb (List.length (pages w)) PAGE_POOL_SIZE) eqn:Hlt.
  - apply t_set_pages. intros s [Hs Hp]. rewrite <- Hp. apply Inv_push;
      [exact Hs|]. rewrite Hp. apply Nat.ltb_lt. exact Hlt.
  - apply t_conseq with (Pre' := Inv) (Post' := fun _ => Inv) (Exc' := Inv);
      [|intros s [Hs _]; exact Hs|auto|auto].
    t_auto.
Qed.

Lemma pagePool_clear_keeps :
  triple Inv q pagePool_clear (fun _ => Inv) Inv.
Proof.
  unfold pagePool_clear.
  apply t_bind with (Mid := fun _ => Inv); [t_auto|intros w].
  apply t_bind with (Mid := fun _ => Inv); [t_auto|intros _].
  apply t_set_pages. intros s Hs. apply Inv_clear, Hs.
Qed.

End PoolKeeps.

(** What [buildPayloadV2] builds when it does not throw; it throws only
    for a truthy system message that is not a string. *)
Lemma buildPayloadV2_built (content : JSValue) (model : string)
  (chatId parentId files systemMessage tools toolChoice : JSValue)
  (chatType : string) (size : JSValue) (payload : Payload) :
  buildPayloadV2 content model chatId parentId files systemMessage tools
    toolChoice chatType size = Ok payload ->
  payload =
    {| p_stream := negb (String.eqb chatType "t2v");
       p_chat_id := chatId;
       p_model := model;
       p_parent_id := parentId;
       p_content := content;
       p_chat_type := chatType;
       p_files := js_or files (JArr []);
       p_thinking_enabled := String.eqb chatType "t2v";
       p_size := if truthy size then Some size else None;
       p_system_message :=
         if truthy systemMessage then Some systemMessage else None;
       p_tools := if is_nonempty_array tools
                  then Some (tools, js_or toolChoice (JStr "auto"))
                  else None |}
  /\ (truthy systemMessage = true -> is_string systemMessage = true).
Proof.
  unfold buildPayloadV2.
  destruct (truthy systemMessage && negb (is_string systemMessage)) eqn:Hbad;
    [discriminate|].
  intros H. inversion H. split; [reflexivity|].
  intros Ht. rewrite Ht in Hbad. cbn in Hbad.
  apply negb_false_iff in Hbad. exact Hbad.
Qed.

Section Keeps.

Context {P : Platform}.
Variable q : Event -> Prop.
Variable Inv : ModState -> Prop.

(** What a request may do: create a chat, poll a task. *)
Variables (may_create may_poll : bool).

Hypothesis q_plain : forall e, plain e = true -> q e.
Hypothesis q_attempt : forall r, q (Attempt r).
Hypothesis q_read :
  forall s, Inv s -> mod_models s = None ->
            forall r, q (Called ReadModelsFile r).
(** The payloads a chat call may carry, and the requests that build
    such payloads. *)
Variable good_payload : Payload -> Prop.
Variable ok_args : SendArgs -> Prop.

Hypothesis q_chat :
  forall page url token payload r,
    truthy token = true -> good_payload payload ->
    q (Called (Fetch page (ReqChat url token payload)) r).
Hypothesis ok_payload :
  forall a content model chatId,
    ok_args a ->
    validateAndPrepareMessage (a_message a) = Ok (inr content) ->
    (truthy (a_chatId a) = true -> chatId = a_chatId a) ->
    forall payload,
      buildPayloadV2 content model chatId (a_parentId a) (a_files a)
        (a_systemMessage a) (a_tools a) (a_toolChoice a) (a_chatType a)
        (a_size a) = Ok payload ->
      good_payload payload.
Hypothesis ok_retry :
  forall a m c,
    ok_args a -> (truthy (a_chatId a) = true -> c = a_chatId a) ->
    ok_args (retry_args a m c).
Hypothesis q_create :
  may_create = true ->
  forall page url token title model r,
    truthy token = true ->
    q (Called (Fetch page (ReqCreateChat url token title model)) r).
Hypothesis q_status :
  may_poll = true ->
  forall page url token r,
    truthy token = true ->
    q (Called (Fetch page (ReqTaskStatus url token)) r).

Hypothesis Inv_pop :
  forall s, Inv s -> Inv (with_pages (removelast (mod_pages s)) s).
Hypothesis Inv_push :
  forall s p, Inv s -> List.length (mod_pages s) < PAGE_POOL_SIZE ->
              Inv (with_pages (mod_pages s ++ [p]) s).
Hypothesis Inv_clear : forall s, Inv s -> Inv (with_pages [] s).
Hypothesis Inv_token : forall s t, Inv s -> Inv (with_token t s).
Hypothesis Inv_models :
  forall s l, Inv s -> mod_models s = None -> Inv (with_models l s).

(** The invariant together with a cached token. *)
Definition with_cached_token (s : ModState) : Prop :=
  Inv s /\ truthy (mod_token s) = true.

Ltac k_step :=
  first
    [ t_step
    | match goal with
      | |- triple _ _ (modify (set_authToken _)) _ _ =>
          apply t_set_authToken; intros; apply Inv_token; assumption
      | |- triple _ _ (getPage _) _ _ => apply getPage_frame; exact q_plain
      | |- triple _ _ (pagePool_getPage _) _ _ =>
          apply pagePool_getPage_keeps; auto
      | |- triple _ _ (pagePool_releasePage _) _ _ =>
          apply pagePool_releasePage_keeps; auto
      | |- triple _ _ pagePool_clear _ _ => apply pagePool_clear_keeps; auto
      | |- triple _ _ (close_held_page _) _ _ =>
          apply close_held_page_frame; exact q_plain
      | |- triple _ _ (mark_from_body _ _) _ _ =>
          apply mark_from_body_frame; exact q_plain
      end ].

Ltac k_auto := repeat k_step.

Lemma extractAuthToken_keeps (context : option Context) :
  triple Inv q (extractAuthToken context) (fun _ => Inv) Inv.
Proof. unfold extractAuthToken. k_auto. Qed.

Lemma load_models_keeps :
  triple Inv q load_models (fun _ => Inv) Inv.
Proof.
  unfold load_models.
  apply t_bind with (Mid := fun w s => Inv s /\ mod_models s = availableModels w).
  { apply t_get_state. intros w Hw. split; [exact Hw|reflexivity]. }
  intros w. destruct (availableModels w) as [l|].
  - apply t_ret. intros s [Hs _]. exact Hs.
  - apply t_assume with (Q := forall r, q (Called ReadModelsFile r)).
    { intros s [Hs Hm]. exact (q_read s Hs Hm). }
    intros Hq.
    apply t_bind with (Mid := fun _ s => Inv s /\ mod_models s = None).
    { apply t_conseq with (Pre' := fun s => Inv s /\ mod_models s = None)
        (Post' := fun _ s => Inv s /\ mod_models s = None)
        (Exc' := fun s => Inv s /\ mod_models s = None); auto.
      - apply getAvailableModelsFromFile_frame; assumption.
      - intros s [Hs _]. exact Hs. }
    intros l. apply t_bind with (Mid := fun _ => Inv); [|intros _; k_auto].
    apply t_set_models. intros s [Hs Hm]. apply Inv_models; assumption.
Qed.

Lemma resolve_model_keeps (model : option string) :
  triple Inv q (resolve_model model) (fun _ => Inv) Inv.
Proof.
  unfold resolve_model, isValidModel. k_auto; apply load_models_keeps.
Qed.

Lemma resolveAuthToken_keeps (context : option Context) :
  triple Inv q (resolveAuthToken context) (fun _ => Inv) Inv.
Proof.
  unfold resolveAuthToken. k_auto; apply extractAuthToken_keeps.
Qed.

Lemma ensure_token_keeps (page : Page) (chatId : JSValue) :
  triple Inv q (ensure_token page chatId) (fun _ => Inv) Inv.
Proof. unfold ensure_token. k_auto. Qed.

Lemma with_cached_token_inv (s : ModState) : with_cached_token s -> Inv s.
Proof. intros [H _]. exact H. Qed.

(** [createChatV2]: the request that creates the chat carries the cached
    token, and the token is truthy by then. *)
Lemma createChatV2_keeps (model : option string) :
  may_create = true ->
  triple Inv q (createChatV2 model) (fun _ => Inv) Inv.
Proof.
  intros Hmay. unfold createChatV2.
  apply t_bind with (Mid := fun _ => Inv); [k_auto|intros browserContext].
  destruct browserContext as [c|]; [|k_auto].
  apply t_bind with (Mid := fun _ => Inv); [k_auto|intros tokenObj].
  apply t_bind with (Mid := fun _ => Inv); [k_auto|intros _].
  apply t_bind with (Mid := fun w s => Inv s /\ mod_token s = authToken w).
  { apply t_get_state. intros w Hw. split; [exact Hw|reflexivity]. }
  intros w.
  apply t_bind with (Mid := fun token s => Inv s /\ mod_token s = token).
  { destruct (truthy (authToken w)); cbn [negb].
    - apply t_ret. auto.
    - apply t_conseq with (Pre' := Inv)
        (Post' := fun token s => Inv s /\ mod_token s = token) (Exc' := Inv);
        [|intros s [Hs _]; exact Hs|auto|auto].
      apply t_bind with (Mid := fun _ => Inv);
        [apply extractAuthToken_keeps|intros t].
      apply t_bind with (Mid := fun _ s => Inv s /\ mod_token s = t).
      + apply t_set_authToken. intros s Hs. split; [|reflexivity].
        apply Inv_token, Hs.
      + intros _. apply t_ret. auto. }
  intros token. destruct (truthy token) eqn:Ht; cbn [negb].
  2:{ apply t_ret. intros s [Hs _]. exact Hs. }
  apply t_conseq with (Pre' := with_cached_token) (Post' := fun _ => Inv)
    (Exc' := Inv); [|intros s [Hs Hm]; split; [exact Hs|rewrite Hm; exact Ht]
                   |auto|auto].
  apply t_bind with (Mid := fun _ => with_cached_token).
  { apply t_try_catch with (Exc1 := with_cached_token);
      [|intros e; apply t_ret; auto].
    apply t_bind with (Mid := fun _ => with_cached_token);
      [|intros page; apply t_ret; auto].
    apply pagePool_getPage_keeps; try exact q_plain.
    - intros s [Hs Hm]. split; [apply Inv_pop, Hs|exact Hm].
    - intros s t [Hs Hm] Hf. rewrite Hm in Hf. discriminate. }
  intros acquired. destruct acquired as [page|failed].
  2:{ apply t_ret. intros s [Hs _]. exact Hs. }
  apply t_bind with (Mid := fun _ => Inv).
  { apply t_try_catch with (Exc1 := Inv); [|intros e; k_auto].
    apply t_bind
      with (Mid := fun w' s => Inv s /\ truthy (authToken w') = true).
    { apply t_conseq
        with (Pre' := with_cached_token)
             (Post' := fun w' s => Inv s /\ truthy (authToken w') = true)
             (Exc' := with_cached_token);
        [|auto|auto|apply with_cached_token_inv].
      apply t_get_state. intros w' [Hs Hm]. split; [exact Hs|exact Hm]. }
    intros w'.
    apply t_assume with (Q := truthy (authToken w') = true);
      [intros s [_ H]; exact H|intros Htok].
    apply t_conseq with (Pre' := Inv) (Post' := fun _ => Inv) (Exc' := Inv);
      [|intros s [Hs _]; exact Hs|auto|auto].
    apply t_bind with (Mid := fun _ => Inv); [|intros result; k_auto].
    apply create_chat_script_frame; [exact q_plain|].
    intros r. apply q_create; assumption. }
  intros held. destruct held as [result|failed]; k_auto.
Qed.

(** The task branch: the status checks carry the cached token. *)
Lemma handle_task_keeps (page : Page) (response : ApiResponse) (model : string)
  (chatId : JSValue) (wait : bool) :
  (wait = true -> may_poll = true) ->
  triple with_cached_token q (handle_task page response model chatId wait)
    (fun _ => Inv) Inv.
Proof.
  intros Hwait. unfold handle_task.
  apply t_bind with (Mid := fun _ => with_cached_token);
    [apply t_lift; [auto|apply with_cached_token_inv]|intros taskId].
  destruct (negb (truthy taskId)).
  { apply t_conseq with (Pre' := Inv) (Post' := fun _ => Inv) (Exc' := Inv);
      [k_auto|apply with_cached_token_inv|auto|auto]. }
  destruct wait; cbn [negb].
  2:{ apply t_conseq with (Pre' := Inv) (Post' := fun _ => Inv) (Exc' := Inv);
        [k_auto|apply with_cached_token_inv|auto|auto]. }
  apply t_bind with (Mid := fun w s => Inv s /\ truthy (authToken w) = true).
  { apply t_conseq
      with (Pre' := with_cached_token)
           (Post' := fun w s => Inv s /\ truthy (authToken w) = true)
           (Exc' := with_cached_token);
      [|auto|auto|apply with_cached_token_inv].
    apply t_get_state. intros w [Hs Hm]. split; [exact Hs|exact Hm]. }
  intros w.
  apply t_assume with (Q := truthy (authToken w) = true);
    [intros s [_ H]; exact H|intros Htok].
  apply t_conseq with (Pre' := Inv) (Post' := fun _ => Inv) (Exc' := Inv);
    [|intros s [Hs _]; exact Hs|auto|auto].
  apply t_bind with (Mid := fun _ => Inv); [|intros taskResult; k_auto].
  apply poll_loop_frame; [exact q_plain|].
  intros r. apply q_status; [apply Hwait; reflexivity|exact Htok].
Qed.

(** The request itself: the chat call carries a truthy token, and a task
    is polled only for a payload that does not stream. *)
Lemma send_request_keeps (page : Page) (a : SendArgs) (content : JSValue)
  (model : string) (chatId : JSValue) :
  (may_poll = false -> polls a = false) ->
  (forall payload,
      buildPayloadV2 content model chatId (a_parentId a) (a_files a)
        (a_systemMessage a) (a_tools a) (a_toolChoice a) (a_chatType a)
        (a_size a) = Ok payload ->
      good_payload payload) ->
  triple Inv q (send_request page a content model chatId) (fun _ => Inv) Inv.
Proof.
  intros Hpoll Hgood. unfold send_request.
  apply t_bind with (Mid := fun _ => Inv);
    [apply ensure_token_keeps|intros missing].
  destruct missing as [result|]; [k_auto|].
  destruct (buildPayloadV2 content model chatId (a_parentId a) (a_files a)
              (a_systemMessage a) (a_tools a) (a_toolChoice a) (a_chatType a)
              (a_size a)) as [payload|e] eqn:Hbuilt; [|k_auto].
  specialize (Hgood payload eq_refl).
  apply buildPayloadV2_built in Hbuilt. destruct Hbuilt as [Hpayload _].
  apply t_bind with (Mid := fun w s => Inv s /\ mod_token s = authToken w).
  { apply t_get_state. intros w Hw. split; [exact Hw|reflexivity]. }
  intros w.
  set (url := CHAT_API_URL +++ "?chat_id=" +++ to_string chatId).
  apply t_bind
    with (Mid := fun response s =>
                   (Inv s /\ mod_token s = authToken w)
                   /\ (r_success response = true -> truthy (authToken w) = true)
                   /\ (r_isTask response = true -> p_stream payload = false)).
  { apply t_conseq
      with (Pre' := fun s => Inv s /\ mod_token s = authToken w)
           (Post' := fun response s =>
                       (Inv s /\ mod_token s = authToken w)
                       /\ (r_success response = true ->
                           truthy (authToken w) = true)
                       /\ (r_isTask response = true ->
                           p_stream payload = false))
           (Exc' := fun s => Inv s /\ mod_token s = authToken w);
      [|auto|auto|intros s [Hs _]; exact Hs].
    apply executeApiRequest_frame; [exact q_plain|].
    intros Ht r. apply q_chat; [exact Ht|exact Hgood]. }
  intros response.
  apply t_assume
    with (Q := (r_success response = true -> truthy (authToken w) = true)
               /\ (r_isTask response = true -> p_stream payload = false));
    [intros s [_ H]; exact H|intros [Hsucc Htask]].
  destruct (r_success response && r_isTask response) eqn:Hboth.
  - apply andb_true_iff in Hboth. destruct Hboth as [H1 H2].
    apply t_conseq with (Pre' := with_cached_token) (Post' := fun _ => Inv)
      (Exc' := Inv); [|intros s [[Hs Hm] _]; split;
                       [exact Hs|rewrite Hm; apply Hsucc, H1]|auto|auto].
    apply handle_task_keeps. intros Hw.
    destruct may_poll eqn:Hmp; [reflexivity|].
    specialize (Hpoll eq_refl). unfold polls in Hpoll. rewrite Hw in Hpoll.
    specialize (Htask H2). subst payload. cbn [p_stream] in Htask.
    apply negb_false_iff in Htask. rewrite Htask in Hpoll. discriminate.
  - apply t_conseq with (Pre' := Inv) (Post' := fun _ => Inv) (Exc' := Inv);
      [k_auto|intros s [[Hs _] _]; exact Hs|auto|auto].
Qed.

Lemma send_with_page_keeps (page : Page) (a : SendArgs) (content : JSValue)
  (model : string) (chatId : JSValue) :
  (may_poll = false -> polls a = false) ->
  (forall payload,
      buildPayloadV2 content model chatId (a_parentId a) (a_files a)
        (a_systemMessage a) (a_tools a) (a_toolChoice a) (a_chatType a)
        (a_size a) = Ok payload ->
      good_payload payload) ->
  triple Inv q (send_with_page page a content model chatId) (fun _ => Inv) Inv.
Proof.
  intros Hpoll Hgood. unfold send_with_page. k_auto.
  apply send_request_keeps; assumption.
Qed.

Lemma handleApiError_keeps (retry : Z -> Comp Result) (response : ApiResponse)
  (tokenObj : option TokenObj) (chatId : JSValue) (retryCount : Z) :
  (forall r, triple Inv q (retry r) (fun _ => Inv) Inv) ->
  triple Inv q (handleApiError retry response tokenObj chatId retryCount)
    (fun _ => Inv) Inv.
Proof.
  intros Hretry. unfold handleApiError. k_auto; apply Hretry.
Qed.

(** The request once the models are loaded; the chat is created only
    when no chat id was given, and the retry keeps the chat id. *)
Lemma sendMessage_request_keeps (retry : SendArgs -> Z -> Comp Result)
  (a : SendArgs) (r : Z) :
  (may_create = false -> truthy (a_chatId a) = true) ->
  (may_poll = false -> polls a = false) ->
  ok_args a ->
  (forall m chatId r',
      (truthy (a_chatId a) = true -> chatId = a_chatId a) ->
      triple Inv q (retry (retry_args a m chatId) r') (fun _ => Inv) Inv) ->
  triple Inv q (sendMessage_request retry a r) (fun _ => Inv) Inv.
Proof.
  intros Hcreate Hpoll Hok Hretry. unfold sendMessage_request.
  apply t_bind
    with (Mid := fun created s =>
                   Inv s /\ forall c, created = inr c ->
                                      truthy (a_chatId a) = true ->
                                      c = a_chatId a).
  { destruct (truthy (a_chatId a)) eqn:Hc; cbn [negb].
    - apply t_ret. intros s Hs. split; [exact Hs|].
      intros c E _. inversion E. reflexivity.
    - apply t_conseq with (Pre' := Inv) (Post' := fun _ => Inv) (Exc' := Inv);
        [|auto|intros x s Hs; split; [exact Hs|discriminate]|auto].
      apply t_bind with (Mid := fun _ => Inv); [|intros newChatResult; k_auto].
      apply createChatV2_keeps.
      destruct may_create; [reflexivity|].
      specialize (Hcreate eq_refl). discriminate. }
  intros created. destruct created as [error|chatId].
  { apply t_ret. intros s [Hs _]. exact Hs. }
  apply t_assume with (Q := truthy (a_chatId a) = true -> chatId = a_chatId a);
    [intros s [_ H]; exact (H chatId eq_refl)|intros Hsame].
  apply t_conseq with (Pre' := Inv) (Post' := fun _ => Inv) (Exc' := Inv);
    [|intros s [Hs _]; exact Hs|auto|auto].
  apply t_bind
    with (Mid := fun validated s =>
                   Inv s
                   /\ validateAndPrepareMessage (a_message a) = Ok validated).
  { apply t_lift; auto. }
  intros validated.
  apply t_assume
    with (Q := validateAndPrepareMessage (a_message a) = Ok validated);
    [intros s [_ H]; exact H|intros Hvalid].
  apply t_conseq with (Pre' := Inv) (Post' := fun _ => Inv) (Exc' := Inv);
    [|intros s [Hs _]; exact Hs|auto|auto].
  destruct validated as [error|content]; [k_auto|].
  apply t_bind with (Mid := fun _ => Inv);
    [apply resolve_model_keeps|intros model].
  apply t_bind with (Mid := fun _ => Inv); [k_auto|intros browserContext].
  destruct browserContext as [c|]; [|k_auto].
  apply t_bind with (Mid := fun _ => Inv);
    [apply resolveAuthToken_keeps|intros tokenObj].
  destruct tokenObj as [t|]; [|k_auto].
  apply t_bind with (Mid := fun _ => Inv); [k_auto|intros acquired].
  destruct acquired as [page|error]; [|k_auto].
  apply t_bind with (Mid := fun _ => Inv).
  { apply t_try_catch with (Exc1 := Inv); [|intros e; k_auto].
    apply send_with_page_keeps; [exact Hpoll|].
    apply ok_payload; assumption. }
  intros held. destruct held as [result|result|response]; try solve [k_auto].
  apply handleApiError_keeps. intros r'. apply Hretry. exact Hsame.
Qed.

Lemma sendMessage_fuel_keeps (fuel : nat) (a : SendArgs) (r : Z) :
  (may_create = false -> truthy (a_chatId a) = true) ->
  (may_poll = false -> polls a = false) ->
  ok_args a ->
  triple Inv q (sendMessage_fuel fuel a r) (fun _ => Inv) Inv.
Proof.
  revert a r. induction fuel as [|n IH]; intros a r Hcreate Hpoll Hok.
  - intros w Hw. cbn. split; [apply no_events|]. split; discriminate.
  - cbn [sendMessage_fuel].
    apply t_bind with (Mid := fun _ => Inv);
      [apply t_log; [apply q_attempt|auto]|intros _].
    apply t_bind with (Mid := fun _ => Inv);
      [apply load_models_keeps|intros _].
    apply sendMessage_request_keeps; [exact Hcreate|exact Hpoll|exact Hok|].
    intros m chatId r' Hsame. apply IH.
    + intros Hmay. cbn [retry_args a_chatId].
      rewrite (Hsame (Hcreate Hmay)). apply Hcreate, Hmay.
    + intros Hmay. unfold polls. cbn [retry_args a_chatType a_waitForCompletion].
      apply Hpoll, Hmay.
    + apply ok_retry; assumption.
Qed.

End Keeps.

(* ------------------------------------------------------------------ *)
(** ** What a request does and does not do *)

Lemma none_of (A : Type) (f : A -> bool) (l : list A) :
  Forall (fun x => f x = false) l -> existsb f l = false.
Proof.
  induction 1 as [|x r Hx Hr IH]; [reflexivity|]. cbn [existsb].
  rewrite Hx, IH. reflexivity.
Qed.

Lemma all_of (A : Type) (f : A -> bool) (l : list A) :
  Forall (fun x => f x = true) l -> forallb f l = true.
Proof.
  induction 1 as [|x r Hx Hr IH]; [reflexivity|]. cbn [forallb].
  rewrite Hx, IH. reflexivity.
Qed.

Lemma plain_not_fetch (e : Event) : plain e = true -> is_fetch e = false.
Proof.
  unfold plain. intros H. apply andb_true_iff in H. destruct H as [H _].
  apply andb_true_iff in H. destruct H as [H _].
  apply negb_true_iff. exact H.
Qed.

Lemma plain_not_create (e : Event) :
  plain e = true -> is_create_call e = false.
Proof.
  intros H. apply plain_not_fetch in H.
  destruct e as [R c r| | |]; try reflexivity.
  destruct c; try reflexivity. discriminate.
Qed.

Lemma plain_not_status (e : Event) :
  plain e = true -> is_status_call e = false.
Proof.
  intros H. apply plain_not_fetch in H.
  destruct e as [R c r| | |]; try reflexivity.
  destruct c; try reflexivity. discriminate.
Qed.

Lemma plain_authenticated (e : Event) : plain e = true -> authenticated e = true.
Proof.
  intros H. apply plain_not_fetch in H.
  destruct e as [R c r| | |]; try reflexivity.
  destruct c; try reflexivity. discriminate.
Qed.

Lemma plain_not_read (e : Event) :
  plain e = true -> is_read_models e = false.
Proof.
  unfold plain. intros H. apply andb_true_iff in H. destruct H as [H _].
  apply andb_true_iff in H. destruct H as [_ H].
  apply negb_true_iff. exact H.
Qed.

(** X14. A request that names a chat never creates one: in every run of
    [sendMessage] with a truthy [chatId], retries included, no call to
    the chat-creation endpoint is made. *)
Theorem sendMessage_with_chat_creates_none (P : Platform) (a : SendArgs)
  (r : Z) (w : World) :
  truthy (a_chatId a) = true ->
  exists events,
    trace (snd (sendMessage a r w)) = trace w ++ events
    /\ existsb is_create_call events = false.
Proof.
  intros Hchat.
  assert (H : triple (fun _ => True) (fun e => is_create_call e = false)
                (sendMessage a r) (fun _ _ => True) (fun _ => True)).
  { unfold sendMessage.
    apply sendMessage_fuel_keeps with (may_create := false) (may_poll := true)
      (good_payload := fun _ => True) (ok_args := fun _ => True);
      try solve [auto | reflexivity | discriminate].
    exact plain_not_create. }
  destruct (H w I) as [[events [Ht Hq]] _].
  exists events. split; [exact Ht|]. apply none_of. exact Hq.
Qed.

(** X14, an instance: a text request in the chat [chat-1]. *)
Lemma sendMessage_with_chat_creates_none_witness :
  let P := scripted 2 1 3 in
  let w := start P (script_of playwright [paris_stream]) in
  exists events,
    trace (snd (@sendMessage P (text_request None (JStr "chat-1")) 0%Z w))
    = trace w ++ events
    /\ existsb is_create_call events = false.
Proof.
  intros P w.
  apply (sendMessage_with_chat_creates_none P
           (text_request None (JStr "chat-1")) 0%Z w).
  reflexivity.
Defined.

(** X15. Only a video request that waits for its result polls: in every
    run of [sendMessage] whose chat type is not [t2v], or whose
    [waitForCompletion] is off, no task status is asked for. *)
Theorem sendMessage_polls_only_for_video (P : Platform) (a : SendArgs)
  (r : Z) (w : World) :
  polls a = false ->
  exists events,
    trace (snd (sendMessage a r w)) = trace w ++ events
    /\ existsb is_status_call events = false.
Proof.
  intros Hpolls.
  assert (H : triple (fun _ => True) (fun e => is_status_call e = false)
                (sendMessage a r) (fun _ _ => True) (fun _ => True)).
  { unfold sendMessage.
    apply sendMessage_fuel_keeps with (may_create := true) (may_poll := false)
      (good_payload := fun _ => True) (ok_args := fun _ => True);
      try solve [auto | reflexivity | discriminate].
    exact plain_not_status. }
  destruct (H w I) as [[events [Ht Hq]] _].
  exists events. split; [exact Ht|]. apply none_of. exact Hq.
Qed.

(** X15, an instance: a text request. *)
Lemma sendMessage_polls_only_for_video_witness :
  let P := scripted 2 1 3 in
  let w := start P (script_of playwright [paris_stream]) in
  exists events,
    trace (snd (@sendMessage P (text_request None (JStr "chat-1")) 0%Z w))
    = trace w ++ events
    /\ existsb is_status_call events = false.
Proof.
  intros P w.
  apply (sendMessage_polls_only_for_video P
           (text_request None (JStr "chat-1")) 0%Z w).
  reflexivity.
Defined.

(** X17. No unauthenticated upstream call of any kind: in every run of
    [sendMessage] and of [createChatV2], every [fetch] (chat completion,
    chat creation, task status) carries a truthy bearer token. *)
Theorem every_fetch_is_authenticated (P : Platform) :
  (forall a r (w : World),
      exists events,
        trace (snd (sendMessage a r w)) = trace w ++ events
        /\ forallb authenticated events = true)
  /\ (forall model (w : World),
        exists events,
          trace (snd (createChatV2 model w)) = trace w ++ events
          /\ forallb authenticated events = true).
Proof.
  split.
  - intros a r w.
    assert (H : triple (fun _ => True) (fun e => authenticated e = true)
                  (sendMessage a r) (fun _ _ => True) (fun _ => True)).
    { unfold sendMessage.
      apply sendMessage_fuel_keeps with (may_create := true) (may_poll := true)
      (good_payload := fun _ => True) (ok_args := fun _ => True);
        try solve [auto | reflexivity | discriminate].
      exact plain_authenticated. }
    destruct (H w I) as [[events [Ht Hq]] _].
    exists events. split; [exact Ht|apply all_of; exact Hq].
  - intros model w.
    assert (H : triple (fun _ => True) (fun e => authenticated e = true)
                  (createChatV2 model) (fun _ _ => True) (fun _ => True)).
    { apply createChatV2_keeps with (may_create := true);
        try solve [auto | reflexivity | discriminate].
      exact plain_authenticated. }
    destruct (H w I) as [[events [Ht Hq]] _].
    exists events. split; [exact Ht|apply all_of; exact Hq].
Qed.

Section ModelsCache.

Context {P : Platform}.

Lemma triple_run (A : Type) (Inv : ModState -> Prop) (q : Event -> Prop)
  (m : Comp A) (w : World) :
  triple Inv q m (fun _ => Inv) Inv ->
  Inv (module_of w) ->
  (exists events, trace (snd (m w)) = trace w ++ events
                  /\ Forall q events)
  /\ match fst (m w) with
     | Done _ | Raised _ => Inv (module_of (snd (m w)))
     | _ => True
     end.
Proof.
  intros H Hw. destruct (H w Hw) as [Hev [HP HE]]. split; [exact Hev|].
  destruct (fst (m w)) as [a|e|c|] eqn:Ho; try exact I.
  - apply (HP a eq_refl).
  - apply (HE e eq_refl).
Qed.

Lemma load_models_unloaded (w : World) :
  availableModels w = None ->
  exists x l w',
    load_models w = (Done l, w')
    /\ trace w' = trace w ++ [Called ReadModelsFile x]
    /\ availableModels w' = Some l.
Proof.
  intros Hn. unfold load_models, bind, get_state. rewrite Hn.
  unfold getAvailableModelsFromFile, try_catch, bind, call.
  destruct (handle ReadModelsFile (ext w)) as [[[text|]|e] x] eqn:Hh; cbn;
    eexists; eexists; eexists; (split; [reflexivity|]); split; reflexivity.
Qed.

(** With the list of models loaded, no part of a request reads the file
    or changes the list. *)
Lemma sendMessage_fuel_cached (l : list string) (fuel : nat) (a : SendArgs)
  (r : Z) :
  triple (fun s => mod_models s = Some l) (fun e => is_read_models e = false)
    (sendMessage_fuel fuel a r) (fun _ s => mod_models s = Some l)
    (fun s => mod_models s = Some l).
Proof.
  apply sendMessage_fuel_keeps with (may_create := true) (may_poll := true)
      (good_payload := fun _ => True) (ok_args := fun _ => True);
    try solve [auto | reflexivity | discriminate
              | intros s; intros; congruence | exact plain_not_read].
Qed.

Lemma sendMessage_request_cached (l : list string) (n : nat) (a : SendArgs)
  (r : Z) :
  triple (fun s => mod_models s = Some l) (fun e => is_read_models e = false)
    (sendMessage_request (sendMessage_fuel n) a r)
    (fun _ s => mod_models s = Some l) (fun s => mod_models s = Some l).
Proof.
  apply sendMessage_request_keeps with (may_create := true) (may_poll := true)
      (good_payload := fun _ => True) (ok_args := fun _ => True);
    try solve [auto | reflexivity | discriminate
              | intros s; intros; congruence | exact plain_not_read].
  intros m chatId r' _. apply sendMessage_fuel_cached.
Qed.

End ModelsCache.

(** X16. The models file is read at most once. A run of [sendMessage]
    that starts with the list of models loaded never reads the file and
    leaves the list as it is; a run that starts without it reads the file
    once, right at its start, and never again, retries included. *)
Theorem models_file_read_at_most_once (P : Platform) (a : SendArgs) (r : Z)
  (w : World) :
  (forall l, availableModels w = Some l ->
     (exists events,
         trace (snd (sendMessage a r w)) = trace w ++ events
         /\ existsb is_read_models events = false)
     /\ models_are l (sendMessage a r w))
  /\ (availableModels w = None ->
      exists x rest,
        trace (snd (sendMessage a r w))
        = trace w ++ Attempt r :: Called ReadModelsFile x :: rest
        /\ existsb is_read_models rest = false).
Proof.
  split.
  - intros l Hl.
    destruct (triple_run _ _ _ (sendMessage a r) w
                (sendMessage_fuel_cached l _ a r) Hl) as [[ev [Ht Hq]] Hm].
    split.
    + exists ev. split; [exact Ht|]. apply none_of. exact Hq.
    + unfold models_are. destruct (fst (sendMessage a r w)); exact Hm.
  - intros Hn. unfold sendMessage. cbn [sendMessage_fuel].
    unfold bind at 1. unfold modify at 1. unfold bind at 1.
    destruct (load_models_unloaded (log_event (Attempt r) w) Hn)
      as [x [l [w1 [Hload [Ht1 Hm1]]]]].
    rewrite Hload.
    destruct (sendMessage_request_cached l (Z.to_nat (MAX_RETRY_COUNT - r))
                a r w1 Hm1) as [[ev [Ht Hq]] _].
    exists x, ev. split.
    + rewrite Ht, Ht1. cbn [log_event trace]. rewrite <- !app_assoc.
      reflexivity.
    + apply none_of. exact Hq.
Qed.

(** X16, an instance: the list is loaded before the request starts. *)
Lemma models_file_read_at_most_once_witness :
  let P := scripted 2 1 3 in
  let w := set_availableModels ["qwen-max-latest"]
             (start P (script_of playwright [paris_stream])) in
  exists events,
    trace (snd (@sendMessage P (text_request None (JStr "chat-1")) 0%Z w))
    = trace w ++ events
    /\ existsb is_read_models events = false.
Proof.
  intros P w.
  exact (proj1 (proj1 (models_file_read_at_most_once P
                         (text_request None (JStr "chat-1")) 0%Z w)
                  ["qwen-max-latest"] eq_refl)).
Defined.

(** X11. The idle set of the pool never outgrows [PAGE_POOL_SIZE]: started
    within capacity, every operation of the pool, [createChatV2] and
    [sendMessage] end within capacity, whether they return or throw. *)
Theorem pool_stays_within_capacity (P : Platform) (w : World) :
  List.length (pages w) <= PAGE_POOL_SIZE ->
  (forall context, within_capacity (pagePool_getPage context w))
  /\ (forall page, within_capacity (pagePool_releasePage page w))
  /\ within_capacity (pagePool_clear w)
  /\ (forall model, within_capacity (createChatV2 model w))
  /\ (forall a r, within_capacity (sendMessage a r w)).
Proof.
  intros Hw.
  set (Inv := fun s : ModState => List.length (mod_pages s) <= PAGE_POOL_SIZE).
  assert (Hpop : forall s, Inv s -> Inv (with_pages (removelast (mod_pages s)) s)).
  { intros s Hs. unfold Inv in *. cbn [with_pages mod_pages].
    destruct (mod_pages s) as [|x l] eqn:E using rev_ind; [exact Hs|].
    rewrite removelast_last. rewrite length_app in Hs. cbn in Hs. lia. }
  assert (Hpush : forall s p, Inv s -> List.length (mod_pages s) < PAGE_POOL_SIZE ->
                              Inv (with_pages (mod_pages s ++ [p]) s)).
  { intros s p _ Hl. unfold Inv. cbn [with_pages mod_pages].
    rewrite length_app. cbn. lia. }
  assert (Hclear : forall s, Inv s -> Inv (with_pages [] s)).
  { intros s _. unfold Inv. cbn. lia. }
  assert (Hrun : forall (A : Type) (m : Comp A),
             triple Inv (fun _ => True) m (fun _ => Inv) Inv ->
             within_capacity (m w)).
  { intros A m H. destruct (triple_run _ _ _ m w H Hw) as [_ Hm].
    unfold within_capacity. destruct (fst (m w)); exact Hm. }
  split; [intros context; apply Hrun; apply pagePool_getPage_keeps; auto|].
  split; [intros page; apply Hrun; apply pagePool_releasePage_keeps; auto|].
  split; [apply Hrun; apply pagePool_clear_keeps; auto|].
  split.
  - intros model. apply Hrun.
    apply createChatV2_keeps with (may_create := true); auto.
  - intros a r. apply Hrun. unfold sendMessage.
    apply sendMessage_fuel_keeps with (may_create := true) (may_poll := true)
      (good_payload := fun _ => True) (ok_args := fun _ => True);
      auto; discriminate.
Qed.

(** X11, an instance: the pool is empty at start-up. *)
Lemma pool_stays_within_capacity_witness :
  let P := scripted 2 1 3 in
  let w := start P (script_of playwright [paris_stream]) in
  within_capacity (@sendMessage P (text_request None (JStr "chat-1")) 0%Z w).
Proof.
  intros P w.
  apply (pool_stays_within_capacity P w); cbn; lia.
Defined.

(* ------------------------------------------------------------------ *)
(** ** Message validation (lines 244-259) *)

Lemma is_str_eq (v : JSValue) (text : string) :
  is_str v text = true <-> v = JStr text.
Proof.
  destruct v; cbn; try (split; [discriminate|discriminate]).
  split.
  - intros H. apply String.eqb_eq in H. subst. reflexivity.
  - intros H. inversion H. apply String.eqb_refl.
Qed.

Lemma is_string_eq (v : JSValue) : is_string v = true <-> exists s, v = JStr s.
Proof.
  destruct v; cbn; split; try discriminate;
    try (intros [s H]; discriminate).
  - intros _. eexists. reflexivity.
  - reflexivity.
Qed.

Lemma valid_part_well_formed (item : JSValue) :
  valid_part item = Ok true <-> well_formed_part item.
Proof.
  unfold valid_part, well_formed_part. split.
  - destruct (prop item "type") as [ty|e] eqn:Hp; [|discriminate].
    intros H. injection H as Hb.
    assert (Hn : nullish item = false).
    { destruct item; try reflexivity; discriminate. }
    split; [exact Hn|].
    assert (Hty : opt_prop item "type" = ty).
    { unfold opt_prop. rewrite Hp. reflexivity. }
    apply orb_true_iff in Hb. destruct Hb as [Hb|Hb];
      [apply orb_true_iff in Hb; destruct Hb as [Hb|Hb]|];
      apply andb_true_iff in Hb; destruct Hb as [H1 H2];
      apply is_str_eq in H1; apply is_string_eq in H2; destruct H2 as [s Hs].
    + exists "text", s. rewrite Hty, H1, Hs. cbn. auto.
    + exists "image", s. rewrite Hty, H1, Hs. cbn. auto.
    + exists "file", s. rewrite Hty, H1, Hs. cbn. auto.
  - intros [Hn [kind [text [Hk [Hty Hf]]]]].
    assert (Hp : prop item "type" = Ok (JStr kind)).
    { unfold opt_prop in Hty. destruct item; try discriminate;
        cbn in *; rewrite <- Hty; reflexivity. }
    rewrite Hp. cbn in Hk.
    destruct Hk as [Hk|[Hk|[Hk|[]]]]; subst kind; rewrite Hf; reflexivity.
Qed.

Lemma valid_part_throws (item : JSValue) (e : Exn) :
  valid_part item = Throw e -> nullish item = true.
Proof.
  unfold valid_part. destruct item; cbn; try discriminate; reflexivity.
Qed.

Lemma valid_part_safe (item : JSValue) :
  nullish item = false -> exists b, valid_part item = Ok b.
Proof.
  unfold valid_part. destruct item; cbn; try discriminate; eexists; reflexivity.
Qed.

Lemma every_part_true (items : list JSValue) :
  every_part items = Ok true <-> Forall well_formed_part items.
Proof.
  induction items as [|x r IH]; cbn [every_part].
  - split; [constructor|reflexivity].
  - destruct (valid_part x) as [[|]|e] eqn:Hv.
    + rewrite IH. split.
      * intros H. constructor; [apply valid_part_well_formed; exact Hv|exact H].
      * intros H. inversion H. assumption.
    + split; [discriminate|]. intros H. inversion H as [|? ? H1 H2].
      apply valid_part_well_formed in H1. congruence.
    + split; [discriminate|]. intros H. inversion H as [|? ? H1 H2].
      apply valid_part_well_formed in H1. congruence.
Qed.

Lemma every_part_throws (items : list JSValue) (e : Exn) :
  every_part items = Throw e -> Exists (fun x => nullish x = true) items.
Proof.
  induction items as [|x r IH]; cbn [every_part]; [discriminate|].
  destruct (valid_part x) as [[|]|e'] eqn:Hv.
  - intros H. apply Exists_cons_tl, IH, H.
  - discriminate.
  - intros _. apply Exists_cons_hd. apply (valid_part_throws x e' Hv).
Qed.

Lemma every_part_safe (items : list JSValue) :
  Forall (fun x => nullish x = false) items -> exists b, every_part items = Ok b.
Proof.
  induction 1 as [|x r Hx Hr IH]; cbn [every_part]; [eexists; reflexivity|].
  destruct (valid_part_safe x Hx) as [b Hb]. rewrite Hb.
  destruct b; [exact IH|eexists; reflexivity].
Qed.

(** X1. [validateAndPrepareMessage] accepts exactly the strings and the
    arrays whose items are all well-formed parts (the empty array
    included), and hands the message on unchanged; everything else gets
    an error text. It throws only for an array that holds [null] or
    [undefined], and never for an array that holds neither. *)
Theorem validateAndPrepareMessage_accepts (message : JSValue) :
  (forall content,
      validateAndPrepareMessage message = Ok (inr content) <->
      content = message
      /\ (is_string message = true
          \/ exists items, message = JArr items
                           /\ Forall well_formed_part items))
  /\ (forall e,
        validateAndPrepareMessage message = Throw e ->
        exists items, message = JArr items
                      /\ Exists (fun x => nullish x = true) items)
  /\ (forall items,
        message = JArr items ->
        Forall (fun x => nullish x = false) items ->
        exists r, validateAndPrepareMessage message = Ok r).
Proof.
  split; [|split].
  - intros content. split.
    + destruct message; cbn; try discriminate.
      * intros H. inversion H. split; [reflexivity|]. left. reflexivity.
      * destruct (every_part items) as [[|]|e] eqn:He; try discriminate.
        intros H. inversion H. split; [reflexivity|]. right.
        exists items. split; [reflexivity|]. apply every_part_true, He.
    + intros [Hc [Hs|[items [Hm Hall]]]]; subst content.
      * destruct message; try discriminate. reflexivity.
      * subst message. cbn. apply every_part_true in Hall. rewrite Hall.
        reflexivity.
  - intros e. destruct message; cbn; try discriminate.
    destruct (every_part items) as [[|]|e'] eqn:He; try discriminate.
    intros _. exists items. split; [reflexivity|].
    apply (every_part_throws items e' He).
  - intros items Hm Hall. subst message. cbn.
    destruct (every_part_safe items Hall) as [b Hb]. rewrite Hb.
    destruct b; eexists; reflexivity.
Qed.
(* ------------------------------------------------------------------ *)
(** ** White space *)

Lemma is_white_space_In (p : string) :
  is_white_space p = true <-> In p white_space.
Proof.
  unfold is_white_space. rewrite existsb_exists. split.
  - intros [x [Hin Heq]]. apply String.eqb_eq in Heq. subst. exact Hin.
  - intros Hin. exists p. split; [exact Hin|apply String.eqb_refl].
Qed.

Lemma string_length_ind (Q : string -> Prop) :
  (forall s, (forall t, String.length t < String.length s -> Q t) -> Q s) ->
  forall s, Q s.
Proof.
  intros step s.
  assert (H : forall n t, String.length t < n -> Q t).
  { induction n as [|n IH]; intros t Ht; [lia|].
    apply step. intros u Hu. apply IH. lia. }
  apply (H (S (String.length s))). lia.
Qed.

Lemma append_length (a b : string) :
  String.length (a +++ b) = String.length a + String.length b.
Proof. induction a as [|c a IH]; cbn; [reflexivity|rewrite IH; reflexivity]. Qed.

Lemma white_space_nonempty (p : string) :
  In p white_space -> exists c r, p = String c r.
Proof.
  intros H. destruct p as [|c r]; [|exists c, r; reflexivity].
  apply is_white_space_In in H. discriminate.
Qed.

(** A white-space character at the head of a text is found, whatever
    follows it: no such character is the beginning of another. *)
Lemma white_space_head (p r : string) :
  In p white_space -> after_white_space (p +++ r) = Some r.
Proof.
  intros H. unfold white_space in H. cbn in H.
  repeat (destruct H as [H|H]; [subst p; reflexivity|]). contradiction.
Qed.

Lemma after_white_space_split (s r : string) :
  after_white_space s = Some r ->
  exists p, In p white_space /\ s = p +++ r.
Proof.
  unfold after_white_space. destruct s as [|a s1]; [discriminate|].
  destruct (is_white_space (String a "")) eqn:H1.
  { intros H. injection H as <-. exists (String a "").
    split; [apply is_white_space_In; exact H1|reflexivity]. }
  destruct s1 as [|b s2]; [discriminate|].
  destruct (is_white_space (String a (String b ""))) eqn:H2.
  { intros H. injection H as <-. exists (String a (String b "")).
    split; [apply is_white_space_In; exact H2|reflexivity]. }
  destruct s2 as [|c s3]; [discriminate|].
  destruct (is_white_space (String a (String b (String c "")))) eqn:H3;
    [|discriminate].
  intros H. injection H as <-. exists (String a (String b (String c ""))).
  split; [apply is_white_space_In; exact H3|reflexivity].
Qed.

Lemma after_white_space_shorter (s r : string) :
  after_white_space s = Some r -> String.length r < String.length s.
Proof.
  intros H. apply after_white_space_split in H. destruct H as [p [Hp ->]].
  destruct (white_space_nonempty p Hp) as [c [q ->]].
  rewrite append_length. cbn. lia.
Qed.

Lemma trimStart_step (s : string) :
  trimStart s = match after_white_space s with
                | Some r => trimStart r
                | None => s
                end.
Proof.
  destruct s as [|a s1]; [reflexivity|].
  change (trimStart (String a s1))
    with (if is_white_space (String a "") then trimStart s1
          else match s1 with
               | EmptyString => String a s1
               | String b r2 =>
                   if is_white_space (String a (String b "")) then trimStart r2
                   else match r2 with
                        | EmptyString => String a s1
                        | String c r3 =>
                            if is_white_space (String a (String b (String c "")))
                            then trimStart r3
                            else String a s1
                        end
               end).
  unfold after_white_space.
  destruct (is_white_space (String a "")); [reflexivity|].
  destruct s1 as [|b r2]; [reflexivity|].
  destruct (is_white_space (String a (String b ""))); [reflexivity|].
  destruct r2 as [|c r3]; [reflexivity|].
  destruct (is_white_space (String a (String b (String c ""))));
    reflexivity.
Qed.

Lemma only_white_space_step (s : string) :
  only_white_space s = match s with
                       | EmptyString => true
                       | _ => match after_white_space s with
                              | Some r => only_white_space r
                              | None => false
                              end
                       end.
Proof.
  destruct s as [|a s1]; [reflexivity|].
  change (only_white_space (String a s1))
    with (if is_white_space (String a "") then only_white_space s1
          else match s1 with
               | EmptyString => false
               | String b r2 =>
                   if is_white_space (String a (String b ""))
                   then only_white_space r2
                   else match r2 with
                        | EmptyString => false
                        | String c r3 =>
                            if is_white_space (String a (String b (String c "")))
                            then only_white_space r3
                            else false
                        end
               end).
  unfold after_white_space.
  destruct (is_white_space (String a "")); [reflexivity|].
  destruct s1 as [|b r2]; [reflexivity|].
  destruct (is_white_space (String a (String b ""))); [reflexivity|].
  destruct r2 as [|c r3]; [reflexivity|].
  destruct (is_white_space (String a (String b (String c ""))));
    reflexivity.
Qed.

Lemma blank_nil : blank "".
Proof. exists []. split; [constructor|reflexivity]. Qed.

Lemma blank_cons (p s : string) :
  In p white_space -> blank s -> blank (p +++ s).
Proof.
  intros Hp [parts [Hall ->]]. exists (p :: parts).
  split; [constructor; assumption|]. rewrite concat_cons. reflexivity.
Qed.

Lemma blank_app (a b : string) : blank a -> blank b -> blank (a +++ b).
Proof.
  intros [parts [Hall ->]] Hb. induction Hall as [|p parts Hp Hall IH].
  - exact Hb.
  - rewrite concat_cons, append_assoc. apply blank_cons; assumption.
Qed.

Lemma only_white_space_blank (s : string) :
  only_white_space s = true -> blank s.
Proof.
  induction s as [s IH] using string_length_ind. intros H.
  rewrite only_white_space_step in H.
  destruct s as [|a s1]; [apply blank_nil|].
  destruct (after_white_space (String a s1)) as [r|] eqn:Ha; [|discriminate].
  pose proof (after_white_space_shorter _ _ Ha) as Hlen.
  apply after_white_space_split in Ha. destruct Ha as [p [Hp Hs]].
  rewrite Hs. apply blank_cons; [exact Hp|]. apply IH; assumption.
Qed.

Lemma blank_only_white_space (s : string) :
  blank s -> only_white_space s = true.
Proof.
  intros [parts [Hall ->]]. induction Hall as [|p parts Hp Hall IH].
  - reflexivity.
  - rewrite concat_cons, only_white_space_step.
    destruct (white_space_nonempty p Hp) as [c [q Hq]].
    rewrite (white_space_head _ (String.concat "" parts) Hp).
    rewrite Hq. cbn [String.append]. exact IH.
Qed.

(** [trimStart] removes a blank beginning and leaves no white space at
    the head. *)
Lemma trimStart_spec (s : string) :
  exists l, blank l /\ s = l +++ trimStart s
            /\ after_white_space (trimStart s) = None.
Proof.
  induction s as [s IH] using string_length_ind.
  rewrite trimStart_step.
  destruct (after_white_space s) as [r|] eqn:Ha.
  - destruct (IH r (after_white_space_shorter _ _ Ha)) as [l [Hl [Hr Hn]]].
    apply after_white_space_split in Ha. destruct Ha as [p [Hp Hs]].
    exists (p +++ l). split; [apply blank_cons; assumption|].
    split; [|exact Hn]. rewrite append_assoc, <- Hr. exact Hs.
  - exists "". split; [apply blank_nil|]. split; [reflexivity|exact Ha].
Qed.

(** [trimEnd] removes a blank end. *)
Lemma trimEnd_spec (s : string) :
  exists r, only_white_space r = true /\ s = trimEnd s +++ r.
Proof.
  induction s as [|c s IH]; [exists ""; split; reflexivity|].
  cbn [trimEnd]. destruct (only_white_space (String c s)) eqn:Hw.
  - exists (String c s). split; [exact Hw|reflexivity].
  - destruct IH as [r [Hr Hs]]. exists r. split; [exact Hr|].
    cbn [String.append]. rewrite <- Hs. reflexivity.
Qed.

Lemma trimEnd_blank (t : string) : only_white_space t = true -> trimEnd t = "".
Proof. intros H. destruct t; [reflexivity|]. cbn [trimEnd]. rewrite H. reflexivity. Qed.

Lemma trimEnd_short (a t : string) :
  only_white_space t = true ->
  String.length (trimEnd (a +++ t)) <= String.length a.
Proof.
  intros Ht. induction a as [|c a IH].
  - cbn [String.append]. rewrite (trimEnd_blank _ Ht). cbn. lia.
  - cbn [String.append trimEnd].
    destruct (only_white_space (String c (a +++ t))); cbn; lia.
Qed.

(** What [trimEnd] leaves does not end with white space. *)
Lemma trimEnd_tight (s rest p : string) :
  In p white_space -> trimEnd s <> rest +++ p.
Proof.
  intros Hp Heq. destruct (trimEnd_spec s) as [r [Hr Hs]].
  assert (Hw : only_white_space (p +++ r) = true).
  { apply blank_only_white_space, blank_cons;
      [exact Hp|apply only_white_space_blank; exact Hr]. }
  pose proof (trimEnd_short rest (p +++ r) Hw) as Hlen.
  rewrite <- append_assoc, <- Heq, <- Hs, Heq, append_length in Hlen.
  destruct (white_space_nonempty p Hp) as [c [q Hq]]. rewrite Hq in Hlen.
  cbn in Hlen. lia.
Qed.

(** [trim] strips the white space around a text. *)
Lemma trim_stripped (s : string) : stripped s (trim s).
Proof.
  unfold trim. destruct (trimStart_spec s) as [l [Hl [Hs Hn]]].
  destruct (trimEnd_spec (trimStart s)) as [r [Hr Hu]].
  split; [|split].
  - exists l, r. split; [|split; [exact Hl|apply only_white_space_blank; exact Hr]].
    rewrite <- Hu. exact Hs.
  - intros p rest Hp Heq. rewrite Hu, Heq, append_assoc in Hn.
    rewrite (white_space_head _ _ Hp) in Hn. discriminate.
  - intros rest p Hp. apply trimEnd_tight. exact Hp.
Qed.

Lemma blank_last (t : string) :
  blank t -> t <> "" -> exists rest p, In p white_space /\ t = rest +++ p.
Proof.
  intros [parts [Hall ->]] Hne.
  destruct (@exists_last _ parts) as [front [p Hparts]].
  { intros ->. apply Hne. reflexivity. }
  subst parts. apply Forall_app in Hall. destruct Hall as [Hfront Hp].
  inversion Hp as [|? ? Hin _]; subst.
  exists (String.concat "" front), p. split; [exact Hin|].
  clear. induction front as [|q front IH].
  - cbn. reflexivity.
  - cbn [app]. rewrite !concat_cons, IH, append_assoc. reflexivity.
Qed.

Lemma tight_trimStart (m : string) : tight m -> trimStart m = m.
Proof.
  intros [Hstart _]. rewrite trimStart_step.
  destruct (after_white_space m) as [r|] eqn:Ha; [|reflexivity].
  apply after_white_space_split in Ha. destruct Ha as [p [Hp Hm]].
  exfalso. exact (Hstart p r Hp Hm).
Qed.

Lemma tight_trimEnd (m : string) : tight m -> trimEnd m = m.
Proof.
  intros [_ Hend]. destruct (trimEnd_spec m) as [r [Hr Hm]].
  destruct r as [|c r]; [rewrite append_empty_r in Hm; symmetry; exact Hm|].
  exfalso.
  destruct (blank_last _ (only_white_space_blank _ Hr)) as [rest [p [Hp Ht]]];
    [discriminate|].
  apply (Hend (trimEnd m +++ rest) p Hp).
  rewrite append_assoc, <- Ht. exact Hm.
Qed.

(** A tight text is left as it is. *)
Lemma tight_trim (m : string) : tight m -> trim m = m.
Proof.
  intros H. unfold trim. rewrite (tight_trimStart _ H). apply tight_trimEnd, H.
Qed.

Lemma trim_idempotent (s : string) : trim (trim s) = trim s.
Proof. apply tight_trim. apply trim_stripped. Qed.

(** No white-space character ends inside another: in UTF-8 every byte of
    a character after its first is a continuation byte, and no character
    starts with one. *)
Ltac not_blank H :=
  cbn in H; try discriminate H;
  match type of H with
  | context [match ?r with EmptyString => _ | String _ _ => _ end] =>
      destruct r; not_blank H
  end.

Ltac boundary_case Hr :=
  match goal with
  | Heq : ?a +++ _ = String _ _ |- _ =>
      let c := fresh "c" in
      destruct a as [|c a]; cbn [String.append] in Heq;
      [subst; not_blank Hr
      |let Hc := fresh "Hc" in
       injection Heq as Hc Heq; subst c; boundary_case Hr]
  | Heq : ?a +++ ?r = ?rest |- _ =>
      exists a; split; [reflexivity|symmetry; exact Heq]
  end.

Lemma white_space_boundary (p a r rest : string) :
  In p white_space -> blank r -> a +++ r = p +++ rest -> a <> "" ->
  exists a', a = p +++ a' /\ rest = a' +++ r.
Proof.
  intros Hp Hr Heq Hne. apply blank_only_white_space in Hr.
  destruct a as [|c0 a]; [contradiction Hne; reflexivity|]. clear Hne.
  unfold white_space in Hp. cbn in Hp.
  repeat (destruct Hp as [Hp|Hp];
          [subst p; cbn [String.append] in Heq;
           injection Heq as Hc0 Heq; subst c0; boundary_case Hr|]).
  contradiction.
Qed.

Lemma trimStart_blank_app (l x : string) :
  blank l -> trimStart (l +++ x) = trimStart x.
Proof.
  intros [parts [Hall ->]]. induction Hall as [|p parts Hp Hall IH].
  - reflexivity.
  - rewrite concat_cons, append_assoc, trimStart_step.
    rewrite (white_space_head _ _ Hp). exact IH.
Qed.

Lemma blank_cancel (a r : string) : blank (a +++ r) -> blank r -> blank a.
Proof.
  induction a as [a IH] using string_length_ind. intros Har Hr.
  destruct a as [|c a]; [apply blank_nil|].
  pose proof (blank_only_white_space _ Har) as Hw.
  rewrite only_white_space_step in Hw. cbn [String.append] in Hw.
  destruct (after_white_space (String c (a +++ r))) as [rest|] eqn:Ha;
    [|discriminate].
  apply after_white_space_split in Ha. destruct Ha as [p [Hp Hs]].
  destruct (white_space_boundary p (String c a) r rest Hp Hr Hs)
    as [a' [Ha' Hrest]]; [discriminate|].
  rewrite Ha'. apply blank_cons; [exact Hp|]. apply IH.
  - rewrite Ha', append_length.
    destruct (white_space_nonempty p Hp) as [d [q ->]]. cbn. lia.
  - rewrite <- Hrest. apply only_white_space_blank. exact Hw.
  - exact Hr.
Qed.

Lemma trimEnd_app_blank (a r : string) :
  blank r -> trimEnd (a +++ r) = trimEnd a.
Proof.
  intros Hr. induction a as [|c a IH].
  - apply trimEnd_blank, blank_only_white_space, Hr.
  - cbn [String.append trimEnd]. rewrite IH.
    destruct (only_white_space (String c (a +++ r))) eqn:H1;
      destruct (only_white_space (String c a)) eqn:H2; try reflexivity.
    + apply only_white_space_blank in H1.
      pose proof (blank_cancel (String c a) r H1 Hr) as H3.
      apply blank_only_white_space in H3. rewrite H3 in H2. discriminate.
    + apply only_white_space_blank in H2.
      pose proof (blank_only_white_space _ (blank_app _ _ H2 Hr)) as H3.
      cbn [String.append] in H3. rewrite H3 in H1. discriminate.
Qed.

(** [trim] is the only way to strip a text. *)
Lemma stripped_unique (line m : string) : stripped line m -> m = trim line.
Proof.
  intros [[l [r [Hline [Hl Hr]]]] Htight]. subst line. unfold trim.
  rewrite (trimStart_blank_app _ _ Hl).
  destruct m as [|c m].
  - cbn [String.append].
    rewrite <- (append_empty_r r), (trimStart_blank_app _ _ Hr). reflexivity.
  - assert (Hs : trimStart (String c m +++ r) = String c m +++ r).
    { rewrite trimStart_step.
      destruct (after_white_space (String c m +++ r)) as [rest|] eqn:Ha;
        [|reflexivity].
      apply after_white_space_split in Ha. destruct Ha as [p [Hp Hs]].
      destruct (white_space_boundary p (String c m) r rest Hp Hr Hs)
        as [a' [Ha' _]]; [discriminate|].
      exfalso. exact (proj1 Htight p a' Hp Ha'). }
    rewrite Hs, (trimEnd_app_blank _ _ Hr). symmetry.
    apply tight_trimEnd, Htight.
Qed.

Lemma stripped_trim (line m : string) : stripped line m <-> trim line = m.
Proof.
  split.
  - intros H. symmetry. apply stripped_unique, H.
  - intros <-. apply trim_stripped.
Qed.

Lemma file_entries_in (text m : string) :
  In m (file_entries text) <->
  exists l, In l (split_lines text) /\ trim l = m /\ model_line m = true.
Proof.
  unfold file_entries. rewrite filter_In, in_map_iff. split.
  - intros [[l [Hl Hin]] Hm]. exists l. auto.
  - intros [l [Hin [Hl Hm]]]. split; [exists l; auto|exact Hm].
Qed.

Lemma file_entries_listed (text : string) : Forall listed (file_entries text).
Proof.
  apply Forall_forall. intros m Hm. apply file_entries_in in Hm.
  destruct Hm as [l [_ [Hl Hm]]]. subst m. unfold listed.
  split; [apply trim_stripped|].
  unfold model_line in Hm. apply andb_true_iff in Hm. destruct Hm as [H1 H2].
  split; [exact H1|]. apply negb_true_iff. exact H2.
Qed.

Lemma file_entries_of (text : string) : entries_of text (file_entries text).
Proof.
  exists (map trim (split_lines text)). split; [|reflexivity].
  induction (split_lines text) as [|line lines IH]; cbn [map]; constructor;
    [apply trim_stripped|exact IH].
Qed.

Lemma file_entries_lines (text m : string) :
  In m (file_entries text) <->
  exists line, In line (split_lines text)
               /\ stripped line m
               /\ nonempty m = true
               /\ startsWith m "#" = false.
Proof.
  rewrite file_entries_in. unfold model_line.
  split; intros [line [H1 [H2 H3]]]; exists line; (split; [exact H1|]).
  - split; [apply stripped_trim; exact H2|].
    apply andb_true_iff in H3. destruct H3 as [H3 H4].
    split; [exact H3|apply negb_true_iff; exact H4].
  - split; [apply stripped_trim; exact H2|].
    destruct H3 as [H3 H4]. rewrite H3, H4. reflexivity.
Qed.

Section ModelsFile.

Context {P : Platform}.

Lemma getAvailableModelsFromFile_run (w : World) :
  exists x l w',
    getAvailableModelsFromFile w = (Done l, w')
    /\ handle ReadModelsFile (ext w) = (x, ext w')
    /\ trace w' = trace w ++ [Called ReadModelsFile x]
    /\ module_of w' = module_of w
    /\ l = match x with
           | Ok (Some text) => file_entries text
           | _ => [DEFAULT_MODEL]
           end.
Proof.
  unfold getAvailableModelsFromFile, try_catch, bind, call.
  destruct (handle ReadModelsFile (ext w)) as [[[text|]|e] x] eqn:Hh; cbn;
    eexists; eexists; eexists; (split; [reflexivity|]);
    (split; [cbn; reflexivity|]); (split; [reflexivity|]);
    split; reflexivity.
Qed.

End ModelsFile.

(** X3. [getAvailableModelsFromFile] reads the models file once, never
    throws and leaves the module state alone. When the file can be read
    its result is the entries of the file ([entries_of]): the lines of
    the file in their order, each without the white space around it
    (the white space outside ASCII included: a byte order mark, a
    no-break space), those left out that are empty or start with [#].
    A name is in the result exactly when some line of the file, stripped,
    is that name, not empty and no comment. When the file is absent or
    cannot be read the result is the default model alone. *)
Theorem getAvailableModelsFromFile_entries (P : Platform) (w : World) :
  exists x l w',
    getAvailableModelsFromFile w = (Done l, w')
    /\ trace w' = trace w ++ [Called ReadModelsFile x]
    /\ module_of w' = module_of w
    /\ match x with
       | Ok (Some text) =>
           entries_of text l
           /\ Forall listed l
           /\ (forall m, In m l <->
                         exists line, In line (split_lines text)
                                      /\ stripped line m
                                      /\ nonempty m = true
                                      /\ startsWith m "#" = false)
       | _ => l = [DEFAULT_MODEL]
       end.
Proof.
  destruct (getAvailableModelsFromFile_run w) as [x [l [w' [Hr [_ [Ht [Hm Hl]]]]]]].
  exists x, l, w'. split; [exact Hr|]. split; [exact Ht|]. split; [exact Hm|].
  destruct x as [[text|]|e]; try exact Hl.
  subst l. split; [apply file_entries_of|].
  split; [apply file_entries_listed|]. apply file_entries_lines.
Qed.

(** X3, an instance: a models file that starts with a byte order mark
    and has a no-break space after a name, a comment and an empty line. *)
Example models_file_with_byte_order_mark :
  file_entries (bytes [239; 187; 191] +++ "qwen-max" +++ bytes [194; 160; 10]
                +++ "# a comment" +++ bytes [10; 10; 32]
                +++ "qwen-plus" +++ bytes [9; 13; 10])
  = ["qwen-max"; "qwen-plus"].
Proof. vm_compute. reflexivity. Qed.

Section ModelNames.

Context {P : Platform}.

Lemma string_in_In (m : string) (l : list string) :
  string_in m l = true <-> In m l.
Proof.
  unfold string_in. rewrite existsb_exists. split.
  - intros [x [Hin Heq]]. apply String.eqb_eq in Heq. subst. exact Hin.
  - intros Hin. exists m. split; [exact Hin|apply String.eqb_refl].
Qed.

Lemma load_models_first (w : World) :
  availableModels w = None ->
  exists x l w',
    load_models w = (Done l, w')
    /\ availableModels w' = Some l
    /\ l = match x with
           | Ok (Some text) => file_entries text
           | _ => [DEFAULT_MODEL]
           end.
Proof.
  intros Hn. unfold load_models, bind, get_state. rewrite Hn.
  destruct (getAvailableModelsFromFile_run w) as [x [l [w' [Hr [_ [_ [_ Hl]]]]]]].
  rewrite Hr. exists x, l. eexists. split; [reflexivity|].
  split; [reflexivity|exact Hl].
Qed.

Lemma load_models_cached (w : World) (l : list string) :
  availableModels w = Some l -> load_models w = (Done l, w).
Proof. intros H. unfold load_models, bind, get_state. rewrite H. reflexivity. Qed.

End ModelNames.

(** X4. A model name with white space around it, or one that starts with
    [#], is never taken as given: when the request loads the list of
    models itself, [resolve_model] answers the default model for it,
    whatever the models file holds. *)
Theorem untrimmed_model_name_is_replaced (P : Platform) (m : string)
  (w : World) :
  availableModels w = None ->
  String.eqb (trim m) m = false \/ startsWith m "#" = true ->
  exists w', resolve_model (Some m) w = (Done DEFAULT_MODEL, w').
Proof.
  intros Hn Hbad. unfold resolve_model.
  destruct (negb (nonempty m) || negb (nonempty (trim m)));
    [exists w; reflexivity|].
  unfold isValidModel, bind.
  destruct (load_models_first w Hn) as [x [l [w' [Hl [_ Hx]]]]].
  rewrite Hl. cbn [ret]. exists w'.
  destruct (string_in m l) eqn:Hin; [|reflexivity].
  apply string_in_In in Hin.
  assert (Hcase : l = [DEFAULT_MODEL] \/ l = match x with
                                             | Ok (Some text) => file_entries text
                                             | _ => [DEFAULT_MODEL]
                                             end /\ exists text, x = Ok (Some text)).
  { destruct x as [[text|]|e]; [right|left|left]; try exact Hx.
    split; [exact Hx|eexists; reflexivity]. }
  destruct Hcase as [Hd|[_ [text Ht]]].
  - rewrite Hd in Hin. destruct Hin as [Hin|[]]. rewrite Hin. reflexivity.
  - subst x. rewrite Hx in Hin.
    pose proof (file_entries_listed text) as Hall.
    rewrite Forall_forall in Hall. destruct (Hall m Hin) as [H1 [H2 H3]].
    destruct Hbad as [Hbad|Hbad].
    + rewrite (tight_trim _ H1), String.eqb_refl in Hbad. discriminate.
    + rewrite H3 in Hbad. discriminate.
Qed.

(** X4, an instance: the name of the default model with a space before
    it. *)
Lemma untrimmed_model_name_is_replaced_witness :
  let P := scripted 2 1 3 in
  exists w',
    @resolve_model P (Some " qwen-max-latest")
      (start P (script_of playwright []))
    = (Done "qwen-max-latest", w').
Proof.
  intros P.
  apply (untrimmed_model_name_is_replaced P " qwen-max-latest"
           (start P (script_of playwright []))).
  - reflexivity.
  - left. reflexivity.
Defined.

(** X5. [getAllModels] lists exactly the models that [isValidModel]
    accepts from then on: each entry has the model as its id and its
    name, and a later [isValidModel] answers from the cached list, with
    no external call and no change of state. *)
Theorem getAllModels_lists_the_valid_models (P : Platform) (w : World) :
  exists infos w',
    getAllModels w = (Done infos, w')
    /\ Forall (fun i => mi_name i = mi_id i
                        /\ mi_description i = "Модель " +++ mi_id i) infos
    /\ availableModels w' = Some (map mi_id infos)
    /\ forall m,
         isValidModel m w' = (Done (string_in m (map mi_id infos)), w').
Proof.
  unfold getAllModels, bind.
  destruct (load_models_done w) as [l [w' [Hl Ha]]]. rewrite Hl. cbn [ret].
  exists (map model_info l), w'.
  assert (Hid : map mi_id (map model_info l) = l).
  { rewrite map_map. cbn [model_info mi_id]. apply map_id. }
  split; [reflexivity|]. split.
  - apply Forall_forall. intros i Hi. apply in_map_iff in Hi.
    destruct Hi as [m [Hm _]]. subst i. split; reflexivity.
  - rewrite Hid. split; [exact Ha|]. intros m. unfold isValidModel, bind.
    rewrite (load_models_cached w' l Ha). reflexivity.
Qed.

(* ------------------------------------------------------------------ *)
(** ** API keys *)

(** X21. [getApiKeys] answers from the file once and from its cache ever
    after: whatever becomes of the file, every later call returns the
    first answer and does not touch the file. This holds for an empty
    answer too, the one a missing or unreadable file gives. *)
Theorem getApiKeys_caches_first_answer (s : KeysModule) (f' : KeysFile) :
  getApiKeys (with_file f' (snd (getApiKeys s)))
  = (fst (getApiKeys s), with_file f' (snd (getApiKeys s)))
  /\ (km_authKeys s = None -> kf_content (km_file s) = None ->
      fst (getApiKeys s) = []
      /\ km_authKeys (snd (getApiKeys s)) = Some []).
Proof.
  unfold getApiKeys. split.
  - destruct (km_authKeys s) as [keys|] eqn:Hk.
    + cbn. rewrite Hk. reflexivity.
    + destruct (getAuthKeysFromFile (km_file s)) as [keys f]. reflexivity.
  - intros Hk Hc. rewrite Hk. unfold getAuthKeysFromFile. rewrite Hc.
    split; reflexivity.
Qed.

(** X22. The keys read by [getAuthKeysFromFile] from a file that can be
    read are the entries of the file ([entries_of]): its lines in their
    order, each without the white space around it, those left out that
    are empty or start with [#]; the file is left as it is. A missing
    file yields no key and is created from the template, when it can be;
    the template itself defines no key, so that reading the new file
    back yields no key either. A file that cannot be read yields no
    key. *)
Theorem getAuthKeysFromFile_entries (f : KeysFile) :
  (forall text, kf_content f = Some text -> kf_readable f = true ->
                entries_of text (fst (getAuthKeysFromFile f))
                /\ Forall listed (fst (getAuthKeysFromFile f))
                /\ snd (getAuthKeysFromFile f) = f)
  /\ (kf_content f = None ->
      fst (getAuthKeysFromFile f) = []
      /\ (kf_creatable f = true ->
          kf_content (snd (getAuthKeysFromFile f)) = Some keys_template)
      /\ (kf_creatable f = false -> snd (getAuthKeysFromFile f) = f)
      /\ fst (getAuthKeysFromFile (snd (getAuthKeysFromFile f))) = [])
  /\ (kf_readable f = false -> fst (getAuthKeysFromFile f) = []).
Proof.
  assert (Htemplate : file_entries keys_template = []) by (vm_compute; reflexivity).
  unfold getAuthKeysFromFile. split; [|split].
  - intros text Hc Hr. rewrite Hc, Hr. cbn [fst snd].
    split; [apply file_entries_of|]. split; [apply file_entries_listed|].
    reflexivity.
  - intros Hc. rewrite Hc. cbn [fst snd]. split; [reflexivity|].
    split; [intros Hw; rewrite Hw; reflexivity|].
    split; [intros Hw; rewrite Hw; reflexivity|].
    destruct (kf_creatable f) eqn:Hw.
    + cbn [create_keys_file kf_content kf_readable].
      destruct (kf_readable f); [rewrite Htemplate|]; reflexivity.
    + rewrite Hc, Hw. reflexivity.
  - intros Hr. destruct (kf_content f); [rewrite Hr|]; reflexivity.
Qed.

(* ------------------------------------------------------------------ *)
(** ** More on the stream aggregator *)

Section StreamMore.

Variable JSON_parse : string -> option JSValue.


Lemma read_loop_done (reads : list string) (st : StreamState) :
  fst (read_loop JSON_parse None reads st) = Done tt.
Proof.
  revert st. induction reads as [|value rest IH]; intros st.
  - cbn [read_loop]. destruct (finished st); reflexivity.
  - cbn [read_loop]. destruct (finished st); [reflexivity|].
    unfold bind at 1. unfold modify at 1. unfold bind at 1.
    rewrite for_each_lines. apply IH.
Qed.



End StreamMore.

Lemma split_lines_single_app (a b : string) :
  split_lines a = [a] -> split_lines b = [b] ->
  split_lines (a +++ b) = [a +++ b].
Proof.
  intros Ha Hb. induction a as [|c r IH]; [exact Hb|].
  cbn [split_lines String.append] in *.
  destruct (Ascii.eqb c newline); [discriminate|].
  pose proof (split_lines_not_nil r) as Hne.
  destruct (split_lines r) as [|l ls] eqn:Hr; [congruence|].
  injection Ha as Hl Hls. subst l ls. rewrite (IH eq_refl). reflexivity.
Qed.

Lemma complete_lines_tail (text tail : string) :
  split_lines tail = [tail] ->
  complete_lines (text +++ tail) = complete_lines text.
Proof.
  intros Ht. rewrite complete_lines_app. unfold complete_lines at 2.
  rewrite (split_lines_single_app _ _ (split_lines_tail text) Ht).
  cbn [removelast]. apply app_nil_r.
Qed.

Section StreamTail.

Variable JSON_parse : string -> option JSValue.

Lemma consumed_tail (reads : list string) (tail buf : string) :
  split_lines tail = [tail] ->
  frames_of JSON_parse
    (complete_lines
       (buf +++ String.concat "" (consumed JSON_parse buf (reads ++ [tail]))))
  = frames_of JSON_parse
      (complete_lines
         (buf +++ String.concat "" (consumed JSON_parse buf reads))).
Proof.
  intros Ht. revert buf. induction reads as [|value rest IH]; intros buf.
  - cbn [app consumed].
    destruct (existsb frame_finished
                (frames_of JSON_parse (removelast (split_lines (buf +++ tail)))));
      cbn [String.concat]; rewrite append_empty_r;
      rewrite (complete_lines_tail buf tail Ht); reflexivity.
  - cbn [app consumed]. rewrite pop_line_last.
    destruct (existsb frame_finished
                (frames_of JSON_parse (removelast (split_lines (buf +++ value)))));
      [reflexivity|].
    rewrite !concat_cons, <- !(append_assoc buf value).
    rewrite !(complete_lines_app (buf +++ value)), !frames_of_app.
    f_equal. apply IH.
Qed.

End StreamTail.

(** X6. How the network cuts the stream into reads does not matter as
    long as no frame signals completion: two sequences of reads that
    carry the same text are aggregated to the same result. *)
Theorem stream_result_independent_of_chunking
  (JSON_parse : string -> option JSValue) (now : Z) (model : string)
  (reads1 reads2 : list string) :
  String.concat "" reads1 = String.concat "" reads2 ->
  existsb frame_finished (stream_frames JSON_parse reads1) = false ->
  aggregate_stream JSON_parse now model {| chunks := reads1; failure := None |}
  = aggregate_stream JSON_parse now model {| chunks := reads2; failure := None |}.
Proof.
  intros Hsame Hnone. rewrite !aggregate_stream_frames. f_equal. f_equal.
  unfold applied_frames.
  rewrite (consumed_all JSON_parse reads1 ""); [|exact Hnone].
  rewrite (consumed_all JSON_parse reads2 "");
    [rewrite Hsame; reflexivity|].
  unfold stream_frames in Hnone. rewrite Hsame in Hnone. exact Hnone.
Qed.

(** X6, an instance: one frame, delivered in one read or cut in two. *)
Lemma stream_result_independent_of_chunking_witness :
  aggregate_stream parse_json 0 "qwen-max-latest"
    {| chunks := [line (json_text "data: {'choices':[{'delta':{'content':'Hi'}}]}")];
       failure := None |}
  = aggregate_stream parse_json 0 "qwen-max-latest"
      {| chunks := ["data: {"; line (json_text "'choices':[{'delta':{'content':'Hi'}}]}")];
         failure := None |}.
Proof.
  apply (stream_result_independent_of_chunking parse_json 0 "qwen-max-latest"
           [line (json_text "data: {'choices':[{'delta':{'content':'Hi'}}]}")]
           ["data: {"; line (json_text "'choices':[{'delta':{'content':'Hi'}}]}")]).
  - reflexivity.
  - vm_compute. reflexivity.
Defined.

(** X7. What follows the last line feed of the stream is lost: a last
    read that holds no line feed adds nothing to the result, even when it
    completes the text of a frame. *)
Theorem stream_unterminated_tail_is_dropped
  (JSON_parse : string -> option JSValue) (now : Z) (model : string)
  (reads : list string) (tail : string) :
  split_lines tail = [tail] ->
  aggregate_stream JSON_parse now model
    {| chunks := reads ++ [tail]; failure := None |}
  = aggregate_stream JSON_parse now model {| chunks := reads; failure := None |}.
Proof.
  intros Ht. rewrite !aggregate_stream_frames. f_equal. f_equal.
  apply (consumed_tail JSON_parse reads tail "" Ht).
Qed.

(** X7, an instance: the only frame of the stream is not followed by a
    line feed; the content of the result is empty. *)
Lemma stream_unterminated_tail_is_dropped_witness :
  aggregate_stream parse_json 0 "qwen-max-latest"
    {| chunks := [] ++ [json_text "data: {'choices':[{'delta':{'content':'Paris'}}]}"];
       failure := None |}
  = Ok {| cc_id := JStr "chatcmpl-0"; cc_model := "qwen-max-latest";
          cc_content := ""; cc_usage := default_usage;
          cc_response_id := JNull |}.
Proof.
  rewrite (stream_unterminated_tail_is_dropped parse_json 0 "qwen-max-latest" []
             (json_text "data: {'choices':[{'delta':{'content':'Paris'}}]}")).
  - reflexivity.
  - reflexivity.
Defined.


(* ------------------------------------------------------------------ *)
(** ** The pauses of the poller *)

Section PollPauses.

Context {P : Platform}.
Variables (taskId : JSValue) (page : Page) (token : JSValue).
Variables (maxAttempts : nat) (interval : Z).

Lemma delays_app (l1 l2 : list Event) :
  delays (l1 ++ l2) = delays l1 + delays l2.
Proof. unfold delays. rewrite filter_app, length_app. reflexivity. Qed.

Lemma delays_pause (b : bool) :
  delays (pause interval b) = if b then 1 else 0.
Proof. destruct b; reflexivity. Qed.

Lemma poll_step_pause (url : string) (b : bool) :
  forallb (poll_step page url interval) (pause interval b) = true.
Proof. destruct b; cbn; [rewrite Z.eqb_refl|]; reflexivity. Qed.

(** One iteration: the status check, then at most one pause, and none
    after the last attempt. *)
Lemma poll_iteration_pauses (attempt : nat) (w : World) :
  let url := TASK_STATUS_URL +++ "/" +++ to_string taskId in
  exists checks b o w',
    poll_iteration taskId page token maxAttempts interval attempt w = (Done o, w')
    /\ trace w' = trace w ++ checks ++ pause interval b
    /\ (b = true -> Nat.ltb attempt maxAttempts = true)
    /\ delays checks = 0
    /\ forallb (poll_step page url interval) checks = true.
Proof.
  intros url.
  destruct (poll_iteration taskId page token maxAttempts interval attempt w)
    as [o wf] eqn:Hit.
  unfold poll_iteration, poll_attempt, try_catch in Hit.
  unfold bind at 1 in Hit. fold url in Hit.
  assert (Hev : forallb (poll_step page url interval)
                  [Called (Evaluate page) (Ok tt)] = true).
  { cbn. rewrite Nat.eqb_refl. reflexivity. }
  assert (Hfe : forall r, forallb (poll_step page url interval)
                  [Called (Evaluate page) (Ok tt);
                   Called (Fetch page (ReqTaskStatus url token)) r] = true).
  { intros r. cbn. rewrite Nat.eqb_refl, String.eqb_refl. reflexivity. }
  assert (Hth : forall e, forallb (poll_step page url interval)
                  [Called (Evaluate page) (Throw e)] = true).
  { intros e. cbn. rewrite Nat.eqb_refl. reflexivity. }
  destruct (status_script_run page token url w)
    as [[e [w1 [Hs [Ht _]]]]|[r [w1 [Hs [Ht _]]]]];
    rewrite Hs in Hit;
    destruct (when_delay interval (Nat.ltb attempt maxAttempts) w1)
      as [w2 [Hd Ht2]].
  - unfold bind in Hit. rewrite Hd in Hit. cbn [ret] in Hit.
    inversion Hit; subst o wf.
    exists [Called (Evaluate page) (Throw e)], (Nat.ltb attempt maxAttempts).
    eexists. exists w2. split; [reflexivity|].
    split; [rewrite Ht2, Ht, <- app_assoc; reflexivity|].
    split; [auto|]. split; [reflexivity|apply Hth].
  - assert (Hpaused :
              forall o', (Done o', w2) = (o, wf) ->
              exists checks b o0 w',
                (o, wf) = (Done o0, w')
                /\ trace w' = trace w ++ checks ++ pause interval b
                /\ (b = true -> Nat.ltb attempt maxAttempts = true)
                /\ delays checks = 0
                /\ forallb (poll_step page url interval) checks = true).
    { intros o' E. inversion E; subst o wf.
      exists [Called (Evaluate page) (Ok tt);
              Called (Fetch page (ReqTaskStatus url token)) r],
        (Nat.ltb attempt maxAttempts).
      eexists. exists w2. split; [reflexivity|].
      split; [rewrite Ht2, Ht, <- app_assoc; reflexivity|].
      split; [auto|]. split; [reflexivity|apply Hfe]. }
    assert (Hreturned :
              forall o', (Done o', w1) = (o, wf) ->
              exists checks b o0 w',
                (o, wf) = (Done o0, w')
                /\ trace w' = trace w ++ checks ++ pause interval b
                /\ (b = true -> Nat.ltb attempt maxAttempts = true)
                /\ delays checks = 0
                /\ forallb (poll_step page url interval) checks = true).
    { intros o' E. inversion E; subst o wf.
      exists [Called (Evaluate page) (Ok tt);
              Called (Fetch page (ReqTaskStatus url token)) r], false.
      eexists. exists w1. split; [reflexivity|].
      split; [rewrite Ht; cbn [pause]; rewrite app_nil_r; reflexivity|].
      split; [discriminate|]. split; [reflexivity|apply Hfe]. }
    destruct (script_result r) as [data|st err].
    + destruct (task_status_of data) as [s|e]; cbn [lift] in Hit.
      * unfold bind at 1 in Hit. cbn [ret] in Hit.
        destruct (status_is_completed s); [|destruct (status_is_failed s)].
        -- exact (Hreturned _ Hit).
        -- exact (Hreturned _ Hit).
        -- unfold bind in Hit. rewrite Hd in Hit. cbn [ret] in Hit.
           exact (Hpaused _ Hit).
      * unfold bind, throw in Hit. rewrite Hd in Hit. cbn [ret] in Hit.
        exact (Hpaused _ Hit).
    + unfold bind in Hit. rewrite Hd in Hit. cbn [ret] in Hit.
      exact (Hpaused _ Hit).
Qed.

(** The loop with [n] iterations to go, the next one being the attempt
    [maxAttempts + 1 - n]: at most [n - 1] pauses. *)
Lemma poll_loop_pauses (n attempt : nat) (w : World) :
  attempt + n = S maxAttempts ->
  let url := TASK_STATUS_URL +++ "/" +++ to_string taskId in
  exists events,
    trace (snd (poll_loop taskId page token maxAttempts interval n attempt w))
    = trace w ++ events
    /\ delays events <= n - 1
    /\ forallb (poll_step page url interval) events = true.
Proof.
  intros Hn url. subst url. revert attempt w Hn.
  induction n as [|n IH]; intros attempt w Hn.
  - exists []. cbn. rewrite app_nil_r. repeat split; lia.
  - cbn [poll_loop].
    fold (poll_iteration taskId page token maxAttempts interval attempt).
    unfold bind.
    destruct (poll_iteration_pauses attempt w)
      as [checks [b [o [w1 [Hit [Ht [Hb [Hd Hq]]]]]]]].
    rewrite Hit. destruct o as [result|].
    + exists (checks ++ pause interval b). cbn [snd ret].
      split; [exact Ht|]. split.
      * rewrite delays_app, Hd, delays_pause. destruct b; [|lia].
        specialize (Hb eq_refl). apply Nat.ltb_lt in Hb. lia.
      * rewrite forallb_app, Hq. apply poll_step_pause.
    + destruct (IH (S attempt) w1) as [ev2 [Ht2 [Hd2 Hq2]]]; [lia|].
      exists ((checks ++ pause interval b) ++ ev2).
      split; [rewrite Ht2, Ht, !app_assoc; reflexivity|]. split.
      * rewrite !delays_app, Hd, delays_pause. destruct b; [|lia].
        specialize (Hb eq_refl). apply Nat.ltb_lt in Hb. lia.
      * rewrite !forallb_app, Hq, Hq2, poll_step_pause. reflexivity.
Qed.

End PollPauses.

(** X9. A poll of [maxAttempts] status checks pauses at most
    [maxAttempts - 1] times, each time for [interval]: there is no pause
    after the last check, nor after the check that ends the poll. The
    poller does nothing else than run the status script on its page, ask
    for the status of its task and pause, and it leaves the module state
    as it found it. *)
Theorem pollTaskStatus_pauses (P : Platform) (taskId : JSValue) (page : Page)
  (token : JSValue) (maxAttempts : nat) (interval : Z) (w : World) :
  exists events,
    trace (snd (pollTaskStatus taskId page token maxAttempts interval w))
    = trace w ++ events
    /\ delays events <= maxAttempts - 1
    /\ forallb (poll_step page (TASK_STATUS_URL +++ "/" +++ to_string taskId)
                  interval) events = true
    /\ module_of (snd (pollTaskStatus taskId page token maxAttempts interval w))
       = module_of w.
Proof.
  destruct (poll_loop_pauses taskId page token maxAttempts interval
              maxAttempts 1 w eq_refl) as [events [Ht [Hd Hq]]].
  exists events. split; [exact Ht|]. split; [exact Hd|]. split; [exact Hq|].
  assert (H : triple (fun s => s = module_of w) (fun _ => True)
                (pollTaskStatus taskId page token maxAttempts interval)
                (fun _ s => s = module_of w) (fun s => s = module_of w)).
  { apply poll_loop_frame; reflexivity. }
  destruct (H w eq_refl) as [_ [HP _]].
  destruct (poll_loop_run taskId page token maxAttempts interval maxAttempts 1 w)
    as [ev [result [w' [Hrun _]]]].
  unfold pollTaskStatus in *. rewrite Hrun in *. apply (HP result eq_refl).
Qed.

(* ------------------------------------------------------------------ *)
(** ** Token extraction *)

Ltac path_step :=
  match goal with
  | |- context [handle ?c ?x] => destruct (handle c x) as [[?|?] ?]; cbn
  | |- context [if truthy ?t then _ else _] => destruct (truthy t) eqn:?; cbn
  end.

Ltac trace_eq :=
  cbn [trace]; rewrite <- ?app_assoc; cbn [app];
  first [reflexivity | symmetry; apply app_nil_r].

(** X12. [extractAuthToken] never throws. With a token cached it answers
    the cached token, calls nothing and changes nothing. Otherwise its
    answer is [null] or a truthy token, which is then the cached token;
    the models and the idle set are left as they were; and a page that
    the context made for it is asked to close on every path. *)
Theorem extractAuthToken_never_throws (P : Platform)
  (context : option Context) (w : World) :
  exists v w' events,
    extractAuthToken context w = (Done v, w')
    /\ trace w' = trace w ++ events
    /\ availableModels w' = availableModels w
    /\ pages w' = pages w
    /\ (truthy (authToken w) = true -> v = authToken w /\ w' = w)
    /\ (truthy v = true -> authToken w' = v)
    /\ (truthy v = false -> v = JNull)
    /\ (existsb is_page_created events = true ->
        existsb (is_close_of (fresh w)) events = true).
Proof.
  unfold extractAuthToken, bind, get_state.
  destruct (truthy (authToken w)) eqn:Hcached.
  { exists (authToken w), w, []. cbn. rewrite app_nil_r.
    repeat split; auto; try congruence; discriminate. }
  unfold getPage, try_catch, bind, call, delay, modify, alloc_page, ret, throw.
  destruct context as [[[p|] [|]]|]; cbn;
    repeat path_step;
    eexists; eexists; eexists;
    (split; [reflexivity|]); (split; [trace_eq|]);
    cbn; rewrite ?Nat.eqb_refl;
    repeat split; try reflexivity; try discriminate; try assumption;
    try congruence; auto.
Qed.

Section ResolveToken.

Context {P : Platform}.

(** What [resolveAuthToken] establishes when it answers an account. *)
Lemma resolveAuthToken_triple (context : option Context) :
  triple (fun _ => True) (fun _ => True) (resolveAuthToken context)
    (fun tokenObj s =>
       match tokenObj with
       | Some t => truthy (tok_token t) = true /\ mod_token s = tok_token t
       | None => True
       end)
    (fun _ => True).
Proof.
  unfold resolveAuthToken.
  apply t_bind with (Mid := fun _ _ => True);
    [apply t_call; auto|intros tokenObj].
  destruct tokenObj as [t|]; [destruct (truthy (tok_token t)) eqn:Ht|].
  - apply t_bind with (Mid := fun _ s => mod_token s = tok_token t).
    + apply t_set_authToken. reflexivity.
    + intros _. apply t_ret. intros s Hs. split; [exact Ht|exact Hs].
  - apply t_bind with (Mid := fun _ _ => True); [apply t_call; auto|intros b].
    apply t_bind with (Mid := fun _ _ => True).
    { destruct (negb b); [apply t_call; auto|apply t_ret; auto]. }
    intros authCheck. destruct (negb authCheck); [apply t_ret; auto|].
    apply t_bind with (Mid := fun _ _ => True); [apply t_get_state; auto|].
    intros w. apply t_bind with (Mid := fun _ _ => True).
    { destruct (negb (truthy (authToken w))); [|apply t_ret; auto].
      apply t_bind with (Mid := fun _ _ => True).
      - apply extractAuthToken_keeps; auto.
      - intros t'. apply t_set_authToken. auto. }
    intros _.
    apply t_bind with (Mid := fun w' s => mod_token s = authToken w').
    { apply t_get_state. reflexivity. }
    intros w'. apply t_ret. intros s Hs.
    destruct (truthy (authToken w')) eqn:Hw; [|exact I].
    split; [exact Hw|exact Hs].
  - apply t_bind with (Mid := fun _ _ => True); [apply t_call; auto|intros b].
    apply t_bind with (Mid := fun _ _ => True).
    { destruct (negb b); [apply t_call; auto|apply t_ret; auto]. }
    intros authCheck. destruct (negb authCheck); [apply t_ret; auto|].
    apply t_bind with (Mid := fun _ _ => True); [apply t_get_state; auto|].
    intros w. apply t_bind with (Mid := fun _ _ => True).
    { destruct (negb (truthy (authToken w))); [|apply t_ret; auto].
      apply t_bind with (Mid := fun _ _ => True).
      - apply extractAuthToken_keeps; auto.
      - intros t'. apply t_set_authToken. auto. }
    intros _.
    apply t_bind with (Mid := fun w' s => mod_token s = authToken w').
    { apply t_get_state. reflexivity. }
    intros w'. apply t_ret. intros s Hs.
    destruct (truthy (authToken w')) eqn:Hw; [|exact I].
    split; [exact Hw|exact Hs].
Qed.

End ResolveToken.

(** X13. When [resolveAuthToken] answers an account, the token of that
    account is truthy and is the cached token from then on: the request
    that follows sends the token of the account it was given. *)
Theorem resolveAuthToken_caches_its_answer (P : Platform)
  (context : option Context) (w w' : World) (tokenObj : TokenObj) :
  resolveAuthToken context w = (Done (Some tokenObj), w') ->
  truthy (tok_token tokenObj) = true
  /\ authToken w' = tok_token tokenObj.
Proof.
  intros Hrun.
  destruct (resolveAuthToken_triple context w I) as [_ [HP _]].
  rewrite Hrun in HP. exact (HP (Some tokenObj) eq_refl).
Qed.

(** X13, an instance: the token manager hands out the account [acc-1]. *)
Lemma resolveAuthToken_caches_its_answer_witness :
  let P := scripted 2 1 3 in
  let w := start P (script_of playwright []) in
  authToken (snd (@resolveAuthToken P (Some playwright) w)) = JStr "token-1".
Proof.
  intros P w.
  exact (proj2 (resolveAuthToken_caches_its_answer P (Some playwright) w
                  (snd (@resolveAuthToken P (Some playwright) w))
                  (account "acc-1" "token-1") eq_refl)).
Defined.

(* ------------------------------------------------------------------ *)
(** ** [testToken] *)

Lemma token_verdict_known (ok : bool) (status : Z) :
  existsb (String.eqb (token_verdict ok status)) verdicts = true.
Proof.
  unfold token_verdict.
  destruct (ok || Z.eqb status 400); [reflexivity|].
  destruct (Z.eqb status 401 || Z.eqb status 403); [reflexivity|].
  destruct (Z.eqb status 429); reflexivity.
Qed.

(** X20. [testToken] throws only when [getBrowserContext] does. Otherwise
    it answers one of its four verdicts and leaves the module state
    alone. A verdict other than [ERROR] is the verdict on the answer of
    the test request: [OK] for a success and for status 400,
    [UNAUTHORIZED] for 401 and 403, [RATELIMIT] for 429. A page that the
    context made for the test is asked to close on every path. *)
Theorem testToken_verdict (P : Platform) (token : JSValue) (w : World) :
  (exists e w',
      testToken token w = (Raised e, w')
      /\ trace w' = trace w ++ [Called GetBrowserContext (Throw e)])
  \/ (exists v w' events,
        testToken token w = (Done v, w')
        /\ trace w' = trace w ++ events
        /\ module_of w' = module_of w
        /\ existsb (String.eqb v) verdicts = true
        /\ (String.eqb v "ERROR" = false ->
            existsb (verdict_on v) events = true)
        /\ (existsb is_page_created events = true ->
            existsb (is_close_of (fresh w)) events = true)).
Proof.
  unfold testToken, test_script, getPage, finally_, try_catch, bind, call,
    alloc_page, ret, throw.
  destruct (handle GetBrowserContext (ext w)) as [[[[[p|] [|]]|]|e] x]; cbn.
  6:{ left. eexists. eexists. split; reflexivity. }
  all: right; repeat path_step;
    eexists; eexists; eexists;
    (split; [reflexivity|]); (split; [trace_eq|]);
    cbn; rewrite ?Nat.eqb_refl, ?String.eqb_refl, ?orb_true_r;
    (split; [reflexivity|]);
    (split; [first [reflexivity | apply token_verdict_known]|]);
    split; try reflexivity; try discriminate; auto.
Qed.

(** The four verdicts, status by status. *)
Example token_verdict_table :
  token_verdict true 200 = "OK" /\ token_verdict false 400 = "OK"
  /\ token_verdict false 401 = "UNAUTHORIZED"
  /\ token_verdict false 403 = "UNAUTHORIZED"
  /\ token_verdict false 429 = "RATELIMIT"
  /\ token_verdict false 500 = "ERROR" /\ token_verdict false 0 = "ERROR".
Proof. repeat split; reflexivity. Qed.

(* ------------------------------------------------------------------ *)
(** ** More on the page pool *)

Section PoolMore.

Context {P : Platform}.

Lemma close_all (l : list Page) (w : World) :
  exists answers w',
    for_each (fun page => try_catch (call (Close page)) (fun _ => ret tt)) l w
    = (Done tt, w')
    /\ map fst answers = l
    /\ trace w' = trace w ++ closings answers
    /\ module_of w' = module_of w.
Proof.
  revert w. induction l as [|p l IH]; intros w; cbn [for_each].
  - exists [], w. cbn. rewrite app_nil_r. repeat split; reflexivity.
  - unfold bind, try_catch, call.
    destruct (handle (Close p) (ext w)) as [[[]|e] x]; cbn;
      match goal with
      | |- context [for_each _ l ?w1] =>
          destruct (IH w1) as [answers [w2 [H1 [H2 [H3 H4]]]]]
      end.
    + exists ((p, Ok tt) :: answers), w2. split; [exact H1|].
      split; [cbn; rewrite H2; reflexivity|]. split; [|exact H4].
      rewrite H3. cbn. rewrite <- app_assoc. reflexivity.
    + exists ((p, Throw e) :: answers), w2. split; [exact H1|].
      split; [cbn; rewrite H2; reflexivity|]. split; [|exact H4].
      rewrite H3. cbn. rewrite <- app_assoc. reflexivity.
Qed.

End PoolMore.

(** X10. [pagePool.clear] (and [clearPagePool]) never throws: it asks
    every idle page to close, each one once and in the order of the idle
    set, goes on when a page refuses, and leaves the idle set empty; the
    cached token and the list of models are not touched. *)
Theorem pagePool_clear_closes_every_page (P : Platform) (w : World) :
  exists answers w',
    clearPagePool w = (Done tt, w')
    /\ map fst answers = pages w
    /\ trace w' = trace w ++ closings answers
    /\ pages w' = []
    /\ authToken w' = authToken w
    /\ availableModels w' = availableModels w.
Proof.
  unfold clearPagePool, pagePool_clear, bind, get_state.
  destruct (close_all (pages w) w) as [answers [w1 [H1 [H2 [H3 H4]]]]].
  rewrite H1. cbn. exists answers. eexists. split; [reflexivity|].
  split; [exact H2|]. split; [exact H3|]. cbn.
  unfold module_of in H4. injection H4 as Ha Hm Hp.
  repeat split; assumption.
Qed.

(** X19. A page whose first navigation fails is lost: when the idle set
    is empty, the context makes a page and [goto] throws,
    [pagePool.getPage] throws the same exception; the new page is neither
    put into the idle set nor asked to close. *)
Theorem pagePool_getPage_navigation_failure (P : Platform) (c : Context)
  (w : World) (e : Exn) (x1 x2 : Ext) :
  pages w = [] ->
  ctx_page c = None ->
  ctx_newPage c = true ->
  handle NewPage (ext w) = (Ok tt, x1) ->
  handle (Goto (fresh w) CHAT_PAGE_URL) x1 = (Throw e, x2) ->
  exists w',
    pagePool_getPage (Some c) w = (Raised e, w')
    /\ pages w' = []
    /\ trace w' = trace w ++ [Called NewPage (Ok tt);
                              Called (Goto (fresh w) CHAT_PAGE_URL) (Throw e)]
    /\ existsb (is_close_of (fresh w)) (trace w') =
       existsb (is_close_of (fresh w)) (trace w).
Proof.
  intros Hp Hc Hn H1 H2.
  unfold pagePool_getPage, getPage, bind, get_state, call, alloc_page.
  rewrite Hp, Hc, Hn. cbn. rewrite H1. cbn. rewrite H2. cbn.
  eexists. split; [reflexivity|]. cbn. split; [exact Hp|].
  split; [rewrite <- app_assoc; reflexivity|].
  rewrite !existsb_app. cbn. rewrite !orb_false_r. reflexivity.
Qed.

(** X19, an instance: the pages of the platform [offline] cannot be
    navigated. The request ends with the error of the navigation, and
    the page 1 that was made for it is never asked to close. *)
Lemma pagePool_getPage_navigation_failure_witness :
  let w := start offline (script_of playwright []) in
  exists w',
    @pagePool_getPage offline (Some playwright) w
    = (Raised navigation_timeout, w')
    /\ pages w' = []
    /\ trace w' = trace w ++ [Called NewPage (Ok tt);
                              Called (Goto 1 (@CHAT_PAGE_URL offline))
                                (Throw navigation_timeout)]
    /\ existsb (is_close_of 1) (trace w') = existsb (is_close_of 1) (trace w).
Proof.
  intros w.
  exact (pagePool_getPage_navigation_failure offline playwright w
           navigation_timeout (ext w) (ext w)
           eq_refl eq_refl eq_refl eq_refl eq_refl).
Defined.

(** The same at the level of the request. *)
Example sendMessage_navigation_failure :
  let run := @sendMessage offline (text_request None (JStr "chat-1")) 0%Z
               (start offline (script_of playwright [])) in
  fst run = Done (RError navigation_timeout (JStr "chat-1"))
  /\ existsb is_page_created (trace (snd run)) = true
  /\ existsb (is_close_of 1) (trace (snd run)) = false
  /\ pages (snd run) = [].
Proof. vm_compute. repeat split; reflexivity. Qed.

(* ------------------------------------------------------------------ *)
(** ** Requests that are turned down at once *)

(** X18. A request that names a chat and whose message is not valid is
    turned down before the browser, the token manager or the upstream is
    asked anything: the only external call it can make is the reading of
    the models file, the cached token and the idle set are left alone,
    and the error of the validation is returned with the chat id. *)
Theorem sendMessage_rejects_invalid_message (P : Platform) (a : SendArgs)
  (r : Z) (w : World) (error : string) :
  truthy (a_chatId a) = true ->
  validateAndPrepareMessage (a_message a) = Ok (inl error) ->
  exists events w',
    sendMessage a r w = (Done (RError error (a_chatId a)), w')
    /\ trace w' = trace w ++ Attempt r :: events
    /\ forallb is_read_models events = true
    /\ List.length events <= 1
    /\ authToken w' = authToken w
    /\ pages w' = pages w.
Proof.
  intros Hchat Hval. unfold sendMessage. cbn [sendMessage_fuel].
  unfold bind at 1. unfold modify at 1. unfold bind at 1.
  assert (Hrest : forall w1,
             sendMessage_request
               (sendMessage_fuel (Z.to_nat (MAX_RETRY_COUNT - r))) a r w1
             = (Done (RError error (a_chatId a)), w1)).
  { intros w1. unfold sendMessage_request, bind. rewrite Hchat. cbn [negb ret].
    rewrite Hval. reflexivity. }
  destruct (availableModels w) as [l|] eqn:Hm.
  - rewrite (load_models_cached (log_event (Attempt r) w) l Hm), Hrest.
    exists []. eexists. split; [reflexivity|]. cbn.
    repeat split; try reflexivity. lia.
  - destruct (getAvailableModelsFromFile_run (log_event (Attempt r) w))
      as [x [l [w1 [Hr [_ [Ht [Hmod _]]]]]]].
    unfold load_models, bind, get_state. cbn [log_event availableModels].
    rewrite Hm. rewrite Hr. cbn [modify ret]. rewrite Hrest.
    exists [Called ReadModelsFile x]. eexists. split; [reflexivity|].
    cbn [set_availableModels trace authToken pages].
    unfold module_of in Hmod. injection Hmod as Ha _ Hp.
    split; [rewrite Ht; cbn [log_event trace]; rewrite <- app_assoc; reflexivity|].
    split; [reflexivity|]. split; [cbn; lia|].
    split; [exact Ha|exact Hp].
Qed.

(** X18, an instance: the message is [null]. *)
Lemma sendMessage_rejects_invalid_message_witness :
  let P := scripted 2 1 3 in
  let w := start P (script_of playwright []) in
  let a := {| a_message := JNull; a_model := None; a_chatId := JStr "chat-1";
              a_parentId := JNull; a_files := JNull; a_tools := JNull;
              a_toolChoice := JNull; a_systemMessage := JNull;
              a_chatType := "t2t"; a_size := JNull;
              a_waitForCompletion := true |} in
  exists events w',
    @sendMessage P a 0%Z w
    = (Done (RError "Сообщение не может быть пустым" (JStr "chat-1")), w')
    /\ trace w' = trace w ++ Attempt 0 :: events
    /\ forallb is_read_models events = true
    /\ List.length events <= 1
    /\ authToken w' = authToken w
    /\ pages w' = pages w.
Proof.
  intros P w a.
  exact (sendMessage_rejects_invalid_message P a 0%Z w
           "Сообщение не может быть пустым" eq_refl eq_refl).
Defined.

(* ------------------------------------------------------------------ *)
(** ** The result of a video task *)

Section VideoResult.

Context {P : Platform}.

Lemma task_status_of_not_nullish (taskData s : JSValue) :
  task_status_of taskData = Ok s -> nullish taskData = false.
Proof.
  unfold task_status_of. destruct taskData; cbn; try discriminate; reflexivity.
Qed.

(** A successful result of the poller carries the task document it read
    the status from. *)
Lemma poll_loop_success (taskId : JSValue) (page : Page) (token : JSValue)
  (maxAttempts : nat) (interval : Z) (n attempt : nat) :
  triple (fun _ => True) (fun _ => True)
    (poll_loop taskId page token maxAttempts interval n attempt)
    (fun result _ =>
       pr_success result = true ->
       pr_status result = "completed" /\ nullish (pr_data result) = false)
    (fun _ => True).
Proof.
  revert attempt. induction n as [|n IH]; intros attempt; cbn [poll_loop].
  - apply t_ret. intros _ _. discriminate.
  - apply t_bind
      with (Mid := fun r _ =>
                     forall result, r = Some result ->
                       pr_success result = true ->
                       pr_status result = "completed"
                       /\ nullish (pr_data result) = false).
    + apply t_try_catch with (Exc1 := fun _ => True).
      * unfold poll_attempt.
        apply t_bind with (Mid := fun _ _ => True);
          [apply status_script_frame; reflexivity|intros result].
        destruct result as [taskData|st err].
        -- apply t_bind
             with (Mid := fun s _ => task_status_of taskData = Ok s).
           { apply t_lift; auto. }
           intros s.
           apply t_assume with (Q := task_status_of taskData = Ok s); [auto|].
           intros Hs. apply task_status_of_not_nullish in Hs.
           destruct (status_is_completed s); [|destruct (status_is_failed s)].
           ++ apply t_ret. intros _ _ result E _. inversion E. cbn.
              split; [reflexivity|exact Hs].
           ++ apply t_ret. intros _ _ result E H. inversion E. subst result.
              discriminate H.
           ++ apply t_bind with (Mid := fun _ _ => True).
              { apply t_when; [auto|]. apply t_delay; auto. }
              intros _. apply t_ret. intros _ _ result E. discriminate E.
        -- apply t_bind with (Mid := fun _ _ => True).
           { apply t_when; [auto|]. apply t_delay; auto. }
           intros _. apply t_ret. intros _ _ result E. discriminate E.
      * intros e. apply t_bind with (Mid := fun _ _ => True).
        { apply t_when; [auto|]. apply t_delay; auto. }
        intros _. apply t_ret. intros _ _ result E. discriminate E.
    + intros r. destruct r as [result|].
      * apply t_ret. intros s H. apply (H result eq_refl).
      * apply t_conseq with (Pre' := fun _ => True)
          (Post' := fun result _ =>
                      pr_success result = true ->
                      pr_status result = "completed"
                      /\ nullish (pr_data result) = false)
          (Exc' := fun _ => True); auto.
Qed.

Lemma extractVideoUrl_not_nullish (taskData : JSValue) :
  nullish taskData = false ->
  extractVideoUrl taskData =
  Ok (if truthy (opt_prop taskData "content") then opt_prop taskData "content"
      else if is_string (opt_prop taskData "result")
           then opt_prop taskData "result"
           else first_truthy
                  [opt_prop (opt_prop taskData "result") "url";
                   opt_prop (opt_prop taskData "result") "video_url"]).
Proof.
  intros Hn. destruct taskData; try discriminate;
    unfold extractVideoUrl; cbn [prop opt_prop first_truthy];
    repeat match goal with
           | |- context [if ?b then _ else _] => destruct b eqn:?
           end;
    try reflexivity; try congruence.
Qed.

End VideoResult.

(** X2. A successful result of [pollTaskStatus] always carries a task
    document, so the extraction of the video URL that follows in
    [sendMessage] cannot throw. The URL is the [content] of the document
    when that is truthy; else its [result] when that is a string, even an
    empty one; else the first truthy of [result.url] and
    [result.video_url]; else [null]. *)
Theorem completed_poll_yields_video_url (P : Platform) (taskId : JSValue)
  (page : Page) (token : JSValue) (maxAttempts : nat) (interval : Z)
  (w w' : World) (result : PollResult) :
  pollTaskStatus taskId page token maxAttempts interval w = (Done result, w') ->
  pr_success result = true ->
  pr_status result = "completed"
  /\ nullish (pr_data result) = false
  /\ extractVideoUrl (pr_data result) =
     Ok (if truthy (opt_prop (pr_data result) "content")
         then opt_prop (pr_data result) "content"
         else if is_string (opt_prop (pr_data result) "result")
              then opt_prop (pr_data result) "result"
              else first_truthy
                     [opt_prop (opt_prop (pr_data result) "result") "url";
                      opt_prop (opt_prop (pr_data result) "result") "video_url"]).
Proof.
  intros Hrun Hs.
  destruct (poll_loop_success taskId page token maxAttempts interval
              maxAttempts 1 w I) as [_ [HP _]].
  unfold pollTaskStatus in Hrun. rewrite Hrun in HP.
  destruct (HP result eq_refl Hs) as [H1 H2].
  split; [exact H1|]. split; [exact H2|].
  apply extractVideoUrl_not_nullish. exact H2.
Qed.

(** X2, an instance: the second check reports success and a URL nested in
    [result]. *)
Lemma completed_poll_yields_video_url_witness :
  let P := scripted 2 1 3 in
  let w := start P (script_of playwright
             [http true 200 "OK" (json_text "{'task_status':'processing'}");
              http true 200 "OK"
                (json_text "{'status':'success','result':{'video_url':'https://cdn/v.mp4'}}")]) in
  let run := @pollTaskStatus P (JStr "task-1") 1 (JStr "token-1") 3 10 w in
  extractVideoUrl
    (JObj [("status", JStr "success");
           ("result", JObj [("video_url", JStr "https://cdn/v.mp4")])])
  = Ok (JStr "https://cdn/v.mp4").
Proof.
  intros P w run.
  exact (proj2 (proj2 (completed_poll_yields_video_url P (JStr "task-1") 1
                         (JStr "token-1") 3 10 w (snd run)
                         {| pr_success := true; pr_status := "completed";
                            pr_error := JUndefined;
                            pr_data :=
                              JObj [("status", JStr "success");
                                    ("result",
                                     JObj [("video_url",
                                            JStr "https://cdn/v.mp4")])] |}
                         eq_refl eq_refl))).
Defined.

(* ------------------------------------------------------------------ *)
(** ** What the chat calls carry *)

Lemma validated_content (message content : JSValue) :
  validateAndPrepareMessage message = Ok (inr content) -> content = message.
Proof.
  destruct message; cbn; try discriminate.
  - intros H. inversion H. reflexivity.
  - destruct (every_part items) as [[|]|e]; try discriminate.
    intros H. inversion H. reflexivity.
Qed.

Lemma plain_any_chat (Q : Payload -> Prop) (e : Event) :
  plain e = true ->
  match e with
  | Called (Fetch _ (ReqChat _ _ payload)) _ => Q payload
  | _ => True
  end.
Proof.
  intros H. apply plain_not_fetch in H.
  destruct e as [R c r| | |]; try exact I.
  destruct c; try exact I. discriminate.
Qed.

(** X23. Every chat call of a run of [sendMessage], retries included,
    carries the request as it was given: the message (validation hands
    it on unchanged), the parent id, the files (or the empty list), the
    chat type and the size; it streams unless the request asks for a
    video; and it names the chat of the request when the request names
    one. *)
Theorem chat_calls_carry_the_request (P : Platform) (a : SendArgs) (r : Z)
  (w : World) :
  exists events,
    trace (snd (sendMessage a r w)) = trace w ++ events
    /\ Forall (carries_request a) events.
Proof.
  assert (H : triple (fun _ => True) (carries_request a)
                (sendMessage a r) (fun _ _ => True) (fun _ => True)).
  { unfold sendMessage.
    apply sendMessage_fuel_keeps with (may_create := true) (may_poll := true)
      (good_payload := fun payload =>
         p_content payload = a_message a
         /\ p_parent_id payload = a_parentId a
         /\ p_files payload = js_or (a_files a) (JArr [])
         /\ p_chat_type payload = a_chatType a
         /\ p_stream payload = negb (String.eqb (a_chatType a) "t2v")
         /\ p_size payload = (if truthy (a_size a) then Some (a_size a) else None)
         /\ (truthy (a_chatId a) = true -> p_chat_id payload = a_chatId a))
      (ok_args := same_request a);
      try solve [auto | reflexivity | discriminate | intros; exact I].
    - intros e He.
      apply (plain_any_chat
               (fun payload =>
                  p_content payload = a_message a
                  /\ p_parent_id payload = a_parentId a
                  /\ p_files payload = js_or (a_files a) (JArr [])
                  /\ p_chat_type payload = a_chatType a
                  /\ p_stream payload = negb (String.eqb (a_chatType a) "t2v")
                  /\ p_size payload
                     = (if truthy (a_size a) then Some (a_size a) else None)
                  /\ (truthy (a_chatId a) = true ->
                      p_chat_id payload = a_chatId a)) e He).
    - intros a' content model chatId [H1 [H2 [H3 [H4 [H5 H6]]]]] Hv Hc
        payload Hbuilt.
      apply buildPayloadV2_built in Hbuilt. destruct Hbuilt as [-> _].
      apply validated_content in Hv. cbn [p_content p_parent_id
        p_files p_chat_type p_stream p_size p_chat_id].
      rewrite Hv, H1, H2, H3, H4, H5. repeat split.
      intros Ht. rewrite <- (H6 Ht). apply Hc. rewrite (H6 Ht). exact Ht.
    - intros a' m c [H1 [H2 [H3 [H4 [H5 H6]]]]] Hc.
      unfold same_request. cbn [retry_args a_message a_parentId a_files
        a_chatType a_size a_chatId].
      repeat split; try assumption.
      intros Ht. rewrite <- (H6 Ht). apply Hc. rewrite (H6 Ht). exact Ht.
    - unfold same_request. repeat split. }
  destruct (H w I) as [Hev _]. exact Hev.
Qed.

(** X24. A retry forgets the system message and the tools: the self-call
    of [handleApiError] passes [null] for [tools], [toolChoice] and
    [systemMessage] ([retry_args]), and no chat call of the retried
    request, nor of the retries that follow it, carries a system message
    or tools. *)
Theorem retries_carry_no_system_message (P : Platform) (a : SendArgs)
  (model : string) (chatId : JSValue) (fuel : nat) (r : Z) (w : World) :
  exists events,
    trace (snd (sendMessage_fuel fuel (retry_args a model chatId) r w))
    = trace w ++ events
    /\ Forall bare_call events.
Proof.
  assert (H : triple (fun _ => True) bare_call
                (sendMessage_fuel fuel (retry_args a model chatId) r)
                (fun _ _ => True) (fun _ => True)).
  { apply sendMessage_fuel_keeps with (may_create := true) (may_poll := true)
      (good_payload := fun payload =>
         p_system_message payload = None /\ p_tools payload = None)
      (ok_args := bare_request);
      try solve [auto | reflexivity | discriminate | intros; exact I].
    - intros e He.
      apply (plain_any_chat
               (fun payload =>
                  p_system_message payload = None /\ p_tools payload = None)
               e He).
    - intros a' content m c [H1 H2] _ _ payload Hbuilt.
      apply buildPayloadV2_built in Hbuilt. destruct Hbuilt as [-> _].
      cbn [p_system_message p_tools]. rewrite H1, H2.
      split; reflexivity.
    - intros a' m c _ _. split; reflexivity.
    - split; reflexivity. }
  destruct (H w I) as [Hev _]. exact Hev.
Qed.

(** Scenario: the first answer is a rate limit, the second the stream.
    The first chat call carries the system message of the request, the
    retry does not. *)
Example retry_without_system_message :
  let P := scripted 2 1 3 in
  let a := {| a_message := JStr "What is the capital of France?";
              a_model := None; a_chatId := JStr "chat-1"; a_parentId := JNull;
              a_files := JNull; a_tools := JNull; a_toolChoice := JNull;
              a_systemMessage := JStr "Be brief."; a_chatType := "t2t";
              a_size := JNull; a_waitForCompletion := true |} in
  let run := @sendMessage P a 0%Z
               (start P (script_of playwright
                           [http false 429 "Too Many Requests"
                              (json_text "{'error':'RateLimited','num':2}");
                            paris_stream])) in
  chat_system_messages (trace (snd run)) = [Some (JStr "Be brief."); None]
  /\ is_error (match fst run with Done res => res | _ => RVerification JNull end)
     = false.
Proof. vm_compute. split; reflexivity. Qed.

(** Scenario: the caller passes a number as system message. The debug
    line of [buildPayloadV2] throws, the request ends with the text of
    the exception and no chat call is made. *)
Example system_message_not_a_string :
  let P := scripted 2 1 3 in
  let a := {| a_message := JStr "What is the capital of France?";
              a_model := None; a_chatId := JStr "chat-1"; a_parentId := JNull;
              a_files := JNull; a_tools := JNull; a_toolChoice := JNull;
              a_systemMessage := JInt 5; a_chatType := "t2t";
              a_size := JNull; a_waitForCompletion := true |} in
  let run := @sendMessage P a 0%Z
               (start P (script_of playwright [paris_stream])) in
  fst run = Done (RError "TypeError: systemMessage.substring is not a function"
                    (JStr "chat-1"))
  /\ chat_system_messages (trace (snd run)) = [].
Proof. vm_compute. split; reflexivity. Qed.

(* ------------------------------------------------------------------ *)
(** ** The answers of the executor *)

(** X25. [executeApiRequest] throws only when the page refuses to run its
    script. Otherwise it answers a result and leaves the module state
    alone: a success was obtained with a truthy token, is a task exactly
    when the payload does not stream, and carries neither an error nor a
    status; a failure is never a task, carries no data, and carries an
    error text or both the status and the body of the answer. No result
    has an [html] field. *)
Theorem executeApiRequest_answers (P : Platform) (page : Page)
  (apiUrl : string) (payload : Payload) (token : JSValue) (w : World) :
  (exists e w',
      executeApiRequest page apiUrl payload token w = (Raised e, w')
      /\ trace w' = trace w ++ [Called (Evaluate page) (Throw e)])
  \/ (exists response w',
        executeApiRequest page apiUrl payload token w = (Done response, w')
        /\ module_of w' = module_of w
        /\ r_html response = None
        /\ (r_success response = true ->
            truthy token = true
            /\ r_isTask response = negb (p_stream payload)
            /\ r_error response = None
            /\ r_status response = None)
        /\ (r_success response = false ->
            r_isTask response = false
            /\ r_data response = NoData
            /\ (r_error response <> None
                \/ (r_status response <> None
                    /\ r_errorBody response <> None)))).
Proof.
  unfold executeApiRequest, try_catch, bind, call.
  destruct (handle (Evaluate page) (ext w)) as [[[]|e] x]; cbn.
  2:{ left. eexists. eexists. split; reflexivity. }
  right. destruct (truthy token) eqn:Ht; cbn.
  2:{ eexists. eexists. split; [reflexivity|]. cbn.
      repeat split; try discriminate. left. discriminate. }
  destruct (handle (Fetch page (ReqChat apiUrl token payload)) x)
    as [[response|e] x2]; cbn.
  2:{ eexists. eexists. split; [reflexivity|]. cbn.
      repeat split; try discriminate. left. discriminate. }
  unfold response_json, response_text, bind, now, lift, ret, throw.
  destruct (resp_ok response); [destruct (p_stream payload) eqn:Hs|]; cbn;
    [destruct (aggregate_stream JSON_parse (clock x2) (p_model payload)
                 (resp_body response)); cbn
    |destruct (failure (resp_body response)); cbn;
     [|destruct (JSON_parse (body_text (resp_body response))); cbn]
    |destruct (failure (resp_body response)); cbn];
    eexists; eexists; (split; [reflexivity|]); cbn;
    repeat split; try discriminate; try reflexivity;
    first [left; discriminate | right; split; discriminate | idtac].
Qed.

(* ------------------------------------------------------------------ *)
(** ** Exhaustion of the retry budget *)

Section Shutdown.

Context {P : Platform}.
Variables (retry : Z -> Comp Result) (response : ApiResponse).
Variables (tokenObj : option TokenObj) (chatId : JSValue) (retryCount : Z).

Lemma pagePool_clear_run (w : World) :
  exists answers w',
    pagePool_clear w = (Done tt, w')
    /\ map fst answers = pages w
    /\ trace w' = trace w ++ closings answers
    /\ pages w' = []
    /\ authToken w' = authToken w.
Proof.
  unfold pagePool_clear, bind, get_state.
  destruct (close_all (pages w) w) as [answers [w1 [H1 [H2 [H3 H4]]]]].
  rewrite H1. cbn. exists answers. eexists. split; [reflexivity|].
  split; [exact H2|]. split; [exact H3|]. cbn.
  unfold module_of in H4. injection H4 as Ha Hm Hp.
  split; [reflexivity|exact Ha].
Qed.

(** Lines 449-451. *)
Lemma shutdown_and_exit_run (w : World) :
  exists answers r w',
    map fst answers = pages w
    /\ trace w' = trace w ++ closings answers
                  ++ Called ShutdownBrowser r
                     :: match r with
                        | Ok _ => [ProcessExit 1]
                        | Throw _ => []
                        end
    /\ pages w' = []
    /\ authToken w' = authToken w
    /\ shutdown_and_exit w = (match r with
                              | Ok _ => Exited 1
                              | Throw e => Raised e
                              end, w')
    /\ handle ShutdownBrowser (ext (snd (pagePool_clear w))) = (r, ext w').
Proof.
  unfold shutdown_and_exit. unfold bind at 1.
  destruct (pagePool_clear_run w) as [answers [w1 [Hc [Hm [Ht [Hp Ha]]]]]].
  rewrite Hc. cbn [snd]. unfold bind, call.
  destruct (handle ShutdownBrowser (ext w1)) as [[[]|e] x] eqn:Hs.
  - exists answers, (Ok tt). eexists. split; [exact Hm|].
    split; [|split; [|split; [|split; [reflexivity|reflexivity]]]]; cbn.
    + rewrite Ht, <- !app_assoc. reflexivity.
    + exact Hp.
    + exact Ha.
  - exists answers, (Throw e). eexists. split; [exact Hm|].
    split; [|split; [|split; [|split; [reflexivity|reflexivity]]]]; cbn.
    + rewrite Ht, <- !app_assoc. reflexivity.
    + exact Hp.
    + exact Ha.
Qed.

(** The Unauthorized branch when it does not retry. *)
Lemma unauthorized_without_retry (w : World) :
  is_verification response = false ->
  is_unauthorized response = true ->
  (MAX_RETRY_COUNT <= retryCount)%Z \/ no_account_usable ->
  (fst (handleApiError retry response tokenObj chatId retryCount w) = Exited 1
   \/ exists e,
        fst (handleApiError retry response tokenObj chatId retryCount w)
        = Raised e)
  /\ (fst (handleApiError retry response tokenObj chatId retryCount w)
      = Exited 1 ->
      exists valid shutdown,
        trace (snd (handleApiError retry response tokenObj chatId retryCount w))
        = trace w ++ marks_invalid tokenObj
          ++ Called HasValidTokens (Ok valid) :: shutdown
        /\ orderly_shutdown (pages w) shutdown
        /\ pages (snd (handleApiError retry response tokenObj chatId
                         retryCount w)) = []
        /\ authToken (snd (handleApiError retry response tokenObj chatId
                             retryCount w)) = JNull)
  /\ (never_throws (MarkInvalid (id_of tokenObj)) ->
      never_throws HasValidTokens ->
      never_throws ShutdownBrowser ->
      fst (handleApiError retry response tokenObj chatId retryCount w)
      = Exited 1).
Proof.
  intros Hv Hu Hno. rewrite unauthorized_branch by assumption.
  assert (Htail : forall w1 o wf,
            pages w1 = pages w -> authToken w1 = JNull ->
            unauthorized_tail retry retryCount w1 = (o, wf) ->
            (o = Exited 1 \/ exists e, o = Raised e)
            /\ (o = Exited 1 ->
                exists valid shutdown,
                  trace wf
                  = trace w1 ++ Called HasValidTokens (Ok valid) :: shutdown
                  /\ orderly_shutdown (pages w) shutdown
                  /\ pages wf = []
                  /\ authToken wf = JNull)
            /\ (never_throws HasValidTokens ->
                never_throws ShutdownBrowser ->
                o = Exited 1)).
  { intros w1 o wf Hp1 Ha1 Hrun. unfold unauthorized_tail in Hrun.
    unfold bind at 1 in Hrun. unfold call at 1 in Hrun.
    destruct (handle HasValidTokens (ext w1)) as [[valid|e] x] eqn:Hh.
    - assert (Hcond : valid && Z.ltb retryCount MAX_RETRY_COUNT = false).
      { destruct Hno as [Hmax|Hnone].
        - apply andb_false_iff. right. apply Z.ltb_ge. exact Hmax.
        - specialize (Hnone (ext w1)). rewrite Hh in Hnone.
          inversion Hnone. reflexivity. }
      rewrite Hcond in Hrun.
      match type of Hrun with
      | shutdown_and_exit ?w2 = _ =>
          destruct (shutdown_and_exit_run w2)
            as [answers [r [w3 [Hm [Ht [Hp [Ha [Hrun' Hs]]]]]]]];
            rewrite Hrun' in Hrun
      end.
      inversion Hrun; subst o wf. clear Hrun.
      cbn [pages authToken trace] in Hm, Ht, Ha.
      split; [|split].
      + destruct r as [[]|e]; [left; reflexivity|right; eexists; reflexivity].
      + intros Hex. destruct r as [[]|e]; [|discriminate].
        exists valid, (closings answers
                       ++ [Called ShutdownBrowser (Ok tt); ProcessExit 1]).
        split; [rewrite Ht, <- app_assoc; reflexivity|].
        split; [exists answers; split; [rewrite Hm; exact Hp1|reflexivity]|].
        split; [exact Hp|]. rewrite Ha. exact Ha1.
      + intros _ Hshut. destruct r as [[]|e]; [reflexivity|].
        match type of Hs with
        | handle ShutdownBrowser ?x0 = _ =>
            destruct (Hshut x0) as [u [x' Hs']]; rewrite Hs in Hs'
        end.
        discriminate.
    - inversion Hrun; subst o wf.
      split; [right; eexists; reflexivity|].
      split; [discriminate|]. intros Hvalid _.
      destruct (Hvalid (ext w1)) as [u [x' Hh']]. rewrite Hh in Hh'.
      discriminate. }
  destruct ((modify (set_authToken JNull) ;;
             when_ (truthy (id_of tokenObj))
               (call (MarkInvalid (id_of tokenObj))) ;;
             unauthorized_tail retry retryCount) w) as [o wf] eqn:Hrun.
  cbn [fst snd]. unfold bind at 1 in Hrun. cbn [modify] in Hrun.
  unfold bind at 1 in Hrun. unfold marks_invalid.
  destruct (truthy (id_of tokenObj)) eqn:Hid; cbn [when_] in Hrun.
  - unfold call at 1 in Hrun.
    destruct (handle (MarkInvalid (id_of tokenObj)) (ext (set_authToken JNull w)))
      as [[[]|e] x] eqn:Hh.
    + match type of Hrun with
      | unauthorized_tail _ _ ?w1 = _ =>
          destruct (Htail w1 o wf eq_refl eq_refl Hrun) as [H1 [H2 H3]]
      end.
      split; [exact H1|]. split; [|intros _; exact H3].
      intros Hex. destruct (H2 Hex) as [valid [shutdown [Ht Hrest]]].
      exists valid, shutdown. split; [|exact Hrest].
      rewrite Ht. cbn [trace set_authToken]. rewrite <- app_assoc. reflexivity.
    + inversion Hrun; subst o wf. split; [right; eexists; reflexivity|].
      split; [discriminate|]. intros Hmark _ _.
      destruct (Hmark (ext (set_authToken JNull w))) as [u [x' Hh']].
      rewrite Hh in Hh'. discriminate.
  - cbn [ret] in Hrun.
    destruct (Htail (set_authToken JNull w) o wf eq_refl eq_refl Hrun)
      as [H1 [H2 H3]].
    split; [exact H1|]. split; [|intros _; exact H3].
    intros Hex. destruct (H2 Hex) as [valid [shutdown [Ht Hrest]]].
    exists valid, shutdown. split; [|exact Hrest]. exact Ht.
Qed.

End Shutdown.

(* ------------------------------------------------------------------ *)
(** ** The only way out *)

Section ExitRules.

Context {P : Platform}.

(** A computation that never ends the process. *)
Lemma e_quiet (A : Type) (m : Comp A) :
  (forall w, (exists events, trace (snd (m w)) = trace w ++ events)
             /\ forall code, fst (m w) <> Exited code) ->
  exits_orderly m.
Proof.
  intros H w. destruct (H w) as [[events Ht] Hne]. exists events.
  split; [exact Ht|]. intros code He. exfalso. exact (Hne code He).
Qed.

Lemma e_ret (A : Type) (a : A) : exits_orderly (ret a).
Proof.
  apply e_quiet. intros w. cbn. split; [|discriminate].
  exists []. rewrite app_nil_r. reflexivity.
Qed.

Lemma e_throw (A : Type) (e : Exn) : exits_orderly (@throw World A e).
Proof.
  apply e_quiet. intros w. cbn. split; [|discriminate].
  exists []. rewrite app_nil_r. reflexivity.
Qed.

Lemma e_lift (A : Type) (t : Throwing A) : exits_orderly (lift t).
Proof. destruct t; [apply e_ret|apply e_throw]. Qed.

Lemma e_get_state : exits_orderly get_state.
Proof.
  apply e_quiet. intros w. cbn. split; [|discriminate].
  exists []. rewrite app_nil_r. reflexivity.
Qed.

Lemma e_now : exits_orderly now.
Proof.
  apply e_quiet. intros w. cbn. split; [|discriminate].
  exists []. rewrite app_nil_r. reflexivity.
Qed.

Lemma e_alloc : exits_orderly alloc_page.
Proof.
  apply e_quiet. intros w. cbn. split; [|discriminate].
  exists []. rewrite app_nil_r. reflexivity.
Qed.

Lemma e_modify (f : World -> World) :
  (forall w, exists events, trace (f w) = trace w ++ events) ->
  exits_orderly (modify f).
Proof.
  intros H. apply e_quiet. intros w. cbn. split; [apply H|discriminate].
Qed.

Lemma e_call (R : Type) (c : ExtCall R) : exits_orderly (call c).
Proof.
  apply e_quiet. intros w. unfold call.
  destruct (handle c (ext w)) as [[a|e] x]; cbn;
    (split; [eexists; reflexivity|discriminate]).
Qed.

Lemma e_delay (ms : Z) : exits_orderly (delay ms).
Proof.
  apply e_quiet. intros w. cbn. split; [eexists; reflexivity|discriminate].
Qed.

Lemma e_bind (A B : Type) (m : Comp A) (k : A -> Comp B) :
  exits_orderly m -> (forall a, exits_orderly (k a)) ->
  exits_orderly (bind m k).
Proof.
  intros Hm Hk w. unfold bind. destruct (Hm w) as [ev1 [Ht1 He1]].
  destruct (m w) as [[a|e|c|] w1]; cbn [fst snd] in *;
    try (exists ev1; split; [exact Ht1|]; intros code Hc;
         first [discriminate Hc
               |inversion Hc; subst; apply He1; reflexivity
               |apply He1; exact Hc]).
  destruct (Hk a w1) as [ev2 [Ht2 He2]]. exists (ev1 ++ ev2).
  split; [rewrite Ht2, Ht1, app_assoc; reflexivity|].
  intros code Hc. destruct (He2 code Hc) as [H1 [before [valid [idle [s [Hev Hs]]]]]].
  split; [exact H1|]. exists (ev1 ++ before), valid, idle, s.
  split; [rewrite Hev, app_assoc; reflexivity|exact Hs].
Qed.

Lemma e_try_catch (A : Type) (m : Comp A) (h : Exn -> Comp A) :
  exits_orderly m -> (forall e, exits_orderly (h e)) ->
  exits_orderly (try_catch m h).
Proof.
  intros Hm Hh w. unfold try_catch. destruct (Hm w) as [ev1 [Ht1 He1]].
  destruct (m w) as [[a|e|c|] w1]; cbn [fst snd] in *;
    try (exists ev1; split; [exact Ht1|]; intros code Hc;
         first [discriminate Hc
               |inversion Hc; subst; apply He1; reflexivity
               |apply He1; exact Hc]).
  destruct (Hh e w1) as [ev2 [Ht2 He2]]. exists (ev1 ++ ev2).
  split; [rewrite Ht2, Ht1, app_assoc; reflexivity|].
  intros code Hc. destruct (He2 code Hc) as [H1 [before [valid [idle [s [Hev Hs]]]]]].
  split; [exact H1|]. exists (ev1 ++ before), valid, idle, s.
  split; [rewrite Hev, app_assoc; reflexivity|exact Hs].
Qed.

Lemma e_when (b : bool) (m : Comp unit) :
  exits_orderly m -> exits_orderly (when_ b m).
Proof. intros H. destruct b; [exact H|apply e_ret]. Qed.

Lemma e_for_each (A : Type) (body : A -> Comp unit) (l : list A) :
  (forall x, exits_orderly (body x)) -> exits_orderly (for_each body l).
Proof.
  intros H. induction l as [|x l IH]; cbn [for_each];
    [apply e_ret|apply e_bind; [apply H|intros _; exact IH]].
Qed.

End ExitRules.

Ltac e_step :=
  match goal with
  | |- exits_orderly (bind _ _) => apply e_bind; [|intros ?]
  | |- exits_orderly (ret _) => apply e_ret
  | |- exits_orderly (throw _) => apply e_throw
  | |- exits_orderly (lift _) => apply e_lift
  | |- exits_orderly get_state => apply e_get_state
  | |- exits_orderly now => apply e_now
  | |- exits_orderly alloc_page => apply e_alloc
  | |- exits_orderly (modify _) =>
      apply e_modify; intros ?; cbn;
      first [exists []; rewrite app_nil_r; reflexivity|eexists; reflexivity]
  | |- exits_orderly (call _) => apply e_call
  | |- exits_orderly (delay _) => apply e_delay
  | |- exits_orderly (try_catch _ _) => apply e_try_catch; [|intros ?]
  | |- exits_orderly (when_ _ _) => apply e_when
  | |- exits_orderly (for_each _ _) => apply e_for_each; intros ?
  | |- exits_orderly (match ?x with _ => _ end) => destruct x eqn:?
  | |- exits_orderly (if ?x then _ else _) => destruct x eqn:?
  end.

Ltac e_auto := repeat e_step.

Section ExitComponents.

Context {P : Platform}.

Lemma getPage_exits (context : option Context) :
  exits_orderly (getPage context).
Proof. unfold getPage. e_auto. Qed.

Lemma pagePool_getPage_exits (context : option Context) :
  exits_orderly (pagePool_getPage context).
Proof. unfold pagePool_getPage. e_auto. apply getPage_exits. Qed.

Lemma pagePool_releasePage_exits (page : Page) :
  exits_orderly (pagePool_releasePage page).
Proof. unfold pagePool_releasePage. e_auto. Qed.

Lemma pagePool_clear_exits : exits_orderly pagePool_clear.
Proof. unfold pagePool_clear. e_auto. Qed.

Lemma response_text_exits (r : Response) : exits_orderly (response_text r).
Proof. unfold response_text. e_auto. Qed.

Lemma response_json_exits (r : Response) : exits_orderly (response_json r).
Proof. unfold response_json. e_auto. apply response_text_exits. Qed.

Lemma status_script_exits (page : Page) (url : string) (token : JSValue) :
  exits_orderly (status_script page url token).
Proof.
  unfold status_script. e_auto;
    first [apply response_text_exits | apply response_json_exits].
Qed.

Lemma poll_loop_exits (taskId : JSValue) (page : Page) (token : JSValue)
  (maxAttempts : nat) (interval : Z) (n attempt : nat) :
  exits_orderly (poll_loop taskId page token maxAttempts interval n attempt).
Proof.
  revert attempt. induction n as [|n IH]; intros attempt; cbn [poll_loop].
  - e_auto.
  - unfold poll_attempt. e_auto; try apply status_script_exits. apply IH.
Qed.

Lemma extractAuthToken_exits (context : option Context) :
  exits_orderly (extractAuthToken context).
Proof. unfold extractAuthToken. e_auto; apply getPage_exits. Qed.

Lemma load_models_exits : exits_orderly load_models.
Proof. unfold load_models, getAvailableModelsFromFile. e_auto. Qed.

Lemma resolve_model_exits (model : option string) :
  exits_orderly (resolve_model model).
Proof. unfold resolve_model, isValidModel. e_auto; apply load_models_exits. Qed.

Lemma resolveAuthToken_exits (context : option Context) :
  exits_orderly (resolveAuthToken context).
Proof. unfold resolveAuthToken. e_auto; apply extractAuthToken_exits. Qed.

Lemma close_held_page_exits (page : Page) :
  exits_orderly (close_held_page page).
Proof. unfold close_held_page. e_auto. Qed.

Lemma create_chat_script_exits (page : Page) (token : JSValue)
  (model : option string) :
  exits_orderly (create_chat_script page token model).
Proof.
  unfold create_chat_script. e_auto;
    first [apply response_text_exits | apply response_json_exits].
Qed.

Lemma createChatV2_exits (model : option string) :
  exits_orderly (createChatV2 model).
Proof.
  unfold createChatV2. e_auto;
    first [apply extractAuthToken_exits | apply pagePool_getPage_exits
          | apply create_chat_script_exits | apply close_held_page_exits
          | apply pagePool_releasePage_exits].
Qed.

Lemma ensure_token_exits (page : Page) (chatId : JSValue) :
  exits_orderly (ensure_token page chatId).
Proof. unfold ensure_token. e_auto. Qed.

Lemma handle_task_exits (page : Page) (response : ApiResponse) (model : string)
  (chatId : JSValue) (wait : bool) :
  exits_orderly (handle_task page response model chatId wait).
Proof.
  unfold handle_task. e_auto;
    first [apply pagePool_releasePage_exits | apply poll_loop_exits].
Qed.

Lemma executeApiRequest_exits (page : Page) (apiUrl : string)
  (payload : Payload) (token : JSValue) :
  exits_orderly (executeApiRequest page apiUrl payload token).
Proof.
  unfold executeApiRequest. e_auto;
    first [apply response_text_exits | apply response_json_exits].
Qed.

Lemma send_with_page_exits (page : Page) (a : SendArgs) (content : JSValue)
  (model : string) (chatId : JSValue) :
  exits_orderly (send_with_page page a content model chatId).
Proof.
  unfold send_with_page, send_request. e_auto;
    first [ apply ensure_token_exits | apply handle_task_exits
          | apply pagePool_releasePage_exits | apply executeApiRequest_exits ].
Qed.

Lemma mark_from_body_exits (errorBody : string) (tokenObj : option TokenObj) :
  exits_orderly (mark_from_body errorBody tokenObj).
Proof. unfold mark_from_body. e_auto. Qed.

(** Lines 449-451 after [hasValidTokens()]: the one place where the
    process ends. *)
Lemma unauthorized_tail_exits (retry : Z -> Comp Result) (retryCount : Z) :
  (forall r, exits_orderly (retry r)) ->
  exits_orderly (unauthorized_tail retry retryCount).
Proof.
  intros Hretry w. unfold unauthorized_tail, bind, call.
  destruct (handle HasValidTokens (ext w)) as [[valid|e] x] eqn:Hh.
  - destruct (valid && Z.ltb retryCount MAX_RETRY_COUNT).
    + match goal with
      | |- context [retry ?r ?w1] =>
          destruct (Hretry r w1) as [ev [Ht He]]
      end.
      cbn [trace] in Ht. exists (Called HasValidTokens (Ok valid) :: ev).
      split; [rewrite Ht, <- app_assoc; reflexivity|].
      intros code Hc.
      destruct (He code Hc) as [H1 [before [v [idle [s [Hev Hs]]]]]].
      split; [exact H1|].
      exists (Called HasValidTokens (Ok valid) :: before), v, idle, s.
      split; [rewrite Hev; reflexivity|exact Hs].
    + match goal with
      | |- context [shutdown_and_exit ?w1] =>
          destruct (shutdown_and_exit_run w1)
            as [answers [r [w3 [Hm [Ht [_ [_ [Hrun _]]]]]]]]; rewrite Hrun
      end.
      cbn [fst snd]. cbn [trace] in Ht. eexists.
      split; [rewrite Ht, <- app_assoc; reflexivity|].
      intros code Hc. destruct r as [[]|e]; [|discriminate].
      inversion Hc. split; [reflexivity|].
      exists [], valid. eexists. eexists. split; [reflexivity|].
      exists answers. split; reflexivity.
  - cbn [fst snd trace]. eexists. split; [reflexivity|discriminate].
Qed.

Lemma handleApiError_exits (retry : Z -> Comp Result) (response : ApiResponse)
  (tokenObj : option TokenObj) (chatId : JSValue) (retryCount : Z) :
  (forall r, exits_orderly (retry r)) ->
  exits_orderly (handleApiError retry response tokenObj chatId retryCount).
Proof.
  intros Hretry.
  destruct (is_verification response) eqn:Hv;
    [|destruct (is_unauthorized response) eqn:Hu].
  - unfold handleApiError. rewrite Hv. e_auto. apply pagePool_clear_exits.
  - intros w. rewrite unauthorized_branch by assumption. revert w.
    change (exits_orderly
              (modify (set_authToken JNull) ;;
               when_ (truthy (id_of tokenObj))
                 (call (MarkInvalid (id_of tokenObj))) ;;
               unauthorized_tail retry retryCount)).
    e_auto. apply unauthorized_tail_exits. exact Hretry.
  - unfold handleApiError. rewrite Hv, Hu. e_auto;
      first [apply mark_from_body_exits | apply Hretry].
Qed.

Lemma sendMessage_request_exits (retry : SendArgs -> Z -> Comp Result)
  (a : SendArgs) (r : Z) :
  (forall a' r', exits_orderly (retry a' r')) ->
  exits_orderly (sendMessage_request retry a r).
Proof.
  intros Hretry. unfold sendMessage_request. e_auto;
    first [ apply createChatV2_exits | apply resolve_model_exits
          | apply resolveAuthToken_exits | apply pagePool_getPage_exits
          | apply close_held_page_exits | apply send_with_page_exits
          | apply handleApiError_exits; intros ?; apply Hretry ].
Qed.

Lemma sendMessage_fuel_exits (fuel : nat) (a : SendArgs) (r : Z) :
  exits_orderly (sendMessage_fuel fuel a r).
Proof.
  revert a r. induction fuel as [|n IH]; intros a r.
  - apply e_quiet. intros w. cbn. split; [|discriminate].
    exists []. rewrite app_nil_r. reflexivity.
  - cbn [sendMessage_fuel]. e_auto;
      first [apply load_models_exits | apply sendMessage_request_exits; exact IH].
Qed.

End ExitComponents.

(** C6 (as amended). A RateLimited failure with the retry budget
    exhausted ([retryCount >= MAX_RETRY_COUNT]) surfaces the error value
    "all tokens rate-limited", whatever Accounts remain. An Unauthorized
    failure with the budget exhausted, or with no Account usable
    whatever the budget, surfaces no value and makes no retry: the
    Account is marked invalid, the token manager is asked, every idle
    page is asked to close, the browser is shut down and the process
    exits with code 1, in this order, the pool and the cached token being
    empty at the exit; only an exception of one of these calls prevents
    the exit. Outside the Unauthorized branch, whatever the budget,
    [handleApiError] exits only if the retried call does; and a whole
    [sendMessage] call, retries included, ends the process only with
    code 1 and only by that shutdown, right after an answer of the
    token manager. *)
Theorem exhaustion_exits_on_unauthorized (P : Platform)
  (retry : Z -> Comp Result) (response : ApiResponse)
  (tokenObj : option TokenObj) (chatId : JSValue) (retryCount : Z) (w : World) :
  (is_verification response = false ->
   is_unauthorized response = false ->
   is_rate_limited response = true ->
   (MAX_RETRY_COUNT <= retryCount)%Z ->
   fst (handleApiError retry response tokenObj chatId retryCount w)
   = Done (RRateLimited chatId))
  /\ (is_verification response = false ->
      is_unauthorized response = true ->
      (MAX_RETRY_COUNT <= retryCount)%Z \/ no_account_usable ->
      (fst (handleApiError retry response tokenObj chatId retryCount w)
       = Exited 1
       \/ exists e,
            fst (handleApiError retry response tokenObj chatId retryCount w)
            = Raised e)
      /\ (fst (handleApiError retry response tokenObj chatId retryCount w)
          = Exited 1 ->
          exists valid shutdown,
            trace (snd (handleApiError retry response tokenObj chatId
                          retryCount w))
            = trace w ++ marks_invalid tokenObj
              ++ Called HasValidTokens (Ok valid) :: shutdown
            /\ orderly_shutdown (pages w) shutdown
            /\ pages (snd (handleApiError retry response tokenObj chatId
                             retryCount w)) = []
            /\ authToken (snd (handleApiError retry response tokenObj chatId
                                 retryCount w)) = JNull)
      /\ (never_throws (MarkInvalid (id_of tokenObj)) ->
          never_throws HasValidTokens ->
          never_throws ShutdownBrowser ->
          fst (handleApiError retry response tokenObj chatId retryCount w)
          = Exited 1))
  /\ (is_verification response = true \/ is_unauthorized response = false ->
      forall code,
        fst (handleApiError retry response tokenObj chatId retryCount w)
        = Exited code ->
        exists w1, fst (retry (retryCount + 1)%Z w1) = Exited code)
  /\ (forall a r, exits_orderly (sendMessage a r)).
Proof.
  split; [|split; [|split]].
  - intros Hv Hu Hr Hmax. apply rate_limited_exhausted; assumption.
  - intros Hv Hu Hno. apply unauthorized_without_retry; assumption.
  - intros Hbranch code. apply exit_only_if_unauthorized. exact Hbranch.
  - intros a r. apply sendMessage_fuel_exits.
Qed.

(** C6, witness: status 401 at [retryCount = MAX_RETRY_COUNT = 2], with
    one idle page and a usable Account left. *)
Lemma exhaustion_exits_on_unauthorized_witness :
  let P := scripted 2 1 3 in
  let w := set_pages [7] (start P (script_of playwright [])) in
  let run := @handleApiError P (fun _ => ret (RRateLimited JNull))
               unauthorized_failure (Some (account "acc-1" "token-1"))
               (JStr "chat-1") 2 w in
  fst run = Exited 1
  /\ exists valid shutdown,
       trace (snd run)
       = trace w ++ [Called (MarkInvalid (JStr "acc-1")) (Ok tt)]
         ++ Called HasValidTokens (Ok valid) :: shutdown
       /\ orderly_shutdown [7] shutdown
       /\ pages (snd run) = []
       /\ authToken (snd run) = JNull.
Proof.
  intros P w run.
  destruct (exhaustion_exits_on_unauthorized P (fun _ => ret (RRateLimited JNull))
              unauthorized_failure (Some (account "acc-1" "token-1"))
              (JStr "chat-1") 2 w) as [_ [Hu _]].
  destruct (Hu eq_refl eq_refl) as [_ [Htrace Hexit]].
  - left. cbn. lia.
  - assert (He : fst run = Exited 1).
    { apply Hexit; intros x; eexists; eexists; reflexivity. }
    split; [exact He|]. exact (Htrace He).
Defined.

(** C6, counterexample: every answer is 401 while the token manager keeps
    reporting usable accounts. Once the budget of two retries is used up
    the process exits; no error value is surfaced. *)
Lemma unauthorized_exhaustion_exits_process :
  fst (@sendMessage (scripted 2 1 3) (text_request None (JStr "chat-1")) 0
         (start (scripted 2 1 3) always_unauthorized)) = Exited 1
  /\ fst (scripted_handle HasValidTokens
            (ext (snd (@sendMessage (scripted 2 1 3)
                         (text_request None (JStr "chat-1")) 0
                         (start (scripted 2 1 3) always_unauthorized)))))
     = Ok true.
Proof. split; vm_compute; reflexivity. Qed.

(** Below the budget with no usable Account: the first 401 ends the
    process, after the shutdown. *)
Example unauthorized_without_accounts_exits :
  let P := scripted 2 1 3 in
  let run := @sendMessage P (text_request None (JStr "chat-1")) 0
               (start P (no_accounts always_unauthorized)) in
  fst run = Exited 1
  /\ attempt_numbers (trace (snd run)) = [0%Z]
  /\ last (trace (snd run)) (ProcessExit 0) = ProcessExit 1.
Proof. vm_compute. repeat split; reflexivity. Qed.
